(* ===== verification/_CoqProject ===== *)
-Q . S2P
Prelude.v
Types.v
Oid.v
Tiers.v
KernelIO.v
RangeList.v
RangeMeta.v
Staging.v
Drains.v
Heat.v
PlacementLog.v
InodeMaps.v
Reissue.v
ReadCache.v
FileOps.v
LowerFs.v
Movement.v
Gate.v
Xattr.v
Export.v
Netlink.v
PathIndex.v
Replay.v
Namespace.v
Lookup.v
NsWorld.v
Dir.v
NamespaceInv.v
Quiet.v
Creation.v
Removal.v
Renaming.v
Rehome.v
Sysfs.v
Sync.v
Mount.v
MountInv.v
Unmount.v
Attrs.v
Samba.v
Module.v
KernelObjects.v
Compat.v
Discipline.v
Balance.v
