(* ===== verification/Prelude.v ===== *)
(** * smoothfs: a verification development for the stacked tiering filesystem

    smoothfs (src/src/smoothfs/) is a Linux kernel module that stacks one
    filesystem over several lower ones, the tiers, ordered from fastest to
    slowest.  Every object has a 16-byte id that is stored in an xattr of its
    lower file; a user-space daemon moves objects between tiers, and the kernel
    side keeps names, ids, placement and data consistent while it does.

    ** The parts and how they interact

    - Tiers (probe.c, super.c, inode.c): the mount's tier list, the choice of
      the tier for a new file, fill levels, the sysfs masks.
    - Identity (oid.c): ids, generations and their xattrs.
    - The inode cache (super.c, inode.c): the indices by id, by relative path
      and by lower inode number; [smoothfs_iget]; eviction.
    - Placement (placement.c): an append-only log of placement records, a path
      index written by a scan of the tiers, replay of both at mount and lazy
      recovery of one object when something asks for its id.
    - Movement (movement.c): plan, cutover, complete, rollback, abort.  Moves
      write placement records, find objects through the cache or through lazy
      recovery, and stall writers while the lower file is switched.
    - Range staging (file.c, super.c, range_staging.c): writes to a file on a
      slow tier are absorbed by a stage file on the fastest; reads overlay it; a
      drain copies it down; a sidecar makes the staged ranges survive a crash
      and finds its object through recovery at mount.  A truncate to zero
      rehomes a file to the fastest tier and leaves the old copy to a drain.
    - Open files (file.c, lower.c): a descriptor holds a lower file and reopens
      it after a cutover; in cache mode reads go through a chunk cache; mmap,
      splice, fallocate, clone and seek work on the lower file.
    - The namespace (inode.c, dir.c, compat.h): lookup, create, link, unlink,
      rename over the lower trees of all tiers, spilling to another tier when
      one is full, and directory listings that merge the tiers.
    - Extended attributes (xattr.c): forwarded to the lower file, except the
      reserved names that show identity and set and release movement pins.
    - Export (export.c): NFS handles that carry object ids.
    - The control interface (netlink.c, heat.c): the registry of mounted pools,
      commands to the movement code, events, periodic access statistics.
    - Mount and unmount (super.c, module.c): a mount sets up all of the above in
      order and unwinds on errors; unmount drains, evicts and releases; syncfs
      and fsync of a directory make it durable; sysfs shows and sets the pool.
    - The Samba module (samba-vfs/vfs_smoothfs.c), in smbd: turns leases into
      movement pins, breaks them when the pool changes a file, and makes file
      ids from the generations that the kernel reports.

    ** Which file models which part

    - [Prelude]: notation for record update, errors and byte encoding, tactics,
      the hint database, lemmas on lists and reachability.
    - [Types]: smoothfs.h.  [tier], [inode_info] and [sb_info] are the structs of
      the same names without locks and work items; movement and pin states are
      inductive types with their wire codes.  The C pointers between structs are
      numbers: an inode is named by its inode number, a lower dentry by a
      number that is a key of [lower], the lower objects smoothfs can see.
    - [Oid]: oid.c.  [Tiers]: probe.c, tier selection, masks, statfs.
    - [KernelIO]: lower files as byte lists, [kernel_read], [kernel_write] and
      the retry loops around them.
    - [RangeList], [RangeMeta], [Staging]: range staging.  The world of
      [Staging] is one file: lower file, stage file, sidecar, inode, counters.
    - [PlacementLog], [PathIndex], [Replay]: placement.c.  The on-disk formats
      are byte lists built and parsed field by field.
    - [InodeMaps]: the cache and its three hash tables, and the queue that
      persists new ids in the background.
    - [Drains]: the pass over all staged files of a pool, a map of the worlds of
      [Staging] that share the pool's counters.
    - [Reissue]: lower.c, as a step relation over descriptors and threads that
      are between two locks.
    - [ReadCache]: the chunk cache and [smoothfs_read_iter].  [FileOps]: the rest
      of file.c and the attribute changes that keep the size.
    - [LowerFs]: the lower trees, a map from (directory, name) to objects, the
      kernel's operations on them and the monad in which they may fail.
      [Namespace]: inode.c over it, with smoothfs dentries as values.  [Dir]:
      dir.c.  [Lookup], [NamespaceInv], [Quiet], [Creation], [Removal] and
      [Renaming] hold the theorems by operation, [NsWorld] a pool with two
      tiers for examples.  [Rehome]: the staged truncate and its drain.
    - [Xattr]: xattr.c, over the pool and a map of the lower attributes.
    - [Export]: export.c.  [Netlink]: netlink.c.  [Heat]: heat.c and its message.
    - [Sysfs]: the controls that act on cached inodes.  [Attrs]: the attribute
      files as text, with the kernel's number formats.
    - [Sync]: syncfs and fsync of a directory, over a disk that holds what
      survives a crash.
    - [Mount]: the options, [smoothfs_fill_super] in stages with its error
      labels, [smoothfs_put_super] and [smoothfs_kill_sb]; the state says what is
      allocated, ready or held.  [MountInv] and [Unmount] hold its theorems.
    - [Samba]: one smbd connection over the model of xattr.c.  [Module]: loading,
      ACLs and flock.
    - [Movement]: movement.c.  A cutover is two definitions, [cutover_begin] and
      [cutover_finish], because the code drops the inode lock in between.
      [Gate]: what happens in between, writers, the drain of
      [smoothfs_cutover_drain_writers] and its SRCU callback as interleaved
      steps.
    - [KernelObjects]: the locks, references, credentials and names that one
      call holds, a weakest precondition for calls, and the VFS functions as an
      interface.  [Compat]: the helpers of compat.h over it, in their 6.18 and
      6.19 variants.  [Discipline]: what the namespace operations, the placement
      directory and the sidecar files lock, get, put and override, in the order
      of the source.  [Balance] holds the theorems about them.

    ** Effects and bounds

    A C function that returns an error code is a function that returns a
    number; one that changes a struct returns the new struct.  Faults come from
    outside: an [oracle] answers each fallible kernel call of a run in order, or
    a record of environment results ([cut_env], [iget_env]) names them.  All
    theorems quantify over them, so they cover every pattern of failures and
    short transfers, except where a hypothesis ([smooth_run], [no_short],
    [never_fails]) says that calls do not fail.  Integers are [Z]; where a C
    width matters (on-disk fields, masks, 64-bit offsets) the wrap-around is
    written out.

    Loops that are not structural take fuel: the I/O loops take the number of
    bytes to move, which is enough because every turn moves at least one; the
    log and index loaders take the number of records the file can hold; the
    high-water loop its 8-bit counter; the cached read loop takes the number of
    bytes asked for; a drain pass takes one round per listed inode, and
    [Drains.drain_pass_ends] shows that this is enough.  The theorems are about runs with the
    fuel the definitions pass, not about arbitrary fuel.  Waiting for a closed
    gate is a list of the states the waiter observes; [None] is a wait that the
    list does not end.

    ** Interfaces

    [Movement.Recovery] is what movement needs from lazy recovery and
    [RangeMeta.OidService] what sidecar replay needs from object lookup; the
    theorems of both are proved against the interface and [Replay] gives the
    instances from placement.c.  [KernelObjects.Vfs] with [VfsLaws] is the kernel's
    VFS as the namespace code sees it: what each function wants locked, which
    references it returns or consumes; [Discipline.InodeOps] is what that code
    needs from the inode cache.  [KernelObjects.Toy] is an instance of the first,
    [Balance.Concrete] one of the second.  The hash function, the clock, random words and
    directory trees of the tiers are parameters.

    ** What the theorems show

    - Movement refines a small protocol, a step relation labelled with the
      command ([Movement.obj_step]): whatever commands, writes and evictions
      (but of an inode whose cutover is running, which nothing in the code
      prevents) interleave, a command acts only for its object's transaction and
      from the states the protocol lists, and only a finished cutover changes an
      object's tier and backing; a failed one leaves the source; the writers'
      gate is closed only while a cutover runs; a move with a good destination
      completes.  Under every interleaving the lower file is switched with no
      writer inside, and the drain object is freed once.
    - A staged file is a plain file: write, read, drain, fsync and truncate act
      on [Staging.abs], the bytes readers see, as the plain operations do.
    - Durability: the log yields the newest record that reached the disk after
      any crashes and remounts, as long as no append leaves part of a record and
      none fails before a remount; the path index, within the reader's bounds,
      and the sidecars round-trip; a torn index is rejected; replay leaves
      nothing in the middle of a move; recovery of an object that still lies at
      its recorded path restores it with its id, path and tier; a scan records
      every object at a path where it lies.
    - An open file is one file: in cache mode every read, through the cache, the
      overlay or the lower file, sees the bytes that the writes, truncates,
      mapped stores and the splices, fallocates and clones that keep the length
      before it made; a change that a cutover overtakes is lost, as
      [FileOps.changes_act_on_the_file] says; a descriptor used after a cutover
      is open on the current lower file.
    - The namespace: a listing is the merge of the tiers and what it shows can
      be looked up; create, unlink, rmdir and rename change the names they are
      asked to change and no others.  The cache indices agree with the inodes
      under every run of these operations, iget, eviction and id write-back.
    - Lower locks and references: create, mkdir, mknod, symlink, link, unlink,
      rmdir and rename leave the locks, references and credentials of the call
      as they found them on every path and on both kernel interfaces, rename with
      the choice and making of its lower parents and the spill copies included;
      the exceptions in the code are shown by evaluation in [Balance].
    - Rehoming: a staged truncate moves the file and loses no name; the drain
      that follows ends and removes the old copies only.
    - Attributes round-trip, and a pin holds until it is released by name.
    - Handles and commands: an NFS handle resolves to the object it was made
      for; a command reaches only the pool it names; heat samples add up.
    - A mount gives a well-formed pool whose tiers are those of its option, or
      takes everything back; an unmount ends, leaves nothing of the pool but its
      files and its log, and in cache mode drains what can be drained; after
      syncfs or fsync what they cover is durable; the settings stay valid
      whatever is written to them, what is shown can be written back, and the
      drains that a new mask starts lose no byte.
    - A lease that smbd takes keeps the file where it is, a change by another
      process breaks exactly the leases on that file, and the file id of an
      object carries the generation last reported.
    - Tier choice and parsing, id uniqueness.

    Several theorems state behaviour the code does not intend (for instance
    [Staging.tier_truncate_resurrects_staged_bytes] or
    [Unmount.doubly_pinned_inode_stays_busy]); their comments say so.

    ** What is not modelled

    Locks other than those of the lower directories, the reference counts of
    long-lived objects (but those of tier roots and of pinned inodes) and
    workqueues as such (their effect appears as the order
    of steps; SRCU and the drain object's count are in [Gate]); page cache and
    mappings apart from the flags that the code tests; what the lower filesystems
    permit to which credentials; the user-space daemon; smbd apart from the
    module.  [Discipline] leaves out the parts of the operations that hold no lower
    lock or reference; [Namespace] has them, without locks.  The rhashtable
    callbacks, the operation tables and the debug messages hold no logic of
    their own. *)
From stdpp Require Export base tactics list gmap strings.
From Stdlib Require Export ZArith Lia.

Open Scope Z_scope.

(** ** Record update

    [r <| f := v |>] is the record [r] with its field [f] replaced, the way a
    C assignment [r->f = v] changes one member of a struct.  A record opts in
    by giving an [Eta] instance that rebuilds it field by field. *)

Class Eta (R : Type) := eta_of : R -> R.
Class Setter {R T : Type} (proj : R -> T) := { set_field : (T -> T) -> R -> R }.

Ltac solve_setter :=
  match goal with
  | |- @Setter ?R ?T ?p =>
      let i := constr:(_ : Eta R) in
      let body := eval hnf in i in
      match eval pattern p in body with
      | ?mk _ => exact (Build_Setter R T p (fun (f : T -> T) => mk (fun r => f (p r))))
      end
  end.
#[export] Hint Extern 0 (Setter _) => solve_setter : typeclass_instances.

Arguments set_field {R T} proj {_} f r /.
Arguments Setter {R T} proj.

Declare Scope smoothfs_scope.
Delimit Scope smoothfs_scope with smoothfs.
#[warning="-postfix-notation-not-level-1"]
Notation "r <| f := v |>" := (set_field f (fun _ => v) r)
  (at level 12, left associativity, f at level 11, v at level 200) : smoothfs_scope.
Open Scope smoothfs_scope.

(** ** Kernel error numbers

    A C function that returns [int] returns 0 or a negative error number; the
    model keeps that convention, so an error is [- ENOENT]. *)

Definition EPERM : Z := 1.
Definition ENOENT : Z := 2.
Definition EIO : Z := 5.
Definition E2BIG : Z := 7.
Definition EBADF : Z := 9.
Definition ECHILD : Z := 10.
Definition EAGAIN : Z := 11.
Definition ENOMEM : Z := 12.
Definition EFAULT : Z := 14.
Definition EBUSY : Z := 16.
Definition EEXIST : Z := 17.
Definition EXDEV : Z := 18.
Definition ENODEV : Z := 19.
Definition ENOTDIR : Z := 20.
Definition EISDIR : Z := 21.
Definition EINVAL : Z := 22.
Definition ENOTTY : Z := 25.
Definition EFBIG : Z := 27.
Definition ENOSPC : Z := 28.
Definition ERANGE : Z := 34.
Definition ENAMETOOLONG : Z := 36.
Definition ENOSYS : Z := 38.
Definition ENODATA : Z := 61.
Definition EMSGSIZE : Z := 90.
Definition EOPNOTSUPP : Z := 95.
Definition EALREADY : Z := 114.
Definition ESTALE : Z := 116.
Definition ECANCELED : Z := 125.

(** Unsigned wrap-around at the widths the code uses. *)
Definition u8 (z : Z) : Z := z mod 2 ^ 8.
Definition u16 (z : Z) : Z := z mod 2 ^ 16.
Definition u32 (z : Z) : Z := z mod 2 ^ 32.
Definition u64 (z : Z) : Z := z mod 2 ^ 64.
Definition U8_MAX : Z := 255.
Definition U16_MAX : Z := 65535.

(** [BIT(n)] of the kernel. *)
Definition BIT (n : Z) : Z := Z.shiftl 1 n.

(** Two's-complement reading of a 64-bit word: the cast [(s64)x]. *)
Definition s64 (z : Z) : Z :=
  let w := u64 z in if w <? 2 ^ 63 then w else w - 2 ^ 64.

(** ** Result of fallible code: a negative errno or a value *)

Inductive result (A : Type) : Type :=
| Err (e : Z)
| Ok (a : A).
Arguments Err {A} e.
Arguments Ok {A} a.

Definition rbind {A B} (r : result A) (k : A -> result B) : result B :=
  match r with Err e => Err e | Ok a => k a end.

#[warning="-notation-overridden"]
Notation "'try' x <- c ; k" := (rbind c (fun x => k))
  (at level 80, x pattern, c at level 79, right associativity) : smoothfs_scope.

(** ** Tactics of the development *)

(** Case analysis on every [if] and [match] scrutinee of the goal or of a
    hypothesis, keeping the equations. *)
Ltac case_goal :=
  match goal with
  | |- context [if ?b then _ else _] => let E := fresh "E" in destruct b eqn:E
  | |- context [match ?x with _ => _ end] => let E := fresh "E" in destruct x eqn:E
  end.

Ltac case_hyp H :=
  match type of H with
  | context [if ?b then _ else _] => let E := fresh "E" in destruct b eqn:E
  | context [match ?x with _ => _ end] => let E := fresh "E" in destruct x eqn:E
  end.

(** Turn boolean comparisons of the context into propositions. *)
Ltac to_prop :=
  repeat match goal with
  | H : (_ && _)%bool = true |- _ => apply andb_true_iff in H; destruct H
  | H : (_ || _)%bool = false |- _ => apply orb_false_iff in H; destruct H
  | H : negb _ = true |- _ => apply negb_true_iff in H
  | H : negb _ = false |- _ => apply negb_false_iff in H
  | H : (_ <? _) = true |- _ => apply Z.ltb_lt in H
  | H : (_ <? _) = false |- _ => apply Z.ltb_ge in H
  | H : (_ <=? _) = true |- _ => apply Z.leb_le in H
  | H : (_ <=? _) = false |- _ => apply Z.leb_gt in H
  | H : (_ =? _) = true |- _ => apply Z.eqb_eq in H
  | H : (_ =? _) = false |- _ => apply Z.eqb_neq in H
  end.


Create HintDb smoothfs.

(** ** Bytes

    A byte is a [Z] in [0, 256); buffers are lists of them. *)

Definition byte_ok (b : Z) : Prop := 0 <= b < 256.
Definition bytes_ok (l : list Z) : Prop := Forall byte_ok l.

(** [le_split n z]: the [n] bytes of [cpu_to_leNN(z)]. *)
Fixpoint le_split (n : nat) (z : Z) : list Z :=
  match n with
  | O => []
  | S n => z mod 256 :: le_split n (z / 256)
  end.

(** [le_combine]: [leNN_to_cpu] of a byte buffer. *)
Fixpoint le_combine (l : list Z) : Z :=
  match l with
  | [] => 0
  | b :: l => b + 256 * le_combine l
  end.

Lemma length_le_split n z : length (le_split n z) = n.
Proof. revert z; induction n; intros z; simpl; [done | by rewrite IHn]. Qed.

Lemma le_split_ok n z : bytes_ok (le_split n z).
Proof.
  revert z; induction n; intros z; simpl; constructor.
  - unfold byte_ok. apply Z.mod_pos_bound. lia.
  - apply IHn.
Qed.

Lemma le_combine_split n z : le_combine (le_split n z) = z mod 256 ^ Z.of_nat n.
Proof.
  revert z; induction n; intros z.
  - simpl. by rewrite Z.mod_1_r.
  - cbn [le_split le_combine]. rewrite IHn.
    rewrite Nat2Z.inj_succ, Z.pow_succ_r by lia.
    rewrite Z.rem_mul_r; lia.
Qed.

Lemma le_combine_split_id n z :
  0 <= z < 256 ^ Z.of_nat n -> le_combine (le_split n z) = z.
Proof. intros. rewrite le_combine_split. by apply Z.mod_small. Qed.

Lemma le_combine_range l : bytes_ok l -> 0 <= le_combine l < 256 ^ Z.of_nat (length l).
Proof.
  induction 1 as [|b l Hb Hl IH]; simpl; [lia|].
  unfold byte_ok in Hb.
  replace (Z.of_nat (S (length l))) with (Z.succ (Z.of_nat (length l))) by lia.
  rewrite Z.pow_succ_r; lia.
Qed.

Lemma le_split_combine l : bytes_ok l -> le_split (length l) (le_combine l) = l.
Proof.
  induction 1 as [|b l Hb Hl IH]; simpl; [done|]. unfold byte_ok in Hb.
  replace (b + 256 * le_combine l) with (le_combine l * 256 + b) by ring.
  rewrite Z.div_add_l, Z.div_small, Z.add_0_r by lia.
  rewrite Z.add_comm, Z.mod_add, Z.mod_small by lia. by rewrite IH.
Qed.

#[export] Hint Resolve length_le_split le_split_ok : smoothfs.

(** [slice off len buf]: the bytes [buf[off .. off+len)]. *)
Definition slice (off len : nat) (buf : list Z) : list Z := take len (drop off buf).

Lemma slice_app_r off len l1 l2 :
  length l1 = off -> slice off len (l1 ++ l2) = take len l2.
Proof. intros <-. unfold slice. by rewrite drop_app_length. Qed.

Lemma slice_app_skip off len l1 l2 :
  (length l1 <= off)%nat -> slice off len (l1 ++ l2) = slice (off - length l1) len l2.
Proof. intros. unfold slice. by rewrite drop_app_ge. Qed.

Lemma slice_0_app len l1 l2 : length l1 = len -> slice 0 len (l1 ++ l2) = l1.
Proof. intros <-. unfold slice. rewrite drop_0. apply take_app_length. Qed.

(** Boolean equality of byte buffers ([memcmp(a, b, n) == 0]) and strings
    ([strcmp(a, b) == 0]). *)
Definition bytes_eqb (a b : list Z) : bool := bool_decide (a = b).

Lemma bytes_eqb_eq a b : bytes_eqb a b = true <-> a = b.
Proof. apply bool_decide_eq_true. Qed.

Lemma bytes_eqb_neq a b : bytes_eqb a b = false <-> a <> b.
Proof. apply bool_decide_eq_false. Qed.

Lemma bytes_eqb_refl a : bytes_eqb a a = true.
Proof. by apply bytes_eqb_eq. Qed.

(** ** Generic list facts *)

Lemma forallb_Forall {A} (p : A -> bool) (P : A -> Prop) l :
  (forall x, p x = true -> P x) -> forallb p l = true -> Forall P l.
Proof.
  intros Hp. induction l; simpl; [constructor|].
  intros H%andb_true_iff. destruct H. constructor; auto.
Qed.

Lemma last_snoc_some {A} (l : list A) x y : last (l ++ [x]) = Some y -> x = y.
Proof. rewrite last_snoc. congruence. Qed.

Lemma take_drop_slice (l : list Z) i n :
  take (i + n) l = take i l ++ slice i n l.
Proof. unfold slice. by rewrite take_take_drop. Qed.

(** ** Reachability

    [rtc step] is stdpp's reflexive-transitive closure; an invariant that the
    initial state has and every step keeps holds in every reachable state. *)
Lemma rtc_invariant {A} (step : relation A) (P : A -> Prop) x y :
  (forall a b, P a -> step a b -> P b) -> P x -> rtc step x y -> P y.
Proof. intros Hs Hx Hr. induction Hr; eauto. Qed.

(** ** Counting loops

    [for (t = from; t < bound; t++)] visits [seqZ from (bound - from)]. *)
Definition tiers_from (from bound : Z) : list Z := seqZ from (bound - from).

Lemma elem_of_tiers_from from bound t :
  t ∈ tiers_from from bound <-> from <= t < bound.
Proof. unfold tiers_from. rewrite elem_of_seqZ. lia. Qed.
