(* ===== verification/Types.v ===== *)
(** * Shared data of the filesystem: src/src/smoothfs/smoothfs.h

    Constants, the enumerations of movement and pin states, the per-tier,
    per-inode and per-pool structs, and the small inline helpers of the header
    that the other files use.

    Lower-filesystem objects (dentries and their inodes on a tier) belong to
    other filesystems; they appear here only through what smoothfs reads of
    them ([lnode]) and are addressed by a dentry number, which stands for the
    inode behind the dentry: [d_inode(a) == d_inode(b)] is equality of the
    numbers. *)
From S2P Require Import Prelude.

Definition SMOOTHFS_MAGIC : Z := 0x534D4F46.
Definition SMOOTHFS_MAX_TIERS : Z := 8.
Definition SMOOTHFS_OID_LEN : nat := 16.
Definition SMOOTHFS_CREATE_POLICY_FASTEST : Z := 0.
Definition SMOOTHFS_CREATE_POLICY_HIGH_WATER : Z := 1.

(** ** [enum smoothfs_movement_state]

    The field is a [u8] in memory and on disk, so a replayed log can hold
    values that name no state; [MS_OTHER] stands for those. *)
Inductive movement_state :=
| MS_PLACED | MS_PLAN_ACCEPTED | MS_DESTINATION_RESERVED | MS_COPY_IN_PROGRESS
| MS_COPY_COMPLETE | MS_COPY_VERIFIED | MS_CUTOVER_IN_PROGRESS | MS_SWITCHED
| MS_CLEANUP_IN_PROGRESS | MS_CLEANUP_COMPLETE | MS_FAILED | MS_STALE
| MS_OTHER (raw : Z).

#[export] Instance movement_state_eq_dec : EqDecision movement_state.
Proof. solve_decision. Defined.

Definition ms_code (s : movement_state) : Z :=
  match s with
  | MS_PLACED => 0 | MS_PLAN_ACCEPTED => 1 | MS_DESTINATION_RESERVED => 2
  | MS_COPY_IN_PROGRESS => 3 | MS_COPY_COMPLETE => 4 | MS_COPY_VERIFIED => 5
  | MS_CUTOVER_IN_PROGRESS => 6 | MS_SWITCHED => 7 | MS_CLEANUP_IN_PROGRESS => 8
  | MS_CLEANUP_COMPLETE => 9 | MS_FAILED => 10 | MS_STALE => 11
  | MS_OTHER raw => raw
  end.

Definition ms_of_code (z : Z) : movement_state :=
  match z with
  | 0 => MS_PLACED | 1 => MS_PLAN_ACCEPTED | 2 => MS_DESTINATION_RESERVED
  | 3 => MS_COPY_IN_PROGRESS | 4 => MS_COPY_COMPLETE | 5 => MS_COPY_VERIFIED
  | 6 => MS_CUTOVER_IN_PROGRESS | 7 => MS_SWITCHED | 8 => MS_CLEANUP_IN_PROGRESS
  | 9 => MS_CLEANUP_COMPLETE | 10 => MS_FAILED | 11 => MS_STALE
  | _ => MS_OTHER z
  end.

Lemma ms_code_of_code z : ms_code (ms_of_code z) = z.
Proof.
  unfold ms_of_code.
  repeat match goal with |- context [match ?x with _ => _ end] => destruct x; try reflexivity end.
Qed.

Definition ms_named (s : movement_state) : Prop :=
  match s with MS_OTHER _ => False | _ => True end.

Lemma ms_of_code_code s : ms_named s -> ms_of_code (ms_code s) = s.
Proof. by destruct s. Qed.

Definition ms_eqb (a b : movement_state) : bool := bool_decide (a = b).

(** ** [enum smoothfs_pin_state] *)
Inductive pin_state := PIN_NONE | PIN_HOT | PIN_COLD | PIN_HARDLINK | PIN_LEASE | PIN_LUN
| PIN_OTHER (raw : Z).

#[export] Instance pin_state_eq_dec : EqDecision pin_state.
Proof. solve_decision. Defined.

Definition pin_eqb (a b : pin_state) : bool := bool_decide (a = b).

Definition pin_code (p : pin_state) : Z :=
  match p with
  | PIN_NONE => 0 | PIN_HOT => 1 | PIN_COLD => 2 | PIN_HARDLINK => 3
  | PIN_LEASE => 4 | PIN_LUN => 5 | PIN_OTHER raw => raw
  end.

Definition pin_of_code (z : Z) : pin_state :=
  match z with
  | 0 => PIN_NONE | 1 => PIN_HOT | 2 => PIN_COLD | 3 => PIN_HARDLINK
  | 4 => PIN_LEASE | 5 => PIN_LUN | _ => PIN_OTHER z
  end.

(** ** Lower objects *)

(** File type bits of [i_mode]. *)
Inductive ftype := FT_REG | FT_DIR | FT_LNK | FT_SPECIAL.

#[export] Instance ftype_eq_dec : EqDecision ftype.
Proof. solve_decision. Defined.

Definition S_ISREG (t : ftype) : bool := bool_decide (t = FT_REG).
Definition S_ISDIR (t : ftype) : bool := bool_decide (t = FT_DIR).

(** [struct path]: a mount and a dentry, both by identity. *)
Record path := Path { p_mnt : Z; p_dentry : Z }.

#[export] Instance path_eq_dec : EqDecision path.
Proof. solve_decision. Defined.

(** What smoothfs observes of a positive lower dentry's inode: number, type,
    mode bits, size, link count, the two identity xattrs (raw value bytes when
    present) and whether a writable shared mapping exists
    ([mapping_writably_mapped]). *)
Record lnode := LNode {
  l_ino : Z;
  l_type : ftype;
  l_perm : Z;
  l_size : Z;
  l_nlink : Z;
  l_oid : option (list Z);
  l_gen : option (list Z);
  l_mapped : bool;
}.
#[export] Instance lnode_eta : Eta lnode := fun r =>
  LNode (l_ino r) (l_type r) (l_perm r) (l_size r) (l_nlink r) (l_oid r) (l_gen r) (l_mapped r).

(** ** [struct smoothfs_tier] *)
Record tier := Tier {
  t_rank : Z;
  t_caps : Z;
  t_path : path;
  active_writes : Z;
  pending_writes : Z;
}.
#[export] Instance tier_eta : Eta tier := fun r =>
  Tier (t_rank r) (t_caps r) (t_path r) (active_writes r) (pending_writes r).

(** ** [struct smoothfs_inode_info]: identity, placement, movement and heat

    The range-staging members are part of the world of Staging.v.  [aliases]
    lists the dentries of the inode with the lower dentry each one's
    [d_fsdata] points at. *)
Record inode_info := InodeInfo {
  i_ino : Z;
  i_type : ftype;
  i_perm : Z;
  i_size : Z;
  i_nlink : Z;
  oid : list Z;
  gen : Z;
  current_tier : Z;
  intended_tier : Z;
  ms : movement_state;
  pin : pin_state;
  nlink_observed : Z;
  transaction_seq : Z;
  cutover_gen : Z;
  lower_path : option path;
  aliases : list (option Z);
  open_count : Z;
  read_bytes : Z;
  write_bytes : Z;
  write_seq : Z;
  write_reservation : Z;
  last_access_ns : Z;
  last_drained_open_count : Z;
  last_drained_read_bytes : Z;
  last_drained_write_bytes : Z;
  last_drain_ns : Z;
  mappings_quiesced : bool;
  rel_path : option string;
  replay_pinned : bool;
  path_hashed : bool;
}.
#[export] Instance inode_info_eta : Eta inode_info := fun r =>
  InodeInfo (i_ino r) (i_type r) (i_perm r) (i_size r) (i_nlink r) (oid r) (gen r)
    (current_tier r) (intended_tier r) (ms r) (pin r) (nlink_observed r)
    (transaction_seq r) (cutover_gen r) (lower_path r) (aliases r) (open_count r)
    (read_bytes r) (write_bytes r) (write_seq r) (write_reservation r)
    (last_access_ns r) (last_drained_open_count r) (last_drained_read_bytes r)
    (last_drained_write_bytes r) (last_drain_ns r) (mappings_quiesced r)
    (rel_path r) (replay_pinned r) (path_hashed r).

(** Multicast events of netlink.c, kept as a trace. *)
Inductive event :=
| EV_MOUNT_READY
| EV_TIER_FAULT (t : Z)
| EV_MOVE_STATE (o : list Z) (s : movement_state) (seq : Z)
| EV_SPILL (o : list Z) (src dst size : Z)
| EV_MODIFY (ino : Z)
| EV_WAKE (ino : Z).     (** [wake_up_all] on the inode's [cutover_wq] *)

(** ** [struct smoothfs_sb_info]

    [inodes] is the inode cache by inode number ([ilookup]); [oid_map],
    [path_map] and [lower_ino_map] are the three rhashtables, as association
    lists with the newest entry first ([rhashtable_insert_fast] does not look
    for an entry with the same key); [inode_list] is the [sb_link] list.  [placement_log] is the log file ([None]: not open),
    [placement_wb_pending] the queued records. *)
Record sb_info := SbInfo {
  pool_uuid : list Z;
  fsid : Z;
  ntiers : Z;
  cache_mode : bool;
  fastest_tier : Z;
  create_policy : Z;
  tiers : list tier;
  placement_log : option (list Z);
  placement_seq : Z;
  placement_wb_pending : list (list Z);
  placement_wb_ready : bool;
  oid_map : list (list Z * Z);
  oid_map_ready : bool;
  path_map : list (string * Z);
  path_map_ready : bool;
  lower_ino_map : list (Z * Z);
  lower_ino_map_ready : bool;
  inodes : gmap Z inode_info;
  inode_list : list Z;
  any_lower_revalidates : bool;
  oid_monotonic : Z;
  quiesced : bool;
  heat_drain_active : bool;
  spill_creates_total : Z;
  spill_creates_failed_all_tiers : Z;
  any_spill_since_mount : bool;
  write_staging_enabled : bool;
  write_staging_full_pct : Z;
  metadata_tier_skips : Z;
  parent_tier_lookup_recoveries : Z;
  metadata_active_tier_mask : Z;
  write_staging_drain_active_tier_mask : Z;
  lower : gmap Z lnode;
  events : list event;
}.
#[export] Instance sb_info_eta : Eta sb_info := fun r =>
  SbInfo (pool_uuid r) (fsid r) (ntiers r) (cache_mode r) (fastest_tier r)
    (create_policy r) (tiers r) (placement_log r) (placement_seq r)
    (placement_wb_pending r) (placement_wb_ready r) (oid_map r) (oid_map_ready r)
    (path_map r) (path_map_ready r) (lower_ino_map r) (lower_ino_map_ready r)
    (inodes r) (inode_list r) (any_lower_revalidates r) (oid_monotonic r) (quiesced r)
    (heat_drain_active r) (spill_creates_total r) (spill_creates_failed_all_tiers r)
    (any_spill_since_mount r) (write_staging_enabled r) (write_staging_full_pct r)
    (metadata_tier_skips r) (parent_tier_lookup_recoveries r)
    (metadata_active_tier_mask r) (write_staging_drain_active_tier_mask r)
    (lower r) (events r).

(** A pool as [kzalloc] gives it: what [smoothfs_fill_super] starts from. *)
Definition sb_zero : sb_info :=
  SbInfo [] 0 0 false 0 0 [] None 0 [] false [] false [] false [] false ∅ [] false 0 false
    false 0 0 false false 0 0 0 0 0 ∅ [].

(** ** Inline helpers of smoothfs.h *)

(** [smoothfs_tier_of]: the index of the tier whose mount is [mnt], or
    [SMOOTHFS_MAX_TIERS]. *)
Fixpoint tier_of_loop (i : Z) (ts : list tier) (mnt : Z) : Z :=
  match ts with
  | [] => SMOOTHFS_MAX_TIERS
  | t :: ts => if p_mnt (t_path t) =? mnt then i else tier_of_loop (i + 1) ts mnt
  end.

Definition smoothfs_tier_of (sbi : sb_info) (mnt : Z) : Z :=
  tier_of_loop 0 (take (Z.to_nat (ntiers sbi)) (tiers sbi)) mnt.

(** [sbi->tiers[i]] within range. *)
Definition tier_at (sbi : sb_info) (i : Z) : option tier :=
  if i <? 0 then None else tiers sbi !! Z.to_nat i.

Definition smoothfs_metadata_tier_active (sbi : sb_info) (t : Z) : bool :=
  if ntiers sbi <=? t then false
  else if t =? fastest_tier sbi then true
  else Z.testbit (metadata_active_tier_mask sbi) t.

Definition smoothfs_note_metadata_tier_skip (sbi : sb_info) : sb_info :=
  sbi <| metadata_tier_skips := metadata_tier_skips sbi + 1 |>.

Definition smoothfs_write_staging_drain_tier_active (sbi : sb_info) (t : Z) : bool :=
  if ntiers sbi <=? t then false
  else if t =? fastest_tier sbi then true
  else Z.testbit (write_staging_drain_active_tier_mask sbi) t.

(** [smoothfs_swap_lower_path]: publish the new path, return the old one. *)
Definition smoothfs_swap_lower_path (si : inode_info) (p : path) : inode_info * option path :=
  (si <| lower_path := Some p |>, lower_path si).

Definition smoothfs_note_data_change (si : inode_info) : inode_info :=
  si <| write_seq := write_seq si + 1 |>.

(** Update the inode stored under [ino]. *)
Definition put_inode (sbi : sb_info) (si : inode_info) : sb_info :=
  sbi <| inodes := <[i_ino si := si]> (inodes sbi) |>.

Definition update_tier (i : Z) (f : tier -> tier) (sbi : sb_info) : sb_info :=
  sbi <| tiers := alter f (Z.to_nat i) (tiers sbi) |>.

(** [smoothfs_clear_write_reservation]: drop the create-time reservation once,
    on the inode's current tier. *)
Definition smoothfs_clear_write_reservation (sbi : sb_info) (si : inode_info)
  : sb_info * inode_info :=
  if write_reservation si =? 0 then (sbi, si)
  else
    let si := si <| write_reservation := 0 |> in
    if current_tier si <? ntiers sbi
    then (update_tier (current_tier si) (fun t => t <| pending_writes := pending_writes t - 1 |>) sbi, si)
    else (sbi, si).

Lemma tier_of_loop_range i ts mnt :
  0 <= i ->
  tier_of_loop i ts mnt = SMOOTHFS_MAX_TIERS \/
  i <= tier_of_loop i ts mnt < i + Z.of_nat (length ts).
Proof.
  revert i. induction ts as [|t ts IH]; intros i Hi; simpl; [by left|].
  destruct (p_mnt (t_path t) =? mnt); [right; lia|].
  destruct (IH (i + 1)) as [->|H]; [lia|by left|right; lia].
Qed.

Lemma tier_of_loop_spec i ts mnt :
  0 <= i -> i + Z.of_nat (length ts) <= SMOOTHFS_MAX_TIERS ->
  tier_of_loop i ts mnt < SMOOTHFS_MAX_TIERS ->
  exists t, ts !! Z.to_nat (tier_of_loop i ts mnt - i) = Some t /\ p_mnt (t_path t) = mnt.
Proof.
  revert i. induction ts as [|t ts IH]; intros i Hi Hb Hlt; simpl in *.
  { unfold SMOOTHFS_MAX_TIERS in *. lia. }
  destruct (p_mnt (t_path t) =? mnt) eqn:E; to_prop.
  { rewrite Z.sub_diag. by exists t. }
  destruct (IH (i + 1)) as (t' & Ht & Hm); [lia..|].
  exists t'. split; [|done].
  destruct (tier_of_loop_range (i + 1) ts mnt) as [Hr|Hr]; [lia|lia|].
  replace (Z.to_nat (tier_of_loop (i + 1) ts mnt - i))
    with (S (Z.to_nat (tier_of_loop (i + 1) ts mnt - (i + 1)))) by lia.
  done.
Qed.
