(* ===== verification/Oid.v ===== *)
(** * Object identity: src/src/smoothfs/oid.c

    Allocation of UUIDv7 object ids, the xattrs that persist them on the lower
    file, and the inode number derived from them.

    [ktime_get_real_ns], [get_random_u64] and [xxh64] are kernel services:
    their results are arguments.  The xattr store of the lower filesystem is
    the pair of fields [l_oid], [l_gen] of [lnode]; [fault] injects an error
    of the lower filesystem into a call (0 for none). *)
From S2P Require Import Prelude Types.

Definition NSEC_PER_MSEC : Z := 1000000.

(** The eight bytes [memcpy] copies out of a [u64] on a machine of the given
    byte order. *)
Definition u64_bytes (little_endian : bool) (z : Z) : list Z :=
  if little_endian then le_split 8 z else rev (le_split 8 z).

(** [rand = (rand & ~(0xC0ULL << 56)) | (0x80ULL << 56)] *)
Definition force_variant (rand : Z) : Z :=
  Z.lor (Z.ldiff rand (Z.shiftl 0xC0 56)) (Z.shiftl 0x80 56).

(** The 16 bytes, from the millisecond clock, the 12-bit counter and the
    random word. *)
Definition oid_bytes (le : bool) (ms ctr rand : Z) : list Z :=
  [ Z.land (Z.shiftr ms 40) 0xff; Z.land (Z.shiftr ms 32) 0xff;
    Z.land (Z.shiftr ms 24) 0xff; Z.land (Z.shiftr ms 16) 0xff;
    Z.land (Z.shiftr ms 8) 0xff; Z.land (Z.shiftr ms 0) 0xff;
    Z.lor 0x70 (Z.land (Z.shiftr ctr 8) 0x0f); Z.land ctr 0xff ]
  ++ u64_bytes le (force_variant rand).

Definition smoothfs_alloc_oid (le : bool) (now_ns rand : Z) (sbi : sb_info)
  : sb_info * list Z :=
  let ms := now_ns / NSEC_PER_MSEC in
  let mono := oid_monotonic sbi + 1 in
  let ctr := u16 (Z.land mono 0x0FFF) in
  (sbi <| oid_monotonic := mono |>, oid_bytes le ms ctr rand).

(** ** xattr access *)

(** [__vfs_getxattr] into a buffer of [size] bytes. *)
Definition vfs_getxattr (fault : Z) (v : option (list Z)) (size : nat) : result (list Z) :=
  if fault <? 0 then Err fault
  else match v with
       | None => Err (- ENODATA)
       | Some b => if (size <? length b)%nat then Err (- ERANGE) else Ok b
       end.

Definition smoothfs_read_oid_xattr (fault : Z) (l : lnode) : result (list Z) :=
  match vfs_getxattr fault (l_oid l) SMOOTHFS_OID_LEN with
  | Err e => Err e
  | Ok b => if negb (Nat.eqb (length b) SMOOTHFS_OID_LEN) then Err (- EIO) else Ok b
  end.

(** [__vfs_setxattr(..., XATTR_CREATE)]: refuses to replace a value. *)
Definition smoothfs_write_oid_xattr (fault : Z) (l : lnode) (o : list Z) : Z * lnode :=
  if fault <? 0 then (fault, l)
  else match l_oid l with
       | Some _ => (- EEXIST, l)
       | None => (0, l <| l_oid := Some o |>)
       end.

(** Returns the error and the value left in [*gen]. *)
Definition smoothfs_read_gen_xattr (fault : Z) (l : lnode) (gen0 : Z) : Z * Z :=
  match vfs_getxattr fault (l_gen l) 4 with
  | Err e => if e =? - ENODATA then (0, 0) else (e, gen0)
  | Ok b => if negb (Nat.eqb (length b) 4) then (- EIO, gen0) else (0, le_combine b)
  end.

Definition smoothfs_write_gen_xattr (fault : Z) (l : lnode) (g : Z) : Z * lnode :=
  if fault <? 0 then (fault, l) else (0, l <| l_gen := Some (le_split 4 g) |>).

Definition smoothfs_inode_no_from_oid (xxh64 : list Z -> Z) (o : list Z) : Z :=
  Z.lor (xxh64 o) (Z.shiftl 1 63).

(** ** Arithmetic of the layout *)

Lemma land_ff z : Z.land z 0xff = z mod 256.
Proof. change 0xff with (Z.ones 8). by rewrite Z.land_ones. Qed.

Lemma land_fff z : Z.land z 0x0FFF = z mod 4096.
Proof. change 0x0FFF with (Z.ones 12). by rewrite Z.land_ones. Qed.

Lemma version_byte c : 0 <= c < 16 -> Z.lor 0x70 c = 112 + c.
Proof.
  intros Hc. pose proof (Z.add_lor_land 0x70 c) as Hs.
  assert (Z.land 0x70 c = 0) as Hz; [|lia].
  rewrite Z.land_comm. replace c with (Z.land c (Z.ones 4)) by (rewrite Z.land_ones by lia; apply Z.mod_small; lia).
  rewrite <- Z.land_assoc. change (Z.land (Z.ones 4) 112) with 0. apply Z.land_0_r.
Qed.

Lemma ctr_hi_range ctr : 0 <= Z.land (Z.shiftr ctr 8) 0x0f < 16.
Proof. change 0x0f with (Z.ones 4). rewrite Z.land_ones by lia. apply Z.mod_pos_bound. lia. Qed.

Lemma force_variant_div rand :
  0 <= rand < 2 ^ 64 ->
  force_variant rand = rand mod 2 ^ 62 + 2 ^ 63.
Proof.
  intros Hr. unfold force_variant.
  assert (Z.ldiff rand (Z.shiftl 0xC0 56) = rand mod 2 ^ 62) as ->.
  { apply Z.bits_inj'. intros n Hn. rewrite Z.ldiff_spec.
    destruct (decide (n < 62)).
    - rewrite Z.mod_pow2_bits_low by lia.
      replace (Z.testbit (Z.shiftl 192 56) n) with false; [by rewrite andb_true_r|].
      symmetry. destruct (decide (n < 56)).
      { by apply Z.shiftl_spec_low. }
      rewrite Z.shiftl_spec by lia.
      assert (n - 56 = 0 \/ n - 56 = 1 \/ n - 56 = 2 \/ n - 56 = 3 \/ n - 56 = 4 \/ n - 56 = 5)
        as H by lia.
      destruct H as [H|[H|[H|[H|[H|H]]]]]; rewrite H; reflexivity.
    - rewrite Z.mod_pow2_bits_high by lia.
      destruct (decide (n < 64)).
      + assert (n - 56 = 6 \/ n - 56 = 7) as H by lia. rewrite Z.shiftl_spec by lia.
        destruct H as [H|H]; rewrite H; apply andb_false_r.
      + rewrite Z.bits_above_log2; [done|lia|].
        destruct (decide (rand = 0)) as [->|]; [simpl; lia|].
        apply Z.log2_lt_pow2; [lia|]. eapply Z.lt_le_trans; [apply Hr|].
        apply Z.pow_le_mono_r; lia. }
  change (Z.shiftl 128 56) with (2 ^ 63).
  pose proof (Z.mod_pos_bound rand (2 ^ 62) ltac:(lia)).
  pose proof (Z.add_lor_land (rand mod 2 ^ 62) (2 ^ 63)) as Hs.
  assert (Z.land (rand mod 2 ^ 62) (2 ^ 63) = 0) as Hz; [|lia].
  apply Z.bits_inj'. intros n Hn. rewrite Z.land_spec, Z.bits_0, Z.pow2_bits_eqb by lia.
  destruct (Z.eqb_spec 63 n) as [<-|]; [|apply andb_false_r].
  rewrite Z.mod_pow2_bits_high by lia. done.
Qed.

Lemma length_oid_bytes le ms ctr rand : length (oid_bytes le ms ctr rand) = 16%nat.
Proof.
  unfold oid_bytes, u64_bytes. rewrite length_app.
  destruct le; [|rewrite length_rev]; rewrite length_le_split; done.
Qed.

(** The big-endian 48-bit timestamp and the 12-bit counter of an id. *)
Definition oid_ms (o : list Z) : Z := le_combine (rev (slice 0 6 o)).
Definition oid_ctr (o : list Z) : Z :=
  match slice 6 2 o with [a; b] => 256 * (a mod 16) + b | _ => -1 end.

Lemma oid_ms_bytes le ms ctr rand : 0 <= ms ->
  oid_ms (oid_bytes le ms ctr rand) = ms mod 2 ^ 48.
Proof.
  intros Hms. unfold oid_ms, oid_bytes, slice. cbn [drop app take rev le_combine].
  rewrite !land_ff, !Z.shiftr_div_pow2 by lia.
  transitivity (le_combine (le_split 6 ms)); [|by rewrite le_combine_split].
  cbn [le_split le_combine]. rewrite !Z.div_div by lia.
  rewrite Z.div_1_r. reflexivity.
Qed.

Lemma oid_ctr_bytes le ms ctr rand : 0 <= ctr < 4096 ->
  oid_ctr (oid_bytes le ms ctr rand) = ctr.
Proof.
  intros Hc. unfold oid_ctr, oid_bytes, slice. cbn [drop app take].
  rewrite version_byte by apply ctr_hi_range.
  change 0x0f with (Z.ones 4). rewrite Z.land_ones, Z.shiftr_div_pow2, land_ff by lia.
  change (2 ^ 4) with 16. change (2 ^ 8) with 256.
  assert (0 <= ctr / 256 < 16).
  { split; [apply Z.div_pos|apply Z.div_lt_upper_bound]; lia. }
  rewrite (Z.mod_small (ctr / 256) 16) by lia.
  replace (112 + ctr / 256) with (ctr / 256 + 7 * 16) by lia.
  rewrite Z.mod_add, Z.mod_small by lia.
  rewrite take_0. pose proof (Z.div_mod ctr 256 ltac:(lia)). lia.
Qed.

(** The timestamp, counter and version fields of an allocated id. *)
Lemma alloc_oid_layout le now_ns rand sbi :
  0 <= now_ns ->
  let o := (smoothfs_alloc_oid le now_ns rand sbi).2 in
  length o = SMOOTHFS_OID_LEN
  /\ oid_ms o = (now_ns / 1000000) mod 2 ^ 48
  /\ oid_ctr o = (oid_monotonic sbi + 1) mod 4096
  /\ (exists v, o !! 6%nat = Some v /\ v / 16 = 7).
Proof.
  intros Hn o. unfold o, smoothfs_alloc_oid. cbn [snd]. rewrite land_fff.
  pose proof (Z.mod_pos_bound (oid_monotonic sbi + 1) 4096 ltac:(lia)) as Hc.
  assert (u16 ((oid_monotonic sbi + 1) mod 4096) = (oid_monotonic sbi + 1) mod 4096) as ->.
  { unfold u16. apply Z.mod_small. lia. }
  split; [apply length_oid_bytes|]. split; [|split].
  - apply oid_ms_bytes. apply Z.div_pos; unfold NSEC_PER_MSEC; lia.
  - by apply oid_ctr_bytes.
  - eexists. split; [reflexivity|].
    rewrite version_byte by apply ctr_hi_range.
    pose proof (ctr_hi_range ((oid_monotonic sbi + 1) mod 4096)).
    symmetry. apply Z.div_unique with (Z.land (Z.shiftr ((oid_monotonic sbi + 1) mod 4096) 8) 15); lia.
Qed.

(** Two object ids allocated in different milliseconds, or with different
    counter values modulo 4096, differ, whatever the random bits. *)
Theorem alloc_oid_distinct le now1 now2 rand1 rand2 sbi1 sbi2 :
  0 <= now1 -> 0 <= now2 ->
  (now1 / 1000000) mod 2 ^ 48 <> (now2 / 1000000) mod 2 ^ 48 \/
  (oid_monotonic sbi1 + 1) mod 4096 <> (oid_monotonic sbi2 + 1) mod 4096 ->
  (smoothfs_alloc_oid le now1 rand1 sbi1).2 <> (smoothfs_alloc_oid le now2 rand2 sbi2).2.
Proof.
  intros H1 H2 Hd Heq.
  destruct (alloc_oid_layout le now1 rand1 sbi1 H1) as (_ & Hm1 & Hc1 & _).
  destruct (alloc_oid_layout le now2 rand2 sbi2 H2) as (_ & Hm2 & Hc2 & _).
  rewrite Heq in Hm1, Hc1. destruct Hd; congruence.
Qed.

(** Which byte carries the forced variant bits depends on the byte order of
    the machine: the last one on a little-endian machine. *)
Lemma alloc_oid_variant_byte (le : bool) now_ns rand sbi :
  0 <= rand < 2 ^ 64 ->
  exists v, (smoothfs_alloc_oid le now_ns rand sbi).2 !! (if le then 15%nat else 8%nat) = Some v
            /\ v / 64 = 2.
Proof.
  intros Hr. unfold smoothfs_alloc_oid, oid_bytes. cbn [snd].
  rewrite force_variant_div by done.
  pose proof (Z.mod_pos_bound rand (2 ^ 62) ltac:(lia)) as Hm.
  set (w := rand mod 2 ^ 62 + 2 ^ 63). assert (2 ^ 63 <= w < 2 ^ 63 + 2 ^ 62) as Hw by (unfold w; lia).
  clearbody w. exists ((w / 2 ^ 56) mod 256). split.
  - destruct le; unfold u64_bytes; cbn [le_split app rev lookup list_lookup];
      rewrite !Z.div_div by lia; reflexivity.
  - assert (128 <= w / 2 ^ 56 < 192).
    { split; [apply Z.div_le_lower_bound | apply Z.div_lt_upper_bound]; lia. }
    rewrite Z.mod_small by lia. symmetry. apply Z.div_unique with (w / 2 ^ 56 - 128); lia.
Qed.

(** On a little-endian machine byte 8 does not carry the UUID variant. *)
Theorem alloc_oid_variant_misplaced :
  exists rand, 0 <= rand < 2 ^ 64 /\
    forall now_ns sbi, exists v,
      (smoothfs_alloc_oid true now_ns rand sbi).2 !! 8%nat = Some v /\ v / 64 <> 2.
Proof.
  exists 0. split; [lia|]. intros now_ns sbi. exists 0. split; [reflexivity|].
  vm_compute. discriminate.
Qed.

(** Bit 63 keeps object inode numbers apart from small reserved ones. *)
Lemma inode_no_reserved_bit (xxh64 : list Z -> Z) o :
  0 <= xxh64 o < 2 ^ 64 ->
  2 ^ 63 <= smoothfs_inode_no_from_oid xxh64 o < 2 ^ 64.
Proof.
  intros Hh. unfold smoothfs_inode_no_from_oid. change (Z.shiftl 1 63) with (2 ^ 63).
  assert (Z.testbit (Z.lor (xxh64 o) (2 ^ 63)) 63 = true) as Hb.
  { rewrite Z.lor_spec, Z.pow2_bits_true by lia. apply orb_true_r. }
  assert (0 <= Z.lor (xxh64 o) (2 ^ 63)) as Hp by (apply Z.lor_nonneg; lia).
  split.
  - apply Z.testbit_true in Hb; [|lia].
    destruct (decide (Z.lor (xxh64 o) (2 ^ 63) < 2 ^ 63)) as [Hl|]; [|lia].
    rewrite Z.div_small in Hb by lia. done.
  - assert (Z.log2 (Z.lor (xxh64 o) (2 ^ 63)) < 64).
    { rewrite Z.log2_lor by lia. apply Z.max_lub_lt; [|by vm_compute].
      destruct (decide (xxh64 o = 0)) as [->|]; [by vm_compute|].
      apply Z.log2_lt_pow2; lia. }
    apply Z.log2_lt_pow2; [|done].
    enough (Z.lor (xxh64 o) (2 ^ 63) <> 0) by lia.
    intros Hz. rewrite Hz in Hb. done.
Qed.

(** The first id written to an object is the one that stays. *)
Lemma oid_xattr_write_once f l o o' :
  length o = SMOOTHFS_OID_LEN -> l_oid l = None -> f = 0 ->
  let l1 := (smoothfs_write_oid_xattr f l o).2 in
  smoothfs_read_oid_xattr 0 l1 = Ok o
  /\ smoothfs_write_oid_xattr 0 l1 o' = (- EEXIST, l1).
Proof.
  intros Hlen Hn -> l1. unfold l1, smoothfs_write_oid_xattr. rewrite Hn. simpl.
  unfold smoothfs_read_oid_xattr, vfs_getxattr. simpl.
  split; [|reflexivity]. rewrite Hlen. simpl. rewrite Hlen. reflexivity.
Qed.

Lemma gen_xattr_roundtrip l g g0 : 0 <= g < 2 ^ 32 ->
  smoothfs_read_gen_xattr 0 (smoothfs_write_gen_xattr 0 l g).2 g0 = (0, g).
Proof.
  intros Hg. unfold smoothfs_write_gen_xattr, smoothfs_read_gen_xattr, vfs_getxattr.
  change (0 <? 0) with false. cbn [snd set_field l_gen].
  rewrite !length_le_split. cbn [Nat.ltb Nat.leb Nat.eqb negb].
  by rewrite le_combine_split_id.
Qed.

Lemma alloc_oid_distinct_witness :
  (smoothfs_alloc_oid true 5000000 1 sb_zero).2 <> (smoothfs_alloc_oid true 5000000 1 (sb_zero <| oid_monotonic := 1 |>)).2.
Proof.
  apply alloc_oid_distinct; [lia|lia|]. right. vm_compute. discriminate.
Defined.
