(* ===== verification/Tiers.v ===== *)
(** * Tiers: src/src/smoothfs/probe.c, tier setup in super.c, tier selection in inode.c

    Capability probing, parsing of the [tiers=] mount option, the fill-level
    tests, the choice of the tier for a new file, the tier masks set through
    sysfs, and [statfs].

    [vfs_statfs] and [kern_path] belong to the kernel: a [statfs_fn] gives the
    result of the former for a tier index, a [kern_path] argument the result of
    the latter for a path string. *)
From S2P Require Import Prelude Types.

(** ** Capabilities (smoothfs.h, probe.c) *)

Definition SMOOTHFS_CAPS_REQUIRED : Z :=
  Z.lor (BIT 0) (Z.lor (BIT 1) (Z.lor (BIT 2) (Z.lor (BIT 3) (Z.lor (BIT 4) (Z.lor (BIT 5)
    (Z.lor (BIT 6) (Z.lor (BIT 7) (Z.lor (BIT 8) (Z.lor (BIT 9) (BIT 10)))))))))).
Definition CAP_QUOTA_USER : Z := BIT 11.
Definition CAP_QUOTA_PROJECT : Z := BIT 12.
Definition CAP_REFLINK : Z := BIT 13.
Definition CAP_COPY_FILE_RANGE : Z := BIT 14.
Definition CAP_FSCRYPT : Z := BIT 15.

Definition XFS_SUPER_MAGIC : Z := 0x58465342.
Definition ZFS_SUPER_MAGIC : Z := 0x2fc12fc1.
Definition EXT4_SUPER_MAGIC : Z := 0xEF53.
Definition BTRFS_SUPER_MAGIC : Z := 0x9123683E.
Definition BCACHEFS_SUPER_MAGIC : Z := 0xca451a4e.

Definition smoothfs_caps_for_magic (magic : Z) : Z :=
  if magic =? XFS_SUPER_MAGIC then
    Z.lor SMOOTHFS_CAPS_REQUIRED (Z.lor CAP_QUOTA_USER (Z.lor CAP_QUOTA_PROJECT
      (Z.lor CAP_REFLINK (Z.lor CAP_COPY_FILE_RANGE CAP_FSCRYPT))))
  else if magic =? ZFS_SUPER_MAGIC then
    Z.lor SMOOTHFS_CAPS_REQUIRED (Z.lor CAP_QUOTA_USER CAP_COPY_FILE_RANGE)
  else if magic =? EXT4_SUPER_MAGIC then
    Z.lor SMOOTHFS_CAPS_REQUIRED (Z.lor CAP_QUOTA_USER (Z.lor CAP_QUOTA_PROJECT
      (Z.lor CAP_COPY_FILE_RANGE CAP_FSCRYPT)))
  else if magic =? BTRFS_SUPER_MAGIC then
    Z.lor SMOOTHFS_CAPS_REQUIRED (Z.lor CAP_REFLINK (Z.lor CAP_COPY_FILE_RANGE CAP_FSCRYPT))
  else if magic =? BCACHEFS_SUPER_MAGIC then
    Z.lor SMOOTHFS_CAPS_REQUIRED (Z.lor CAP_REFLINK CAP_COPY_FILE_RANGE)
  else 0.

(** The probe never fails: an unknown filesystem just gets no capability. *)
Definition smoothfs_probe_capabilities (magic : Z) (t : tier) : Z * tier :=
  (0, t <| t_caps := smoothfs_caps_for_magic magic |>).

(** ** Mount options (super.c) *)

(** What [kern_path] finds at a tier path: the path, the magic of its
    superblock, and whether its dentries carry [DCACHE_OP_REVALIDATE]. *)
Record lower_root := LowerRoot { lr_path : path; lr_magic : Z; lr_revalidates : bool }.

Definition smoothfs_lower_has_revalidate (r : lower_root) : bool := lr_revalidates r.

(** [strsep(&cursor, ":")] until exhausted: the pieces between colons. *)
Fixpoint strsep_all (sep : Ascii.ascii) (s : string) : list string :=
  match s with
  | EmptyString => [EmptyString]
  | String c s' =>
      if Ascii.eqb c sep then EmptyString :: strsep_all sep s'
      else match strsep_all sep s' with
           | p :: ps => String c p :: ps
           | [] => [String c EmptyString]
           end
  end.

Definition str_empty (s : string) : bool := bool_decide (s = EmptyString).

(** What the loop over the pieces has so far: the tiers accepted (their number
    is [rank]), [any_lower_revalidates], and the references held on tier root
    paths, which [kern_path] takes and [path_put] drops. *)
Record resolving := Resolving { rs_tiers : list tier; rs_reval : bool; rs_refs : Z }.
#[export] Instance resolving_eta : Eta resolving := fun r => Resolving (rs_tiers r) (rs_reval r) (rs_refs r).

Definition put_tier_path (s : resolving) : resolving := s <| rs_refs := rs_refs s - 1 |>.

(** The loop over the pieces, to its [break] or its end.  A tier that fails its
    probe or lacks a capability is put at once and does not count in [rank]. *)
Fixpoint resolve_tiers_loop (kern_path : string -> result lower_root)
    (ps : list string) (s : resolving) : Z * resolving :=
  match ps with
  | [] => (0, s)
  | p :: ps =>
      if str_empty p then resolve_tiers_loop kern_path ps s
      else if SMOOTHFS_MAX_TIERS <=? Z.of_nat (length (rs_tiers s)) then (- E2BIG, s)
      else match kern_path p with
           | Err e => (e, s)
           | Ok root =>
               let s := s <| rs_refs := rs_refs s + 1 |> in
               let rank := Z.of_nat (length (rs_tiers s)) in
               let (err, t) := smoothfs_probe_capabilities (lr_magic root)
                                 (Tier rank 0 (lr_path root) 0 0) in
               if negb (err =? 0) then (err, put_tier_path s)
               else if negb (Z.land (t_caps t) SMOOTHFS_CAPS_REQUIRED =? SMOOTHFS_CAPS_REQUIRED)
               then (- EOPNOTSUPP, put_tier_path s)
               else resolve_tiers_loop kern_path ps
                      (s <| rs_reval := rs_reval s || smoothfs_lower_has_revalidate root |>
                         <| rs_tiers := rs_tiers s ++ [t] |>)
           end
  end.

(** [while (rank > 0) { --rank; path_put(&sbi->tiers[rank].lower_path); }] *)
Fixpoint put_resolved_tiers (rank : nat) (s : resolving) : resolving :=
  match rank with O => s | S rank => put_resolved_tiers rank (put_tier_path s) end.

(** [mem]: the copy of the option can be allocated; [refs]: the references held
    before.  The array and the flag are written as the loop goes, the count only
    at the end. *)
Definition smoothfs_resolve_tiers (kern_path : string -> result lower_root) (mem : bool)
    (sbi : sb_info) (refs : Z) (tiers_csv : option string) : Z * sb_info * Z :=
  match tiers_csv with
  | None => (- EINVAL, sbi, refs)
  | Some csv =>
      if str_empty csv then (- EINVAL, sbi, refs)
      else if negb mem then (- ENOMEM, sbi, refs)
      else
        let (err, s) := resolve_tiers_loop kern_path (strsep_all (Ascii.ascii_of_nat 58) csv)
                          (Resolving [] (any_lower_revalidates sbi) refs) in
        let rank := length (rs_tiers s) in
        let sbi := sbi <| tiers := rs_tiers s |> <| any_lower_revalidates := rs_reval s |> in
        if negb (err =? 0) then (err, sbi, rs_refs (put_resolved_tiers rank s))
        else if (rank =? 0)%nat then (- EINVAL, sbi, rs_refs s)
        else (0, sbi <| ntiers := Z.of_nat rank |> <| fastest_tier := 0 |>, rs_refs s)
  end.

Definition smoothfs_parse_create_policy (sbi : sb_info) (policy : option string)
  : Z * sb_info :=
  let s := default EmptyString policy in
  if str_empty s || bool_decide (s = "fastest"%string)
  then (0, sbi <| create_policy := SMOOTHFS_CREATE_POLICY_FASTEST |>)
  else if bool_decide (s = "high-water"%string) || bool_decide (s = "high_water"%string)
  then (0, sbi <| create_policy := SMOOTHFS_CREATE_POLICY_HIGH_WATER |>)
  else (- EINVAL, sbi).

(** ** Fill level *)

(** The members of [struct kstatfs] the code reads. *)
Record kstatfs := KStatfs {
  f_blocks : Z; f_bfree : Z; f_bavail : Z; f_bsize : Z; f_files : Z; f_ffree : Z }.
#[export] Instance kstatfs_eta : Eta kstatfs := fun r =>
  KStatfs (f_blocks r) (f_bfree r) (f_bavail r) (f_bsize r) (f_files r) (f_ffree r).

Definition statfs_fn := Z -> result kstatfs.

Definition SMOOTHFS_DEFAULT_FULL_PCT : Z := 98.

Definition effective_pct (pct : Z) : Z :=
  if (pct =? 0) || (100 <? pct) then SMOOTHFS_DEFAULT_FULL_PCT else pct.

(** [(f_blocks - f_bavail) * 100 >= f_blocks * full_pct] in [u64]. *)
Definition over_pct (st : kstatfs) (pct : Z) : bool :=
  u64 (f_blocks st * effective_pct pct) <=? u64 (u64 (f_blocks st - f_bavail st) * 100).

(** inode.c: a tier whose statfs fails counts as having room. *)
Definition smoothfs_tier_near_enospc (statfs : statfs_fn) (sbi : sb_info) (t : Z) : bool :=
  match statfs t with
  | Err _ => false
  | Ok st => if f_blocks st =? 0 then false else over_pct st (write_staging_full_pct sbi)
  end.

(** file.c: its namesake; here a failing statfs counts as full. *)
Definition file_tier_near_enospc (statfs : statfs_fn) (sbi : sb_info) (t : Z) : bool :=
  if ntiers sbi <=? t then true
  else match statfs t with
       | Err _ => true
       | Ok st => if f_blocks st =? 0 then true else over_pct st (write_staging_full_pct sbi)
       end.

(** super.c: pressure on the fastest tier, only while staged work exists. *)
Definition smoothfs_write_staging_fastest_pressure (statfs : statfs_fn) (has_work : bool)
    (sbi : sb_info) : bool :=
  if negb has_work then false
  else if ntiers sbi <=? fastest_tier sbi then false
  else match statfs (fastest_tier sbi) with
       | Err _ => false
       | Ok st => if f_blocks st =? 0 then false else over_pct st (write_staging_full_pct sbi)
       end.

(** ** Choosing the tier of a new file (inode.c) *)

(** The first loop: which tiers answered, the largest size, and the tier with
    the most available blocks. *)
Record hw_scan := HwScan { hw_ok : gmap Z kstatfs; max_blocks : Z; best_avail : Z; best_tier : Z }.
#[export] Instance hw_scan_eta : Eta hw_scan := fun r =>
  HwScan (hw_ok r) (max_blocks r) (best_avail r) (best_tier r).

Definition hw_scan_step (statfs : statfs_fn) (acc : hw_scan) (t : Z) : hw_scan :=
  match statfs t with
  | Err _ => acc
  | Ok st =>
      if f_blocks st =? 0 then acc
      else
        let acc := acc <| hw_ok := <[t := st]> (hw_ok acc) |> in
        let acc := if max_blocks acc <? f_blocks st then acc <| max_blocks := f_blocks st |> else acc in
        if best_avail acc <? f_bavail st
        then acc <| best_avail := f_bavail st |> <| best_tier := t |> else acc
  end.

(** One pass of the inner [for]: the first eligible tier above the mark. *)
Definition hw_eligible (statfs : statfs_fn) (sbi : sb_info) (ok : gmap Z kstatfs) (water t : Z) : bool :=
  match ok !! t with
  | None => false
  | Some st =>
      if negb (t =? ntiers sbi - 1) && smoothfs_tier_near_enospc statfs sbi t then false
      else water <? f_bavail st
  end.

(** [while (water > 0) { ...; water /= 2; }]: at most 64 halvings of a [u64]. *)
Fixpoint hw_water_loop (fuel : nat) (statfs : statfs_fn) (sbi : sb_info) (sc : hw_scan) (water : Z) : Z :=
  match fuel with
  | O => best_tier sc
  | S fuel =>
      if water <=? 0 then best_tier sc
      else match list_find (fun t => hw_eligible statfs sbi (hw_ok sc) water t = true)
                   (tiers_from 0 (ntiers sbi)) with
           | Some (_, t) => t
           | None => hw_water_loop fuel statfs sbi sc (water / 2)
           end
  end.

(** [oom]: one of the two [kcalloc]s failed. *)
Definition smoothfs_select_high_water_tier (statfs : statfs_fn) (oom : bool) (sbi : sb_info) : Z :=
  if oom then fastest_tier sbi
  else
    let sc := foldl (hw_scan_step statfs) (HwScan ∅ 0 0 (fastest_tier sbi))
                (tiers_from 0 (ntiers sbi)) in
    hw_water_loop 64 statfs sbi sc (max_blocks sc / 2).

Definition smoothfs_select_create_tier (statfs : statfs_fn) (oom : bool) (sbi : sb_info) : Z :=
  if cache_mode sbi then ntiers sbi - 1
  else if ntiers sbi <=? 1 then fastest_tier sbi
  else if create_policy sbi =? SMOOTHFS_CREATE_POLICY_HIGH_WATER
  then smoothfs_select_high_water_tier statfs oom sbi
  else match list_find (fun t => (t =? ntiers sbi - 1)
                                 || negb (smoothfs_tier_near_enospc statfs sbi t) = true)
               (tiers_from 0 (ntiers sbi)) with
       | Some (_, t) => t
       | None => fastest_tier sbi
       end.

(** ** sysfs controls (super.c) *)

Definition write_staging_full_pct_store (sbi : sb_info) (parsed : result Z) (count : Z)
  : Z * sb_info :=
  match parsed with
  | Err e => (e, sbi)
  | Ok pct =>
      if (pct <? 1) || (100 <? pct) then (- EINVAL, sbi)
      else (count, sbi <| write_staging_full_pct := u8 pct |>)
  end.

Definition write_staging_enabled_store (sbi : sb_info) (parsed : result bool) (count : Z)
  : Z * sb_info :=
  match parsed with
  | Err e => (e, sbi)
  | Ok b => (count, sbi <| write_staging_enabled := b |>)
  end.

Definition metadata_active_tier_mask_store (sbi : sb_info) (parsed : result Z) (count : Z)
  : Z * sb_info :=
  match parsed with
  | Err e => (e, sbi)
  | Ok mask =>
      if (ntiers sbi =? 0) || (SMOOTHFS_MAX_TIERS <? ntiers sbi) then (- EINVAL, sbi)
      else
        let valid_mask := BIT (ntiers sbi) - 1 in
        let mask := Z.land mask valid_mask in
        let mask := Z.lor mask (BIT (fastest_tier sbi)) in
        let mask := if cache_mode sbi then valid_mask else mask in
        (count, sbi <| metadata_active_tier_mask := mask |>)
  end.

(** The first half of the store, up to the new mask; the whole handler, with the
    two drains that follow, is in Attrs.v. *)
Definition write_staging_drain_active_tier_mask_store_mask (sbi : sb_info) (parsed : result Z)
    (count : Z) : Z * sb_info :=
  match parsed with
  | Err e => (e, sbi)
  | Ok mask =>
      if (ntiers sbi =? 0) || (SMOOTHFS_MAX_TIERS <? ntiers sbi) then (- EINVAL, sbi)
      else
        let valid_mask := BIT (ntiers sbi) - 1 in
        let mask := Z.land mask valid_mask in
        let mask := Z.lor mask (BIT (fastest_tier sbi)) in
        let mask := if cache_mode sbi then Z.lor mask (BIT (ntiers sbi - 1)) else mask in
        (count, sbi <| write_staging_drain_active_tier_mask := mask |>)
  end.

Definition write_staging_drainable_tier_mask_show (has_work : bool) (sbi : sb_info) : Z :=
  if has_work && (0 <? ntiers sbi) && (ntiers sbi <=? SMOOTHFS_MAX_TIERS)
  then Z.ldiff (Z.land (write_staging_drain_active_tier_mask sbi) (BIT (ntiers sbi) - 1))
         (BIT (fastest_tier sbi))
  else 0.

(** ** statfs (super.c) *)

Definition PAGE_SIZE : Z := 4096.

Definition statfs_add (buf tmp : kstatfs) : kstatfs :=
  KStatfs (u64 (f_blocks buf + u64 (f_blocks tmp * f_bsize tmp) / PAGE_SIZE))
          (u64 (f_bfree buf + u64 (f_bfree tmp * f_bsize tmp) / PAGE_SIZE))
          (u64 (f_bavail buf + u64 (f_bavail tmp * f_bsize tmp) / PAGE_SIZE))
          (f_bsize buf) (u64 (f_files buf + f_files tmp)) (u64 (f_ffree buf + f_ffree tmp)).

Fixpoint statfs_loop (statfs : statfs_fn) (cache : bool) (ts : list Z) (buf : kstatfs)
    (sbi : sb_info) : sb_info * result kstatfs :=
  match ts with
  | [] => (sbi, Ok buf)
  | t :: ts =>
      match statfs t with
      | Err e =>
          let sbi := sbi <| events := events sbi ++ [EV_TIER_FAULT t] |> in
          if cache then (sbi, Err e) else statfs_loop statfs cache ts buf sbi
      | Ok tmp => statfs_loop statfs cache ts (statfs_add buf tmp) sbi
      end
  end.

Definition smoothfs_statfs (statfs : statfs_fn) (sbi : sb_info) : sb_info * result kstatfs :=
  let from := if cache_mode sbi then ntiers sbi - 1 else 0 in
  statfs_loop statfs (cache_mode sbi) (tiers_from from (ntiers sbi))
    (KStatfs 0 0 0 PAGE_SIZE 0 0) sbi.

(** ** Properties of tier setup *)

(** The tier paths an option names: its non-empty pieces, in order. *)
Definition tier_pieces (csv : string) : list string :=
  filter (fun p => p <> EmptyString) (strsep_all (Ascii.ascii_of_nat 58) csv).

(** Tier [i] as resolved from the pieces [ps]: its rank is its index, its path
    is what [kern_path] found at piece [i], and that is on a filesystem of the
    compatibility matrix, which gives it every required capability. *)
Definition tier_ok (kern_path : string -> result lower_root) (ps : list string) (i : nat) (t : tier) : Prop :=
  t_rank t = Z.of_nat i
  /\ Z.land (t_caps t) SMOOTHFS_CAPS_REQUIRED = SMOOTHFS_CAPS_REQUIRED
  /\ exists p root, ps !! i = Some p /\ kern_path p = Ok root /\ t_path t = lr_path root
       /\ t_caps t = smoothfs_caps_for_magic (lr_magic root)
       /\ lr_magic root ∈ [XFS_SUPER_MAGIC; ZFS_SUPER_MAGIC; EXT4_SUPER_MAGIC;
                           BTRFS_SUPER_MAGIC; BCACHEFS_SUPER_MAGIC].

Lemma caps_nonzero_supported magic :
  Z.land (smoothfs_caps_for_magic magic) SMOOTHFS_CAPS_REQUIRED = SMOOTHFS_CAPS_REQUIRED ->
  magic ∈ [XFS_SUPER_MAGIC; ZFS_SUPER_MAGIC; EXT4_SUPER_MAGIC; BTRFS_SUPER_MAGIC;
           BCACHEFS_SUPER_MAGIC].
Proof.
  unfold smoothfs_caps_for_magic. rewrite !elem_of_cons.
  repeat (case_goal; to_prop; [subst; tauto|]). rewrite Z.land_0_l. discriminate.
Qed.

(** The tiers of the loop, at any point: one for each piece [done_] seen, and a
    reference for each on top of the [refs] held before. *)
Record loop_ok (kp : string -> result lower_root) (refs : Z) (done_ : list string) (s : resolving) : Prop := LoopOk {
  lo_tiers : forall i t, rs_tiers s !! i = Some t -> tier_ok kp done_ i t;
  lo_length : length (rs_tiers s) = length done_;
  lo_max : Z.of_nat (length (rs_tiers s)) <= SMOOTHFS_MAX_TIERS;
  lo_refs : rs_refs s = refs + Z.of_nat (length (rs_tiers s));
}.

Lemma tier_ok_app kp ps qs i t : tier_ok kp ps i t -> tier_ok kp (ps ++ qs) i t.
Proof.
  intros (R & C & p & root & Hp & H). split; [done|]. split; [done|]. exists p, root.
  split; [by apply lookup_app_l_Some|done].
Qed.

Lemma resolve_tiers_loop_ok kp refs ps : (forall p e, kp p = Err e -> e <> 0) -> forall done_ s err s',
  loop_ok kp refs done_ s -> resolve_tiers_loop kp ps s = (err, s') ->
  if err =? 0 then loop_ok kp refs (done_ ++ filter (fun p => p <> EmptyString) ps) s'
  else rs_refs s' = refs + Z.of_nat (length (rs_tiers s')).
Proof.
  intros Hkp. induction ps as [|p ps IH]; intros done_ s err s' L Heq; cbn [resolve_tiers_loop] in Heq.
  { injection Heq as <- <-. rewrite app_nil_r. exact L. }
  unfold str_empty in Heq. rewrite filter_cons. destruct (decide (p = EmptyString)) as [->|Hp].
  { rewrite bool_decide_true in Heq by done. rewrite decide_False by auto. by eapply IH. }
  rewrite bool_decide_false in Heq by done. rewrite decide_True by done. destruct L as [Ht Hl Hm Hr].
  case_hyp Heq; [injection Heq as <- <-; exact Hr|]. to_prop.
  destruct (kp p) as [e|root] eqn:Ek.
  { injection Heq as <- <-. destruct (Z.eqb_spec e 0); [by eapply Hkp in Ek|exact Hr]. }
  cbn -[smoothfs_caps_for_magic Z.add Z.sub] in Heq. case_hyp Heq; [injection Heq as <- <-; change (- EOPNOTSUPP =? 0) with false; cbn -[Z.add Z.sub]; lia|]. to_prop.
  rewrite cons_middle, app_assoc. eapply IH; [|exact Heq].
  constructor; cbn -[smoothfs_caps_for_magic]; [|rewrite !length_app; cbn; unfold SMOOTHFS_MAX_TIERS in *; lia..].
  intros i t Hi. apply lookup_app_Some in Hi as [Hi|[Hge Hi]]; [by apply tier_ok_app, Ht|].
  apply list_lookup_singleton_Some in Hi as [Hi <-]. split; [cbn; lia|]. split; [done|].
  exists p, root. split_and!; try done; [|by apply caps_nonzero_supported].
  rewrite lookup_app_r by lia. by replace (i - length done_)%nat with 0%nat by lia.
Qed.

Lemma put_resolved_refs n : forall s, rs_refs (put_resolved_tiers n s) = rs_refs s - Z.of_nat n.
Proof. induction n as [|n IH]; intros s; cbn [put_resolved_tiers]; [lia|]. rewrite IH. cbn. lia. Qed.

(** A tier list that is accepted at mount yields between one and eight tiers,
    ranked in order, each a directory that was looked up, with all required
    capabilities; the first is the fastest. *)
Theorem resolve_tiers_sound kp mem sbi refs csv err sbi' refs' :
  (forall p e, kp p = Err e -> e <> 0) ->
  smoothfs_resolve_tiers kp mem sbi refs csv = (err, sbi', refs') ->
  if err =? 0
  then 1 <= ntiers sbi' <= SMOOTHFS_MAX_TIERS
       /\ ntiers sbi' = Z.of_nat (length (tiers sbi')) /\ fastest_tier sbi' = 0
       /\ length (tiers sbi') = length (tier_pieces (default EmptyString csv))
       /\ (forall i t, tiers sbi' !! i = Some t -> tier_ok kp (tier_pieces (default EmptyString csv)) i t)
       /\ refs' = refs + ntiers sbi'
  else refs' = refs.
Proof.
  intros Hkp. unfold smoothfs_resolve_tiers. destruct csv as [csv|]; [|by intros [= <- _ <-]].
  destruct (str_empty csv); [by intros [= <- _ <-]|]. destruct mem; cbn [negb]; [|by intros [= <- _ <-]].
  destruct (resolve_tiers_loop _ _ _) as [e s] eqn:E. cbv zeta.
  apply (resolve_tiers_loop_ok kp refs _ Hkp []) in E; [|constructor; cbn; [done|done|done|lia]].
  destruct (Z.eqb_spec e 0) as [->|Hne]; cbn [negb].
  - destruct E as [H1 H2 H3 H4]. destruct (Nat.eqb_spec (length (rs_tiers s)) 0) as [Hz|Hz]; intros [= <- <- <-]; cbn; [change (- EINVAL =? 0) with false; cbn; lia|].
    split_and!; try done; lia.
  - intros [= <- _ <-]. destruct (Z.eqb_spec e 0); [done|]. rewrite put_resolved_refs. lia.
Qed.

Definition demo_kern_path (s : string) : result lower_root :=
  if bool_decide (s = "/ssd"%string) then Ok (LowerRoot (Path 10 100) XFS_SUPER_MAGIC false)
  else if bool_decide (s = "/hdd"%string) then Ok (LowerRoot (Path 11 110) ZFS_SUPER_MAGIC false)
  else Err (- ENOENT).

Lemma demo_kern_path_errors p e : demo_kern_path p = Err e -> e <> 0.
Proof. unfold demo_kern_path. repeat case_goal; [done|done|by intros [= <-]]. Qed.

Lemma resolve_tiers_sound_witness :
  exists sbi', smoothfs_resolve_tiers demo_kern_path true sb_zero 0 (Some "/ssd::/hdd"%string) = (0, sbi', 2)
  /\ 1 <= ntiers sbi' <= SMOOTHFS_MAX_TIERS
  /\ (forall i t, tiers sbi' !! i = Some t -> tier_ok demo_kern_path ["/ssd"; "/hdd"]%string i t).
Proof.
  eexists. split; [reflexivity|].
  pose proof (resolve_tiers_sound demo_kern_path true sb_zero 0 (Some "/ssd::/hdd"%string) 0 _ 2 demo_kern_path_errors eq_refl)
    as (H1 & _ & _ & _ & H2 & _). split; [exact H1|exact H2].
Defined.

(** A bad tier after a good one: the reference to the good one is dropped. *)
Example refused_tiers_are_put :
  (fun r => (r.1.1, r.2)) (smoothfs_resolve_tiers demo_kern_path true sb_zero 0 (Some "/ssd:/nothing"%string)) = (- ENOENT, 0)
  /\ tiers (snd (fst (smoothfs_resolve_tiers demo_kern_path true sb_zero 0 (Some "/ssd:/nothing"%string)))) <> [].
Proof. split; [reflexivity|discriminate]. Qed.

(** ** Properties of tier selection *)

Lemma list_find_seqZ_first (P : Z -> Prop) `{forall x, Decision (P x)} from n k t :
  list_find P (tiers_from from n) = Some (k, t) ->
  from <= t < n /\ P t /\ forall t', from <= t' < t -> ~ P t'.
Proof.
  intros Hf. apply list_find_Some in Hf as (Hk & HP & Hno).
  unfold tiers_from in *. apply lookup_seqZ in Hk as [-> Hk]. split; [lia|]. split; [done|].
  intros t' Ht' Hp. apply (Hno (Z.to_nat (t' - from)) t'); [|lia|done].
  apply lookup_seqZ. lia.
Qed.

Lemma list_find_seqZ_None (P : Z -> Prop) `{forall x, Decision (P x)} from n t :
  list_find P (tiers_from from n) = None -> from <= t < n -> ~ P t.
Proof.
  intros Hf Ht. apply list_find_None in Hf. rewrite Forall_forall in Hf.
  apply Hf. by apply elem_of_tiers_from.
Qed.

(** With the fastest-first policy a new object goes to the first tier that is
    not nearly full, the last tier if all others are; every faster tier was
    nearly full. *)
Theorem select_create_tier_fastest_with_room statfs oom sbi :
  cache_mode sbi = false -> 1 < ntiers sbi ->
  create_policy sbi = SMOOTHFS_CREATE_POLICY_FASTEST ->
  let t := smoothfs_select_create_tier statfs oom sbi in
  0 <= t < ntiers sbi
  /\ (t = ntiers sbi - 1 \/ smoothfs_tier_near_enospc statfs sbi t = false)
  /\ (forall faster, 0 <= faster < t -> smoothfs_tier_near_enospc statfs sbi faster = true).
Proof.
  intros Hc Hn Hp t. unfold t, smoothfs_select_create_tier. rewrite Hc, Hp.
  destruct (Z.leb_spec (ntiers sbi) 1); [lia|].
  change (SMOOTHFS_CREATE_POLICY_FASTEST =? SMOOTHFS_CREATE_POLICY_HIGH_WATER) with false. simpl.
  destruct (list_find _ _) as [[k r]|] eqn:E.
  - apply list_find_seqZ_first in E as (Hr & HP & Hno). split; [done|]. split.
    + apply orb_true_iff in HP as [HP|HP]; to_prop; auto.
    + intros f Hf. specialize (Hno f Hf). apply not_true_is_false in Hno. by to_prop.
  - apply list_find_seqZ_None with (t := ntiers sbi - 1) in E; [|lia].
    exfalso. apply E. by rewrite Z.eqb_refl.
Qed.

Definition demo_sbi : sb_info :=
  sb_zero <| ntiers := 2 |> <| write_staging_full_pct := 98 |>
    <| tiers := [Tier 0 0 (Path 10 100) 0 0; Tier 1 0 (Path 11 110) 0 0] |>.
Definition demo_statfs : statfs_fn := fun t =>
  if t =? 0 then Ok (KStatfs 100 1 1 4096 10 5) else Ok (KStatfs 1000 900 900 4096 10 5).

Lemma select_create_tier_fastest_with_room_witness :
  smoothfs_select_create_tier demo_statfs false demo_sbi = 1
  /\ let t := smoothfs_select_create_tier demo_statfs false demo_sbi in
     0 <= t < ntiers demo_sbi
     /\ (t = ntiers demo_sbi - 1 \/ smoothfs_tier_near_enospc demo_statfs demo_sbi t = false)
     /\ (forall faster, 0 <= faster < t ->
           smoothfs_tier_near_enospc demo_statfs demo_sbi faster = true).
Proof.
  split; [reflexivity|].
  apply (select_create_tier_fastest_with_room demo_statfs false demo_sbi); reflexivity.
Defined.

(** The high-water scan only ever names tiers of the pool. *)
Lemma hw_scan_best_range statfs sbi l : forall acc,
  (forall t, t ∈ l -> 0 <= t < ntiers sbi) -> 0 <= best_tier acc < ntiers sbi ->
  0 <= best_tier (foldl (hw_scan_step statfs) acc l) < ntiers sbi.
Proof.
  induction l as [|t l IH]; intros acc Hl Hb; simpl; [done|].
  apply IH; [intros; apply Hl; by right|].
  assert (0 <= t < ntiers sbi) by (apply Hl; left).
  unfold hw_scan_step. repeat case_goal; simpl; lia.
Qed.

Lemma hw_scan_ok statfs l : forall acc t st,
  (forall t st, hw_ok acc !! t = Some st -> f_blocks st <= max_blocks acc) ->
  (forall t st, hw_ok (foldl (hw_scan_step statfs) acc l) !! t = Some st ->
     f_blocks st <= max_blocks (foldl (hw_scan_step statfs) acc l)) /\
  (hw_ok acc !! t = Some st \/ (t ∈ l /\ statfs t = Ok st /\ f_blocks st <> 0) ->
   (forall st', statfs t = Ok st' -> st' = st) ->
   hw_ok (foldl (hw_scan_step statfs) acc l) !! t = Some st).
Proof.
  induction l as [|a l IH]; intros acc t st Hacc; cbn [foldl].
  { split; [done|]. intros [H|[H _]] _; [done|by apply not_elem_of_nil in H]. }
  assert (forall t st, hw_ok (hw_scan_step statfs acc a) !! t = Some st ->
            f_blocks st <= max_blocks (hw_scan_step statfs acc a)) as Hstep.
  { intros t' st'. unfold hw_scan_step. destruct (statfs a) as [|s] eqn:Es; [apply Hacc|].
    destruct (f_blocks s =? 0); [apply Hacc|].
    repeat case_goal; simpl in *; to_prop; intros H;
      (apply lookup_insert_Some in H as [[<- <-]|[_ H]]; [lia|apply Hacc in H; lia]). }
  destruct (IH (hw_scan_step statfs acc a) t st Hstep) as [H1 H2]. split; [done|].
  intros Hin Huniq. apply H2; [|done].
  destruct (decide (t = a)) as [->|Hne].
  - left. unfold hw_scan_step. destruct Hin as [Hin|(Hin & Hst & Hb)].
    + destruct (statfs a) as [|s] eqn:Es; [done|]. destruct (f_blocks s =? 0) eqn:E0; [done|].
      rewrite (Huniq s eq_refl) in *. repeat case_goal; simpl; by rewrite lookup_insert_eq.
    + rewrite Hst. destruct (Z.eqb_spec (f_blocks st) 0); [done|].
      repeat case_goal; simpl; by rewrite lookup_insert_eq.
  - destruct Hin as [Hin|(Hin & Hst)].
    + left. unfold hw_scan_step. repeat case_goal; simpl; try done; by rewrite lookup_insert_ne.
    + right. apply elem_of_cons in Hin as [?|Hin]; done.
Qed.

Lemma hw_water_loop_range fuel statfs sbi sc water :
  0 <= best_tier sc < ntiers sbi -> 0 <= hw_water_loop fuel statfs sbi sc water < ntiers sbi.
Proof.
  revert water. induction fuel as [|fuel IH]; intros water Hb; simpl; [done|].
  destruct (water <=? 0); [done|]. destruct (list_find _ _) as [[k t]|] eqn:E; [|by apply IH].
  by apply list_find_seqZ_first in E as (? & _).
Qed.

(** Fuel is enough: 64 halvings exhaust any [u64] level, so as soon as one tier
    is eligible at level 1 the loop returns an eligible tier. *)
Lemma hw_water_loop_finds statfs sbi sc t1 : forall fuel water,
  0 < water < 2 ^ Z.of_nat fuel -> 0 <= t1 < ntiers sbi ->
  hw_eligible statfs sbi (hw_ok sc) 1 t1 = true ->
  exists w, 0 < w /\ hw_eligible statfs sbi (hw_ok sc) w (hw_water_loop fuel statfs sbi sc water) = true.
Proof.
  induction fuel as [|fuel IH]; intros water Hw Ht He; [simpl in Hw; lia|].
  cbn [hw_water_loop]. destruct (Z.leb_spec water 0); [lia|].
  destruct (list_find _ _) as [[k t]|] eqn:E.
  - apply list_find_seqZ_first in E as (_ & HP & _). by exists water.
  - destruct (decide (water = 1)) as [->|].
    + by apply list_find_seqZ_None with (t := t1) in E.
    + apply IH; [|done|done]. rewrite Nat2Z.inj_succ, Z.pow_succ_r in Hw by lia.
      split; [apply Z.div_str_pos; lia|]. apply Z.div_lt_upper_bound; lia.
Qed.

Lemma hw_scan_sound statfs l : forall acc,
  (forall t st, hw_ok acc !! t = Some st -> statfs t = Ok st) -> 0 <= max_blocks acc < 2 ^ 64 ->
  (forall t st, statfs t = Ok st -> f_blocks st < 2 ^ 64) ->
  (forall t st, hw_ok (foldl (hw_scan_step statfs) acc l) !! t = Some st -> statfs t = Ok st)
  /\ 0 <= max_blocks (foldl (hw_scan_step statfs) acc l) < 2 ^ 64.
Proof.
  induction l as [|a l IH]; intros acc Hok Hm Hs; cbn [foldl]; [done|].
  apply IH; [| |done].
  - intros t st. unfold hw_scan_step. destruct (statfs a) as [|s] eqn:Es; [apply Hok|].
    destruct (f_blocks s =? 0); [apply Hok|].
    repeat case_goal; simpl in *; intros H;
      (apply lookup_insert_Some in H as [[<- <-]|[_ H]]; auto).
  - unfold hw_scan_step. destruct (statfs a) as [|s] eqn:Es; [done|].
    pose proof (Hs _ _ Es). repeat case_goal; simpl in *; to_prop; lia.
Qed.

Lemma hw_eligible_elim statfs sbi ok w t :
  0 < w -> (forall t st, ok !! t = Some st -> statfs t = Ok st) ->
  hw_eligible statfs sbi ok w t = true ->
  (t = ntiers sbi - 1 \/ smoothfs_tier_near_enospc statfs sbi t = false)
  /\ exists st, statfs t = Ok st /\ 1 < f_bavail st.
Proof.
  unfold hw_eligible. intros Hw Hs. destruct (ok !! t) as [st|] eqn:E; [|done].
  apply Hs in E. destruct (Z.eqb_spec t (ntiers sbi - 1)) as [->|]; cbn [negb andb].
  - intros ?; to_prop. split; [by left|]. exists st. split; [done|lia].
  - destruct (smoothfs_tier_near_enospc statfs sbi t); [done|].
    intros ?; to_prop. split; [by right|]. exists st. split; [done|lia].
Qed.

Lemma hw_acc0_empty m b best t st :
  hw_ok (HwScan ∅ m b best) !! t = Some st -> False.
Proof. cbn [hw_ok]. by rewrite lookup_empty. Qed.

(** With the high-water policy a new object goes to a tier of the pool; when
    some tier has room, it goes to one with room that is not nearly full (the
    last tier, which is never treated as full, included). *)
Theorem select_high_water_avoids_full_tiers statfs sbi :
  0 <= fastest_tier sbi < ntiers sbi ->
  (forall t st, statfs t = Ok st -> 0 <= f_bavail st <= f_blocks st /\ f_blocks st < 2 ^ 64) ->
  let t := smoothfs_select_high_water_tier statfs false sbi in
  0 <= t < ntiers sbi
  /\ ((exists t1 st, 0 <= t1 < ntiers sbi /\ statfs t1 = Ok st /\ 1 < f_bavail st
        /\ smoothfs_tier_near_enospc statfs sbi t1 = false) ->
      (t = ntiers sbi - 1 \/ smoothfs_tier_near_enospc statfs sbi t = false)
      /\ exists st, statfs t = Ok st /\ 1 < f_bavail st).
Proof.
  intros Hf Hs. cbv zeta. unfold smoothfs_select_high_water_tier.
  set (acc0 := HwScan ∅ 0 0 (fastest_tier sbi)).
  set (sc := foldl _ acc0 _).
  assert (0 <= best_tier sc < ntiers sbi) as Hb.
  { apply hw_scan_best_range; [|done]. intros t. by rewrite elem_of_tiers_from. }
  split; [by apply hw_water_loop_range|].
  intros (t1 & st & Ht1 & Hst & Hav & Hfull). pose proof (Hs _ _ Hst) as Hbl.
  destruct (hw_scan_sound statfs (tiers_from 0 (ntiers sbi)) acc0) as [Hsound Hmax];
    [by intros ? ? []%hw_acc0_empty|simpl; lia|intros t' st' ?%Hs; lia|]. fold sc in Hsound, Hmax.
  destruct (hw_scan_ok statfs (tiers_from 0 (ntiers sbi)) acc0 t1 st) as [Hle Hin];
    [by intros ? ? []%hw_acc0_empty|]. fold sc in Hle, Hin.
  assert (hw_ok sc !! t1 = Some st) as Hlk.
  { apply Hin; [|by intros ? H; rewrite Hst in H; injection H].
    right. rewrite elem_of_tiers_from. split_and!; try done; lia. }
  pose proof (Hle _ _ Hlk).
  destruct (hw_water_loop_finds statfs sbi sc t1 64 (max_blocks sc / 2)) as (w & Hw & Hel); [|done| |].
  - split; [apply Z.div_str_pos; lia|]. apply Z.div_lt_upper_bound; lia.
  - unfold hw_eligible. rewrite Hlk, Hfull, andb_false_r. lia.
  - by eapply hw_eligible_elim in Hel.
Qed.

Lemma select_high_water_avoids_full_tiers_witness :
  smoothfs_select_high_water_tier demo_statfs false demo_sbi = 1
  /\ smoothfs_tier_near_enospc demo_statfs demo_sbi 0 = true
  /\ let t := smoothfs_select_high_water_tier demo_statfs false demo_sbi in
     0 <= t < ntiers demo_sbi
     /\ ((exists t1 st, 0 <= t1 < ntiers demo_sbi /\ demo_statfs t1 = Ok st /\ 1 < f_bavail st
           /\ smoothfs_tier_near_enospc demo_statfs demo_sbi t1 = false) ->
         (t = ntiers demo_sbi - 1 \/ smoothfs_tier_near_enospc demo_statfs demo_sbi t = false)
         /\ exists st, demo_statfs t = Ok st /\ 1 < f_bavail st).
Proof.
  split; [reflexivity|]. split; [reflexivity|].
  apply (select_high_water_avoids_full_tiers demo_statfs demo_sbi); [simpl; lia|].
  intros t st. unfold demo_statfs. destruct (t =? 0); intros [= <-]; simpl; lia.
Defined.

(** ** Masks *)

Lemma mask_testbit n t : 0 <= n -> 0 <= t -> Z.testbit (BIT n - 1) t = (t <? n).
Proof.
  intros Hn Ht. unfold BIT. rewrite Z.shiftl_1_l.
  replace (2 ^ n - 1) with (Z.ones n) by (rewrite Z.ones_equiv; lia).
  destruct (Z.ltb_spec t n); [by apply Z.ones_spec_low|apply Z.ones_spec_high; lia].
Qed.

Lemma BIT_testbit n t : 0 <= n -> Z.testbit (BIT n) t = (n =? t).
Proof. intros. unfold BIT. rewrite Z.shiftl_1_l. by apply Z.pow2_bits_eqb. Qed.

Lemma metadata_tier_active_iff sbi t :
  0 <= t -> smoothfs_metadata_tier_active sbi t = true <->
  t < ntiers sbi /\ (t = fastest_tier sbi \/ Z.testbit (metadata_active_tier_mask sbi) t = true).
Proof.
  intros. unfold smoothfs_metadata_tier_active.
  destruct (Z.leb_spec (ntiers sbi) t); [split; [done|lia]|].
  destruct (Z.eqb_spec t (fastest_tier sbi)); [naive_solver|].
  split; [auto|]. by intros [_ [|]].
Qed.

(** After a store to the active-metadata-tier mask a tier is active exactly when
    it exists and is the fastest, has its bit set, or the pool is in cache mode;
    bits of absent tiers are dropped. *)
Theorem metadata_mask_store_active sbi mask count :
  0 < ntiers sbi <= SMOOTHFS_MAX_TIERS -> 0 <= fastest_tier sbi < ntiers sbi ->
  exists sbi', metadata_active_tier_mask_store sbi (Ok mask) count = (count, sbi')
  /\ forall t, 0 <= t ->
     (smoothfs_metadata_tier_active sbi' t = true <->
      t < ntiers sbi /\ (cache_mode sbi = true \/ t = fastest_tier sbi \/ Z.testbit mask t = true))
     /\ (Z.testbit (metadata_active_tier_mask sbi') t = true -> t < ntiers sbi).
Proof.
  intros Hn Hf. unfold metadata_active_tier_mask_store.
  destruct (Z.eqb_spec (ntiers sbi) 0); [lia|].
  destruct (Z.ltb_spec SMOOTHFS_MAX_TIERS (ntiers sbi)); [lia|]. cbn [orb].
  eexists; split; [reflexivity|]. intros t Ht.
  rewrite metadata_tier_active_iff by done. cbn.
  destruct (cache_mode sbi).
  - rewrite mask_testbit, Z.ltb_lt by lia. tauto.
  - rewrite Z.lor_spec, Z.land_spec, mask_testbit, BIT_testbit, orb_true_iff, andb_true_iff,
      Z.ltb_lt, Z.eqb_eq by lia.
    destruct (decide (t = fastest_tier sbi)) as [->|Hne].
    + assert (fastest_tier sbi < ntiers sbi) by lia. assert (false <> true) by done. tauto.
    + assert (fastest_tier sbi <> t) by congruence. assert (false <> true) by done. tauto.
Qed.

Lemma metadata_mask_store_active_witness :
  exists sbi', metadata_active_tier_mask_store demo_sbi (Ok 0xF0) 3 = (3, sbi')
  /\ forall t, 0 <= t ->
     (smoothfs_metadata_tier_active sbi' t = true <->
      t < 2 /\ (false = true \/ t = 0 \/ Z.testbit 0xF0 t = true))
     /\ (Z.testbit (metadata_active_tier_mask sbi') t = true -> t < 2).
Proof. apply (metadata_mask_store_active demo_sbi 0xF0 3); vm_compute; intuition discriminate. Defined.

(** Only existing, active, non-fastest tiers are reported drainable, and only
    when there is work. *)
Lemma drainable_mask_excludes_fastest has_work sbi t :
  0 <= fastest_tier sbi -> 0 <= t ->
  Z.testbit (write_staging_drainable_tier_mask_show has_work sbi) t = true ->
  has_work = true /\ t <> fastest_tier sbi /\ t < ntiers sbi <= SMOOTHFS_MAX_TIERS
  /\ smoothfs_write_staging_drain_tier_active sbi t = true.
Proof.
  intros Hf Ht. unfold write_staging_drainable_tier_mask_show.
  case_goal; [|by rewrite Z.bits_0]. to_prop.
  rewrite Z.ldiff_spec, Z.land_spec, mask_testbit, BIT_testbit by lia. intros ?. to_prop.
  split_and!; [done|lia|lia|lia|]. unfold smoothfs_write_staging_drain_tier_active.
  repeat case_goal; to_prop; try done; lia.
Qed.

(** ** statfs *)

Lemma statfs_loop_sum statfs cache ts : forall buf sbi,
  (forall t, t ∈ ts -> exists st, statfs t = Ok st) ->
  statfs_loop statfs cache ts buf sbi
  = (sbi, Ok (foldl (fun b t => match statfs t with Ok st => statfs_add b st | Err _ => b end) buf ts)).
Proof.
  induction ts as [|t ts IH]; intros buf sbi H; [done|]. cbn [statfs_loop foldl].
  destruct (H t) as [st ->]; [left|]. apply IH. intros ? ?. apply H. by right.
Qed.

Lemma statfs_loop_skips statfs ts : forall buf sbi,
  statfs_loop statfs false ts buf sbi
  = (sbi <| events := events sbi ++ omap (fun t => match statfs t with Err _ => Some (EV_TIER_FAULT t) | Ok _ => None end) ts |>,
     Ok (foldl (fun b t => match statfs t with Ok st => statfs_add b st | Err _ => b end) buf ts)).
Proof.
  induction ts as [|t ts IH]; intros buf sbi; cbn [statfs_loop foldl omap].
  - destruct sbi; simpl. by rewrite app_nil_r.
  - simpl. destruct (statfs t) eqn:E; rewrite IH; [|done].
    simpl. by rewrite <- app_assoc.
Qed.
