(* ===== verification/KernelIO.v ===== *)
(** * Lower files and kernel I/O

    What the sources use of [kernel_read], [kernel_write] and the allocator,
    and the two retry loops the sources wrap around them:
    [smoothfs_write_full] (super.c), [smoothfs_range_write_full] and
    [smoothfs_range_read_full] (range_staging.c).

    The kernel may refuse any call and may move fewer bytes than asked.  An
    [oracle] answers the successive fallible calls of an execution: a negative
    answer is the error the call returns, any other answer lets the call
    succeed and bounds the bytes it moves.  Every theorem quantifies over the
    oracle, so it covers every pattern of failures and short transfers. *)
From S2P Require Import Prelude.

Definition oracle := nat -> Z.

(** A call that moves no data: 0, or the error. *)
Definition call (ora : oracle) (k : nat) : Z := if ora k <? 0 then ora k else 0.

(** ** Byte files *)

Definition fsize (f : list Z) : Z := Z.of_nat (length f).

(** The byte at an offset; a hole or an offset beyond the end reads 0. *)
Definition fbyte (f : list Z) (p : Z) : Z :=
  if p <? 0 then 0 else default 0 (f !! Z.to_nat p).

Definition pread (f : list Z) (pos len : Z) : list Z :=
  slice (Z.to_nat pos) (Z.to_nat len) f.

(** Writing past the end fills the gap with zeros. *)
Definition pwrite (f : list Z) (pos : Z) (bs : list Z) : list Z :=
  match bs with
  | [] => f
  | _ =>
      let p := Z.to_nat pos in
      take p (f ++ replicate (p - length f) 0) ++ bs ++ drop (p + length bs) f
  end.

Definition kernel_read (ora : oracle) (k : nat) (f : list Z) (pos len : Z) : result (list Z) :=
  if ora k <? 0 then Err (ora k) else Ok (pread f pos (Z.min (ora k) len)).

(** The count written (or the error) and the file afterwards. *)
Definition kernel_write (ora : oracle) (k : nat) (f : list Z) (pos : Z) (buf : list Z)
  : Z * list Z :=
  if ora k <? 0 then (ora k, f)
  else let n := Z.min (ora k) (Z.of_nat (length buf)) in (n, pwrite f pos (take (Z.to_nat n) buf)).

(** [while (done < len)] of the write loops; the rest of the buffer shrinks at
    every round that does not return, so its length is enough fuel. *)
Fixpoint write_full_loop (fuel : nat) (ora : oracle) (k : nat) (f : list Z) (pos : Z)
    (buf : list Z) : Z * nat * list Z :=
  match buf, fuel with
  | [], _ => (0, k, f)
  | _, O => (- EIO, k, f)
  | _, S fuel =>
      let (n, f') := kernel_write ora k f pos buf in
      if n <=? 0 then (if n =? 0 then - EIO else n, S k, f')
      else write_full_loop fuel ora (S k) f' (pos + n) (drop (Z.to_nat n) buf)
  end.

Definition smoothfs_write_full (ora : oracle) (k : nat) (f : list Z) (pos : Z) (buf : list Z)
  : Z * nat * list Z :=
  write_full_loop (length buf) ora k f pos buf.

Definition smoothfs_range_write_full := smoothfs_write_full.

Fixpoint read_full_loop (fuel : nat) (ora : oracle) (k : nat) (f : list Z) (pos len : Z)
  : result (list Z) * nat :=
  if len <=? 0 then (Ok [], k)
  else match fuel with
       | O => (Err (- EIO), k)
       | S fuel =>
           match kernel_read ora k f pos len with
           | Err e => (Err e, S k)
           | Ok [] => (Err (- EIO), S k)
           | Ok bs =>
               let n := Z.of_nat (length bs) in
               match read_full_loop fuel ora (S k) f (pos + n) (len - n) with
               | (Err e, k') => (Err e, k')
               | (Ok rest, k') => (Ok (bs ++ rest), k')
               end
           end
       end.

Definition smoothfs_range_read_full (ora : oracle) (k : nat) (f : list Z) (pos len : Z)
  : result (list Z) * nat :=
  read_full_loop (Z.to_nat len) ora k f pos len.

(** An execution without refusals in which no transfer of at most [n] bytes is
    cut short. *)
Definition smooth_run (ora : oracle) (n : Z) : Prop := forall k, n <= ora k.

(** ** File lemmas *)

Lemma fsize_nonneg f : 0 <= fsize f.
Proof. unfold fsize. lia. Qed.

Lemma fbyte_beyond f p : fsize f <= p -> fbyte f p = 0.
Proof.
  intros H. unfold fbyte, fsize in *. case_goal; [done|].
  by rewrite lookup_ge_None_2 by lia.
Qed.

Lemma fbyte_lookup f p : 0 <= p < fsize f -> f !! Z.to_nat p = Some (fbyte f p).
Proof.
  intros H. unfold fbyte, fsize in *. destruct (Z.ltb_spec p 0); [lia|].
  destruct (lookup_lt_is_Some_2 f (Z.to_nat p)) as [b Hb]; [lia|]. by rewrite Hb.
Qed.

Lemma fbyte_ext f g :
  fsize f = fsize g -> (forall p, 0 <= p < fsize f -> fbyte f p = fbyte g p) -> f = g.
Proof.
  intros Hl H. apply list_eq_same_length with (n := length f); [unfold fsize in Hl; lia|done|].
  intros i x y Hi Hx Hy. unfold fsize in *. specialize (H (Z.of_nat i) ltac:(lia)).
  unfold fbyte in H. destruct (Z.ltb_spec (Z.of_nat i) 0); [lia|].
  rewrite Nat2Z.id in H. rewrite Hx, Hy in H. done.
Qed.

Lemma fbyte_app f g p :
  0 <= p -> fbyte (f ++ g) p = if p <? fsize f then fbyte f p else fbyte g (p - fsize f).
Proof.
  intros Hp. unfold fbyte, fsize. destruct (Z.ltb_spec p 0); [lia|].
  destruct (Z.ltb_spec p (Z.of_nat (length f))).
  - by rewrite lookup_app_l by lia.
  - destruct (Z.ltb_spec (p - Z.of_nat (length f)) 0); [lia|].
    rewrite lookup_app_r by lia. do 2 f_equal. lia.
Qed.

Lemma fbyte_replicate n p : fbyte (replicate n 0) p = 0.
Proof.
  unfold fbyte. case_goal; [done|].
  destruct (replicate n 0 !! Z.to_nat p) eqn:E2; [|done].
  by apply lookup_replicate in E2 as [-> _].
Qed.

Lemma fbyte_take f n p : fbyte (take n f) p = if p <? Z.of_nat n then fbyte f p else 0.
Proof.
  unfold fbyte. destruct (Z.ltb_spec p 0); [by case_goal|].
  destruct (Z.ltb_spec p (Z.of_nat n)).
  - by rewrite lookup_take_lt by lia.
  - by rewrite lookup_take_ge by lia.
Qed.

Lemma fbyte_drop f n p : 0 <= p -> fbyte (drop n f) p = fbyte f (p + Z.of_nat n).
Proof.
  intros. unfold fbyte. destruct (Z.ltb_spec p 0); [lia|].
  destruct (Z.ltb_spec (p + Z.of_nat n) 0); [lia|].
  rewrite lookup_drop. do 2 f_equal. lia.
Qed.

Lemma fsize_app f g : fsize (f ++ g) = fsize f + fsize g.
Proof. unfold fsize. rewrite length_app. lia. Qed.

Lemma fsize_pwrite f pos bs :
  0 <= pos -> bs <> [] -> fsize (pwrite f pos bs) = Z.max (fsize f) (pos + fsize bs).
Proof.
  intros Hp Hb. unfold pwrite. destruct bs as [|b bs]; [done|].
  unfold fsize. rewrite !length_app, length_take, length_drop, length_app, length_replicate.
  simpl length. lia.
Qed.

Lemma fbyte_pwrite f pos bs p :
  0 <= pos -> 0 <= p ->
  fbyte (pwrite f pos bs) p
  = if (pos <=? p) && (p <? pos + fsize bs) then fbyte bs (p - pos) else fbyte f p.
Proof.
  intros Hpos Hp. destruct bs as [|b bs'] eqn:Eb.
  { cbn [pwrite]. replace (fsize []) with 0 by done. rewrite Z.add_0_r.
    destruct (Z.leb_spec pos p); destruct (Z.ltb_spec p pos); cbn [andb]; try done; lia. }
  rewrite <- Eb. assert (1 <= fsize bs) by (rewrite Eb; unfold fsize; simpl; lia).
  assert (pwrite f pos bs = take (Z.to_nat pos) (f ++ replicate (Z.to_nat pos - length f) 0)
      ++ bs ++ drop (Z.to_nat pos + length bs) f) as -> by (by rewrite Eb).
  rewrite fbyte_app by done.
  replace (fsize (take _ _)) with pos
    by (unfold fsize; rewrite length_take, length_app, length_replicate; lia).
  destruct (Z.ltb_spec p pos); destruct (Z.leb_spec pos p); try lia; cbn [andb].
  - rewrite fbyte_take. destruct (Z.ltb_spec p (Z.of_nat (Z.to_nat pos))); [|lia].
    rewrite fbyte_app by done. destruct (Z.ltb_spec p (fsize f)); [done|].
    rewrite fbyte_replicate. by rewrite fbyte_beyond.
  - rewrite fbyte_app by lia.
    destruct (Z.ltb_spec (p - pos) (fsize bs)); destruct (Z.ltb_spec p (pos + fsize bs)); try lia; try done.
    rewrite fbyte_drop by lia. f_equal. unfold fsize in *. lia.
Qed.

Lemma pwrite_pwrite f pos a b :
  0 <= pos -> pwrite (pwrite f pos a) (pos + fsize a) b = pwrite f pos (a ++ b).
Proof.
  intros Hp. destruct b as [|b0 b']; [by rewrite app_nil_r|].
  destruct a as [|a0 a']; [by rewrite Z.add_0_r|].
  apply fbyte_ext.
  - rewrite !fsize_pwrite, fsize_app; try done; unfold fsize; simpl length; lia.
  - intros p [Hp0 _]. rewrite !fbyte_pwrite, fsize_app by (unfold fsize; lia).
    unfold fsize. simpl length.
    repeat match goal with
    | |- context [?x <=? ?y] => destruct (Z.leb_spec x y); try lia
    | |- context [?x <? ?y] => destruct (Z.ltb_spec x y); try lia
    end; cbn [andb]; try done;
      rewrite fbyte_app by lia; unfold fsize; simpl length;
      (destruct (Z.ltb_spec (p - pos) (Z.of_nat (S (length a')))); [done || lia|]);
      first [lia | f_equal; lia].
Qed.

Lemma pwrite_end f bs : pwrite f (fsize f) bs = f ++ bs.
Proof.
  destruct bs as [|b bs]; [by rewrite app_nil_r|].
  apply fbyte_ext.
  - rewrite fsize_pwrite, fsize_app by (done || apply fsize_nonneg).
    pose proof (fsize_nonneg (b :: bs)). lia.
  - intros p [Hp Hs]. rewrite fsize_pwrite in Hs by (done || apply fsize_nonneg).
    pose proof (fsize_nonneg (b :: bs)).
    rewrite fbyte_pwrite, fbyte_app by (done || apply fsize_nonneg).
    destruct (Z.leb_spec (fsize f) p); destruct (Z.ltb_spec p (fsize f)); try lia;
      destruct (Z.ltb_spec p (fsize f + fsize (b :: bs))); cbn [andb]; try done; lia.
Qed.

Lemma length_pread f pos len :
  0 <= pos -> 0 <= len -> fsize (pread f pos len) = Z.max 0 (Z.min len (fsize f - pos)).
Proof. intros. unfold pread, slice, fsize. rewrite length_take, length_drop. lia. Qed.

Lemma fbyte_pread f pos len p :
  0 <= pos -> 0 <= p -> 0 <= len ->
  fbyte (pread f pos len) p = if p <? len then fbyte f (pos + p) else 0.
Proof.
  intros. unfold pread, slice. rewrite fbyte_take, Z2Nat.id by done.
  case_goal; [|done]. rewrite fbyte_drop by done. f_equal. lia.
Qed.

Lemma pread_app f pos a b :
  0 <= pos -> 0 <= a -> 0 <= b -> fsize (pread f pos a) = a ->
  pread f pos a ++ pread f (pos + a) b = pread f pos (a + b).
Proof.
  intros Hp Ha Hb Hl. apply fbyte_ext.
  - rewrite fsize_app, Hl, !length_pread by lia. rewrite length_pread in Hl by lia. lia.
  - intros p [Hp0 _]. rewrite fbyte_app, Hl, (fbyte_pread f pos (a + b)) by lia.
    destruct (Z.ltb_spec p a); rewrite fbyte_pread by lia.
    + destruct (Z.ltb_spec p a); [|lia]. destruct (Z.ltb_spec p (a + b)); [done|lia].
    + replace (pos + a + (p - a)) with (pos + p) by lia.
      destruct (Z.ltb_spec (p - a) b); destruct (Z.ltb_spec p (a + b)); try lia; done.
Qed.

(** ** The loops *)

Lemma write_full_loop_spec ora : forall fuel k f pos buf,
  (length buf <= fuel)%nat -> 0 <= pos ->
  exists k' m, write_full_loop fuel ora k f pos buf
     = (fst (fst (write_full_loop fuel ora k f pos buf)), k', pwrite f pos (take m buf))
  /\ (fst (fst (write_full_loop fuel ora k f pos buf)) = 0 -> (length buf <= m)%nat)
  /\ fst (fst (write_full_loop fuel ora k f pos buf)) <= 0.
Proof.
  induction fuel as [|fuel IH]; intros k f pos buf Hf Hp.
  { destruct buf; [|simpl in Hf; lia]. exists k, 0%nat. simpl. split_and!; [done|done|lia]. }
  destruct buf as [|b buf]; [exists k, 0%nat; simpl; split_and!; [done|done|lia]|].
  cbn [write_full_loop]. unfold kernel_write.
  destruct (Z.ltb_spec (ora k) 0); cbv beta iota zeta.
  { destruct (Z.leb_spec (ora k) 0); [|lia]. exists (S k), 0%nat. simpl.
    destruct (Z.eqb_spec (ora k) 0); [lia|]. split_and!; [done|lia|lia]. }
  set (n := Z.min _ _). destruct (Z.leb_spec n 0).
  { assert (n = 0) as -> by lia. exists (S k), 0%nat. simpl. done. }
  assert (Z.to_nat n <= length (b :: buf))%nat as Hn by lia.
  destruct (IH (S k) (pwrite f pos (take (Z.to_nat n) (b :: buf))) (pos + n)
              (drop (Z.to_nat n) (b :: buf))) as (k' & m & Heq & Hz0 & Hneg);
    [rewrite length_drop; simpl length in *; lia|lia|].
  exists k', (Z.to_nat n + m)%nat. rewrite Heq at 1. split_and!; [|intros Hz; apply Hz0 in Hz|done].
  - f_equal.
    replace (pos + n) with (pos + fsize (take (Z.to_nat n) (b :: buf)))
      by (unfold fsize; rewrite length_take; lia).
    rewrite pwrite_pwrite by done. f_equal. by rewrite take_take_drop.
  - rewrite length_drop in Hz. lia.
Qed.

(** [write_full] either writes the whole buffer and returns 0, or returns an
    error having written a prefix of it; it never does anything else. *)
Lemma write_full_outcome ora k f pos buf :
  0 <= pos ->
  exists e k' m, smoothfs_write_full ora k f pos buf = (e, k', pwrite f pos (take m buf))
  /\ e <= 0 /\ (e = 0 -> take m buf = buf).
Proof.
  intros Hp. unfold smoothfs_write_full.
  destruct (write_full_loop_spec ora (length buf) k f pos buf) as (k' & m & Heq & H0 & Hn); [done..|].
  eexists _, k', m. split; [exact Heq|]. split; [done|]. intros Hz. apply take_ge. by apply H0.
Qed.

Lemma read_full_loop_ok ora f : forall fuel k pos len bs k',
  0 <= pos -> 0 <= len ->
  read_full_loop fuel ora k f pos len = (Ok bs, k') -> bs = pread f pos len /\ fsize bs = len.
Proof.
  induction fuel as [|fuel IH]; intros k pos len bs k' Hp Hlen; cbn [read_full_loop];
    (destruct (Z.leb_spec len 0);
      [intros [= <- <-]; assert (len = 0) as -> by lia; unfold pread, slice; done|]); [done|].
  unfold kernel_read. destruct (Z.ltb_spec (ora k) 0); [done|].
  destruct (pread f pos _) as [|b l] eqn:E; [done|].
  set (n := Z.of_nat (length (b :: l))).
  destruct (read_full_loop _ _ _ _ _ _) as [[e|rest] k2] eqn:E2; [done|]. intros [= <- <-].
  assert (0 < n) by (unfold n; simpl; lia).
  assert (n = fsize (pread f pos (Z.min (ora k) len))) as Hn by (rewrite E; done).
  rewrite length_pread in Hn by lia.
  assert (b :: l = pread f pos n) as Hbl.
  { rewrite <- E. unfold pread, slice. destruct (decide (n = Z.min (ora k) len)) as [->|]; [done|].
    rewrite !take_ge; [done|..]; rewrite length_drop; unfold fsize in Hn; lia. }
  apply IH in E2 as [-> Hl]; [|lia..]. change (b :: (l ++ ?x)) with ((b :: l) ++ x).
  assert (fsize (b :: l) = n) as Hf by done. split.
  - rewrite Hbl. rewrite pread_app; [f_equal; lia|lia..|by rewrite <- Hbl].
  - change (b :: l ++ ?x) with ((b :: l) ++ x). rewrite fsize_app, Hf, Hl. lia.
Qed.

Lemma read_full_loop_smooth ora f n : smooth_run ora n -> forall fuel k pos len,
  0 <= pos -> 0 <= len <= n -> (Z.to_nat len <= fuel)%nat -> pos + len <= fsize f ->
  exists k', read_full_loop fuel ora k f pos len = (Ok (pread f pos len), k').
Proof.
  intros Hs fuel k pos len Hp Hl Hf Hsz.
  destruct fuel as [|fuel]; cbn [read_full_loop]; destruct (Z.leb_spec len 0); try lia.
  1,2: exists k; assert (len = 0) as -> by lia; by unfold pread, slice.
  specialize (Hs k) as Hk. unfold kernel_read. destruct (Z.ltb_spec (ora k) 0); [lia|].
  rewrite Z.min_r by lia. pose proof (length_pread f pos len Hp ltac:(lia)) as Hlen.
  rewrite Z.min_l in Hlen by lia.
  destruct (pread f pos len) as [|b l] eqn:E; [unfold fsize in Hlen; simpl in Hlen; lia|].
  exists (S k). replace (len - Z.of_nat (length (b :: l))) with 0 by (unfold fsize in Hlen; lia).
  destruct fuel; simpl; by rewrite app_nil_r.
Qed.

Lemma read_full_smooth ora f n k pos len :
  smooth_run ora n -> 0 <= pos -> 0 <= len <= n -> pos + len <= fsize f ->
  exists k', smoothfs_range_read_full ora k f pos len = (Ok (pread f pos len), k').
Proof. intros. by eapply read_full_loop_smooth. Qed.

Lemma write_full_smooth ora n k f pos buf :
  smooth_run ora n -> fsize buf <= n -> 0 <= pos ->
  exists k', smoothfs_write_full ora k f pos buf = (0, k', pwrite f pos buf).
Proof.
  intros Hs Hn Hp. unfold smoothfs_write_full. destruct buf as [|b buf]; [by exists k|].
  specialize (Hs k). unfold fsize in Hn. cbn [length write_full_loop]. unfold kernel_write.
  simpl length in *. destruct (Z.ltb_spec (ora k) 0); [lia|].
  rewrite Z.min_r by lia. destruct (Z.leb_spec (Z.of_nat (S (length buf))) 0); [lia|].
  rewrite Nat2Z.id. rewrite drop_ge, take_ge by (simpl; lia).
  exists (S k). by destruct (length buf).
Qed.
