(* ===== verification/RangeList.v ===== *)
(** * The staged-range list: src/src/smoothfs/file.c, range bookkeeping

    [si->range_staged_ranges] is a list of half-open byte ranges that the
    fast-tier stage file holds in place of the lower file.  This file models
    the insertion that coalesces touching ranges, the overlap test and the byte
    count, and proves what they mean as sets of byte positions. *)
From S2P Require Import Prelude.

(** [struct smoothfs_staged_range] *)
Record srange := SRange { r_start : Z; r_end : Z }.

#[export] Instance srange_eq_dec : EqDecision srange.
Proof. solve_decision. Defined.

(** The loop of [smoothfs_range_stage_record_locked]: the ranges kept before
    the insertion point, the merged bounds, and the ranges from
    [insert_before] on. *)
Fixpoint record_loop (start end_ : Z) (l : list srange) : list srange * Z * Z * list srange :=
  match l with
  | [] => ([], start, end_, [])
  | r :: l' =>
      if end_ <? r_start r then ([], start, end_, l)
      else if r_end r <? start then
        let '(kept, s, e, rest) := record_loop start end_ l' in (r :: kept, s, e, rest)
      else
        let start' := if r_start r <? start then r_start r else start in
        let end' := if end_ <? r_end r then r_end r else end_ in
        record_loop start' end' l'
  end.

Definition smoothfs_range_stage_record_locked (start end_ : Z) (l : list srange) : list srange :=
  if end_ <=? start then l
  else let '(kept, s, e, rest) := record_loop start end_ l in kept ++ SRange s e :: rest.

Definition smoothfs_range_overlaps (l : list srange) (start end_ : Z) : bool :=
  existsb (fun r => (r_start r <? end_) && (start <? r_end r)) l.

(** The sum the write and drain paths compute over the list. *)
Definition range_total (l : list srange) : Z :=
  foldr (fun r acc => r_end r - r_start r + acc) 0 l.

(** ** Meaning *)

Definition in_range (p : Z) (r : srange) : Prop := r_start r <= p < r_end r.
Definition covered (p : Z) (l : list srange) : Prop := exists r, r ∈ l /\ in_range p r.
Definition coveredb (p : Z) (l : list srange) : bool :=
  existsb (fun r => (r_start r <=? p) && (p <? r_end r)) l.

(** Every range is non-empty. *)
Definition nonempty (l : list srange) : Prop := Forall (fun r => r_start r < r_end r) l.

(** Well-formed: non-empty, sorted, and no two ranges touch. *)
Fixpoint ranges_wf (l : list srange) : Prop :=
  match l with
  | [] => True
  | r :: l' => r_start r < r_end r
               /\ match l' with [] => True | r' :: _ => r_end r < r_start r' end
               /\ ranges_wf l'
  end.

Lemma coveredb_spec p l : coveredb p l = true <-> covered p l.
Proof.
  unfold coveredb, covered, in_range. rewrite existsb_exists.
  setoid_rewrite list_elem_of_In. split; intros (r & Hr & H); exists r; split; try done.
  - apply andb_true_iff in H. lia.
  - apply andb_true_iff. lia.
Qed.

Lemma covered_nil p : ~ covered p [].
Proof. intros (r & Hr & _). by apply not_elem_of_nil in Hr. Qed.

Lemma covered_cons p r l : covered p (r :: l) <-> in_range p r \/ covered p l.
Proof. unfold covered. split.
  - intros (x & [->|Hx]%elem_of_cons & Hp); eauto.
  - intros [Hp|(x & Hx & Hp)]; [exists r|exists x]; rewrite elem_of_cons; auto.
Qed.

Lemma covered_app p l1 l2 : covered p (l1 ++ l2) <-> covered p l1 \/ covered p l2.
Proof. unfold covered. split.
  - intros (x & [Hx|Hx]%elem_of_app & Hp); eauto.
  - intros [(x & Hx & Hp)|(x & Hx & Hp)]; exists x; rewrite elem_of_app; auto.
Qed.

Lemma ranges_wf_nonempty l : ranges_wf l -> nonempty l.
Proof.
  induction l; simpl; intros H; constructor; [tauto|]. apply IHl. tauto.
Qed.

Lemma ranges_wf_tail r l : ranges_wf (r :: l) -> ranges_wf l.
Proof. simpl. tauto. Qed.

(** In a well-formed list everything after the head lies beyond its end. *)
Lemma ranges_wf_head_lt r l r' : ranges_wf (r :: l) -> r' ∈ l -> r_end r < r_start r'.
Proof.
  revert r. induction l as [|a l IH]; intros r Hwf Hin; [by apply not_elem_of_nil in Hin|].
  simpl in Hwf. destruct Hwf as (H1 & H2 & H3 & H4 & H5).
  apply elem_of_cons in Hin as [->|Hin]; [done|].
  assert (r_end a < r_start r') by (apply IH; simpl; auto). lia.
Qed.

(** ** The insertion *)

Lemma record_loop_covered p : forall l s e k s' e' rest,
  nonempty l -> s < e -> record_loop s e l = (k, s', e', rest) ->
  s' < e' /\
  ((covered p k \/ s' <= p < e' \/ covered p rest) <-> (covered p l \/ s <= p < e)).
Proof.
  induction l as [|r l IH]; intros s e k s' e' rest Hne Hse Heq; simpl in Heq.
  { injection Heq as <- <- <- <-. split; [done|]. pose proof (covered_nil p). tauto. }
  apply Forall_cons in Hne as [Hr Hne]. destruct (e <? r_start r) eqn:E1; to_prop.
  { injection Heq as <- <- <- <-. split; [done|]. pose proof (covered_nil p). tauto. }
  destruct (r_end r <? s) eqn:E2; to_prop.
  - destruct (record_loop s e l) as [[[k0 s0] e0] r0] eqn:E. injection Heq as <- <- <- <-.
    destruct (IH _ _ _ _ _ _ Hne Hse E) as [Hlt Hiff]. split; [done|].
    rewrite !covered_cons. tauto.
  - eapply IH in Heq as [Hlt Hiff]; [|done|repeat case_goal; to_prop; lia].
    split; [done|]. rewrite Hiff, covered_cons. unfold in_range.
    repeat case_goal; to_prop; (split; [intros [?|?]|intros [[?|?]|?]]); try tauto; lia.
Qed.

Lemma record_loop_wf : forall l s e k s' e' rest,
  ranges_wf l -> s < e -> record_loop s e l = (k, s', e', rest) ->
  ranges_wf (k ++ SRange s' e' :: rest)
  /\ s' <= s /\ e <= e'
  /\ (forall b, b < s -> (forall r, r ∈ l -> b < r_start r) ->
        b < s' /\ (forall r, r ∈ k -> b < r_start r)).
Proof.
  induction l as [|r l IH]; intros s e k s' e' rest Hwf Hse Heq; simpl in Heq.
  { injection Heq as <- <- <- <-. simpl. split_and!; try lia. intros b Hb _. split; [done|].
    intros x Hx. by apply not_elem_of_nil in Hx. }
  destruct (e <? r_start r) eqn:E1; to_prop.
  { injection Heq as <- <- <- <-. simpl in Hwf |- *. split_and!; try tauto; try lia.
    intros b Hb _. split; [done|]. intros x Hx. by apply not_elem_of_nil in Hx. }
  destruct (r_end r <? s) eqn:E2; to_prop.
  - destruct (record_loop s e l) as [[[k0 s0] e0] r0] eqn:E. injection Heq as <- <- <- <-.
    destruct (IH _ _ _ _ _ _ (ranges_wf_tail _ _ Hwf) Hse E) as (Hw & Hs & He & Hb).
    destruct (Hb (r_end r)) as [Hb1 Hb2]; [done|intros x Hx; by apply (ranges_wf_head_lt r l)|].
    split; [|split; [done|split; [done|]]].
    + destruct Hwf as (Hr & _ & _). change ((r :: k0) ++ SRange s0 e0 :: r0)
        with (r :: (k0 ++ SRange s0 e0 :: r0)). cbn [ranges_wf].
      split; [done|]. split; [|done].
      destruct k0 as [|a k0]; simpl; [done|]. apply Hb2. left.
    + intros b Hbs Hbl. destruct (Hb b) as [Hc1 Hc2];
        [done|intros; apply Hbl; by right|].
      split; [done|]. intros x Hx. apply elem_of_cons in Hx as [->|Hx]; [apply Hbl; left|auto].
  - eapply IH in Heq as (Hw & Hs & He & Hb);
      [|by eapply ranges_wf_tail|repeat case_goal; to_prop; lia].
    split; [done|]. split; [repeat case_hyp Hs; to_prop; lia|].
    split; [repeat case_hyp He; to_prop; lia|].
    intros b Hbs Hbl. apply Hb.
    + assert (b < r_start r) by (apply Hbl; left). repeat case_goal; to_prop; lia.
    + intros; apply Hbl; by right.
Qed.

Lemma range_total_app l1 l2 : range_total (l1 ++ l2) = range_total l1 + range_total l2.
Proof. induction l1; simpl; [done|]. rewrite IHl1. lia. Qed.

Lemma range_total_nonneg l : nonempty l -> 0 <= range_total l.
Proof. induction 1; simpl; lia. Qed.

(** The bytes the insertion adds to the total are at least 0 and at most the
    length of the written range.  The second conjunct strengthens the lower
    bound for the induction: a prefix of the written range below every listed
    range is newly counted. *)
Lemma record_loop_total : forall l s e k s' e' rest,
  ranges_wf l -> s < e -> record_loop s e l = (k, s', e', rest) ->
  let total' := range_total k + (e' - s') + range_total rest in
  range_total l <= total' <= range_total l + (e - s)
  /\ (forall b, s <= b <= e -> (forall r, r ∈ l -> b <= r_start r) ->
        range_total l + (b - s) <= total').
Proof.
  induction l as [|r l IH]; intros s e k s' e' rest Hwf Hse Heq; simpl in Heq.
  { injection Heq as <- <- <- <-. simpl. split; [lia|]. intros; lia. }
  assert (r_start r < r_end r) as Hr by (simpl in Hwf; tauto).
  destruct (e <? r_start r) eqn:E1; to_prop.
  { injection Heq as <- <- <- <-. simpl. split; [lia|]. intros; lia. }
  destruct (r_end r <? s) eqn:E2; to_prop.
  - destruct (record_loop s e l) as [[[k0 s0] e0] r0] eqn:E. injection Heq as <- <- <- <-.
    destruct (IH _ _ _ _ _ _ (ranges_wf_tail _ _ Hwf) Hse E) as [Hb _]. simpl.
    split; [lia|]. intros b Hbs Hall. specialize (Hall r ltac:(left)). lia.
  - set (s1 := if r_start r <? s then r_start r else s) in Heq.
    set (e1 := if e <? r_end r then r_end r else e) in Heq.
    assert (s1 = Z.min (r_start r) s) as Hs1 by (unfold s1; case_goal; to_prop; lia).
    assert (e1 = Z.max (r_end r) e) as He1 by (unfold e1; case_goal; to_prop; lia).
    eapply IH in Heq as [Hb Hlow]; [|by eapply ranges_wf_tail|lia].
    specialize (Hlow (r_end r) ltac:(lia)).
    assert (range_total l + (r_end r - s1) <= range_total k + (e' - s') + range_total rest) as Hlow'.
    { apply Hlow. intros x Hx. pose proof (ranges_wf_head_lt r l x Hwf Hx). lia. }
    simpl. split; [lia|]. intros b Hbs Hall. specialize (Hall r ltac:(left)). lia.
Qed.

Lemma record_wf start end_ l :
  ranges_wf l -> ranges_wf (smoothfs_range_stage_record_locked start end_ l).
Proof.
  intros Hwf. unfold smoothfs_range_stage_record_locked.
  destruct (end_ <=? start) eqn:E; [done|]. to_prop.
  destruct (record_loop start end_ l) as [[[k s] e] rest] eqn:Eq.
  eapply record_loop_wf in Eq as (H & _); eauto.
Qed.

Lemma record_covered start end_ l p :
  nonempty l ->
  covered p (smoothfs_range_stage_record_locked start end_ l)
  <-> covered p l \/ start <= p < end_.
Proof.
  intros Hne. unfold smoothfs_range_stage_record_locked.
  destruct (end_ <=? start) eqn:E; to_prop.
  { split; [by left|]. intros [?|?]; [done|lia]. }
  destruct (record_loop start end_ l) as [[[k s] e] rest] eqn:Eq.
  eapply record_loop_covered in Eq as [_ H]; [|done..].
  rewrite covered_app, covered_cons. unfold in_range. simpl. exact H.
Qed.

Lemma record_total start end_ l :
  ranges_wf l -> start <= end_ ->
  range_total l <= range_total (smoothfs_range_stage_record_locked start end_ l)
    <= range_total l + (end_ - start).
Proof.
  intros Hwf Hle. unfold smoothfs_range_stage_record_locked.
  destruct (end_ <=? start) eqn:E; to_prop; [lia|].
  destruct (record_loop start end_ l) as [[[k s] e] rest] eqn:Eq.
  eapply record_loop_total in Eq as [H _]; [|done..].
  rewrite range_total_app. simpl. lia.
Qed.

Lemma record_loop_length : forall l s e k s' e' rest,
  record_loop s e l = (k, s', e', rest) -> (length k + length rest <= length l)%nat.
Proof.
  induction l as [|r l IH]; intros s e k s' e' rest Heq; simpl in Heq.
  { by injection Heq as <- <- <- <-. }
  destruct (e <? r_start r); [by injection Heq as <- <- <- <-|].
  destruct (r_end r <? s).
  - destruct (record_loop s e l) as [[[k0 s0] e0] r0] eqn:E. injection Heq as <- <- <- <-.
    apply IH in E. simpl. lia.
  - apply IH in Heq. simpl. lia.
Qed.

Lemma overlaps_iff l start end_ :
  nonempty l -> start < end_ ->
  smoothfs_range_overlaps l start end_ = true
  <-> exists p, start <= p < end_ /\ covered p l.
Proof.
  intros Hne Hlt. unfold smoothfs_range_overlaps. rewrite existsb_exists.
  setoid_rewrite <- list_elem_of_In. split.
  - intros (r & Hr & H). to_prop.
    assert (r_start r < r_end r) by (eapply Forall_forall in Hne; eauto).
    exists (Z.max start (r_start r)). split; [lia|]. exists r. unfold in_range. split; [done|lia].
  - intros (p & Hp & r & Hr & Hin). exists r. split; [done|]. unfold in_range in Hin.
    apply andb_true_iff. lia.
Qed.

(** Recording a staged range keeps the list sorted and disjoint, covers exactly
    the bytes that were covered or are in the new range, grows the covered total
    by at most the new range's length and the list by at most one entry. *)
Theorem record_covers_exactly start end_ l :
  ranges_wf l -> start <= end_ ->
  ranges_wf (smoothfs_range_stage_record_locked start end_ l)
  /\ (forall p, covered p (smoothfs_range_stage_record_locked start end_ l)
             <-> covered p l \/ start <= p < end_)
  /\ 0 <= range_total (smoothfs_range_stage_record_locked start end_ l) - range_total l
       <= end_ - start
  /\ (length (smoothfs_range_stage_record_locked start end_ l) <= S (length l))%nat.
Proof.
  intros Hwf Hle. split_and!.
  - by apply record_wf.
  - intros p. apply record_covered. by apply ranges_wf_nonempty.
  - pose proof (record_total start end_ l Hwf Hle). lia.
  - pose proof (record_total start end_ l Hwf Hle). lia.
  - unfold smoothfs_range_stage_record_locked. destruct (end_ <=? start); [lia|].
    destruct (record_loop start end_ l) as [[[k s] e] rest] eqn:Eq.
    apply record_loop_length in Eq. rewrite length_app. simpl. lia.
Qed.

#[export] Hint Resolve ranges_wf_nonempty : smoothfs.

Lemma record_covers_exactly_witness :
  covered 5 (smoothfs_range_stage_record_locked 2 6 [SRange 0 3; SRange 8 9]).
Proof.
  apply (record_covers_exactly 2 6 [SRange 0 3; SRange 8 9]).
  - repeat constructor.
  - lia.
  - right. lia.
Defined.
