(* ===== verification/RangeMeta.v ===== *)
(** * Range-staging sidecars: src/src/smoothfs/range_staging.c

    The [range-<oid>.meta] file that makes a staged range list survive a
    crash: its encoding, the write-to-temporary-and-rename update, its removal,
    and the mount-time replay that restores the in-memory list.

    The [.smoothfs] directory of the fastest tier is a map from base names to
    contents.  Turning an OID into an inode is the business of movement.c and
    placement.c; replay is proved against the interface [OidService]. *)
From S2P Require Import Prelude Types KernelIO RangeList.

Definition SMOOTHFS_RANGE_REC_MAGIC : Z := 0x534D46525352454C.
Definition SMOOTHFS_RANGE_REC_VERSION : Z := 1.
Definition SMOOTHFS_RANGE_REC_HEADER : Z := 32.
Definition SMOOTHFS_RANGE_REC_RANGE : Z := 16.
Definition SMOOTHFS_RANGE_REC_PREFIX : string := "range-".
Definition SMOOTHFS_RANGE_REC_SUFFIX : string := ".meta".
Definition SMOOTHFS_RANGE_REC_TMP_SUFFIX : string := ".meta.tmp".
Definition SMOOTHFS_RANGE_REC_STAGE_SUFFIX : string := ".stage".
Definition SMOOTHFS_RANGE_REC_MAX_RANGES : Z := 65536.
Definition SMOOTHFS_RANGE_REPLAY_SKIPPED : Z := 1.
Definition NAME_MAX : nat := 255.

Abbreviation meta_dir := (gmap string (list Z)).

(** ** Names *)

(** One lower-case hex digit of [%*phN]. *)
Definition hex_asc (d : Z) : Ascii.ascii :=
  Ascii.ascii_of_nat (Z.to_nat (if d <? 10 then 48 + d else 87 + d)).

Fixpoint hex_string (bs : list Z) : string :=
  match bs with
  | [] => EmptyString
  | b :: bs => String (hex_asc (b / 16)) (String (hex_asc (b mod 16)) (hex_string bs))
  end.

(** [smoothfs_range_meta_name] below the directory: prefix, OID in hex, suffix. *)
Definition smoothfs_range_meta_name (oid : list Z) (suffix : string) : string :=
  (SMOOTHFS_RANGE_REC_PREFIX ++ hex_string oid ++ suffix)%string.

(** [hex_to_bin]: a digit's value, or -1. *)
Definition hex_to_bin (c : Ascii.ascii) : Z :=
  let n := Z.of_nat (Ascii.nat_of_ascii c) in
  if (48 <=? n) && (n <=? 57) then n - 48
  else if (97 <=? n) && (n <=? 102) then n - 87
  else if (65 <=? n) && (n <=? 70) then n - 55
  else -1.

Fixpoint parse_hex (n : nat) (s : string) : option (list Z) :=
  match n with
  | O => Some []
  | S n =>
      match s with
      | String c1 (String c2 s) =>
          let hi := hex_to_bin c1 in
          let lo := hex_to_bin c2 in
          if (hi <? 0) || (lo <? 0) then None
          else match parse_hex n s with
               | Some bs => Some (Z.lor (Z.shiftl hi 4) lo :: bs)
               | None => None
               end
      | _ => None
      end
  end.

Definition smoothfs_range_parse_oid (name : string) : result (list Z) :=
  if negb (String.length name =? 6 + SMOOTHFS_OID_LEN * 2 + 5)%nat then Err (- EINVAL)
  else match parse_hex SMOOTHFS_OID_LEN (String.substring 6 (String.length name - 6) name) with
       | Some o => Ok o
       | None => Err (- EINVAL)
       end.

(** [smoothfs_range_actor]: does a directory entry name a sidecar? *)
Definition range_actor_accepts (name : string) : bool :=
  let len := String.length name in
  if bool_decide (name = "."%string) || bool_decide (name = ".."%string) then false
  else if (NAME_MAX <? len)%nat then false
  else if (len <? 6 + 5)%nat then false
  else if negb (bool_decide (String.substring 0 6 name = SMOOTHFS_RANGE_REC_PREFIX)) then false
  else bool_decide (String.substring (len - 5) 5 name = SMOOTHFS_RANGE_REC_SUFFIX).

(** The listing: accepted names in order; a failed allocation stops the walk
    and is remembered ([oom]). *)
Fixpoint smoothfs_range_actor (ora : oracle) (k : nat) (listing : list string)
  : list string * bool * nat :=
  match listing with
  | [] => ([], false, k)
  | n :: ns =>
      if negb (range_actor_accepts n) then smoothfs_range_actor ora k ns
      else if ora k <? 0 then ([], true, S k)
      else let '(l, oom, k') := smoothfs_range_actor ora (S k) ns in (n :: l, oom, k')
  end.

(** ** Writing a sidecar *)

Fixpoint count_ranges_loop (count : Z) (l : list srange) : result Z :=
  match l with
  | [] => Ok count
  | _ :: l => if SMOOTHFS_RANGE_REC_MAX_RANGES <=? count then Err (- E2BIG)
              else count_ranges_loop (count + 1) l
  end.

Definition smoothfs_range_count_ranges (l : list srange) : result Z := count_ranges_loop 0 l.

Definition meta_header (source_tier ns count : Z) : list Z :=
  le_split 8 SMOOTHFS_RANGE_REC_MAGIC ++ le_split 4 SMOOTHFS_RANGE_REC_VERSION
  ++ [u8 source_tier; 0; 0; 0] ++ le_split 8 (u64 ns) ++ le_split 4 (u32 count) ++ [0; 0; 0; 0].

Definition meta_entry (r : srange) : list Z :=
  le_split 8 (u64 (r_start r)) ++ le_split 8 (u64 (r_end r)).

Fixpoint write_entries (ora : oracle) (k : nat) (f : list Z) (pos : Z) (l : list srange)
  : Z * nat * list Z :=
  match l with
  | [] => (0, k, f)
  | r :: l =>
      let '(err, k, f) := smoothfs_range_write_full ora k f pos (meta_entry r) in
      if negb (err =? 0) then (err, k, f)
      else write_entries ora k f (pos + SMOOTHFS_RANGE_REC_RANGE) l
  end.

(** Lookup then unlink; an absent file is success. *)
Definition smoothfs_range_unlink_path (ora : oracle) (k : nat) (d : meta_dir) (name : string)
  : Z * nat * meta_dir :=
  if ora k <? 0 then (if ora k =? - ENOENT then 0 else ora k, S k, d)
  else match d !! name with
       | None => (0, S k, d)
       | Some _ =>
           if ora (S k) <? 0 then (if ora (S k) =? - ENOENT then 0 else ora (S k), S (S k), d)
           else (0, S (S k), delete name d)
       end.

(** Directory lookup, lookup of both names, rename. *)
Definition smoothfs_range_rename_meta (ora : oracle) (k : nat) (d : meta_dir) (tmp final : string)
  : Z * nat * meta_dir :=
  if ora k <? 0 then (ora k, S k, d)
  else if ora (k + 1)%nat <? 0 then (ora (k + 1)%nat, (k + 2)%nat, d)
  else match d !! tmp with
       | None => (- ENOENT, (k + 2)%nat, d)
       | Some content =>
           if ora (k + 2)%nat <? 0 then (ora (k + 2)%nat, (k + 3)%nat, d)
           else if ora (k + 3)%nat <? 0 then (ora (k + 3)%nat, (k + 4)%nat, d)
           else (0, (k + 4)%nat, <[final := content]> (delete tmp d))
       end.

(** The [out:] path: with an error, look the directory up and drop the
    temporary file. *)
Definition persist_out (ora : oracle) (err : Z) (k : nat) (d : meta_dir) (tmp : string)
  : Z * nat * meta_dir :=
  if err =? 0 then (err, k, d)
  else if ora k <? 0 then (err, S k, d)
  else let '(_, k, d) := smoothfs_range_unlink_path ora (S k) d tmp in (err, k, d).

Definition smoothfs_range_staging_persist (ora : oracle) (k : nat) (d : meta_dir) (oid : list Z)
    (source_tier : Z) (ranges : list srange) (oldest_write_ns : Z) : Z * nat * meta_dir :=
  match smoothfs_range_count_ranges ranges with
  | Err e => (e, k, d)
  | Ok count =>
      let tmp := smoothfs_range_meta_name oid SMOOTHFS_RANGE_REC_TMP_SUFFIX in
      let final := smoothfs_range_meta_name oid SMOOTHFS_RANGE_REC_SUFFIX in
      if ora k <? 0 then (- ENOMEM, S k, d)
      else if ora (k + 1)%nat <? 0 then persist_out ora (- ENOMEM) (k + 2)%nat d tmp
      else if ora (k + 2)%nat <? 0 then persist_out ora (ora (k + 2)%nat) (k + 3)%nat d tmp
      else
        let '(err, k, f) := smoothfs_range_write_full ora (k + 3)%nat [] 0
                              (meta_header source_tier oldest_write_ns count) in
        if negb (err =? 0) then persist_out ora err k (<[tmp := f]> d) tmp
        else
          let '(err, k, f) := write_entries ora k f SMOOTHFS_RANGE_REC_HEADER ranges in
          if negb (err =? 0) then persist_out ora err k (<[tmp := f]> d) tmp
          else if ora k <? 0 then persist_out ora (ora k) (S k) (<[tmp := f]> d) tmp
          else
            let '(err, k, d) := smoothfs_range_rename_meta ora (S k) (<[tmp := f]> d) tmp final in
            persist_out ora err k d tmp
  end.

(** Best effort: remove the sidecar and a leftover temporary file. *)
Definition smoothfs_range_staging_clear (ora : oracle) (k : nat) (d : meta_dir) (oid : list Z)
  : nat * meta_dir :=
  if ora k <? 0 then (S k, d)
  else
    let drop_one k d suffix :=
      if ora k <? 0 then (S k, d)
      else let '(_, k, d) := smoothfs_range_unlink_path ora (S k) d
                               (smoothfs_range_meta_name oid suffix) in (k, d) in
    let (k, d) := drop_one (S k) d SMOOTHFS_RANGE_REC_SUFFIX in
    drop_one k d SMOOTHFS_RANGE_REC_TMP_SUFFIX.

(** ** The staging members of [struct smoothfs_inode_info] *)

Record rstage := RStage {
  range_staged : bool;
  range_staged_path : bool;          (** [range_staged_path.dentry] is set *)
  range_staged_source_tier : Z;
  range_staged_recovered : bool;
  range_staging_pinned : bool;
  range_staged_ranges : list srange;
}.
#[export] Instance rstage_eta : Eta rstage := fun r =>
  RStage (range_staged r) (range_staged_path r) (range_staged_source_tier r)
    (range_staged_recovered r) (range_staging_pinned r) (range_staged_ranges r).

(** What [smoothfs_alloc_inode] sets up. *)
Definition rstage_init : rstage := RStage false false SMOOTHFS_MAX_TIERS false false [].

(** The write-staging counters of [struct smoothfs_sb_info]. *)
Inductive recovery_reason :=
| RR_NONE | RR_EMPTY | RR_REPLAY | RR_ERROR (e : Z) | RR_UNRESOLVED (n : Z) | RR_PARTIAL (n : Z).

Inductive staging_reason :=
| SR_NONE | SR_TRUNCATE_REHOME | SR_STAGED_WRITE | SR_RANGE_WRITE | SR_RANGE_DRAIN | SR_REHOME_DRAIN.

Record wstats := WStats {
  staged_bytes : Z;
  staged_rehome_bytes : Z;
  range_staged_bytes : Z;
  range_staged_writes : Z;
  staged_rehomes_total : Z;
  oldest_staged_write_ns : Z;
  ws_last_drain_ns : Z;
  ws_reason : staging_reason;
  recovered_bytes : Z;
  recovered_writes : Z;
  recovery_pending : Z;
  oldest_recovered_write_ns : Z;
  recovered_range_tier_mask : Z;
  last_recovery_ns : Z;
  last_recovery_reason : recovery_reason;
}.
#[export] Instance wstats_eta : Eta wstats := fun r =>
  WStats (staged_bytes r) (staged_rehome_bytes r) (range_staged_bytes r)
    (range_staged_writes r) (staged_rehomes_total r) (oldest_staged_write_ns r)
    (ws_last_drain_ns r) (ws_reason r) (recovered_bytes r) (recovered_writes r)
    (recovery_pending r) (oldest_recovered_write_ns r) (recovered_range_tier_mask r)
    (last_recovery_ns r) (last_recovery_reason r).

Definition wstats_zero : wstats := WStats 0 0 0 0 0 0 0 SR_NONE 0 0 0 0 0 0 RR_NONE.

(** ** Replay *)

(** What replay needs of the OID index: resolve an OID to an inode (which may
    instantiate it) and rebuild the index from a full scan. *)
Class OidService (S : Type) := {
  lookup_oid_resolve : S -> list Z -> option Z * S;
  rebuild_for_staging : S -> Z * S;
}.

(** The range list of the sidecar, read entry by entry. *)
Fixpoint read_ranges (n : nat) (ora : oracle) (k : nat) (f : list Z) (pos : Z)
  : result (list srange) * nat :=
  match n with
  | O => (Ok [], k)
  | S n =>
      match smoothfs_range_read_full ora k f pos SMOOTHFS_RANGE_REC_RANGE with
      | (Err e, k) => (Err e, k)
      | (Ok bs, k) =>
          let start := s64 (le_combine (slice 0 8 bs)) in
          let end_ := s64 (le_combine (slice 8 8 bs)) in
          if end_ <=? start then (Err (- EINVAL), k)
          else if ora k <? 0 then (Err (- ENOMEM), S k)
          else match read_ranges n ora (S k) f (pos + SMOOTHFS_RANGE_REC_RANGE) with
               | (Err e, k) => (Err e, k)
               | (Ok l, k) => (Ok (SRange start end_ :: l), k)
               end
      end
  end.

(** The fixed header: source tier, oldest write and range count. *)
Definition parse_header (ntiers : Z) (h : list Z) : result (Z * Z * Z) :=
  if negb (le_combine (slice 0 8 h) =? SMOOTHFS_RANGE_REC_MAGIC) then Err (- EINVAL)
  else if negb (le_combine (slice 8 4 h) =? SMOOTHFS_RANGE_REC_VERSION) then Err (- EINVAL)
  else
    let source_tier := default 0 (h !! 12%nat) in
    let oldest_ns := le_combine (slice 16 8 h) in
    let count := le_combine (slice 24 4 h) in
    if SMOOTHFS_RANGE_REC_MAX_RANGES <? count then Err (- EINVAL)
    else if ntiers <=? source_tier then Err (- EINVAL)
    else Ok (source_tier, oldest_ns, count).

(** The accumulators replay threads through the records. *)
Record rtotals := RTotals { rt_bytes : Z; rt_oldest : Z; rt_mask : Z; rt_rebuilt : bool }.
#[export] Instance rtotals_eta : Eta rtotals := fun r =>
  RTotals (rt_bytes r) (rt_oldest r) (rt_mask r) (rt_rebuilt r).

Section Replay.
Context {S : Type} `{OidService S}.

Record rworld := RWorld {
  rw_k : nat;
  rw_svc : S;
  rw_stages : gmap Z rstage;
  rw_tot : rtotals;
}.

(** [smoothfs_lookup_oid_resolve], retried once after a rebuild. *)
Definition resolve_or_rebuild (svc : S) (oid : list Z) (rebuilt : bool)
  : result (option Z) * S * bool :=
  let (r, svc) := lookup_oid_resolve svc oid in
  match r with
  | Some i => (Ok (Some i), svc, rebuilt)
  | None =>
      if rebuilt then (Ok None, svc, rebuilt)
      else
        let (err, svc) := rebuild_for_staging svc in
        if negb (err =? 0) then (Err err, svc, true)
        else let (r, svc) := lookup_oid_resolve svc oid in (Ok r, svc, true)
  end.

Definition note_recovered (tot : rtotals) (bytes oldest tier : Z) : rtotals :=
  let tot := tot <| rt_bytes := u64 (rt_bytes tot + bytes) |> in
  let tot := if (rt_oldest tot =? 0) || (negb (oldest =? 0) && (oldest <? rt_oldest tot))
             then tot <| rt_oldest := oldest |> else tot in
  tot <| rt_mask := Z.lor (rt_mask tot) (BIT tier) |>.

Definition smoothfs_range_replay_one (ora : oracle) (sbi : sb_info) (d : meta_dir)
    (f : list Z) (name : string) (w : rworld) : Z * rworld :=
  match smoothfs_range_parse_oid name with
  | Err e => (e, w)
  | Ok oid =>
      match smoothfs_range_read_full ora (rw_k w) f 0 SMOOTHFS_RANGE_REC_HEADER with
      | (Err e, k) => (e, RWorld k (rw_svc w) (rw_stages w) (rw_tot w))
      | (Ok h, k) =>
          match parse_header (ntiers sbi) h with
          | Err e => (e, RWorld k (rw_svc w) (rw_stages w) (rw_tot w))
          | Ok (source_tier, oldest_ns, count) =>
              match resolve_or_rebuild (rw_svc w) oid (rt_rebuilt (rw_tot w)) with
              | (Err e, svc, rebuilt) =>
                  (e, RWorld k svc (rw_stages w) (rw_tot w <| rt_rebuilt := rebuilt |>))
              | (Ok None, svc, rebuilt) =>
                  (SMOOTHFS_RANGE_REPLAY_SKIPPED,
                   RWorld k svc (rw_stages w) (rw_tot w <| rt_rebuilt := rebuilt |>))
              | (Ok (Some ino), svc, rebuilt) =>
                  let tot := rw_tot w <| rt_rebuilt := rebuilt |> in
                  (* smoothfs_range_open_stage: the name, then the open *)
                  if (ora k <? 0) || (ora (k + 1)%nat <? 0)
                     || negb (bool_decide (is_Some (d !! smoothfs_range_meta_name oid
                                                          SMOOTHFS_RANGE_REC_STAGE_SUFFIX)))
                  then (SMOOTHFS_RANGE_REPLAY_SKIPPED, RWorld (k + 2)%nat svc (rw_stages w) tot)
                  else
                    let rs := default rstage_init (rw_stages w !! ino) in
                    match read_ranges (Z.to_nat count) ora (k + 2)%nat f SMOOTHFS_RANGE_REC_HEADER with
                    | (Err _, k) =>
                        (0, RWorld k svc
                              (<[ino := rs <| range_staged_path := false |>
                                           <| range_staged_ranges := [] |>]> (rw_stages w)) tot)
                    | (Ok l, k) =>
                        let rs := rs <| range_staged_path := true |> <| range_staged_ranges := l |> in
                        let rs := if cache_mode sbi then rs <| range_staging_pinned := true |> else rs in
                        let rs := rs <| range_staged := true |> <| range_staged_recovered := true |>
                                     <| range_staged_source_tier := source_tier |> in
                        (0, RWorld k svc (<[ino := rs]> (rw_stages w))
                              (note_recovered tot (u64 (range_total l)) oldest_ns source_tier))
                    end
              end
          end
      end
  end.

(** The loop over the sidecars: [recovered] and [skipped] files, and the
    error that stopped it. *)
Fixpoint replay_names (ora : oracle) (sbi : sb_info) (d : meta_dir) (names : list string)
    (w : rworld) (recovered skipped : Z) : Z * rworld * Z * Z :=
  match names with
  | [] => (0, w, recovered, skipped)
  | n :: ns =>
      let k := rw_k w in
      if ora k <? 0
      then (- ENOMEM, RWorld (k + 1)%nat (rw_svc w) (rw_stages w) (rw_tot w), recovered, skipped)
      else
        let w := RWorld (k + 2)%nat (rw_svc w) (rw_stages w) (rw_tot w) in
        match d !! n with
        | Some f =>
            if ora (k + 1)%nat <? 0 then replay_names ora sbi d ns w recovered skipped
            else
              let (err, w) := smoothfs_range_replay_one ora sbi d f n w in
              if err <? 0 then (err, w, recovered, skipped)
              else if err =? SMOOTHFS_RANGE_REPLAY_SKIPPED
              then replay_names ora sbi d ns w recovered (skipped + 1)
              else replay_names ora sbi d ns w (recovered + 1) skipped
        | None => replay_names ora sbi d ns w recovered skipped
        end
  end.

Definition replay_reason (err recovered skipped : Z) : recovery_reason :=
  if negb (err =? 0) then RR_ERROR err
  else if negb (skipped =? 0) && (recovered =? 0) then RR_UNRESOLVED skipped
  else if negb (skipped =? 0) then RR_PARTIAL skipped
  else if recovered =? 0 then RR_EMPTY else RR_REPLAY.

Definition publish_recovery (st : wstats) (tot : rtotals) (err recovered skipped now : Z) : wstats :=
  let b := s64 (rt_bytes tot) in
  let st := st <| recovered_bytes := recovered_bytes st + b |>
               <| recovered_writes := recovered_writes st + recovered |>
               <| recovery_pending := recovery_pending st + b |>
               <| staged_bytes := staged_bytes st + b |>
               <| range_staged_bytes := range_staged_bytes st + b |> in
  let old := s64 (rt_oldest tot) in
  let st := if rt_oldest tot =? 0 then st
            else let st := st <| oldest_recovered_write_ns := old |> in
                 if (oldest_staged_write_ns st =? 0) || (old <? oldest_staged_write_ns st)
                 then st <| oldest_staged_write_ns := old |> else st in
  st <| recovered_range_tier_mask := Z.lor (recovered_range_tier_mask st) (rt_mask tot) |>
     <| last_recovery_ns := now |> <| last_recovery_reason := replay_reason err recovered skipped |>.

(** [listing] is what [iterate_dir] reports of the directory. *)
Definition smoothfs_range_staging_replay (ora : oracle) (sbi : sb_info) (d : meta_dir)
    (listing : list string) (svc : S) (stages : gmap Z rstage) (st : wstats) (now : Z)
  : Z * S * gmap Z rstage * wstats :=
  if ora 0%nat =? - ENOENT
  then (0, svc, stages, st <| last_recovery_reason := RR_EMPTY |> <| last_recovery_ns := now |>)
  else if ora 0%nat <? 0 then (ora 0%nat, svc, stages, st)
  else if ora 1%nat <? 0 then (ora 1%nat, svc, stages, st)
  else if ora 2%nat <? 0 then (ora 2%nat, svc, stages, st)
  else
    let '(names, oom, k) := smoothfs_range_actor ora 3%nat listing in
    if oom then (- ENOMEM, svc, stages, st)
    else
      let '(err, w, recovered, skipped) :=
        replay_names ora sbi d names (RWorld k svc stages (RTotals 0 0 0 false)) 0 0 in
      (err, rw_svc w, rw_stages w, publish_recovery st (rw_tot w) err recovered skipped now).
End Replay.
Arguments rworld : clear implicits.
Arguments RWorld {S} _ _ _ _.

(** ** Names: lemmas *)

Lemma hex_digit d : 0 <= d < 16 -> hex_to_bin (hex_asc d) = d.
Proof.
  intros Hd. assert (forallb (fun d => hex_to_bin (hex_asc d) =? d) (seqZ 0 16) = true) as H
    by reflexivity.
  rewrite forallb_forall in H. apply Z.eqb_eq, H, list_elem_of_In, elem_of_seqZ. lia.
Qed.

Lemma nibbles b : byte_ok b -> Z.lor (Z.shiftl (b / 16) 4) (b mod 16) = b.
Proof.
  intros Hb. unfold byte_ok in Hb.
  assert (forallb (fun b => Z.lor (Z.shiftl (b / 16) 4) (b mod 16) =? b) (seqZ 0 256) = true) as H
    by (vm_compute; reflexivity).
  rewrite forallb_forall in H. apply Z.eqb_eq, H, list_elem_of_In, elem_of_seqZ. lia.
Qed.

Lemma parse_hex_string bs suffix :
  bytes_ok bs -> parse_hex (length bs) (hex_string bs ++ suffix) = Some bs.
Proof.
  induction 1 as [|b bs Hb Hbs IH]; [done|]. cbn [length parse_hex hex_string].
  change (String ?a (String ?c ?h) +:+ ?t) with (String a (String c (h +:+ t))). cbv beta iota.
  assert (0 <= b / 16 < 16 /\ 0 <= b mod 16 < 16) as [H1 H2].
  { unfold byte_ok in Hb. split; [|apply Z.mod_pos_bound; lia].
    split; [apply Z.div_pos; lia|apply Z.div_lt_upper_bound; lia]. }
  rewrite !hex_digit by done.
  destruct (Z.ltb_spec (b / 16) 0); [lia|]. destruct (Z.ltb_spec (b mod 16) 0); [lia|].
  cbn [orb]. by rewrite IH, nibbles.
Qed.

Lemma substring_0_length s : String.substring 0 (String.length s) s = s.
Proof. induction s as [|c s IH]; simpl; [done|by rewrite IH]. Qed.

Lemma length_hex_string bs : String.length (hex_string bs) = (2 * length bs)%nat.
Proof. induction bs; simpl; lia. Qed.

Lemma string_length_app s t : String.length (s ++ t) = (String.length s + String.length t)%nat.
Proof. induction s; simpl; [done|by rewrite IHs]. Qed.

Lemma parse_meta_name oid :
  bytes_ok oid -> length oid = SMOOTHFS_OID_LEN ->
  smoothfs_range_parse_oid (smoothfs_range_meta_name oid SMOOTHFS_RANGE_REC_SUFFIX) = Ok oid.
Proof.
  intros Hb Hl. unfold smoothfs_range_parse_oid, smoothfs_range_meta_name.
  rewrite !string_length_app, length_hex_string, Hl. unfold SMOOTHFS_RANGE_REC_PREFIX.
  cbn -[hex_string parse_hex]. rewrite <- Hl at 1.
  replace 37%nat with (String.length (hex_string oid ++ SMOOTHFS_RANGE_REC_SUFFIX))
    by (rewrite string_length_app, length_hex_string, Hl; reflexivity).
  change (String.substring 6 ?n ("range-" +:+ ?t)) with (String.substring 0 n t).
  by rewrite substring_0_length, parse_hex_string.
Qed.

Lemma append_inj_l s t u : (s ++ t = s ++ u)%string -> t = u.
Proof. induction s; simpl; [done|]. intros [= ?]. auto. Qed.

Lemma meta_name_suffix_ne oid s t :
  s <> t -> smoothfs_range_meta_name oid s <> smoothfs_range_meta_name oid t.
Proof. intros Hne Heq. unfold smoothfs_range_meta_name in Heq. by do 2 apply append_inj_l in Heq. Qed.

(** ** Encoding: lemmas *)

(** The bytes of a complete sidecar. *)
Definition encode_meta (source_tier ns : Z) (ranges : list srange) : list Z :=
  meta_header source_tier ns (Z.of_nat (length ranges)) ++ concat (map meta_entry ranges).

Lemma count_ranges_loop_ok l : forall c,
  0 <= c <= SMOOTHFS_RANGE_REC_MAX_RANGES ->
  count_ranges_loop c l = if c + Z.of_nat (length l) <=? SMOOTHFS_RANGE_REC_MAX_RANGES
                          then Ok (c + Z.of_nat (length l)) else Err (- E2BIG).
Proof.
  induction l as [|r l IH]; intros c Hc; cbn [count_ranges_loop length].
  { rewrite Z.add_0_r. by destruct (Z.leb_spec c SMOOTHFS_RANGE_REC_MAX_RANGES); [|lia]. }
  destruct (Z.leb_spec SMOOTHFS_RANGE_REC_MAX_RANGES c);
    destruct (Z.leb_spec (c + Z.of_nat (S (length l))) SMOOTHFS_RANGE_REC_MAX_RANGES); try lia;
    rewrite ?IH by lia; try done;
    destruct (Z.leb_spec (c + 1 + Z.of_nat (length l)) SMOOTHFS_RANGE_REC_MAX_RANGES);
    try lia; f_equal; lia.
Qed.

Lemma count_ranges_spec l :
  smoothfs_range_count_ranges l
  = if Z.of_nat (length l) <=? SMOOTHFS_RANGE_REC_MAX_RANGES
    then Ok (Z.of_nat (length l)) else Err (- E2BIG).
Proof.
  unfold smoothfs_range_count_ranges. rewrite count_ranges_loop_ok; [done|].
  unfold SMOOTHFS_RANGE_REC_MAX_RANGES. lia.
Qed.

Lemma length_meta_header t ns c : length (meta_header t ns c) = 32%nat.
Proof. unfold meta_header. by rewrite !length_app, !length_le_split. Qed.

Lemma length_meta_entry r : length (meta_entry r) = 16%nat.
Proof. unfold meta_entry. by rewrite !length_app, !length_le_split. Qed.

Lemma write_entries_outcome ora l : forall k f,
  exists e k' f', write_entries ora k f (fsize f) l = (e, k', f')
  /\ e <= 0 /\ (e = 0 -> f' = f ++ concat (map meta_entry l)).
Proof.
  induction l as [|r l IH]; intros k f; cbn [write_entries map concat].
  { exists 0, k, f. split_and!; [done|lia|]. intros _. by rewrite app_nil_r. }
  unfold smoothfs_range_write_full.
  destruct (write_full_outcome ora k f (fsize f) (meta_entry r)) as (e & k1 & m & -> & He & Hm);
    [apply fsize_nonneg|].
  destruct (Z.eqb_spec e 0) as [->|]; cbn [negb]; [|by eexists _, _, _].
  rewrite Hm by done. rewrite pwrite_end.
  replace (fsize f + SMOOTHFS_RANGE_REC_RANGE) with (fsize (f ++ meta_entry r))
    by (rewrite fsize_app; unfold fsize at 2; by rewrite length_meta_entry).
  destruct (IH k1 (f ++ meta_entry r)) as (e & k' & f' & -> & He' & Hf).
  exists e, k', f'. split_and!; [done..|]. intros ?. rewrite Hf by done. by rewrite <- app_assoc.
Qed.

(** ** Atomic replacement *)

Lemma unlink_path_frame ora k d name :
  exists e k' d', smoothfs_range_unlink_path ora k d name = (e, k', d')
  /\ (d' = d \/ d' = delete name d).
Proof. unfold smoothfs_range_unlink_path. repeat case_goal; eauto 10. Qed.

Lemma persist_out_spec ora err k d tmp :
  exists k' d', persist_out ora err k d tmp = (err, k', d')
  /\ (err = 0 -> d' = d) /\ (forall n, n <> tmp -> d' !! n = d !! n).
Proof.
  unfold persist_out. destruct (Z.eqb_spec err 0) as [?|Hnz]; [by eauto|].
  destruct (ora k <? 0); [by eauto|].
  destruct (unlink_path_frame ora (S k) d tmp) as (e & k' & d' & -> & Hd).
  exists k', d'. split_and!; [done..|]. intros n Hn. destruct Hd as [Hd|Hd]; subst d'; [done|].
  by rewrite lookup_delete_ne.
Qed.

Lemma rename_meta_spec ora k d tmp final :
  exists e k' d', smoothfs_range_rename_meta ora k d tmp final = (e, k', d')
  /\ e <= 0
  /\ (e <> 0 -> d' = d)
  /\ (e = 0 -> exists c, d !! tmp = Some c /\ d' = <[final := c]> (delete tmp d)).
Proof.
  unfold smoothfs_range_rename_meta.
  repeat case_goal; to_prop; do 3 eexists;
    (split; [reflexivity|]); unfold ENOENT in *; split_and!; try lia; try done; eauto.
Qed.

Lemma persist_spec ora k d oid tier ranges ns :
  let tmp := smoothfs_range_meta_name oid SMOOTHFS_RANGE_REC_TMP_SUFFIX in
  let final := smoothfs_range_meta_name oid SMOOTHFS_RANGE_REC_SUFFIX in
  exists err k' d', smoothfs_range_staging_persist ora k d oid tier ranges ns = (err, k', d')
  /\ (forall n, n <> tmp -> n <> final -> d' !! n = d !! n)
  /\ (err = 0 /\ Z.of_nat (length ranges) <= SMOOTHFS_RANGE_REC_MAX_RANGES
      /\ d' !! final = Some (encode_meta tier ns ranges)
      \/ err < 0 /\ d' !! final = d !! final).
Proof.
  intros tmp final. unfold smoothfs_range_staging_persist. rewrite count_ranges_spec.
  fold tmp final.
  assert (final <> tmp) as Hne by (by apply meta_name_suffix_ne).
  assert (forall err k d1, err < 0 -> (forall n, n <> tmp -> d1 !! n = d !! n) ->
    exists e k' d', persist_out ora err k d1 tmp = (e, k', d')
    /\ (forall n, n <> tmp -> n <> final -> d' !! n = d !! n)
    /\ (e = 0 /\ Z.of_nat (length ranges) <= SMOOTHFS_RANGE_REC_MAX_RANGES
        /\ d' !! final = Some (encode_meta tier ns ranges)
        \/ e < 0 /\ d' !! final = d !! final)) as Hfail.
  { intros err k1 d1 Herr Hfr. destruct (persist_out_spec ora err k1 d1 tmp) as (k' & d' & -> & _ & Hd).
    exists err, k', d'. split; [done|]. split; [intros n H1 H2; by rewrite Hd, Hfr|].
    right. split; [done|]. by rewrite Hd, Hfr. }
  destruct (Z.leb_spec (Z.of_nat (length ranges)) SMOOTHFS_RANGE_REC_MAX_RANGES) as [Hlen|].
  2: { exists (- E2BIG), k, d. unfold E2BIG. split_and!; [done..|right; split; [lia|done]]. }
  destruct (Z.ltb_spec (ora k) 0).
  { exists (- ENOMEM), (S k), d. unfold ENOMEM. split_and!; [done..|right; split; [lia|done]]. }
  destruct (Z.ltb_spec (ora (k + 1)%nat) 0); [apply Hfail; [unfold ENOMEM; lia|done]|].
  destruct (Z.ltb_spec (ora (k + 2)%nat) 0); [by apply Hfail|].
  assert (forall f n, n <> tmp -> (<[tmp := f]> d : meta_dir) !! n = d !! n) as Hins
    by (intros; by rewrite lookup_insert_ne).
  unfold smoothfs_range_write_full.
  destruct (write_full_outcome ora (k + 3)%nat [] 0 (meta_header tier ns (Z.of_nat (length ranges))))
    as (e & k1 & m & -> & He & Hm); [lia|].
  destruct (Z.eqb_spec e 0) as [->|]; cbn [negb]; [|apply Hfail; [lia|auto]].
  rewrite Hm by done. change 0 with (fsize []) at 1. rewrite pwrite_end. cbn [app].
  replace SMOOTHFS_RANGE_REC_HEADER with (fsize (meta_header tier ns (Z.of_nat (length ranges))))
    by (unfold fsize; by rewrite length_meta_header).
  destruct (write_entries_outcome ora ranges k1 (meta_header tier ns (Z.of_nat (length ranges))))
    as (e & k2 & f & -> & He2 & Hf).
  destruct (Z.eqb_spec e 0) as [->|]; cbn [negb]; [|apply Hfail; [lia|auto]].
  destruct (Z.ltb_spec (ora k2) 0); [apply Hfail; [done|auto]|].
  destruct (rename_meta_spec ora (S k2) (<[tmp := f]> d) tmp final) as (e & k3 & d3 & -> & He3 & Hbad & Hgood).
  destruct (decide (e = 0)) as [->|Hnz]; [|rewrite Hbad by done; apply Hfail; [lia|auto]].
  destruct Hgood as (c & Hc & ->); [done|]. rewrite lookup_insert_eq in Hc. injection Hc as <-.
  destruct (persist_out_spec ora 0 k3 (<[final := f]> (delete tmp (<[tmp := f]> d))) tmp)
    as (k' & d' & -> & Hd & _). rewrite Hd by done.
  eexists 0, k', _. split; [reflexivity|]. split.
  - intros n Hn1 Hn2. by rewrite lookup_insert_ne, lookup_delete_ne, lookup_insert_ne.
  - left. split_and!; [done..|]. rewrite lookup_insert_eq. by rewrite Hf.
Qed.

(** ** Replaying what was written *)

Lemma le_combine_split_u64 z : le_combine (le_split 8 (u64 z)) = u64 z.
Proof. apply le_combine_split_id. unfold u64. pose proof (Z.mod_pos_bound z (2 ^ 64)). lia. Qed.

Lemma s64_u64 z : - 2 ^ 63 <= z < 2 ^ 63 -> s64 (u64 z) = z.
Proof.
  intros Hz. unfold s64, u64. rewrite Z.mod_mod by lia.
  destruct (decide (0 <= z)).
  - rewrite Z.mod_small by lia. destruct (Z.ltb_spec z (2 ^ 63)); lia.
  - replace (z mod 2 ^ 64) with (z + 2 ^ 64).
    2: { apply Z.mod_unique with (q := -1); lia. }
    destruct (Z.ltb_spec (z + 2 ^ 64) (2 ^ 63)); lia.
Qed.

(** A range that fits [loff_t]. *)
Definition range_fits (r : srange) : Prop := 0 <= r_start r < r_end r /\ r_end r < 2 ^ 63.

Lemma pread_concat f pos len n g :
  f = concat g -> pos = fsize (concat (take n g)) ->
  forall x, g !! n = Some x -> len = fsize x -> pread f pos len = x.
Proof.
  intros -> -> x Hx ->. rewrite <- (take_drop_middle g n x Hx) at 1.
  rewrite concat_app. simpl. unfold pread, slice, fsize. rewrite !Nat2Z.id.
  by rewrite drop_app_length, take_app_length.
Qed.

Lemma fsize_concat_entries l : fsize (concat (map meta_entry l)) = 16 * Z.of_nat (length l).
Proof.
  induction l as [|r l IH]; [done|]. cbn [map concat length]. rewrite fsize_app, IH.
  unfold fsize. rewrite length_meta_entry. lia.
Qed.

Lemma entry_decode r :
  range_fits r ->
  s64 (le_combine (slice 0 8 (meta_entry r))) = r_start r
  /\ s64 (le_combine (slice 8 8 (meta_entry r))) = r_end r.
Proof.
  intros [Hr1 Hr2]. unfold meta_entry.
  rewrite slice_0_app by apply length_le_split.
  rewrite slice_app_r by apply length_le_split.
  rewrite (take_ge (le_split 8 _)) by (by rewrite length_le_split).
  by rewrite !le_combine_split_u64, !s64_u64 by lia.
Qed.

Lemma read_ranges_smooth ora pre suf : smooth_run ora 32 -> forall l k,
  Forall range_fits l ->
  exists k', read_ranges (length l) ora k (pre ++ concat (map meta_entry l) ++ suf) (fsize pre)
             = (Ok l, k').
Proof.
  intros Hs l. revert pre. induction l as [|r l IH]; intros pre k Hf; [by exists k|].
  apply Forall_cons in Hf as [[Hr1 Hr2] Hf]. cbn [length read_ranges map concat].
  set (f := pre ++ _). assert (pread f (fsize pre) 16 = meta_entry r) as Hp.
  { unfold f, pread, slice, fsize. rewrite Nat2Z.id, drop_app_length.
    rewrite <- app_assoc. change (Z.to_nat 16) with 16%nat.
    rewrite <- (length_meta_entry r). by rewrite take_app_length. }
  destruct (read_full_smooth ora f 32 k (fsize pre) SMOOTHFS_RANGE_REC_RANGE) as [k1 ->];
    [done|apply fsize_nonneg|unfold SMOOTHFS_RANGE_REC_RANGE; lia| |].
  { unfold f. rewrite !fsize_app. unfold fsize at 3. rewrite length_meta_entry.
    unfold SMOOTHFS_RANGE_REC_RANGE. pose proof (fsize_nonneg (concat (map meta_entry l))).
    pose proof (fsize_nonneg suf). lia. }
  unfold SMOOTHFS_RANGE_REC_RANGE. rewrite Hp.
  destruct (entry_decode r) as [-> ->]; [by split|].
  destruct (Z.leb_spec (r_end r) (r_start r)); [lia|].
  destruct (Z.ltb_spec (ora k1) 0); [specialize (Hs k1); lia|].
  destruct (IH (pre ++ meta_entry r) (S k1) Hf) as [k' Hk].
  replace (fsize (pre ++ meta_entry r)) with (fsize pre + 16) in Hk
    by (rewrite fsize_app; unfold fsize; by rewrite length_meta_entry).
  rewrite <- !app_assoc in Hk. unfold f. rewrite <- app_assoc, Hk.
  exists k'. by destruct r.
Qed.

Lemma parse_meta_header n tier ns count :
  0 <= tier < n -> n <= 256 -> 0 <= ns < 2 ^ 64 -> 0 <= count <= SMOOTHFS_RANGE_REC_MAX_RANGES ->
  parse_header n (meta_header tier ns count) = Ok (tier, ns, count).
Proof.
  intros Ht Hn Hns Hc. unfold parse_header, meta_header, SMOOTHFS_RANGE_REC_MAX_RANGES in *.
  rewrite slice_0_app by apply length_le_split.
  rewrite le_combine_split_id by (vm_compute; split; [discriminate|reflexivity]).
  rewrite Z.eqb_refl. cbn [negb].
  rewrite !(slice_app_skip _ _ (le_split 8 SMOOTHFS_RANGE_REC_MAGIC)) by (rewrite length_le_split; lia).
  rewrite lookup_app_r by (rewrite length_le_split; lia). rewrite !length_le_split. cbn [Nat.sub].
  rewrite slice_0_app by apply length_le_split.
  rewrite le_combine_split_id by (vm_compute; split; [discriminate|reflexivity]).
  rewrite Z.eqb_refl. cbn [negb].
  rewrite !(slice_app_skip _ _ (le_split 4 SMOOTHFS_RANGE_REC_VERSION)) by (rewrite length_le_split; lia).
  rewrite lookup_app_r by (rewrite length_le_split; lia). rewrite !length_le_split. cbn [Nat.sub].
  cbn [app lookup list_lookup default].
  change (slice 4 8 (?a :: ?b :: ?c :: ?e :: ?l)) with (slice 0 8 l).
  change (slice 12 4 (?a :: ?b :: ?c :: ?e :: ?l)) with (slice 8 4 l).
  rewrite slice_0_app by apply length_le_split.
  rewrite slice_app_skip, length_le_split by (rewrite length_le_split; lia). cbn [Nat.sub].
  rewrite slice_0_app by apply length_le_split.
  rewrite le_combine_split_u64. rewrite le_combine_split_id.
  2: { unfold u32. pose proof (Z.mod_pos_bound count (2 ^ 32)). lia. }
  unfold u32, u64, u8. rewrite !Z.mod_small by lia. cbn [id].
  destruct (Z.ltb_spec 65536 count); [lia|]. simpl. destruct (Z.leb_spec n tier); [lia|]. done.
Qed.

Lemma read_header_of_encode ora k tier ns l :
  smooth_run ora 32 ->
  exists k', smoothfs_range_read_full ora k (encode_meta tier ns l) 0 SMOOTHFS_RANGE_REC_HEADER
             = (Ok (meta_header tier ns (Z.of_nat (length l))), k').
Proof.
  intros Hs. destruct (read_full_smooth ora (encode_meta tier ns l) 32 k 0 SMOOTHFS_RANGE_REC_HEADER)
    as [k' ->]; [done|lia|unfold SMOOTHFS_RANGE_REC_HEADER; lia| |].
  - unfold encode_meta. rewrite fsize_app. unfold fsize at 1. rewrite length_meta_header.
    pose proof (fsize_nonneg (concat (map meta_entry l))). unfold SMOOTHFS_RANGE_REC_HEADER. lia.
  - exists k'. by do 2 f_equal.
Qed.

Section ReplayProps.
Context {S : Type} `{OidService S}.

(** The sidecar of a staged file restores its range list exactly. *)
Lemma replay_one_of_encode ora sbi d oid tier ns l ino (w : rworld S) svc :
  smooth_run ora 32 -> bytes_ok oid -> length oid = SMOOTHFS_OID_LEN ->
  0 <= tier < ntiers sbi -> ntiers sbi <= 256 -> 0 <= ns < 2 ^ 64 ->
  Z.of_nat (length l) <= SMOOTHFS_RANGE_REC_MAX_RANGES -> Forall range_fits l ->
  lookup_oid_resolve (rw_svc w) oid = (Some ino, svc) ->
  is_Some (d !! smoothfs_range_meta_name oid SMOOTHFS_RANGE_REC_STAGE_SUFFIX) ->
  exists w', smoothfs_range_replay_one ora sbi d (encode_meta tier ns l)
               (smoothfs_range_meta_name oid SMOOTHFS_RANGE_REC_SUFFIX) w = (0, w')
  /\ rw_stages w' = <[ino := RStage true true tier true
        (if cache_mode sbi then true
         else range_staging_pinned (default rstage_init (rw_stages w !! ino))) l]> (rw_stages w)
  /\ rw_tot w' = note_recovered (rw_tot w <| rt_rebuilt := rt_rebuilt (rw_tot w) |>)
                   (u64 (range_total l)) ns tier.
Proof.
  intros Hs Hb Hl Ht Hn Hns Hc Hf Hr Hst. unfold smoothfs_range_replay_one.
  rewrite parse_meta_name by done.
  destruct (read_header_of_encode ora (rw_k w) tier ns l Hs) as [k ->].
  rewrite parse_meta_header by (done || lia). unfold resolve_or_rebuild. rewrite Hr.
  destruct (Z.ltb_spec (ora k) 0); [specialize (Hs k); lia|].
  destruct (Z.ltb_spec (ora (k + 1)%nat) 0); [specialize (Hs (k + 1)%nat); lia|].
  rewrite bool_decide_true by done. cbn [orb negb]. rewrite Nat2Z.id.
  destruct (read_ranges_smooth ora (meta_header tier ns (Z.of_nat (length l))) [] Hs l (k + 2)%nat Hf)
    as [k' Hk]. rewrite app_nil_r in Hk. unfold encode_meta.
  replace SMOOTHFS_RANGE_REC_HEADER with (fsize (meta_header tier ns (Z.of_nat (length l))))
    by (unfold fsize; by rewrite length_meta_header).
  rewrite Hk. eexists. split; [reflexivity|]. split; [|done]. cbn [rw_stages]. f_equal.
  by destruct (cache_mode sbi).
Qed.

Lemma read_ranges_nonempty ora : forall n k f pos l k',
  read_ranges n ora k f pos = (Ok l, k') -> nonempty l /\ length l = n.
Proof.
  induction n as [|n IH]; intros k f pos l k'; cbn [read_ranges].
  { intros [= <- <-]. split; [constructor|done]. }
  destruct (smoothfs_range_read_full _ _ _ _ _) as [[|bs] k1]; [done|].
  case_goal; [done|]. case_goal; [done|].
  destruct (read_ranges n ora _ f _) as [[|l'] k2] eqn:E1; [done|]. intros [= <- <-].
  apply IH in E1 as [Hne Hlen]. to_prop. split; [constructor; [done|done]|simpl; by rewrite Hlen].
Qed.

(** C6. A sidecar that was persisted successfully is read back by mount-time
    replay as the same staging state of the same object: staged, marked
    recovered, the same source tier and exactly the same list of ranges. *)
Theorem persist_replay_roundtrip ora1 k d oid tier l ns k' d' ora sbi (w : rworld S) ino svc :
  smoothfs_range_staging_persist ora1 k d oid tier l ns = (0, k', d') ->
  is_Some (d !! smoothfs_range_meta_name oid SMOOTHFS_RANGE_REC_STAGE_SUFFIX) ->
  bytes_ok oid -> length oid = SMOOTHFS_OID_LEN ->
  0 <= tier < ntiers sbi -> ntiers sbi <= 256 -> 0 <= ns < 2 ^ 64 -> Forall range_fits l ->
  smooth_run ora 32 -> lookup_oid_resolve (rw_svc w) oid = (Some ino, svc) ->
  exists f w', d' !! smoothfs_range_meta_name oid SMOOTHFS_RANGE_REC_SUFFIX = Some f
  /\ smoothfs_range_replay_one ora sbi d' f
       (smoothfs_range_meta_name oid SMOOTHFS_RANGE_REC_SUFFIX) w = (0, w')
  /\ exists rs, rw_stages w' !! ino = Some rs
     /\ range_staged rs = true /\ range_staged_path rs = true /\ range_staged_recovered rs = true
     /\ range_staged_source_tier rs = tier /\ range_staged_ranges rs = l
     /\ (cache_mode sbi = true -> range_staging_pinned rs = true).
Proof.
  intros Hp Hst Hb Hlen Ht Hn Hns Hf Hs Hr.
  destruct (persist_spec ora1 k d oid tier l ns) as (e & k1 & d1 & Heq & Hfr & Hout).
  rewrite Heq in Hp. injection Hp as -> -> ->.
  destruct Hout as [(_ & Hmax & Hfin)|[? _]]; [|lia].
  eexists. rewrite Hfin.
  destruct (replay_one_of_encode ora sbi d' oid tier ns l ino w svc) as (w' & Hw & Hsg & _);
    try done.
  { rewrite Hfr; [done|by apply meta_name_suffix_ne..]. }
  exists w'. split; [done|]. split; [done|]. eexists. rewrite Hsg, lookup_insert_eq.
  split; [done|]. cbn. split_and!; try done. by intros ->.
Qed.

(** The state replay leaves an inode in. *)
Definition replayed_or_reset (old new : rstage) : Prop :=
  (range_staged new = true /\ range_staged_recovered new = true /\ range_staged_path new = true
   /\ nonempty (range_staged_ranges new))
  \/ (range_staged new = range_staged old /\ range_staged_path new = false
      /\ range_staged_ranges new = []).

(** Replaying one sidecar, valid or not, either leaves the staging state of
    every inode alone or replaces that of the one inode it names, fully or by a
    reset; the recovered byte count grows only by the ranges that inode now has. *)
Theorem replay_one_all_or_nothing ora sbi d f name (w w' : rworld S) err :
  smoothfs_range_replay_one ora sbi d f name w = (err, w') ->
  (rw_stages w' = rw_stages w \/
   exists ino new, rw_stages w' = <[ino := new]> (rw_stages w) /\ err = 0
     /\ replayed_or_reset (default rstage_init (rw_stages w !! ino)) new)
  /\ (rt_bytes (rw_tot w') <> rt_bytes (rw_tot w) ->
      exists ino rs, rw_stages w' !! ino = Some rs /\ range_staged rs = true
        /\ rt_bytes (rw_tot w') = u64 (rt_bytes (rw_tot w) + range_total (range_staged_ranges rs))).
Proof.
  unfold smoothfs_range_replay_one.
  destruct (smoothfs_range_parse_oid name) as [|oid]; [intros [= <- <-]; by split; [left|]|].
  destruct (smoothfs_range_read_full _ _ f _ _) as [[|h] k]; [intros [= <- <-]; by split; [left|]|].
  destruct (parse_header _ _) as [|[[tier ns] count]]; [intros [= <- <-]; by split; [left|]|].
  destruct (resolve_or_rebuild _ _ _) as [[[|[ino|]] svc] rb];
    [intros [= <- <-]; by split; [left|]| |intros [= <- <-]; by split; [left|]].
  case_goal; [intros [= <- <-]; by split; [left|]|].
  destruct (read_ranges _ _ _ _ _) as [[|l] k'] eqn:Er; intros [= <- <-]; cbn.
  - split; [|done]. right. eexists ino, _. split; [reflexivity|]. split; [done|]. by right.
  - apply read_ranges_nonempty in Er as [Hne _]. split.
    + right. eexists ino, _. split; [reflexivity|]. split; [done|]. left.
      by destruct (cache_mode sbi).
    + intros _. eexists ino, _. rewrite lookup_insert_eq. split; [done|].
      destruct (cache_mode sbi); cbn; (split; [done|]); unfold note_recovered; case_goal; cbn;
        unfold u64; by rewrite Zplus_mod_idemp_r.
Qed.
End ReplayProps.

(** ** A concrete pool *)

#[export] Instance demo_oids : OidService unit := {|
  lookup_oid_resolve := fun s _ => (Some 7, s);
  rebuild_for_staging := fun s => (0, s);
|}.

Definition demo_oid : list Z := [1; 2; 3; 4; 5; 6; 7; 8; 9; 10; 11; 12; 13; 14; 15; 250].
Definition demo_stage_name : string := smoothfs_range_meta_name demo_oid SMOOTHFS_RANGE_REC_STAGE_SUFFIX.
Definition demo_meta_name : string := smoothfs_range_meta_name demo_oid SMOOTHFS_RANGE_REC_SUFFIX.
Definition no_faults : oracle := fun _ => 2 ^ 40.
Definition demo_pool : sb_info := sb_zero <| ntiers := 2 |>.
Definition demo_rworld : rworld unit := RWorld 0%nat tt ∅ (RTotals 0 0 0 false).

Lemma no_faults_smooth n : n <= 2 ^ 40 -> smooth_run no_faults n.
Proof. intros H k. unfold no_faults. lia. Qed.

Lemma persist_replay_roundtrip_witness :
  let d := {[ demo_stage_name := [1; 2; 3] ]} : meta_dir in
  let p := smoothfs_range_staging_persist no_faults 0 d demo_oid 1 [SRange 0 3; SRange 8 12] 5 in
  let d' := snd p in
  fst (fst p) = 0 /\ exists f w', d' !! demo_meta_name = Some f
    /\ smoothfs_range_replay_one no_faults demo_pool d' f demo_meta_name demo_rworld = (0, w')
    /\ exists rs, rw_stages w' !! 7 = Some rs
       /\ range_staged rs = true /\ range_staged_path rs = true /\ range_staged_recovered rs = true
       /\ range_staged_source_tier rs = 1 /\ range_staged_ranges rs = [SRange 0 3; SRange 8 12]
       /\ (false = true -> range_staging_pinned rs = true).
Proof.
  intros d p d'. assert (fst (fst p) = 0) as Hp by (vm_compute; reflexivity).
  split; [exact Hp|].
  apply (persist_replay_roundtrip no_faults 0 d demo_oid 1 [SRange 0 3; SRange 8 12] 5 (snd (fst p)) d'
    no_faults demo_pool demo_rworld 7 tt).
  - fold p. rewrite <- Hp. unfold d'. by destruct p as [[? ?] ?].
  - eexists. vm_compute. reflexivity.
  - unfold bytes_ok, byte_ok. by repeat constructor.
  - done.
  - split; [lia|reflexivity].
  - discriminate.
  - split; [discriminate|reflexivity].
  - repeat constructor; discriminate.
  - by apply no_faults_smooth.
  - done.
Defined.

Lemma replay_one_all_or_nothing_witness :
  let f := take 40 (encode_meta 1 5 [SRange 0 3; SRange 8 12]) in
  let d := {[ demo_stage_name := [1; 2; 3] ]} : meta_dir in
  let w' := snd (smoothfs_range_replay_one no_faults demo_pool d f demo_meta_name demo_rworld) in
  rw_stages w' = ∅ \/ exists ino new, rw_stages w' = <[ino := new]> ∅ /\ 0 = 0
       /\ replayed_or_reset (default rstage_init ((∅ : gmap Z rstage) !! ino)) new.
Proof.
  intros f d w'. apply (replay_one_all_or_nothing no_faults demo_pool d f demo_meta_name demo_rworld).
  vm_compute. reflexivity.
Defined.

(** A sidecar cut off in its range list resets the inode's staging state and is
    counted as recovered. *)
Example replay_counts_truncated_record_as_recovered :
  let f := take 40 (encode_meta 1 5 [SRange 0 3; SRange 8 12]) in
  let d := {[ demo_stage_name := [1; 2; 3]; demo_meta_name := f ]} : meta_dir in
  let '(err, _, stages, st) := smoothfs_range_staging_replay no_faults demo_pool d
      [demo_meta_name] tt ∅ wstats_zero 9 in
  err = 0 /\ recovered_writes st = 1 /\ recovered_bytes st = 0
  /\ last_recovery_reason st = RR_REPLAY
  /\ (range_staged <$> stages !! 7) = Some false.
Proof. vm_compute. by repeat split. Qed.
