(* ===== verification/Staging.v ===== *)
(** * Range staging: src/src/smoothfs/file.c and the drains of super.c

    A write to a file that lives on a slow tier may be absorbed by the fastest
    tier: the bytes go to a stage file and the range is recorded; reads overlay
    the stage file on the lower file; a drain copies the staged bytes down and
    drops them.  The world of this component is one regular file: its lower
    (base) file, its stage file and sidecar in the [.smoothfs] directory of the
    fastest tier, its inode and the pool's counters.

    The promise, stated against an abstract byte file ([abs]): a staged file
    reads and writes like a plain file whatever is staged, drained or fails on
    the way. *)
From S2P Require Import Prelude Types Tiers KernelIO RangeList RangeMeta.

Definition SMOOTHFS_RANGE_READ_CHUNK : Z := 256 * 1024.

Record world := World {
  w_k : nat;                  (** fallible kernel calls made so far *)
  w_sbi : sb_info;
  w_si : inode_info;
  w_rs : rstage;
  w_st : wstats;
  w_dir : meta_dir;           (** [.smoothfs] of the fastest tier *)
  w_base : list Z;            (** the lower file *)
  w_write_staged : bool;      (** [si->write_staged] *)
  w_rehomes : Z;              (** [smoothfs_write_staging_pending_rehomes] *)
  w_depth : nat;              (** directories from the parent up to the tier root *)
}.
#[export] Instance world_eta : Eta world := fun r =>
  World (w_k r) (w_sbi r) (w_si r) (w_rs r) (w_st r) (w_dir r) (w_base r)
    (w_write_staged r) (w_rehomes r) (w_depth r).

Definition stage_name (w : world) : string :=
  smoothfs_range_meta_name (oid (w_si w)) SMOOTHFS_RANGE_REC_STAGE_SUFFIX.

(** The stage file's bytes. *)
Definition stage_file (w : world) : list Z := default [] (w_dir w !! stage_name w).

Definition tick (n : nat) (w : world) : world := w <| w_k := (w_k w + n)%nat |>.

(** ** Counters (super.c) *)

Definition cmpxchg_zero (old now : Z) : Z := if old =? 0 then now else old.

Definition smoothfs_write_staging_note_range_write (st : wstats) (bytes now : Z) : wstats :=
  if bytes <? 0 then st
  else st <| staged_bytes := staged_bytes st + bytes |>
          <| range_staged_bytes := range_staged_bytes st + bytes |>
          <| range_staged_writes := range_staged_writes st + 1 |>
          <| oldest_staged_write_ns := cmpxchg_zero (oldest_staged_write_ns st) now |>
          <| ws_reason := SR_RANGE_WRITE |>.

Definition smoothfs_write_staging_note_write (st : wstats) (bytes now : Z) : wstats :=
  if bytes <=? 0 then st
  else st <| staged_bytes := staged_bytes st + bytes |>
          <| staged_rehome_bytes := staged_rehome_bytes st + bytes |>
          <| oldest_staged_write_ns := cmpxchg_zero (oldest_staged_write_ns st) now |>
          <| ws_reason := SR_STAGED_WRITE |>.

Definition smoothfs_write_staging_note_rehome (st : wstats) (now : Z) : wstats :=
  st <| staged_rehomes_total := staged_rehomes_total st + 1 |>
     <| oldest_staged_write_ns := cmpxchg_zero (oldest_staged_write_ns st) now |>
     <| ws_reason := SR_TRUNCATE_REHOME |>.

Definition smoothfs_write_staging_has_work (st : wstats) (pending_rehomes : Z) : bool :=
  (0 <? staged_bytes st) || (0 <? pending_rehomes).

(** ** Staged write (file.c) *)

(** The decision: [mnt] is the mount of the lower file, [direct] the
    [IOCB_DIRECT] flag, [mapped] [mapping_writably_mapped] of the lower inode. *)
Definition smoothfs_should_range_stage_write (statfs : statfs_fn) (w : world) (mnt : Z)
    (direct mapped : bool) : bool :=
  let sbi := w_sbi w in
  if negb (write_staging_enabled sbi) then false
  else if negb (S_ISREG (i_type (w_si w))) then false
  else if direct then false
  else if negb (pin_eqb (pin (w_si w)) PIN_NONE) then false
  else if cache_mode sbi && mapped then false
  else
    let tier := smoothfs_tier_of sbi mnt in
    if (ntiers sbi <=? tier) || (tier =? fastest_tier sbi) then false
    else if file_tier_near_enospc statfs sbi (fastest_tier sbi) then false
    else true.

Definition smoothfs_range_stage_open_locked (ora : oracle) (w : world) : Z * world :=
  if range_staged_path (w_rs w) then (0, w)
  else if ora (w_k w) <? 0 then (- ENOMEM, tick 1 w)
  else if ora (w_k w + 1)%nat <? 0 then (ora (w_k w + 1)%nat, tick 2 w)
  else
    let w := match w_dir w !! stage_name w with
             | Some _ => w
             | None => w <| w_dir := <[stage_name w := []]> (w_dir w) |>
             end in
    (0, tick 2 (w <| w_rs := w_rs w <| range_staged_path := true |> |>)).

(** What happens once [ret > 0] bytes are in the stage file at [pos]. *)
Definition stage_record (ora : oracle) (now source_tier pos ret : Z) (w : world) : Z * world :=
  let rs := w_rs w in
  let before := range_total (range_staged_ranges rs) in
  let ranges := smoothfs_range_stage_record_locked pos (pos + ret) (range_staged_ranges rs) in
  let rs := rs <| range_staged_ranges := ranges |> in
  let rs := if cache_mode (w_sbi w) && negb (range_staging_pinned rs)
            then rs <| range_staging_pinned := true |> else rs in
  let rs := rs <| range_staged := true |> <| range_staged_source_tier := source_tier |> in
  let si := if i_size (w_si w) <? pos + ret then w_si w <| i_size := pos + ret |> else w_si w in
  let st := smoothfs_write_staging_note_range_write (w_st w) (range_total ranges - before) now in
  let '(err, k, d) := smoothfs_range_staging_persist ora (w_k w) (w_dir w) (oid si) source_tier
                        ranges now in
  let w := w <| w_rs := rs |> <| w_si := si |> <| w_st := st |> <| w_k := k |> <| w_dir := d |> in
  if negb (err =? 0) && cache_mode (w_sbi w)
  then (err, w <| w_si := smoothfs_note_data_change (w_si w) |>)
  else (ret, w).

(** Returns the result, [ki_pos], the bytes consumed from the iterator, and the
    world. *)
Definition smoothfs_range_stage_write (ora : oracle) (now source_tier : Z) (append : bool)
    (ki_pos : Z) (from : list Z) (w : world) : Z * Z * Z * world :=
  let pos := if append then i_size (w_si w) else ki_pos in
  let (err, w) := smoothfs_range_stage_open_locked ora w in
  if negb (err =? 0) then (err, pos, 0, w)
  else if ora (w_k w) <? 0 then (ora (w_k w), pos, 0, tick 1 w)
  else if ora (w_k w + 1)%nat <? 0 then (- ENOMEM, pos, 0, tick 2 w)
  else
    let (ret, f) := kernel_write ora (w_k w + 2)%nat (stage_file w) pos from in
    let w := tick 3 (w <| w_dir := <[stage_name w := f]> (w_dir w) |>) in
    if ret <=? 0 then (ret, pos, 0, w)
    else let (r, w) := stage_record ora now source_tier pos ret w in (r, pos + ret, ret, w).

(** ** Overlay read (file.c) *)

Fixpoint overlay_loop (ora : oracle) (k : nat) (stage : list Z) (l : list srange) (buf : list Z)
    (pos len : Z) : result (list Z) * nat :=
  match l with
  | [] => (Ok buf, k)
  | r :: l =>
      if pos + len <=? r_start r then (Ok buf, k)
      else if r_end r <=? pos then overlay_loop ora k stage l buf pos len
      else
        let start := Z.max (r_start r) pos in
        let end_ := Z.min (r_end r) (pos + len) in
        match kernel_read ora k stage start (end_ - start) with
        | Err e => (Err e, S k)
        | Ok bs => overlay_loop ora (S k) stage l (pwrite buf (start - pos) bs) pos len
        end
  end.

Definition smoothfs_range_stage_overlay_locked (ora : oracle) (k : nat) (w : world) (buf : list Z)
    (pos len : Z) : result (list Z) * nat :=
  if negb (smoothfs_range_overlaps (range_staged_ranges (w_rs w)) pos (pos + len)) then (Ok buf, k)
  else if ora k <? 0 then (Err (ora k), S k)
  else overlay_loop ora (S k) (stage_file w) (range_staged_ranges (w_rs w)) buf pos len.

(** [return done ? done : err] *)
Definition done_or (out : list Z) (err : Z) : result (list Z) :=
  match out with [] => Err err | _ => Ok out end.

(** The [while] loop: [count] is what the destination iterator still takes. *)
Fixpoint stage_read_loop (fuel : nat) (ora : oracle) (k : nat) (w : world) (count pos : Z)
    (out : list Z) : result (list Z) * nat :=
  match fuel with
  | O => (Ok out, k)
  | S fuel =>
      if (count <=? 0) || (i_size (w_si w) <=? pos) then (Ok out, k)
      else
        let want := Z.min count SMOOTHFS_RANGE_READ_CHUNK in
        let avail := Z.min want (i_size (w_si w) - pos) in
        if ora k <? 0 then (done_or out (- ENOMEM), S k)
        else match kernel_read ora (S k) (w_base w) pos avail with
             | Err e => (done_or out e, (k + 2)%nat)
             | Ok bs =>
                 let buf := pwrite (replicate (Z.to_nat avail) 0) 0 bs in
                 match smoothfs_range_stage_overlay_locked ora (k + 2)%nat w buf pos avail with
                 | (Err e, k) => (done_or out e, k)
                 | (Ok buf, k) =>
                     let n := Z.max 0 (Z.min (ora k) avail) in
                     if n <=? 0 then (Ok out, S k)
                     else
                       let out := out ++ take (Z.to_nat n) buf in
                       if n <? avail then (Ok out, S k)
                       else stage_read_loop fuel ora (S k) w (count - n) (pos + n) out
                 end
             end
  end.

(** [smoothfs_lower_file_error]: the lower file is an error, NULL or open. *)
Definition smoothfs_lower_file_error (lower : option (result Z)) : Z :=
  match lower with
  | Some (Err e) => e
  | None => - EBADF
  | Some (Ok _) => 0
  end.

Definition smoothfs_range_stage_read_iter (ora : oracle) (lower : option (result Z)) (w : world)
    (pos count : Z) : result (list Z) * nat :=
  let err := smoothfs_lower_file_error lower in
  if negb (err =? 0) then (Err err, w_k w)
  else stage_read_loop (Z.to_nat count) ora (w_k w) w count pos [].

(** ** Drain of one inode (super.c) *)

(** Copy [pos, end_) of the stage file to the base file. *)
Fixpoint drain_range_loop (fuel : nat) (ora : oracle) (k : nat) (stage base : list Z)
    (pos end_ drained : Z) : Z * nat * list Z * Z :=
  if end_ <=? pos then (0, k, base, drained)
  else match fuel with
       | O => (- EIO, k, base, drained)
       | S fuel =>
           let want := Z.min SMOOTHFS_RANGE_READ_CHUNK (end_ - pos) in
           match kernel_read ora k stage pos want with
           | Err e => (e, S k, base, drained)
           | Ok [] => (- EIO, S k, base, drained)
           | Ok bs =>
               let '(err, k, base) := smoothfs_write_full ora (S k) base pos bs in
               if negb (err =? 0) then (err, k, base, drained)
               else drain_range_loop fuel ora k stage base (pos + fsize bs) end_ (drained + fsize bs)
           end
       end.

Fixpoint drain_ranges_loop (ora : oracle) (k : nat) (stage base : list Z) (l : list srange)
    (drained : Z) : Z * nat * list Z * Z :=
  match l with
  | [] => (0, k, base, drained)
  | r :: l =>
      let '(err, k, base, drained) :=
        drain_range_loop (Z.to_nat (r_end r - r_start r)) ora k stage base (r_start r) (r_end r) drained in
      if negb (err =? 0) then (err, k, base, drained)
      else drain_ranges_loop ora k stage base l drained
  end.

(** [smoothfs_sync_base_parents]: open and fsync every directory from the
    parent up to the root of the tier. *)
Fixpoint smoothfs_sync_base_parents (ora : oracle) (k : nat) (depth : nat) : Z * nat :=
  match depth with
  | O => (0, k)
  | S depth =>
      if ora k <? 0 then (ora k, S k)
      else if ora (S k) <? 0 then (ora (S k), S (S k))
      else smoothfs_sync_base_parents ora (S (S k)) depth
  end.

(** Unlink the stage file; an absent one is fine. *)
Definition smoothfs_range_stage_unlink_path (ora : oracle) (w : world) : Z * world :=
  if ora (w_k w) <? 0 then (if ora (w_k w) =? - ENOENT then 0 else ora (w_k w), tick 1 w)
  else (0, tick 1 (w <| w_dir := delete (stage_name w) (w_dir w) |>)).

(** The [cleared] part: forget the ranges, remove stage file and sidecar,
    settle the counters, drop the pin. *)
Definition drain_cleared (ora : oracle) (now drained : Z) (w : world) : Z * world :=
  let was_recovered := range_staged_recovered (w_rs w) in
  let w := w <| w_rs := RStage false false SMOOTHFS_MAX_TIERS false
                  (range_staging_pinned (w_rs w)) [] |> in
  let (unlink_err, w) := smoothfs_range_stage_unlink_path ora w in
  let (k, d) := smoothfs_range_staging_clear ora (w_k w) (w_dir w) (oid (w_si w)) in
  let st := w_st w <| staged_bytes := staged_bytes (w_st w) - drained |>
                   <| range_staged_bytes := range_staged_bytes (w_st w) - drained |> in
  let st := if was_recovered
            then st <| recovery_pending := Z.max 0 (recovery_pending st - drained) |> else st in
  let st := st <| ws_last_drain_ns := now |> <| ws_reason := SR_RANGE_DRAIN |> in
  let st := if smoothfs_write_staging_has_work st (w_rehomes w) then st
            else st <| oldest_staged_write_ns := 0 |> in
  (unlink_err, w <| w_k := k |> <| w_dir := d |> <| w_st := st |>
                 <| w_rs := w_rs w <| range_staging_pinned := false |> |>).

Definition smoothfs_write_staging_drain_one_range (ora : oracle) (now : Z) (w : world) : Z * world :=
  let rs := w_rs w in
  if negb (range_staged rs) then (0, w)
  else if negb (smoothfs_write_staging_drain_tier_active (w_sbi w) (range_staged_source_tier rs))
  then (0, w)
  else if negb (range_staged_path rs) || bool_decide (lower_path (w_si w) = None)
  then (- ENOENT, w)
  else if ora (w_k w) <? 0 then (ora (w_k w), tick 1 w)
  else if ora (w_k w + 1)%nat <? 0 then (ora (w_k w + 1)%nat, tick 2 w)
  else if ora (w_k w + 2)%nat <? 0 then (- ENOMEM, tick 3 w)
  else
    let '(err, k, base, drained) :=
      drain_ranges_loop ora (w_k w + 3)%nat (stage_file w) (w_base w) (range_staged_ranges rs) 0 in
    let w := w <| w_base := base |> <| w_k := k |> in
    if negb (err =? 0) then (err, w)
    else if ora (w_k w) <? 0 then (ora (w_k w), tick 1 w)
    else
      let w := tick 1 w in
      let (err, k) := if cache_mode (w_sbi w)
                      then smoothfs_sync_base_parents ora (w_k w) (w_depth w) else (0, w_k w) in
      let w := w <| w_k := k |> in
      if negb (err =? 0) then (err, w) else drain_cleared ora now drained w.

Definition smoothfs_write_staging_drain_inode := smoothfs_write_staging_drain_one_range.

(** ** write_iter, read_iter, fsync (file.c) *)

(** The wait for a cutover: each element is the inode as the next wakeup finds
    it, or the signal that interrupts the wait.  [None]: still waiting when
    the listed wakeups are used up. *)
Fixpoint enter_write (waits : list (result movement_state)) (s : movement_state)
  : option (result movement_state) :=
  if negb (ms_eqb s MS_CUTOVER_IN_PROGRESS) then Some (Ok s)
  else match waits with
       | [] => None
       | Err e :: _ => Some (Err e)
       | Ok s' :: waits => enter_write waits s'
       end.

(** [struct kiocb] flags the write path reads. *)
Record kiocb := Kiocb {
  ki_pos : Z; ki_direct : bool; ki_append : bool; ki_sync : bool; ki_mapped : bool }.

(** The write to the lower file: [vfs_iter_write] on a file opened with the
    upper file's flags, so an append goes to the lower end of file. *)
Definition smoothfs_compat_write_iter (ora : oracle) (io : kiocb) (from : list Z) (w : world)
  : Z * world :=
  let pos := if ki_append io then fsize (w_base w) else ki_pos io in
  let (ret, f) := kernel_write ora (w_k w) (w_base w) pos from in
  (ret, tick 1 (w <| w_base := f |>)).

Definition add_active (tier d : Z) (w : world) : world :=
  if tier <? ntiers (w_sbi w)
  then w <| w_sbi := update_tier tier (fun t => t <| active_writes := active_writes t + d |>) (w_sbi w) |>
  else w.

(** The two write strategies; the base-write branch drains first. *)
Definition write_dispatch (ora : oracle) (statfs : statfs_fn) (now mnt : Z) (io : kiocb)
    (from : list Z) (w : world) : Z * world :=
  let tier := smoothfs_tier_of (w_sbi w) mnt in
  if smoothfs_should_range_stage_write statfs w mnt (ki_direct io) (ki_mapped io) then
    let '(ret, pos, used, w) :=
      smoothfs_range_stage_write ora now tier (ki_append io) (ki_pos io) from w in
    if cache_mode (w_sbi w) && (ret =? - ENOSPC) && (used =? 0) then
      let (err, w) := smoothfs_write_staging_drain_inode ora now w in
      if negb (err =? 0) then (err, w)
      else smoothfs_compat_write_iter ora
             (Kiocb pos (ki_direct io) (ki_append io) (ki_sync io) (ki_mapped io)) from w
    else (ret, w)
  else
    let (err, w) := if range_staged (w_rs w) then smoothfs_write_staging_drain_inode ora now w
                    else (0, w) in
    let err := if (err =? 0) && range_staged (w_rs w) then - EBUSY else err in
    if negb (err =? 0) then (err, w) else smoothfs_compat_write_iter ora io from w.

(** After the barrier is left: heat counters, size, and the [O_SYNC] drain. *)
Definition write_finish (ora : oracle) (now tier ret : Z) (io : kiocb) (w : world) : Z * world :=
  let w :=
    if 0 <? ret then
      let si := w_si w <| write_bytes := write_bytes (w_si w) + ret |> in
      let si := smoothfs_note_data_change si in
      let st := if negb (range_staged (w_rs w)) && w_write_staged w && (tier =? fastest_tier (w_sbi w))
                then smoothfs_write_staging_note_write (w_st w) ret now else w_st w in
      let si := si <| last_access_ns := now |> in
      let si := if range_staged (w_rs w) then si else si <| i_size := fsize (w_base w) |> in
      w <| w_si := si |> <| w_st := st |>
    else w in
  if (0 <? ret) && cache_mode (w_sbi w) && ki_sync io then
    let (err, w) := smoothfs_write_staging_drain_inode ora now w in
    let (err, w) := if err =? 0 then (call ora (w_k w), tick 1 w) else (err, w) in
    if negb (err =? 0) then (err, w) else (ret, w)
  else (ret, w).

(** [None]: the writer is still waiting for a cutover. *)
Definition smoothfs_write_iter (ora : oracle) (statfs : statfs_fn) (now : Z)
    (waits : list (result movement_state)) (lower : option (result Z)) (io : kiocb)
    (from : list Z) (w : world) : option (Z * world) :=
  match enter_write waits (ms (w_si w)) with
  | None => None
  | Some (Err e) => Some (e, w)
  | Some (Ok s) =>
      let w := w <| w_si := w_si w <| ms := s |> |> in
      match lower with
      | None => Some (- EBADF, w)
      | Some (Err e) => Some (e, w)
      | Some (Ok mnt) =>
          let tier := smoothfs_tier_of (w_sbi w) mnt in
          if range_staged (w_rs w) && ki_direct io then Some (- EBUSY, w)
          else
            let w := add_active tier 1 w in
            let (sbi, si) := smoothfs_clear_write_reservation (w_sbi w) (w_si w) in
            let w := w <| w_sbi := sbi |> <| w_si := si |> in
            let (ret, w) := write_dispatch ora statfs now mnt io from w in
            let w := add_active tier (-1) w in
            Some (write_finish ora now tier ret io w)
      end
  end.

Definition smoothfs_fsync (ora : oracle) (now : Z) (lower : option (result Z)) (w : world) : Z * world :=
  let err := smoothfs_lower_file_error lower in
  if negb (err =? 0) then (err, w)
  else
    let (err, w) := if cache_mode (w_sbi w) then smoothfs_write_staging_drain_inode ora now w
                    else (0, w) in
    if negb (err =? 0) then (err, w) else (call ora (w_k w), tick 1 w).

(** [smoothfs_begin_data_change]: wait at the cutover gate ([None]: still
    waiting), then, in cache mode, drain what is staged before the base file is
    changed. *)
Definition drain_before_change (ora : oracle) (now : Z) (w : world) : Z * world :=
  if cache_mode (w_sbi w) && range_staged (w_rs w)
  then smoothfs_write_staging_drain_inode ora now w else (0, w).

Definition smoothfs_begin_data_change (ora : oracle) (now : Z) (waits : list (result movement_state)) (w : world)
  : option (Z * world) :=
  match enter_write waits (ms (w_si w)) with
  | None => None
  | Some (Err e) => Some (e, w)
  | Some (Ok s) => Some (drain_before_change ora now (w <| w_si := w_si w <| ms := s |> |>))
  end.

(** The size-changing branch of [smoothfs_setattr_inner] when the truncate is
    not rehomed: [notify_change] on the lower file, then the attributes are
    copied back. *)
Definition ftruncate (f : list Z) (size : Z) : list Z :=
  take (Z.to_nat size) (f ++ replicate (Z.to_nat size - length f) 0).

Definition setattr_lower (ora : oracle) (size : Z) (w : world) : Z * world :=
  if ora (w_k w) <? 0 then (ora (w_k w), tick 1 w)
  else
    let w := tick 1 (w <| w_base := ftruncate (w_base w) size |>) in
    (0, w <| w_si := smoothfs_note_data_change (w_si w <| i_size := fsize (w_base w) |>) |>).

Definition setattr_size (ora : oracle) (now size : Z) (waits : list (result movement_state)) (w : world)
  : option (Z * world) :=
  match smoothfs_begin_data_change ora now waits w with
  | None => None
  | Some (err, w) => Some (if err <? 0 then (err, w) else setattr_lower ora size w)
  end.

(** ** The abstract file *)

(** The byte a reader sees at [p]: staged if covered, else the base file's. *)
Definition view (w : world) (p : Z) : Z :=
  if coveredb p (range_staged_ranges (w_rs w)) then fbyte (stage_file w) p else fbyte (w_base w) p.

(** The file as its users know it. *)
Definition abs (w : world) : list Z := map (view w) (seqZ 0 (i_size (w_si w))).

(** The end of the last staged range. *)
Definition ranges_end (l : list srange) : Z := foldr (fun r a => Z.max (r_end r) a) 0 l.

Record world_ok (w : world) : Prop := WorldOk {
  ok_wf : ranges_wf (range_staged_ranges (w_rs w));
  ok_cov : forall p, covered p (range_staged_ranges (w_rs w)) -> 0 <= p < fsize (stage_file w);
  ok_unstaged : range_staged (w_rs w) = false -> range_staged_ranges (w_rs w) = [];
  ok_staged : range_staged (w_rs w) = true -> range_staged_path (w_rs w) = true;
  ok_size : i_size (w_si w) = Z.max (fsize (w_base w)) (ranges_end (range_staged_ranges (w_rs w)));
}.

(** No transfer of at most [n] bytes is cut short; calls may still fail. *)
Definition no_short (ora : oracle) (n : Z) : Prop := forall k, ora k < 0 \/ n <= ora k.

Lemma smooth_no_short ora n : smooth_run ora n -> no_short ora n.
Proof. intros H k. right. apply H. Qed.

Lemma fsize_abs w : 0 <= i_size (w_si w) -> fsize (abs w) = i_size (w_si w).
Proof. intros. unfold abs, fsize. rewrite length_map, length_seqZ. lia. Qed.

Lemma fbyte_abs w p : 0 <= p < i_size (w_si w) -> fbyte (abs w) p = view w p.
Proof.
  intros Hp. unfold fbyte, abs. destruct (Z.ltb_spec p 0); [lia|].
  rewrite list_lookup_fmap, lookup_seqZ_lt by lia. simpl. f_equal. lia.
Qed.

Lemma ranges_end_spec l :
  nonempty l -> 0 <= ranges_end l
  /\ (forall p, covered p l -> p < ranges_end l)
  /\ (0 < ranges_end l -> covered (ranges_end l - 1) l).
Proof.
  induction 1 as [|r l Hr Hl (IH0 & IH1 & IH2)]; cbn [ranges_end foldr].
  { split; [lia|]. split; [|lia]. intros p Hp. by apply covered_nil in Hp. }
  fold (ranges_end l) in *. split; [lia|]. split.
  - intros p [Hp|Hp]%covered_cons; [unfold in_range in Hp; lia|]. apply IH1 in Hp. lia.
  - intros Hpos. apply covered_cons. destruct (decide (r_end r < ranges_end l)).
    + right. rewrite Z.max_r by lia. apply IH2. lia.
    + left. unfold in_range. lia.
Qed.

(** [ranges_end] depends only on the covered positions. *)
Lemma ranges_end_unique l m :
  nonempty l -> 0 <= m -> (forall p, covered p l -> p < m) -> (0 < m -> covered (m - 1) l) ->
  ranges_end l = m.
Proof.
  intros Hne H0 H1 H2. destruct (ranges_end_spec l Hne) as (E0 & E1 & E2).
  destruct (Z.lt_trichotomy (ranges_end l) m) as [Hlt|[->|Hgt]]; [|done|].
  - specialize (H2 ltac:(lia)). apply E1 in H2. lia.
  - specialize (E2 ltac:(lia)). apply H1 in E2. lia.
Qed.

Lemma coveredb_false p l : coveredb p l = false <-> ~ covered p l.
Proof. rewrite <- coveredb_spec. by destruct (coveredb p l). Qed.

Lemma record_ranges_end pos n l :
  ranges_wf l -> 0 <= pos -> 0 < n ->
  ranges_end (smoothfs_range_stage_record_locked pos (pos + n) l) = Z.max (ranges_end l) (pos + n).
Proof.
  intros Hwf Hp Hn. pose proof (ranges_wf_nonempty _ Hwf) as Hne.
  destruct (ranges_end_spec l Hne) as (E0 & E1 & E2).
  apply ranges_end_unique; [by apply ranges_wf_nonempty, record_wf|lia|..];
    setoid_rewrite record_covered; try done.
  - intros p [Hc|?]; [apply E1 in Hc; lia|lia].
  - intros _. destruct (decide (pos + n < ranges_end l)); [left|right; lia].
    rewrite Z.max_l by lia. apply E2. lia.
Qed.

Lemma ok_isize_nonneg w : world_ok w -> 0 <= i_size (w_si w).
Proof. intros H. rewrite (ok_size w H). pose proof (fsize_nonneg (w_base w)). lia. Qed.

(** Two worlds with the same size and the same view are the same file. *)
Lemma abs_ext w w' :
  i_size (w_si w') = i_size (w_si w) -> (forall p, 0 <= p -> view w' p = view w p) ->
  abs w' = abs w.
Proof.
  intros Hs Hv. unfold abs. rewrite Hs. apply map_ext_in. intros p Hp.
  apply list_elem_of_In, elem_of_seqZ in Hp. apply Hv. lia.
Qed.

(** ** The staged write *)

Lemma abs_record w w' pos bs :
  world_ok w -> 0 <= pos -> bs <> [] ->
  w_base w' = w_base w ->
  range_staged_ranges (w_rs w')
    = smoothfs_range_stage_record_locked pos (pos + fsize bs) (range_staged_ranges (w_rs w)) ->
  stage_file w' = pwrite (stage_file w) pos bs ->
  i_size (w_si w') = Z.max (i_size (w_si w)) (pos + fsize bs) ->
  abs w' = pwrite (abs w) pos bs.
Proof.
  intros Hok Hp Hbs Hb Hr Hst Hsz. pose proof (ok_isize_nonneg w Hok) as Hi.
  assert (0 < fsize bs) by (destruct bs; [done|unfold fsize; simpl; lia]).
  apply fbyte_ext.
  - rewrite fsize_pwrite, !fsize_abs by (done || lia). done.
  - rewrite fsize_abs by lia. intros p Hpp. rewrite fbyte_abs by done. unfold view.
    rewrite Hr, Hst, Hb, !fbyte_pwrite by lia.
    assert (coveredb p (smoothfs_range_stage_record_locked pos (pos + fsize bs)
              (range_staged_ranges (w_rs w)))
            = coveredb p (range_staged_ranges (w_rs w)) || ((pos <=? p) && (p <? pos + fsize bs)))
      as ->.
    { apply eq_true_iff_eq. rewrite orb_true_iff, !coveredb_spec, record_covered, andb_true_iff,
        Z.leb_le, Z.ltb_lt by (apply ranges_wf_nonempty, Hok). done. }
    destruct (_ && _) eqn:E; [by rewrite orb_true_r|]. rewrite orb_false_r.
    destruct (decide (p < i_size (w_si w))); [by rewrite fbyte_abs by lia|].
    rewrite (fbyte_beyond (abs w)) by (rewrite fsize_abs; lia).
    destruct (coveredb p _) eqn:Ec.
    + apply coveredb_spec in Ec.
      apply (ranges_end_spec _ (ranges_wf_nonempty _ (ok_wf w Hok))) in Ec.
      rewrite (ok_size w Hok) in *. lia.
    + apply fbyte_beyond. rewrite (ok_size w Hok) in *. lia.
Qed.

(** What a step may not touch. *)
Definition same_file (w w' : world) : Prop :=
  w_sbi w' = w_sbi w /\ oid (w_si w') = oid (w_si w) /\ lower_path (w_si w') = lower_path (w_si w)
  /\ ms (w_si w') = ms (w_si w) /\ w_depth w' = w_depth w.

(** The staged-byte counter and the ranges move together. *)
Definition staged_slack (w : world) : Z :=
  range_staged_bytes (w_st w) - range_total (range_staged_ranges (w_rs w)).

Lemma stage_file_name w w' :
  oid (w_si w') = oid (w_si w) -> w_dir w' !! stage_name w = w_dir w !! stage_name w ->
  stage_file w' = stage_file w.
Proof. unfold stage_file, stage_name. intros -> H. by rewrite H. Qed.

Lemma persist_keeps_stage ora k d o tier l ns err k' d' :
  smoothfs_range_staging_persist ora k d o tier l ns = (err, k', d') ->
  err <= 0 /\ d' !! smoothfs_range_meta_name o SMOOTHFS_RANGE_REC_STAGE_SUFFIX
  = d !! smoothfs_range_meta_name o SMOOTHFS_RANGE_REC_STAGE_SUFFIX.
Proof.
  intros H. destruct (persist_spec ora k d o tier l ns) as (e & k1 & d1 & Heq & Hfr & Hout).
  rewrite Heq in H. injection H as -> -> ->.
  split; [destruct Hout as [[-> _]|[? _]]; lia|].
  apply Hfr; by apply meta_name_suffix_ne.
Qed.

Lemma note_range_write_bytes st b now :
  0 <= b -> range_staged_bytes (smoothfs_write_staging_note_range_write st b now) = range_staged_bytes st + b.
Proof.
  intros. unfold smoothfs_write_staging_note_range_write. destruct (Z.ltb_spec b 0); [lia|done].
Qed.

(** [w0] is the file before the bytes reached the stage file, [w] after. *)
Lemma stage_record_spec ora now tier pos bs w0 w r w' :
  world_ok w0 -> 0 <= pos -> bs <> [] ->
  same_file w0 w -> w_base w = w_base w0 -> i_size (w_si w) = i_size (w_si w0) ->
  range_staged_ranges (w_rs w) = range_staged_ranges (w_rs w0) -> range_staged_path (w_rs w) = true ->
  range_staged_bytes (w_st w) = range_staged_bytes (w_st w0) ->
  stage_file w = pwrite (stage_file w0) pos bs ->
  stage_record ora now tier pos (fsize bs) w = (r, w') ->
  world_ok w' /\ abs w' = pwrite (abs w0) pos bs /\ same_file w0 w' /\ w_base w' = w_base w0
  /\ staged_slack w' = staged_slack w0 /\ range_staged (w_rs w') = true
  /\ (r = fsize bs \/ r < 0 /\ cache_mode (w_sbi w) = true).
Proof.
  intros Hok Hp Hbs (Hs1 & Hs2 & Hs3 & Hs4 & Hs5) Hb Hsz Hr Hpath Hbytes Hst Heq.
  assert (0 < fsize bs) as Hn by (destruct bs; [done|unfold fsize; simpl; lia]).
  pose proof (ok_wf _ Hok) as Hwf.
  destruct (record_total pos (pos + fsize bs) (range_staged_ranges (w_rs w0)) Hwf) as [Ht1 Ht2]; [lia|].
  unfold stage_record in Heq. rewrite Hr in Heq.
  set (l := smoothfs_range_stage_record_locked pos _ _) in *.
  destruct (smoothfs_range_staging_persist _ _ _ _ _ _ _) as [[err k] d] eqn:Ep.
  match type of Ep with smoothfs_range_staging_persist _ _ _ (oid ?s) _ _ _ = _ =>
    assert (oid s = oid (w_si w)) as Ho by (by case_goal) end.
  rewrite Ho in Ep. apply persist_keeps_stage in Ep as [Herr Hkeep].
  match type of Heq with context [_ <| w_rs := ?x |> <| w_si := ?y |> <| w_st := ?z |>] =>
    set (rs := x) in *; set (si := y) in *; set (st := z) in * end.
  assert (range_staged_ranges rs = l /\ range_staged rs = true /\ range_staged_path rs = true) as (R1 & R2 & R3).
  { unfold rs. by case_goal. }
  assert (i_size si = Z.max (i_size (w_si w0)) (pos + fsize bs) /\ oid si = oid (w_si w0)
          /\ lower_path si = lower_path (w_si w0) /\ ms si = ms (w_si w0)) as (S1 & S2 & S3 & S4).
  { unfold si. destruct (Z.ltb_spec (i_size (w_si w)) (pos + fsize bs)); cbn; split_and!; try done; lia. }
  assert (range_staged_bytes st = range_staged_bytes (w_st w0) + (range_total l - range_total (range_staged_ranges (w_rs w0)))) as T1.
  { unfold st. rewrite note_range_write_bytes by lia. by rewrite Hbytes. }
  clearbody rs si st.
  assert (forall w1, w_rs w1 = rs -> w_base w1 = w_base w0 -> w_dir w1 = d ->
    i_size (w_si w1) = i_size si -> oid (w_si w1) = oid (w_si w0) ->
    world_ok w1 /\ abs w1 = pwrite (abs w0) pos bs) as Hgoal.
  { intros w1 E1 E2 E3 E4 E5.
    assert (stage_file w1 = pwrite (stage_file w0) pos bs) as Hst1.
    { rewrite <- Hst. apply stage_file_name; [by rewrite E5|]. by rewrite E3. }
    split.
    - constructor; rewrite ?E1, ?R1.
      + by apply record_wf.
      + intros p. unfold l. rewrite record_covered by (by apply ranges_wf_nonempty).
        rewrite Hst1, fsize_pwrite by done. intros [Hc|?]; [apply (ok_cov _ Hok) in Hc; lia|lia].
      + by rewrite R2.
      + by rewrite R3.
      + rewrite E4, S1, E2. unfold l. rewrite record_ranges_end by done.
        rewrite (ok_size _ Hok). lia.
    - apply abs_record; try done; [by rewrite E1|by rewrite E4]. }
  case_hyp Heq; injection Heq as <- <-; to_prop.
  - destruct (Hgoal (w <| w_rs := rs |> <| w_si := smoothfs_note_data_change si |> <| w_st := st |>
        <| w_k := k |> <| w_dir := d |>)) as [G1 G2]; [by cbn; auto..|].
    split_and!; [exact G1|exact G2|by cbn..| |done|].
    + unfold staged_slack. cbn. rewrite R1. lia.
    + right. split; [lia|]. done.
  - destruct (Hgoal (w <| w_rs := rs |> <| w_si := si |> <| w_st := st |>
        <| w_k := k |> <| w_dir := d |>)) as [G1 G2]; [by cbn; auto..|].
    split_and!; [exact G1|exact G2|by cbn..| |done|by left].
    unfold staged_slack. cbn. rewrite R1. lia.
Qed.

(** Steps that leave the file as it is. *)
Definition quiet (w w' : world) : Prop :=
  same_file w w' /\ w_base w' = w_base w /\ i_size (w_si w') = i_size (w_si w)
  /\ range_staged_ranges (w_rs w') = range_staged_ranges (w_rs w)
  /\ range_staged (w_rs w') = range_staged (w_rs w)
  /\ (range_staged_path (w_rs w) = true -> range_staged_path (w_rs w') = true)
  /\ stage_file w' = stage_file w /\ w_st w' = w_st w.

Lemma quiet_refl w : quiet w w.
Proof. by repeat split. Qed.

Lemma quiet_tick n w w' : quiet w w' -> quiet w (tick n w').
Proof. done. Qed.

Lemma quiet_ok w w' : quiet w w' -> world_ok w -> world_ok w' /\ abs w' = abs w
  /\ staged_slack w' = staged_slack w.
Proof.
  intros ((_ & _) & Hb & Hs & Hr & Hrs & Hp & Hst & Hw) Hok. split_and!.
  - constructor; rewrite ?Hr, ?Hst, ?Hrs, ?Hs, ?Hb; try apply Hok. intros H. apply Hp. by apply Hok.
  - apply abs_ext; [done|]. intros p _. unfold view. by rewrite Hr, Hst, Hb.
  - unfold staged_slack. by rewrite Hr, Hw.
Qed.

Lemma stage_open_spec ora w err w' :
  smoothfs_range_stage_open_locked ora w = (err, w') ->
  quiet w w' /\ err <= 0 /\ (err = 0 -> range_staged_path (w_rs w') = true).
Proof.
  unfold smoothfs_range_stage_open_locked.
  destruct (range_staged_path (w_rs w)) eqn:Ep; [intros [= <- <-]; split; [apply quiet_refl|done]|].
  destruct (Z.ltb_spec (ora (w_k w)) 0); [intros [= <- <-]; split; [by apply quiet_tick, quiet_refl|done]|].
  destruct (Z.ltb_spec (ora (w_k w + 1)%nat) 0);
    [intros [= <- <-]; split; [by apply quiet_tick, quiet_refl|lia]|].
  destruct (w_dir w !! stage_name w) eqn:Ed; intros [= <- <-]; (split; [|done]); [by repeat split|].
  repeat split; try done. unfold stage_file at 2. rewrite Ed. unfold stage_file, stage_name. cbn.
  by rewrite lookup_insert_eq.
Qed.

(** ** C-group: a staged write is a plain write *)

Lemma stage_write_spec ora now tier append kpos from w ret pos used w' :
  world_ok w -> 0 <= kpos ->
  smoothfs_range_stage_write ora now tier append kpos from w = (ret, pos, used, w') ->
  let at_ := if append then i_size (w_si w) else kpos in
  world_ok w' /\ 0 <= used <= fsize from
  /\ abs w' = pwrite (abs w) at_ (take (Z.to_nat used) from)
  /\ same_file w w' /\ w_base w' = w_base w /\ staged_slack w' = staged_slack w
  /\ pos = at_ + used
  /\ (0 < ret -> ret = used) /\ (0 < used -> range_staged (w_rs w') = true)
  /\ (0 < used -> ret = used \/ ret < 0 /\ cache_mode (w_sbi w) = true).
Proof.
  intros Hok Hk Heq at_. unfold smoothfs_range_stage_write in Heq. fold at_ in Heq.
  assert (0 <= at_) as Hat by (unfold at_; case_goal; [by apply ok_isize_nonneg|done]).
  destruct (smoothfs_range_stage_open_locked ora w) as [err w1] eqn:Eo.
  apply stage_open_spec in Eo as (Hq & Herr & Hpath).
  assert (forall w2 e, quiet w w2 -> e <= 0 -> world_ok w2 /\ 0 <= 0 <= fsize from
     /\ abs w2 = pwrite (abs w) at_ (take (Z.to_nat 0) from) /\ same_file w w2 /\ w_base w2 = w_base w
     /\ staged_slack w2 = staged_slack w /\ at_ = at_ + 0 /\ (0 < e -> e = 0)
     /\ (0 < 0 -> range_staged (w_rs w2) = true)
     /\ (0 < 0 -> e = 0 \/ e < 0 /\ cache_mode (w_sbi w) = true)) as Hquiet.
  { intros w2 e Hq2 He. destruct (quiet_ok _ _ Hq2 Hok) as (G1 & G2 & G3).
    pose proof (fsize_nonneg from). destruct Hq2 as (? & ? & _).
    split_and!; try done; try lia. }
  destruct (Z.eqb_spec err 0) as [->|]; cbn [negb] in Heq;
    [|injection Heq as <- <- <- <-; by apply Hquiet].
  destruct (Z.ltb_spec (ora (w_k w1)) 0); [injection Heq as <- <- <- <-; apply Hquiet; [done|lia]|].
  destruct (Z.ltb_spec (ora (w_k w1 + 1)%nat) 0);
    [injection Heq as <- <- <- <-; apply Hquiet; [done|unfold ENOMEM; lia]|].
  destruct (kernel_write _ _ _ _ _) as [r f] eqn:Ekw.
  set (w2 := tick 3 _) in Heq.
  assert (stage_name w2 = stage_name w1) as Hn2 by done.
  assert (stage_file w2 = f) as Hf2 by (unfold stage_file; rewrite Hn2; cbn; by rewrite lookup_insert_eq).
  destruct Hq as (Hsame & Hb & Hs & Hr & Hrs & Hpp & Hst & Hw).
  unfold kernel_write in Ekw. destruct (Z.ltb_spec (ora (w_k w1 + 2)%nat) 0) as [Hneg|Hpos].
  { injection Ekw as <- <-. destruct (Z.leb_spec (ora (w_k w1 + 2)%nat) 0); [|lia].
    injection Heq as <- <- <- <-. apply Hquiet; [|lia]. split; [done|]. by rewrite Hf2. }
  injection Ekw as Er Ef.
  destruct (Z.leb_spec r 0) as [Hr0|Hr0].
  { injection Heq as <- <- <- <-. apply Hquiet; [|lia].
    assert (r = 0) as Hz by lia. rewrite Hz in Er. rewrite Er in Ef. cbn in Ef.
    split; [done|]. rewrite Hf2, <- Ef. by rewrite Hst. }
  assert (r <= fsize from) by (unfold fsize; lia).
  set (bs := take (Z.to_nat r) from).
  assert (fsize bs = r) as Hlen by (unfold bs, fsize in *; rewrite length_take; lia).
  assert (bs <> []) as Hbs by (intros E; rewrite E in Hlen; unfold fsize in Hlen; simpl in Hlen; lia).
  rewrite <- Hlen in Heq. destruct (stage_record ora now tier at_ (fsize bs) w2) as [rr w3] eqn:Esr.
  injection Heq as <- <- <- <-.
  eapply (stage_record_spec ora now tier at_ bs w w2) in Esr as (G1 & G2 & G3 & G4 & G5 & G6 & G7);
    try done; [| |by cbn; rewrite Hw|].
  - rewrite Hlen. split_and!; try done; try lia; try (intros; lia).
    + intros _. destruct G7 as [->|[? Hc]]; [left; lia|right]. split; [done|].
      destruct Hsame as [E _]. change (w_sbi w2) with (w_sbi w1) in Hc. by rewrite <- E.
  - by cbn; apply Hpath.
  - rewrite Hf2, <- Ef, Er, Hst. done.
Qed.

(** A write into the stage file makes the composed file the result of writing
    the accepted prefix at the write position, touches no lower byte, and keeps
    the staged-byte accounting exact, for every pattern of faults. *)
Theorem staged_write_is_a_write ora now tier append kpos from w ret pos used w' :
  world_ok w -> 0 <= kpos ->
  smoothfs_range_stage_write ora now tier append kpos from w = (ret, pos, used, w') ->
  world_ok w' /\ w_base w' = w_base w
  /\ abs w' = pwrite (abs w) (if append then i_size (w_si w) else kpos) (take (Z.to_nat used) from)
  /\ staged_slack w' = staged_slack w
  /\ (0 < ret -> ret = used /\ range_staged (w_rs w') = true)
  /\ (used = 0 -> abs w' = abs w).
Proof.
  intros Hok Hk Heq. pose proof (stage_write_spec _ _ _ _ _ _ _ _ _ _ _ Hok Hk Heq)
    as (H1 & H2 & H3 & H4 & H5 & H6 & H7 & H8 & H9 & H10).
  split_and!; [done..| |].
  - intros Hr. split; [by apply H8|]. apply H9. rewrite <- H8; lia.
  - intros ->. by rewrite H3.
Qed.

(** ** Reading *)

Lemma covered_tail_beyond r l p :
  ranges_wf (r :: l) -> p < r_start r -> ~ covered p (r :: l).
Proof.
  intros Hwf Hp [Hin|(r' & Hr' & Hin)]%covered_cons; unfold in_range in Hin; [lia|].
  pose proof (ranges_wf_head_lt r l r' Hwf Hr'). simpl in Hwf. lia.
Qed.

Lemma kernel_read_full ora k f pos len n :
  no_short ora n -> 0 <= len <= n -> 0 <= ora k -> kernel_read ora k f pos len = Ok (pread f pos len).
Proof.
  intros Hs Hl Hk. unfold kernel_read. destruct (Z.ltb_spec (ora k) 0); [lia|].
  destruct (Hs k); [lia|]. by rewrite Z.min_r by lia.
Qed.

Lemma kernel_read_fails ora k f pos len :
  ora k < 0 -> kernel_read ora k f pos len = Err (ora k).
Proof. intros. unfold kernel_read. by destruct (Z.ltb_spec (ora k) 0); [|lia]. Qed.

Lemma overlay_loop_spec ora stage pos len n : no_short ora n -> 0 < len <= n -> 0 <= pos ->
  forall l buf k,
  ranges_wf l -> (forall p, covered p l -> 0 <= p < fsize stage) -> fsize buf = len ->
  match overlay_loop ora k stage l buf pos len with
  | (Err e, _) => e < 0
  | (Ok buf', _) => fsize buf' = len /\
      forall i, 0 <= i < len ->
        fbyte buf' i = if coveredb (pos + i) l then fbyte stage (pos + i) else fbyte buf i
  end.
Proof.
  intros Hs Hlen Hpos. induction l as [|r l IH]; intros buf k Hwf Hcov Hbuf; cbn [overlay_loop].
  { split; [done|]. by intros. }
  assert (r_start r < r_end r) as Hr by (simpl in Hwf; lia).
  assert (0 <= r_start r) as Hr0 by (apply Hcov; apply covered_cons; left; unfold in_range; lia).
  destruct (Z.leb_spec (pos + len) (r_start r)).
  { split; [done|]. intros i Hi.
    assert (coveredb (pos + i) (r :: l) = false) as -> by (apply coveredb_false, covered_tail_beyond; [done|lia]).
    done. }
  assert (forall p, covered p l -> 0 <= p < fsize stage) as Hcov'
    by (intros p Hp; apply Hcov, covered_cons; by right).
  assert (ranges_wf l) as Hwf' by (simpl in Hwf; tauto).
  destruct (Z.leb_spec (r_end r) pos).
  { specialize (IH buf k Hwf' Hcov' Hbuf). destruct (overlay_loop _ _ _ _ _ _ _) as [[e|buf'] k']; [done|].
    destruct IH as [IH1 IH2]. split; [done|]. intros i Hi. rewrite IH2 by done. cbn [coveredb existsb].
    destruct (Z.ltb_spec (pos + i) (r_end r)); [lia|]. by rewrite andb_false_r. }
  set (start := Z.max _ _). set (end_ := Z.min _ _).
  assert (end_ <= fsize stage) as Hend.
  { assert (covered (r_end r - 1) (r :: l)) as Hc by (apply covered_cons; left; unfold in_range; lia).
    apply Hcov in Hc. lia. }
  destruct (Z.ltb_spec (ora k) 0).
  { by rewrite kernel_read_fails. }
  rewrite (kernel_read_full ora k stage start (end_ - start) n) by (done || lia).
  assert (fsize (pread stage start (end_ - start)) = end_ - start) as Hl
    by (rewrite length_pread by lia; lia).
  assert (fsize (pwrite buf (start - pos) (pread stage start (end_ - start))) = len) as Hbuf'.
  { rewrite fsize_pwrite; [lia|lia|]. intros E. rewrite E in Hl. unfold fsize in Hl. simpl in Hl. lia. }
  specialize (IH _ (S k) Hwf' Hcov' Hbuf').
  destruct (overlay_loop _ _ _ _ _ _ _) as [[e|buf'] k']; [done|].
  destruct IH as [IH1 IH2]. split; [done|]. intros i Hi. rewrite IH2 by done. cbn [coveredb existsb].
  fold (coveredb (pos + i) l). rewrite fbyte_pwrite, Hl by lia.
  destruct (coveredb (pos + i) l); [by rewrite orb_true_r|]. rewrite orb_false_r.
  destruct (Z.leb_spec (start - pos) i); destruct (Z.ltb_spec i (start - pos + (end_ - start)));
    destruct (Z.leb_spec (r_start r) (pos + i)); destruct (Z.ltb_spec (pos + i) (r_end r));
    cbn [andb]; try lia; try done.
  rewrite fbyte_pread by lia. destruct (Z.ltb_spec (i - (start - pos)) (end_ - start)); [|lia].
  f_equal. lia.
Qed.

Lemma overlay_locked_spec ora k w buf pos len n :
  world_ok w -> no_short ora n -> 0 < len <= n -> 0 <= pos -> fsize buf = len ->
  (forall i, 0 <= i < len -> fbyte buf i = fbyte (w_base w) (pos + i)) ->
  match smoothfs_range_stage_overlay_locked ora k w buf pos len with
  | (Err e, _) => e < 0
  | (Ok buf', _) => fsize buf' = len /\ forall i, 0 <= i < len -> fbyte buf' i = view w (pos + i)
  end.
Proof.
  intros Hok Hs Hlen Hpos Hbuf Hby. unfold smoothfs_range_stage_overlay_locked.
  destruct (smoothfs_range_overlaps _ _ _) eqn:Eo; cbn [negb].
  - destruct (Z.ltb_spec (ora k) 0); [done|].
    pose proof (overlay_loop_spec ora (stage_file w) pos len n Hs ltac:(lia) Hpos
      (range_staged_ranges (w_rs w)) buf (S k) (ok_wf w Hok) (ok_cov w Hok) Hbuf) as H1.
    destruct (overlay_loop _ _ _ _ _ _ _) as [[e|buf'] k']; [done|]. destruct H1 as [H1 H2].
    split; [done|]. intros i Hi. rewrite H2 by done. unfold view. by rewrite Hby.
  - split; [done|]. intros i Hi. unfold view.
    assert (coveredb (pos + i) (range_staged_ranges (w_rs w)) = false) as ->; [|by apply Hby].
    apply coveredb_false. intros Hc. enough (false = true) by done. rewrite <- Eo.
    apply overlaps_iff; [apply ranges_wf_nonempty, Hok|lia|]. exists (pos + i). split; [lia|done].
Qed.

Lemma overlay_loop_smooth ora n stage pos len : smooth_run ora n -> 0 <= n -> forall l buf k e k',
  overlay_loop ora k stage l buf pos len <> (Err e, k').
Proof.
  intros Hs Hn. induction l as [|r l IH]; intros buf k e k'; cbn [overlay_loop]; [done|].
  case_goal; [done|]. case_goal; [apply IH|]. unfold kernel_read.
  destruct (Z.ltb_spec (ora k) 0); [specialize (Hs k); lia|]. apply IH.
Qed.

Lemma overlay_smooth ora n k w buf pos len e k' :
  smoothfs_range_stage_overlay_locked ora k w buf pos len = (Err e, k') ->
  0 <= n -> smooth_run ora n -> False.
Proof.
  unfold smoothfs_range_stage_overlay_locked. intros H Hn Hs. case_hyp H; [done|].
  destruct (Z.ltb_spec (ora k) 0); [specialize (Hs k); lia|].
  by apply (overlay_loop_smooth ora n) in H.
Qed.

(** The bytes [m] of the file from [pos], after what was already read. *)
Lemma pread_0 f pos : pread f pos 0 = [].
Proof. unfold pread, slice. done. Qed.

(** The lower bytes of one chunk, zero-padded up to [avail]. *)
Lemma chunk_buffer base pos avail buf :
  0 <= pos -> 0 < avail ->
  buf = pwrite (replicate (Z.to_nat avail) 0) 0 (pread base pos avail) ->
  fsize buf = avail /\ forall i, 0 <= i < avail -> fbyte buf i = fbyte base (pos + i).
Proof.
  intros Hpos Ha ->.
  assert (fsize (replicate (Z.to_nat avail) 0) = avail) as Hrep by (unfold fsize; rewrite length_replicate; lia).
  assert (fsize (pread base pos avail) <= avail) as Hle by (rewrite length_pread by lia; lia).
  split.
  - destruct (pread base pos avail) as [|b l] eqn:Ep; [done|].
    rewrite fsize_pwrite by (done || lia). lia.
  - intros i Hia. rewrite fbyte_pwrite, Z.sub_0_r by lia.
    destruct (Z.leb_spec 0 i); [|lia]. cbn [andb].
    destruct (Z.ltb_spec i (0 + fsize (pread base pos avail))) as [Hlt|Hge].
    + rewrite fbyte_pread by lia. by destruct (Z.ltb_spec i avail); [|lia].
    + rewrite fbyte_replicate. rewrite length_pread in Hge by lia. rewrite fbyte_beyond; [done|lia].
Qed.

(** A prefix of the overlaid chunk is a read of the composed file. *)
Lemma chunk_prefix w pos avail buf m :
  world_ok w -> 0 <= pos -> 0 <= m <= avail -> pos + avail <= i_size (w_si w) -> fsize buf = avail ->
  (forall i, 0 <= i < avail -> fbyte buf i = view w (pos + i)) ->
  take (Z.to_nat m) buf = pread (abs w) pos m.
Proof.
  intros Hok Hpos Hm Hend Hl Hv. pose proof (ok_isize_nonneg w Hok). apply fbyte_ext.
  - rewrite length_pread, fsize_abs by lia. unfold fsize in *. rewrite length_take. lia.
  - intros i Hii. assert (i < m) by (unfold fsize in Hii; rewrite length_take in Hii; lia).
    rewrite fbyte_take, fbyte_pread by lia. rewrite Z2Nat.id by lia.
    destruct (Z.ltb_spec i m); [|lia]. rewrite Hv, fbyte_abs by lia. done.
Qed.

(** What a run of the read loop from [pos] with [out] already read returns. *)
Definition read_outcome (ora : oracle) (n : Z) (w : world) (fuel : nat) (count pos : Z)
    (out : list Z) (res : result (list Z)) : Prop :=
  match res with
  | Err e => e < 0 /\ out = []
  | Ok out' => exists m, 0 <= m /\ (m = 0 \/ m <= Z.min count (i_size (w_si w) - pos))
      /\ out' = out ++ pread (abs w) pos m
      /\ (smooth_run ora n -> count <= Z.of_nat fuel -> m = Z.max 0 (Z.min count (i_size (w_si w) - pos)))
  end.

Lemma read_outcome_none ora n w fuel count pos out :
  (smooth_run ora n -> count <= Z.of_nat fuel -> Z.min count (i_size (w_si w) - pos) <= 0) ->
  read_outcome ora n w fuel count pos out (Ok out).
Proof.
  intros H. exists 0. rewrite pread_0, app_nil_r. split_and!; [lia|by left|done|].
  intros H1 H2. specialize (H H1 H2). lia.
Qed.

Lemma read_outcome_stop ora n w fuel count pos out e :
  e < 0 -> (smooth_run ora n -> False) -> read_outcome ora n w fuel count pos out (done_or out e).
Proof.
  intros He Hns. destruct out as [|z out]; [done|]. apply read_outcome_none. intros Hs. by destruct (Hns Hs).
Qed.

Lemma read_outcome_more ora n w fuel count pos out m res :
  0 <= pos -> 0 < m <= count -> pos + m <= i_size (w_si w) -> fsize (pread (abs w) pos m) = m ->
  read_outcome ora n w fuel (count - m) (pos + m) (out ++ pread (abs w) pos m) res ->
  read_outcome ora n w (S fuel) count pos out res.
Proof.
  intros Hpos Hm Hend Hpm. destruct res as [e|out']; cbn.
  { intros [_ H]. apply app_nil in H as [_ H]. rewrite H in Hpm. unfold fsize in Hpm. simpl in Hpm. lia. }
  intros (m' & Hm0 & Hm1 & -> & Hm3). exists (m + m'). split_and!; [lia|right; lia| |].
  - rewrite <- app_assoc, pread_app by lia. done.
  - intros Hsm Hfu. rewrite (Hm3 Hsm) by lia. lia.
Qed.

Lemma stage_read_loop_spec ora w n :
  world_ok w -> no_short ora n -> SMOOTHFS_RANGE_READ_CHUNK <= n ->
  forall fuel k count pos out, 0 <= pos ->
  read_outcome ora n w fuel count pos out (fst (stage_read_loop fuel ora k w count pos out)).
Proof.
  intros Hok Hs Hn. pose proof (ok_isize_nonneg w Hok) as Hi.
  induction fuel as [|fuel IH]; intros k count pos out Hpos; cbn [stage_read_loop].
  { apply read_outcome_none. lia. }
  destruct ((count <=? 0) || (i_size (w_si w) <=? pos)) eqn:Eg.
  { apply read_outcome_none. intros _ _. apply orb_true_iff in Eg as [E|E]; to_prop; lia. }
  to_prop. set (avail := Z.min _ _). unfold SMOOTHFS_RANGE_READ_CHUNK in *.
  destruct (Z.ltb_spec (ora k) 0) as [Hk|Hk].
  { apply read_outcome_stop; [done|]. intros Hsm. specialize (Hsm k). lia. }
  destruct (Z.ltb_spec (ora (S k)) 0) as [Hk1|Hk1].
  { rewrite kernel_read_fails by done. apply read_outcome_stop; [done|]. intros Hsm. specialize (Hsm (S k)). lia. }
  rewrite (kernel_read_full ora (S k) _ pos avail n) by (done || lia).
  set (buf := pwrite _ 0 _).
  destruct (chunk_buffer (w_base w) pos avail buf) as [Hbuf Hby]; [done|lia|done|].
  pose proof (overlay_locked_spec ora (k + 2)%nat w buf pos avail n Hok Hs ltac:(lia) Hpos Hbuf Hby) as Hov.
  destruct (smoothfs_range_stage_overlay_locked _ _ _ _ _ _) as [[e|buf'] k'] eqn:Eov.
  { apply read_outcome_stop; [done|]. intros Hsm. eapply (overlay_smooth ora n); [exact Eov|lia|exact Hsm]. }
  destruct Hov as [Hl' Hv']. set (m := Z.max 0 (Z.min (ora k') avail)).
  destruct (Z.leb_spec m 0).
  { apply read_outcome_none. intros Hsm _. specialize (Hsm k'). lia. }
  assert (take (Z.to_nat m) buf' = pread (abs w) pos m) as Htake by (apply (chunk_prefix w pos avail); done || lia).
  rewrite Htake. destruct (Z.ltb_spec m avail).
  { exists m. split_and!; [lia|right; lia|done|]. intros Hsm _. specialize (Hsm k'). lia. }
  apply (read_outcome_more _ _ _ _ _ _ _ m); [done|lia|lia| |apply IH; lia].
  rewrite <- Htake. unfold fsize in *. rewrite length_take. lia.
Qed.

(** A read of a range-staged file returns a prefix of the bytes of the composed
    file at that position, of the full length up to end of file when no call
    fails, or a negative error. *)
Theorem staged_read_is_a_read ora lower w pos count :
  world_ok w -> no_short ora SMOOTHFS_RANGE_READ_CHUNK -> 0 <= pos -> 0 <= count ->
  match fst (smoothfs_range_stage_read_iter ora lower w pos count) with
  | Err e => e < 0 \/ e = smoothfs_lower_file_error lower
  | Ok bs => exists m, 0 <= m /\ bs = pread (abs w) pos m
      /\ (smooth_run ora SMOOTHFS_RANGE_READ_CHUNK ->
          m = Z.max 0 (Z.min count (i_size (w_si w) - pos)))
  end.
Proof.
  intros Hok Hs Hp Hc. unfold smoothfs_range_stage_read_iter.
  destruct (Z.eqb_spec (smoothfs_lower_file_error lower) 0); cbn [negb]; [|by right].
  pose proof (stage_read_loop_spec ora w _ Hok Hs ltac:(lia) (Z.to_nat count) (w_k w) count pos [] Hp) as H.
  destruct (stage_read_loop _ _ _ _ _ _ _) as [[e0|out] k]; cbn in H |- *; [left; tauto|].
  destruct H as (m & Hm & _ & -> & Hsm). exists m. split_and!; [done|done|].
  intros H1. apply Hsm; [done|lia].
Qed.

(** ** Draining *)

(** [base'] is [base] with the bytes of the stage file at [q, q'). *)
Definition copied (stage base base' : list Z) (q q' : Z) : Prop :=
  (forall p, 0 <= p -> fbyte base' p = if (q <=? p) && (p <? q') then fbyte stage p else fbyte base p)
  /\ fsize base' = if q <? q' then Z.max (fsize base) q' else fsize base.

Lemma copied_refl stage base q : copied stage base base q q.
Proof.
  split; [|by rewrite Z.ltb_irrefl]. intros p _.
  destruct (Z.leb_spec q p); destruct (Z.ltb_spec p q); try lia; done.
Qed.

Lemma copied_pwrite stage base q bs :
  0 <= q -> bs = pread stage q (fsize bs) -> copied stage base (pwrite base q bs) q (q + fsize bs).
Proof.
  intros Hq Hbs. pose proof (fsize_nonneg bs). split.
  - intros p Hp. rewrite fbyte_pwrite by done.
    destruct (Z.leb_spec q p); destruct (Z.ltb_spec p (q + fsize bs)); cbn [andb]; try done.
    rewrite Hbs, fbyte_pread by lia. destruct (Z.ltb_spec (p - q) (fsize bs)); [|lia]. f_equal. lia.
  - destruct bs as [|b bs]; [unfold fsize; simpl length; simpl Z.of_nat; rewrite Z.add_0_r;
      by rewrite Z.ltb_irrefl|].
    rewrite fsize_pwrite by done. unfold fsize in *. simpl length in *.
    by destruct (Z.ltb_spec q (q + Z.of_nat (S (length bs)))); [|lia].
Qed.

Lemma copied_trans stage b0 b1 b2 q q1 q2 :
  q <= q1 -> q1 <= q2 -> copied stage b0 b1 q q1 -> copied stage b1 b2 q1 q2 -> copied stage b0 b2 q q2.
Proof.
  intros L1 L2 [B1 S1] [B2 S2]. split.
  - intros p Hp. rewrite B2, B1 by done.
    destruct (Z.leb_spec q1 p); destruct (Z.ltb_spec p q2); destruct (Z.leb_spec q p);
      destruct (Z.ltb_spec p q1); cbn [andb]; try done; lia.
  - rewrite S2, S1. destruct (Z.ltb_spec q q1); destruct (Z.ltb_spec q1 q2);
      destruct (Z.ltb_spec q q2); lia.
Qed.

Lemma pread_take stage q m n :
  0 <= q -> take n (pread stage q m) = pread stage q (fsize (take n (pread stage q m))).
Proof.
  intros. unfold pread, slice, fsize. rewrite Nat2Z.id, take_take, length_take.
  rewrite <- (firstn_all (drop (Z.to_nat q) stage)) at 1.
  rewrite take_take. by f_equal.
Qed.

Lemma drain_range_loop_spec ora stage : forall fuel k base pos end_ drained,
  0 <= pos -> end_ - pos <= Z.of_nat fuel ->
  exists err k' base' drained' q,
    drain_range_loop fuel ora k stage base pos end_ drained = (err, k', base', drained')
    /\ err <= 0 /\ copied stage base base' pos q /\ pos <= q <= Z.max pos end_
    /\ (err = 0 -> q = Z.max pos end_ /\ drained' = drained + (q - pos)).
Proof.
  induction fuel as [|fuel IH]; intros k base pos end_ drained Hp Hf; cbn [drain_range_loop];
    (destruct (Z.leb_spec end_ pos); [eexists 0, k, base, drained, pos; split_and!;
       [done|lia|apply copied_refl|lia|lia|intros _; lia]|]); [lia|].
  set (want := Z.min _ _). unfold kernel_read.
  destruct (Z.ltb_spec (ora k) 0);
    [eexists (ora k), _, base, drained, pos; split_and!; [done|lia|apply copied_refl|lia..]|].
  assert (0 < want) by (unfold want, SMOOTHFS_RANGE_READ_CHUNK; lia).
  destruct (pread stage pos (Z.min (ora k) want)) as [|b l] eqn:Ep.
  { eexists (- EIO), _, base, drained, pos. unfold EIO. split_and!; [done|lia|apply copied_refl|lia..]. }
  rewrite <- Ep. set (bs := pread stage pos _) in *.
  assert (0 < fsize bs <= want) as Hbs.
  { split; [rewrite Ep; unfold fsize; simpl; lia|]. unfold bs. rewrite length_pread by lia. lia. }
  assert (bs = pread stage pos (fsize bs)) as Hbp.
  { pose proof (pread_take stage pos (Z.min (ora k) want) (length bs) Hp) as Ht.
    fold bs in Ht. by rewrite firstn_all in Ht. }
  destruct (write_full_outcome ora (S k) base pos bs Hp) as (err & k1 & m & -> & He & Hm).
  assert (copied stage base (pwrite base pos (take m bs)) pos (pos + fsize (take m bs))) as Hcp.
  { apply copied_pwrite; [done|]. unfold bs. by apply pread_take. }
  assert (fsize (take m bs) <= fsize bs) by (unfold fsize; rewrite length_take; lia).
  pose proof (fsize_nonneg (take m bs)).
  destruct (Z.eqb_spec err 0) as [->|]; cbn [negb].
  - rewrite Hm in * by done.
    destruct (IH k1 (pwrite base pos bs) (pos + fsize bs) end_ (drained + fsize bs))
      as (err & k' & base' & dr & q & -> & G1 & G2 & G3 & G4); [lia|lia|].
    eexists err, k', base', dr, q. split_and!; [done|done| |lia|lia|].
    + eapply copied_trans; [|apply G3|exact Hcp|exact G2]. lia.
    + intros Hz. destruct (G4 Hz). split; lia.
  - eexists err, k1, _, drained, (pos + fsize (take m bs)). split_and!; [done|lia|exact Hcp|lia|lia|lia].
Qed.

Lemma drain_ranges_loop_spec ora stage : forall l k base drained,
  nonempty l -> (forall p, covered p l -> 0 <= p) ->
  exists err k' base' drained',
    drain_ranges_loop ora k stage base l drained = (err, k', base', drained')
    /\ err <= 0
    /\ (forall p, 0 <= p -> fbyte base' p = fbyte base p \/ covered p l /\ fbyte base' p = fbyte stage p)
    /\ fsize base <= fsize base' <= Z.max (fsize base) (ranges_end l)
    /\ (err = 0 -> (forall p, covered p l -> fbyte base' p = fbyte stage p)
        /\ fsize base' = Z.max (fsize base) (ranges_end l) /\ drained' = drained + range_total l).
Proof.
  induction l as [|r l IH]; intros k base drained Hne Hcov; cbn [drain_ranges_loop ranges_end foldr].
  { exists 0, k, base, drained. pose proof (fsize_nonneg base). split_and!; [done|lia|by left|lia|lia|].
    intros _. split_and!; [|lia|simpl; lia]. intros p Hp. by apply covered_nil in Hp. }
  fold (ranges_end l). apply Forall_cons in Hne as [Hr Hne].
  assert (0 <= r_start r) as Hr0 by (apply Hcov, covered_cons; left; unfold in_range; lia).
  destruct (drain_range_loop_spec ora stage (Z.to_nat (r_end r - r_start r)) k base (r_start r) (r_end r)
    drained Hr0 ltac:(lia)) as (err & k1 & b1 & d1 & q & -> & He & [Hb1 Hs1] & Hq & Hz).
  assert (fsize base <= fsize b1 <= Z.max (fsize base) (r_end r)) as Hsz
    by (rewrite Hs1; case_goal; lia).
  assert (forall p, 0 <= p -> fbyte b1 p = fbyte base p \/ in_range p r /\ fbyte b1 p = fbyte stage p) as Hor.
  { intros p Hp. rewrite Hb1 by done. destruct (Z.leb_spec (r_start r) p); destruct (Z.ltb_spec p q);
      cbn [andb]; try (by left). right. unfold in_range. split; [lia|done]. }
  destruct (Z.eqb_spec err 0) as [->|]; cbn [negb].
  - destruct (Hz eq_refl) as [-> ->].
    destruct (IH k1 b1 (drained + (Z.max (r_start r) (r_end r) - r_start r)) Hne)
      as (err & k' & b' & d' & -> & G1 & G2 & G3 & G4);
      [intros p Hp; apply Hcov, covered_cons; by right|].
    destruct (ranges_end_spec l Hne) as [E0 _].
    exists err, k', b', d'. split_and!; [done|done| |lia|lia|].
    + intros p Hp. destruct (G2 p Hp) as [->|[? ->]];
        [destruct (Hor p Hp) as [->|[? ->]]; [by left|right]|right]; rewrite covered_cons; auto.
    + intros Hz0. destruct (G4 Hz0) as (F1 & F2 & F3). split_and!.
      * intros p [Hin|Hc]%covered_cons; [|by apply F1].
        assert (0 <= p) by (unfold in_range in Hin; lia).
        destruct (G2 p) as [->|[_ ->]]; [done| |done]. rewrite Hb1 by done. unfold in_range in Hin.
        destruct (Z.leb_spec (r_start r) p); destruct (Z.ltb_spec p (Z.max (r_start r) (r_end r))); try lia; done.
      * rewrite F2, Hs1. destruct (Z.ltb_spec (r_start r) (Z.max (r_start r) (r_end r))); lia.
      * rewrite F3. simpl. fold (range_total l). lia.
  - eexists err, k1, b1, d1. split_and!; [done|done| |lia|lia|lia].
    intros p Hp. destruct (Hor p Hp) as [->|[? ->]]; [by left|right]. rewrite covered_cons; auto.
Qed.

Lemma unlink_stage_same ora w err w' :
  smoothfs_range_stage_unlink_path ora w = (err, w') ->
  w_base w' = w_base w /\ w_si w' = w_si w /\ w_sbi w' = w_sbi w /\ w_rs w' = w_rs w
  /\ w_st w' = w_st w /\ w_depth w' = w_depth w /\ err <= 0.
Proof.
  unfold smoothfs_range_stage_unlink_path. destruct (Z.ltb_spec (ora (w_k w)) 0).
  - intros [= <- <-]. split_and!; try done. case_goal; lia.
  - by intros [= <- <-].
Qed.

Lemma drain_cleared_spec ora now drained w err w' :
  drain_cleared ora now drained w = (err, w') ->
  w_base w' = w_base w /\ same_file w w' /\ i_size (w_si w') = i_size (w_si w)
  /\ range_staged (w_rs w') = false /\ range_staged_ranges (w_rs w') = []
  /\ range_staged_path (w_rs w') = false
  /\ range_staged_bytes (w_st w') = range_staged_bytes (w_st w) - drained /\ err <= 0.
Proof.
  unfold drain_cleared. destruct (smoothfs_range_stage_unlink_path _ _) as [e w1] eqn:Eu.
  apply unlink_stage_same in Eu as (U1 & U2 & U3 & U4 & U5 & U6 & U7).
  destruct (smoothfs_range_staging_clear _ _ _ _) as [k d]. intros [= <- <-].
  cbn. rewrite U1, U2, U4, U5. unfold same_file. cbn. rewrite ?U2, ?U3, ?U6. cbn.
  split_and!; try done. by repeat case_goal.
Qed.

Lemma sync_base_parents_neg ora : forall depth k e k',
  smoothfs_sync_base_parents ora k depth = (e, k') -> e <= 0.
Proof.
  induction depth as [|n IH]; intros k e k'; cbn [smoothfs_sync_base_parents]; [intros [= <- <-]; lia|].
  destruct (Z.ltb_spec (ora k) 0); [intros [= <- <-]; lia|].
  destruct (Z.ltb_spec (ora (S k)) 0); [intros [= <- <-]; lia|]. apply IH.
Qed.

(** The file after a drain: unchanged to its users, and either still staged as
    before or entirely in the base file. *)
Definition drain_outcome (w : world) (err : Z) (w' : world) : Prop :=
  world_ok w' /\ abs w' = abs w /\ same_file w w' /\ staged_slack w' = staged_slack w
  /\ i_size (w_si w') = i_size (w_si w) /\ err <= 0
  /\ (w_rs w' = w_rs w /\ stage_file w' = stage_file w
      /\ (err = 0 -> range_staged (w_rs w) = true ->
          smoothfs_write_staging_drain_tier_active (w_sbi w) (range_staged_source_tier (w_rs w)) = false)
      \/ range_staged (w_rs w') = false /\ range_staged_ranges (w_rs w') = [] /\ w_base w' = abs w).

Lemma drain_early w w1 e :
  world_ok w -> quiet w w1 -> w_rs w1 = w_rs w -> e <= 0 ->
  (e = 0 -> range_staged (w_rs w) = true ->
   smoothfs_write_staging_drain_tier_active (w_sbi w) (range_staged_source_tier (w_rs w)) = false) ->
  drain_outcome w e w1.
Proof.
  intros Hok Hq Hrs He Hz. destruct (quiet_ok _ _ Hq Hok) as (Q1 & Q2 & Q3).
  destruct Hq as (H1 & _ & H3 & _ & _ & _ & H7 & _). unfold drain_outcome. split_and!; try done.
  left. auto.
Qed.

(** A drain that stops half way has copied some staged bytes down: invisible. *)
Lemma drain_partial w w1 e :
  world_ok w -> e < 0 ->
  (forall p, 0 <= p -> fbyte (w_base w1) p = fbyte (w_base w) p
     \/ covered p (range_staged_ranges (w_rs w)) /\ fbyte (w_base w1) p = fbyte (stage_file w) p) ->
  fsize (w_base w) <= fsize (w_base w1)
    <= Z.max (fsize (w_base w)) (ranges_end (range_staged_ranges (w_rs w))) ->
  w1 = w <| w_base := w_base w1 |> <| w_k := w_k w1 |> ->
  drain_outcome w e w1.
Proof.
  intros Hok He Hby Hsz Hw.
  assert (w_rs w1 = w_rs w) as Ers by (by rewrite Hw).
  assert (w_si w1 = w_si w) as Esi by (by rewrite Hw).
  assert (stage_file w1 = stage_file w) as Hst by (by rewrite Hw).
  unfold drain_outcome. split_and!.
  - constructor; rewrite ?Ers, ?Hst, ?Esi; try apply Hok. rewrite (ok_size w Hok). lia.
  - apply abs_ext; [by rewrite Esi|]. intros p Hp. unfold view. rewrite Ers, Hst.
    destruct (coveredb p _) eqn:Ec; [done|]. destruct (Hby p Hp) as [->|[Hc _]]; [done|].
    by apply coveredb_false in Ec.
  - rewrite Hw. done.
  - by rewrite Hw.
  - by rewrite Esi.
  - lia.
  - left. split_and!; [done|done|lia].
Qed.

Lemma drain_complete w w' e :
  world_ok w -> e <= 0 ->
  (forall p, 0 <= p -> fbyte (w_base w') p = fbyte (w_base w) p
     \/ covered p (range_staged_ranges (w_rs w)) /\ fbyte (w_base w') p = fbyte (stage_file w) p) ->
  (forall p, covered p (range_staged_ranges (w_rs w)) -> fbyte (w_base w') p = fbyte (stage_file w) p) ->
  fsize (w_base w') = Z.max (fsize (w_base w)) (ranges_end (range_staged_ranges (w_rs w))) ->
  same_file w w' ->
  i_size (w_si w') = i_size (w_si w) ->
  range_staged (w_rs w') = false -> range_staged_ranges (w_rs w') = [] ->
  range_staged_bytes (w_st w') = range_staged_bytes (w_st w) - range_total (range_staged_ranges (w_rs w)) ->
  drain_outcome w e w'.
Proof.
  intros Hok He Hby F1 F2 C2 C3 C4 C5 C7. pose proof (ok_isize_nonneg w Hok) as Hi.
  assert (w_base w' = abs w) as Hbase.
  { apply fbyte_ext.
    - rewrite fsize_abs, F2 by done. by rewrite (ok_size w Hok).
    - intros p Hp. rewrite fbyte_abs by (rewrite (ok_size w Hok); lia). unfold view.
      destruct (coveredb p _) eqn:Ec; [by apply F1, coveredb_spec|].
      destruct (Hby p) as [->|[Hc _]]; [lia|done|]. by apply coveredb_false in Ec. }
  unfold drain_outcome. split_and!; try done.
  - constructor; rewrite ?C4, ?C5; try done.
    + intros p Hp. by apply covered_nil in Hp.
    + rewrite C3, Hbase, fsize_abs by done. simpl. lia.
  - apply fbyte_ext; rewrite fsize_abs by lia; [by rewrite C3, fsize_abs|].
    intros p Hp. rewrite fbyte_abs by done. unfold view. rewrite C5. cbn [coveredb existsb].
    by rewrite Hbase.
  - unfold staged_slack. rewrite C5, C7. simpl. lia.
  - by right.
Qed.

Lemma drain_spec ora now w err w' :
  world_ok w -> smoothfs_write_staging_drain_one_range ora now w = (err, w') ->
  drain_outcome w err w'.
Proof.
  intros Hok Heq. unfold smoothfs_write_staging_drain_one_range in Heq.
  destruct (range_staged (w_rs w)) eqn:Es; cbn [negb] in Heq;
    [|injection Heq as <- <-; apply drain_early; [done|apply quiet_refl|done|lia|by rewrite Es]].
  destruct (smoothfs_write_staging_drain_tier_active _ _) eqn:Ea; cbn [negb] in Heq;
    [|injection Heq as <- <-; by apply drain_early; [|apply quiet_refl|..]].
  unfold ENOENT, ENOMEM in Heq.
  case_hyp Heq; [injection Heq as <- <-; apply drain_early; [done|apply quiet_refl|done|lia|lia]|].
  destruct (Z.ltb_spec (ora (w_k w)) 0);
    [injection Heq as <- <-; apply drain_early; [done|by apply quiet_tick, quiet_refl|done|lia|lia]|].
  destruct (Z.ltb_spec (ora (w_k w + 1)%nat) 0);
    [injection Heq as <- <-; apply drain_early; [done|by apply quiet_tick, quiet_refl|done|lia|lia]|].
  destruct (Z.ltb_spec (ora (w_k w + 2)%nat) 0);
    [injection Heq as <- <-; apply drain_early; [done|by apply quiet_tick, quiet_refl|done|lia|lia]|].
  destruct (drain_ranges_loop_spec ora (stage_file w) (range_staged_ranges (w_rs w)) (w_k w + 3)%nat
    (w_base w) 0 (ranges_wf_nonempty _ (ok_wf w Hok))) as (e1 & k1 & b1 & d1 & Heq1 & He1 & Hby & Hsz & Hz);
    [intros p Hp; apply (ok_cov w Hok) in Hp; lia|].
  rewrite Heq1 in Heq.
  destruct (Z.eqb_spec e1 0) as [->|]; cbn [negb] in Heq;
    [|injection Heq as <- <-; apply drain_partial; cbn; try done; lia].
  cbn [w_k] in Heq.
  match type of Heq with context [if ora ?k <? 0 then _ else _] => destruct (Z.ltb_spec (ora k) 0) end;
    [injection Heq as <- <-; apply drain_partial; cbn; try done; lia|].
  match type of Heq with context [let (_, _) := ?x in _] => destruct x as [es ks] eqn:Esync end.
  assert (es <= 0) as Hes.
  { revert Esync. case_goal; [|intros [= <- <-]; lia]. apply sync_base_parents_neg. }
  destruct (Z.eqb_spec es 0) as [->|]; cbn [negb] in Heq;
    [|injection Heq as <- <-; apply drain_partial; cbn; try done; lia].
  apply drain_cleared_spec in Heq as (C1 & C2 & C3 & C4 & C5 & C6 & C7 & C8). cbn in C1, C3, C7.
  destruct (Hz eq_refl) as (F1 & F2 & F3).
  apply drain_complete; rewrite ?C1; try done. by rewrite C7, F3.
Qed.

(** C5. Draining a staged file, with any faults on the way, never changes the
    bytes a reader sees; it either leaves the staged ranges and the stage file
    as they were, or copies everything to the lower file and drops the ranges. A
    drain that reports success with ranges left is one whose source tier is not
    drain-active. *)
Theorem drain_preserves_the_file ora now w err w' :
  world_ok w -> smoothfs_write_staging_drain_one_range ora now w = (err, w') ->
  world_ok w' /\ abs w' = abs w /\ staged_slack w' = staged_slack w
  /\ (w_rs w' = w_rs w /\ stage_file w' = stage_file w
      \/ range_staged (w_rs w') = false /\ range_staged_ranges (w_rs w') = [] /\ w_base w' = abs w)
  /\ (err = 0 -> range_staged (w_rs w') = true ->
      smoothfs_write_staging_drain_tier_active (w_sbi w) (range_staged_source_tier (w_rs w)) = false).
Proof.
  intros Hok Heq. apply drain_spec in Heq as (H1 & H2 & H3 & H4 & H5 & H6 & H7); [|done].
  split_and!; try done.
  - destruct H7 as [(? & ? & _)|?]; auto.
  - intros Hz Hs. destruct H7 as [(E & _ & H)|(E & _)]; [|by rewrite E in Hs]. apply H; [done|].
    by rewrite <- E.
Qed.

(** ** The whole write path *)

Lemma abs_unstaged w :
  range_staged_ranges (w_rs w) = [] -> i_size (w_si w) = fsize (w_base w) -> abs w = w_base w.
Proof.
  intros Hr Hs. pose proof (fsize_nonneg (w_base w)). apply fbyte_ext; rewrite fsize_abs by lia; [done|].
  intros p Hp. rewrite fbyte_abs by done. unfold view. by rewrite Hr.
Qed.

(** The file after the dispatch: either consistent, or written to its base file
    with the cached size still to be refreshed by [write_finish]. *)
Definition written (w w' : world) (at_ n : Z) (from : list Z) : Prop :=
  staged_slack w' = staged_slack w
  /\ (world_ok w' /\ abs w' = pwrite (abs w) at_ (take (Z.to_nat n) from)
      \/ range_staged (w_rs w') = false /\ range_staged_ranges (w_rs w') = []
         /\ w_base w' = pwrite (abs w) at_ (take (Z.to_nat n) from)).

Lemma compat_write_spec ora io from w0 w ret w' :
  world_ok w -> abs w = abs w0 -> staged_slack w = staged_slack w0 ->
  i_size (w_si w) = i_size (w_si w0) -> 0 <= ki_pos io ->
  range_staged (w_rs w) = false -> range_staged_ranges (w_rs w) = [] ->
  smoothfs_compat_write_iter ora io from w = (ret, w') ->
  exists n, 0 <= n <= fsize from /\ (0 < ret -> n = ret) /\ (ret <= 0 -> n = 0 /\ w_si w' = w_si w)
  /\ written w0 w' (if ki_append io then i_size (w_si w0) else ki_pos io) n from
  /\ (ret <= 0 -> world_ok w' /\ abs w' = abs w0) /\ w_sbi w' = w_sbi w.
Proof.
  intros Hok Ha Hsl Hs Hp Hrs Hr Heq. unfold smoothfs_compat_write_iter in Heq.
  assert (i_size (w_si w) = fsize (w_base w)) as Hsz.
  { rewrite (ok_size w Hok), Hr. simpl. pose proof (fsize_nonneg (w_base w)). lia. }
  rewrite <- Hsz, Hs in Heq. set (at_ := if ki_append io then _ else _) in *.
  pose proof (abs_unstaged w Hr Hsz) as Hab. rewrite Ha in Hab.
  pose proof (fsize_nonneg from) as Hfrom.
  unfold kernel_write in Heq. destruct (Z.ltb_spec (ora (w_k w)) 0) as [Hn|Hn].
  { injection Heq as <- <-. exists 0. split_and!; try done; try lia.
    - split; [done|]. left. split; [by apply (quiet_ok w)|]. cbn.
      rewrite <- Ha. by apply (quiet_ok w).
    - intros _. split; [by apply (quiet_ok w)|]. rewrite <- Ha. by apply (quiet_ok w). }
  set (n := Z.min _ _) in Heq. injection Heq as <- <-. exists n. unfold fsize in *.
  split_and!; try lia; try done.
  - intros. split; [lia|done].
  - split; [done|]. right. split_and!; try done. cbn. by rewrite Hab.
  - intros Hle. assert (n = 0) as -> by lia.
    assert (quiet w (tick 1 (w <| w_base := pwrite (w_base w) at_ (take (Z.to_nat 0) from) |>))) as Hq by done.
    split; [by apply (quiet_ok w)|]. rewrite <- Ha. by apply (quiet_ok w).
Qed.

(** In a cache-mode pool the base tier is always drainable. *)
Definition cache_drains (w : world) : Prop :=
  cache_mode (w_sbi w) = true ->
  forall t, 0 <= t < ntiers (w_sbi w) -> smoothfs_write_staging_drain_tier_active (w_sbi w) t = true.

(** The recorded source tier is a tier of the pool. *)
Definition source_ok (w : world) : Prop :=
  range_staged (w_rs w) = true -> 0 <= range_staged_source_tier (w_rs w) < ntiers (w_sbi w).

Lemma stage_write_unused_rs ora now tier append kpos from w ret pos w' :
  smoothfs_range_stage_write ora now tier append kpos from w = (ret, pos, 0, w') ->
  range_staged_source_tier (w_rs w') = range_staged_source_tier (w_rs w)
  /\ range_staged (w_rs w') = range_staged (w_rs w).
Proof.
  unfold smoothfs_range_stage_write, smoothfs_range_stage_open_locked.
  destruct (range_staged_path (w_rs w)); [|destruct (_ <? 0); [by intros [= _ _ <-]|]; destruct (_ <? 0); [|
    destruct (w_dir w !! stage_name w)]]; cbn [negb Z.eqb]; 
  try (destruct (_ <? 0); [by intros [= _ _ <-]|]; destruct (_ <? 0); [by intros [= _ _ <-]|];
    destruct (kernel_write _ _ _ _ _); destruct (Z.leb_spec z 0); [by intros [= _ _ <-]|];
    destruct (stage_record _ _ _ _ _ _); intros [= _ _ ? _]; lia).
  destruct (Z.eqb_spec (ora (w_k w + 1)%nat) 0); cbn [negb]; [|by intros [= _ _ <-]].
  destruct (_ <? 0); [by intros [= _ _ <-]|]; destruct (_ <? 0); [by intros [= _ _ <-]|];
    destruct (kernel_write _ _ _ _ _); destruct (Z.leb_spec z 0); [by intros [= _ _ <-]|];
    destruct (stage_record _ _ _ _ _ _); intros [= _ _ ? _]; lia.
Qed.

(** Where a write lands. *)
Definition write_at (io : kiocb) (w : world) : Z := if ki_append io then i_size (w_si w) else ki_pos io.

(** What the dispatch promises, whichever strategy it takes. *)
Definition dispatched (io : kiocb) (from : list Z) (w : world) (ret : Z) (w' : world) : Prop :=
  exists n, 0 <= n <= fsize from /\ (0 < ret -> n = ret)
  /\ (cache_mode (w_sbi w) = false -> ret <= 0 -> n = 0)
  /\ written w w' (write_at io w) n from
  /\ (ret <= 0 -> world_ok w' /\ abs w' = pwrite (abs w) (write_at io w) (take (Z.to_nat n) from))
  /\ w_sbi w' = w_sbi w.

Lemma dispatched_none io from w e w1 :
  world_ok w1 -> abs w1 = abs w -> staged_slack w1 = staged_slack w -> w_sbi w1 = w_sbi w -> e <= 0 ->
  dispatched io from w e w1.
Proof.
  intros O1 A1 S1 B1 E1. pose proof (fsize_nonneg from). exists 0. split_and!; try done; try lia.
  split; [done|by left].
Qed.

(** A write straight to the lower file of [w2], in which nothing is staged. *)
Lemma dispatched_compat ora io io' from w w2 ret w' :
  world_ok w2 -> abs w2 = abs w -> staged_slack w2 = staged_slack w -> w_sbi w2 = w_sbi w ->
  range_staged (w_rs w2) = false -> i_size (w_si w2) = i_size (w_si w) ->
  0 <= ki_pos io' -> write_at io' w = write_at io w ->
  smoothfs_compat_write_iter ora io' from w2 = (ret, w') -> dispatched io from w ret w'.
Proof.
  intros O2 A2 S2 B2 Hun Hi Hp Hat Heq.
  eapply (compat_write_spec ora _ from w w2) in Heq
    as (n & C1 & C2 & C3 & C4 & C5 & C6); try done; try congruence; [|by apply O2].
  change (if ki_append io' then i_size (w_si w) else ki_pos io') with (write_at io' w) in *.
  rewrite Hat in C4. exists n. split_and!; [lia|lia|done|intros _ Hr; by apply C3|done|intros Hr|congruence].
  destruct (C3 Hr) as [-> _]. by apply C5.
Qed.

(** Cache mode with a full fastest tier: drain, then write the lower file. *)
Lemma dispatched_full_cache ora now tier io from w r pos w1 ret w' :
  world_ok w -> cache_drains w -> source_ok w -> 0 <= ki_pos io -> cache_mode (w_sbi w) = true ->
  smoothfs_range_stage_write ora now tier (ki_append io) (ki_pos io) from w = (r, pos, 0, w1) -> r <= 0 ->
  (let (err, w2) := smoothfs_write_staging_drain_inode ora now w1 in
   if negb (err =? 0) then (err, w2)
   else smoothfs_compat_write_iter ora
          (Kiocb pos (ki_direct io) (ki_append io) (ki_sync io) (ki_mapped io)) from w2) = (ret, w') ->
  dispatched io from w ret w'.
Proof.
  intros Hok Hcd Hsrc Hp Hc Es Hr Heq.
  pose proof (stage_write_spec _ _ _ _ _ _ _ _ _ _ _ Hok Hp Es)
    as (S1 & S2 & S3 & S4 & S5 & S6 & S7 & S8 & S9 & S10).
  pose proof S4 as [Hsbi _]. change (abs w1 = abs w) in S3.
  destruct (smoothfs_write_staging_drain_inode ora now w1) as [err w2] eqn:Ed.
  apply drain_spec in Ed as (D1 & D2 & D3 & D4 & D5 & D6 & D7); [|done]. destruct D3 as [Dsbi _].
  destruct (Z.eqb_spec err 0) as [->|]; cbn [negb] in Heq;
    [|injection Heq as <- <-; apply dispatched_none; [done|congruence|congruence|congruence|lia]].
  assert (range_staged (w_rs w2) = false) as Hun.
  { destruct D7 as [(E & _ & Hd)|(E & _)]; [|done]. rewrite E.
    destruct (range_staged (w_rs w1)) eqn:Er; [|done].
    destruct (stage_write_unused_rs _ _ _ _ _ _ _ _ _ _ Es) as [U1 U2].
    rewrite Hsbi, Hcd in Hd; [by discriminate Hd|done|]. rewrite U1. apply Hsrc. by rewrite <- U2. }
  assert (i_size (w_si w2) = i_size (w_si w)) as Hi
    by (rewrite <- (fsize_abs w2), D2, S3, fsize_abs; [done|by apply ok_isize_nonneg..]).
  pose proof (ok_isize_nonneg w Hok).
  eapply dispatched_compat; [exact D1|congruence|congruence|congruence|exact Hun|exact Hi| | |exact Heq].
  - cbn. rewrite S7. destruct (ki_append io); lia.
  - unfold write_at. cbn. rewrite S7. destruct (ki_append io); lia.
Qed.

Lemma write_dispatch_spec ora statfs now mnt io from w ret w' :
  world_ok w -> cache_drains w -> source_ok w -> 0 <= ki_pos io ->
  write_dispatch ora statfs now mnt io from w = (ret, w') -> dispatched io from w ret w'.
Proof.
  intros Hok Hcd Hsrc Hp Heq. unfold write_dispatch in Heq.
  destruct (smoothfs_should_range_stage_write _ _ _ _ _).
  - destruct (smoothfs_range_stage_write _ _ _ _ _ _ _) as [[[r pos] used] w1] eqn:Es.
    pose proof (stage_write_spec _ _ _ _ _ _ _ _ _ _ _ Hok Hp Es)
      as (S1 & S2 & S3 & S4 & S5 & S6 & S7 & S8 & S9 & S10).
    pose proof S4 as [Hsbi _].
    destruct (cache_mode (w_sbi w1) && (r =? - ENOSPC) && (used =? 0)) eqn:Eg.
    + to_prop. subst used. rewrite Hsbi in *.
      eapply dispatched_full_cache; [exact Hok|exact Hcd|exact Hsrc|exact Hp|done|exact Es|subst r; done|exact Heq].
    + injection Heq as <- <-. exists used. split_and!; try done; try lia.
      * intros Hc Hr. destruct (decide (used = 0)); [done|].
        destruct S10 as [?|[_ ?]]; [lia|lia|congruence].
      * split; [done|by left].
  - destruct (range_staged (w_rs w)) eqn:Er.
    + destruct (smoothfs_write_staging_drain_inode ora now w) as [err w2] eqn:Ed.
      apply drain_spec in Ed as (D1 & D2 & D3 & D4 & D5 & D6 & D7); [|done]. destruct D3 as [Dsbi _].
      destruct (range_staged (w_rs w2)) eqn:Er2.
      { rewrite andb_true_r in Heq. destruct (Z.eqb_spec err 0); [subst|];
          (rewrite (proj2 (Z.eqb_neq _ 0)) in Heq by (unfold EBUSY; lia)); cbn [negb] in Heq;
          injection Heq as <- <-; apply dispatched_none; try done; unfold EBUSY; lia. }
      rewrite andb_false_r in Heq.
      destruct (Z.eqb_spec err 0) as [->|]; cbn [negb] in Heq;
        [|injection Heq as <- <-; by apply dispatched_none].
      assert (i_size (w_si w2) = i_size (w_si w)) as Hi
        by (rewrite <- (fsize_abs w2), D2, fsize_abs; [done|by apply ok_isize_nonneg..]).
      eapply dispatched_compat; [exact D1|done..|exact Heq].
    + rewrite Er in Heq. cbn [Z.eqb andb negb] in Heq.
      eapply dispatched_compat; [exact Hok|done..|exact Heq].
Qed.

(** Heat counters, size and sync after the dispatch. *)
Lemma write_finish_spec ora now tier io from w0 w at_ n ret r w' :
  0 <= n <= fsize from -> (0 < ret -> n = ret) -> written w0 w at_ n from ->
  (ret <= 0 -> world_ok w /\ abs w = pwrite (abs w0) at_ (take (Z.to_nat n) from)) ->
  write_finish ora now tier ret io w = (r, w') ->
  world_ok w' /\ abs w' = pwrite (abs w0) at_ (take (Z.to_nat n) from)
  /\ staged_slack w' = staged_slack w0 /\ (0 < r -> r = ret) /\ (ret <= 0 -> r = ret)
  /\ (r <= 0 -> 0 < ret -> cache_mode (w_sbi w) = true).
Proof.
  intros Hn Hret [Hsl Hw] Hneg Heq. unfold write_finish in Heq.
  destruct (Z.ltb_spec 0 ret) as [Hpos|Hle]; cbn [andb] in Heq;
    [|injection Heq as <- <-; destruct (Hneg Hle); split_and!; try done; lia].
  match type of Heq with context [cache_mode (w_sbi ?x)] => set (w1 := x) in Heq end.
  assert (world_ok w1 /\ abs w1 = pwrite (abs w0) at_ (take (Z.to_nat n) from)
          /\ staged_slack w1 = staged_slack w0) as (O1 & A1 & L1).
  { assert (range_staged_bytes (w_st w1) = range_staged_bytes (w_st w)) as Hb
      by (unfold w1; cbn; case_goal; [unfold smoothfs_write_staging_note_write; by case_goal|done]).
    assert (staged_slack w1 = staged_slack w0) as Hs1.
    { rewrite <- Hsl. unfold staged_slack. by rewrite Hb. }
    destruct (range_staged (w_rs w)) eqn:Er.
    - destruct Hw as [[Hok Ha]|[Hf _]]; [|congruence].
      assert (w_rs w1 = w_rs w /\ w_base w1 = w_base w /\ i_size (w_si w1) = i_size (w_si w)
        /\ stage_file w1 = stage_file w) as (E1 & E2 & E3 & E4) by done.
      split_and!; [|rewrite <- Ha; apply abs_ext; [done|by intros]|done].
      constructor; rewrite ?E1, ?E2, ?E3, ?E4; apply Hok.
    - assert (range_staged_ranges (w_rs w) = [] /\ w_base w = pwrite (abs w0) at_ (take (Z.to_nat n) from))
        as [Hr Hbase].
      { destruct Hw as [[Hok Ha]|(_ & Hr & Hb1)]; [|done].
        pose proof (ok_unstaged w Hok Er) as Hr. split; [done|]. rewrite <- Ha. symmetry.
        apply abs_unstaged; [done|]. rewrite (ok_size w Hok), Hr. simpl.
        pose proof (fsize_nonneg (w_base w)). lia. }
      split_and!; [|rewrite <- Hbase; by apply (abs_unstaged w1)|done].
      constructor; cbn; rewrite ?Hr, ?Er; try done.
      + intros p Hp. by apply covered_nil in Hp.
      + simpl. pose proof (fsize_nonneg (w_base w)). lia. }
  assert (w_sbi w1 = w_sbi w) as Hsb by done. clearbody w1.
  destruct (cache_mode (w_sbi w1) && ki_sync io) eqn:Ec;
    [|injection Heq as <- <-; split_and!; try done; lia].
  to_prop. destruct (smoothfs_write_staging_drain_inode ora now w1) as [err w2] eqn:Ed.
  apply drain_spec in Ed as (D1 & D2 & D3 & D4 & D5 & D6 & D7); [|done].
  assert (world_ok w2 /\ abs w2 = pwrite (abs w0) at_ (take (Z.to_nat n) from)
    /\ staged_slack w2 = staged_slack w0) as (F1 & F2 & F3) by (split_and!; congruence || done).
  assert (forall e, e <= 0 -> (0 < e -> e = ret) /\ (ret <= 0 -> e = ret)
    /\ (e <= 0 -> 0 < ret -> cache_mode (w_sbi w) = true)) as Hcl
    by (intros e He; split_and!; [lia|lia|intros; congruence]).
  destruct (Z.eqb_spec err 0); cbn [negb] in Heq;
    [|rewrite (proj2 (Z.eqb_neq err 0)) in Heq by done; cbn [negb] in Heq;
      injection Heq as <- <-; split_and!; try done; by apply Hcl].
  unfold call in Heq. destruct (Z.ltb_spec (ora (w_k w2)) 0); cbn in Heq.
  - rewrite (proj2 (Z.eqb_neq (ora (w_k w2)) 0)) in Heq by lia. injection Heq as <- <-.
    destruct (quiet_ok w2 (tick 1 w2)) as (Q1 & Q2 & Q3); [done|done|].
    split_and!; try congruence; try done; apply Hcl; lia.
  - injection Heq as <- <-. destruct (quiet_ok w2 (tick 1 w2)) as (Q1 & Q2 & Q3); [done|done|].
    split_and!; try congruence; try done; lia.
Qed.

(** Bookkeeping around the dispatch: tier counters and the reservation. *)
Definition inert (w w' : world) : Prop :=
  w_rs w' = w_rs w /\ w_base w' = w_base w /\ w_dir w' = w_dir w /\ w_st w' = w_st w
  /\ oid (w_si w') = oid (w_si w) /\ i_size (w_si w') = i_size (w_si w)
  /\ cache_mode (w_sbi w') = cache_mode (w_sbi w) /\ ntiers (w_sbi w') = ntiers (w_sbi w)
  /\ (forall t, smoothfs_write_staging_drain_tier_active (w_sbi w') t
                = smoothfs_write_staging_drain_tier_active (w_sbi w) t).

Lemma inert_refl w : inert w w.
Proof. by repeat split. Qed.

Lemma inert_trans w1 w2 w3 : inert w1 w2 -> inert w2 w3 -> inert w1 w3.
Proof.
  intros (A1&A2&A3&A4&A5&A6&A7&A8&A9) (B1&B2&B3&B4&B5&B6&B7&B8&B9).
  split_and!; try congruence.
Qed.

Lemma inert_ok w w' : inert w w' ->
  (world_ok w -> world_ok w') /\ abs w' = abs w /\ staged_slack w' = staged_slack w
  /\ (cache_drains w -> cache_drains w') /\ (source_ok w -> source_ok w').
Proof.
  intros (A1&A2&A3&A4&A5&A6&A7&A8&A9).
  assert (stage_file w' = stage_file w) as Hst by (unfold stage_file, stage_name; by rewrite A3, A5).
  split_and!.
  - intros Hok. constructor; rewrite ?A1, ?Hst, ?A2, ?A6; apply Hok.
  - apply abs_ext; [done|]. intros p _. unfold view. by rewrite A1, Hst, A2.
  - unfold staged_slack. by rewrite A1, A4.
  - intros H Hc t Ht. rewrite A8 in Ht. rewrite A9. apply H; congruence.
  - unfold source_ok. by rewrite A1, A8.
Qed.

Lemma add_active_inert tier d w : inert w (add_active tier d w).
Proof. unfold add_active. case_goal; by repeat split. Qed.

Lemma clear_reservation_inert w sbi si :
  smoothfs_clear_write_reservation (w_sbi w) (w_si w) = (sbi, si) ->
  inert w (w <| w_sbi := sbi |> <| w_si := si |>).
Proof.
  unfold smoothfs_clear_write_reservation. repeat case_goal; intros [= <- <-]; by repeat split.
Qed.

Lemma set_ms_inert w s : inert w (w <| w_si := w_si w <| ms := s |> |>).
Proof. by repeat split. Qed.

Lemma written_inert w0 w w' at_ n from : inert w w' ->
  written w0 w at_ n from -> written w0 w' at_ n from.
Proof.
  intros Hi [Hs H]. destruct (inert_ok _ _ Hi) as (I1 & I2 & I3 & _). split; [congruence|].
  destruct Hi as (A1 & A2 & _). destruct H as [[H1 H2]|(H1 & H2 & H3)].
  - left. split; [auto|congruence].
  - right. split_and!; congruence.
Qed.

(** The gate: an interrupted wait is an error; a writer that never gets in saw
    the gate closed each time it looked. *)
Lemma enter_write_Err waits s e :
  (forall e, Err e ∈ waits -> e < 0) -> enter_write waits s = Some (Err e) -> e < 0.
Proof.
  revert s. induction waits as [|[e0|s0] ws IH]; intros s Hw; simpl; case_goal; try done.
  - intros [= <-]. apply Hw. left.
  - apply IH. intros ? ?. apply Hw. by right.
Qed.

Lemma enter_write_None waits s : enter_write waits s = None ->
  s = MS_CUTOVER_IN_PROGRESS /\ Forall (eq (Ok MS_CUTOVER_IN_PROGRESS)) waits.
Proof.
  revert s. induction waits as [|[e0|s0] ws IH]; intros s; simpl; unfold ms_eqb; case_bool_decide; cbn [negb]; try done.
  intros [-> ?]%IH. split; [done|by constructor].
Qed.

Lemma write_iter_spec ora statfs now waits lower io from w ret w' :
  world_ok w -> cache_drains w -> source_ok w -> 0 <= ki_pos io ->
  (forall e, Err e ∈ waits -> e < 0) -> (forall e, lower = Some (Err e) -> e < 0) ->
  smoothfs_write_iter ora statfs now waits lower io from w = Some (ret, w') ->
  exists n, 0 <= n <= fsize from
  /\ world_ok w' /\ staged_slack w' = staged_slack w
  /\ abs w' = pwrite (abs w) (if ki_append io then i_size (w_si w) else ki_pos io)
                (take (Z.to_nat n) from)
  /\ (0 < ret -> n = ret)
  /\ (ret <= 0 -> cache_mode (w_sbi w) = false -> n = 0).
Proof.
  intros Hok Hcd Hsrc Hp Hwaits Hlower Heq. unfold smoothfs_write_iter in Heq.
  pose proof (fsize_nonneg from) as Hfrom.
  assert (forall w1 e, inert w w1 -> e <= 0 -> exists n, 0 <= n <= fsize from
    /\ world_ok w1 /\ staged_slack w1 = staged_slack w
    /\ abs w1 = pwrite (abs w) (if ki_append io then i_size (w_si w) else ki_pos io) (take (Z.to_nat n) from)
    /\ (0 < e -> n = e) /\ (e <= 0 -> cache_mode (w_sbi w) = false -> n = 0)) as Hnone.
  { intros w1 e Hi He. destruct (inert_ok _ _ Hi) as (I1 & I2 & I3 & _).
    exists 0. split_and!; try done; try lia. auto. }
  destruct (enter_write waits (ms (w_si w))) as [[e|s]|] eqn:Ee; [| |done].
  { injection Heq as <- <-. apply enter_write_Err in Ee; [|done]. apply Hnone; [apply inert_refl|lia]. }
  pose proof (set_ms_inert w s) as Hi0. set (w0 := w <| w_si := _ |>) in *.
  destruct lower as [[e|mnt]|];
    [injection Heq as <- <-; apply Hnone; [done|specialize (Hlower e eq_refl); lia]| |
     injection Heq as <- <-; by apply Hnone].
  case_hyp Heq; [injection Heq as <- <-; by apply Hnone|].
  set (tier := smoothfs_tier_of _ _) in *.
  destruct (smoothfs_clear_write_reservation _ _) as [sbi si] eqn:Ecl.
  apply clear_reservation_inert in Ecl.
  set (w1 := add_active tier 1 w0 <| w_sbi := sbi |> <| w_si := si |>) in *.
  assert (inert w w1) as Hi1.
  { eapply inert_trans; [|exact Ecl]. eapply inert_trans; [exact Hi0|apply add_active_inert]. }
  destruct (inert_ok _ _ Hi1) as (I1 & I2 & I3 & I4 & I5).
  pose proof Hi1 as (_ & _ & _ & _ & _ & Hsz & Hcm & _).
  destruct (write_dispatch _ _ _ _ _ _ w1) as [r1 w2] eqn:Ed.
  destruct (write_dispatch_spec _ _ _ _ _ _ _ _ _ (I1 Hok) (I4 Hcd) (I5 Hsrc) Hp Ed)
    as (n & D1 & D2 & D3 & D4 & D5 & D6). unfold write_at in D4, D5.
  rewrite I2, Hsz in *. pose proof (add_active_inert tier (-1) w2) as Hi2.
  destruct (inert_ok _ _ Hi2) as (J1 & J2 & J3 & _).
  injection Heq as Heq.
  eapply (write_finish_spec _ _ _ _ from w1) in Heq as (F1 & F2 & F3 & F4 & F5 & F6);
    [|exact D1|exact D2|by eapply written_inert|].
  - exists n. rewrite I2, I3 in *. split_and!; try done; try lia.
    + intros Hr Hc. destruct (Z.le_gt_cases r1 0) as [Hle|Hgt]; [by apply D3; [congruence|]|].
      assert (cache_mode (w_sbi (add_active tier (-1) w2)) = true) as Ht by (by apply F6; [|lia]).
      destruct Hi2 as (_ & _ & _ & _ & _ & _ & K & _). rewrite K, D6 in Ht. congruence.
  - intros Hr. destruct (D5 Hr) as [X1 X2]. rewrite I2. split; [auto|congruence].
Qed.

(** C2. For every pattern of faults and short transfers, a write to a file that
    may be range-staged changes the file, as readers see it (lower bytes with
    staged ranges laid over them), exactly as a plain write of the accepted
    prefix at the write position would; the accounting of staged bytes stays
    exact. The call fails to return only while every look at the movement state
    shows the cutover gate closed. *)
Theorem write_iter_is_a_write ora statfs now waits lower io from w :
  world_ok w -> cache_drains w -> source_ok w -> 0 <= ki_pos io ->
  (forall e, Err e ∈ waits -> e < 0) -> (forall e, lower = Some (Err e) -> e < 0) ->
  match smoothfs_write_iter ora statfs now waits lower io from w with
  | None => ms (w_si w) = MS_CUTOVER_IN_PROGRESS /\ Forall (eq (Ok MS_CUTOVER_IN_PROGRESS)) waits
  | Some (ret, w') =>
      exists n, 0 <= n <= fsize from
      /\ world_ok w' /\ staged_slack w' = staged_slack w
      /\ abs w' = pwrite (abs w) (if ki_append io then i_size (w_si w) else ki_pos io)
                    (take (Z.to_nat n) from)
      /\ (0 < ret -> n = ret)
      /\ (ret <= 0 -> cache_mode (w_sbi w) = false -> n = 0)
  end.
Proof.
  intros Hok Hcd Hsrc Hp Hw Hl.
  destruct (smoothfs_write_iter ora statfs now waits lower io from w) as [[ret w']|] eqn:E; [by eapply write_iter_spec|].
  apply enter_write_None. revert E. unfold smoothfs_write_iter.
  destruct (enter_write waits (ms (w_si w))) as [[e|s]|]; [done| |done].
  destruct lower as [[e|mnt]|]; try done. case_goal; [done|].
  destruct (smoothfs_clear_write_reservation _ _). by destruct (write_dispatch _ _ _ _ _ _ _).
Qed.

(** In cache mode an fsync that returns 0 leaves nothing staged and the base
    file equal to what readers saw; whatever it returns, readers see the same
    bytes as before. *)
Theorem cache_fsync_reaches_base ora now lower w err w' :
  world_ok w -> cache_drains w -> source_ok w -> cache_mode (w_sbi w) = true ->
  smoothfs_fsync ora now lower w = (err, w') ->
  world_ok w' /\ abs w' = abs w
  /\ (err = 0 -> range_staged (w_rs w') = false /\ w_base w' = abs w).
Proof.
  intros Hok Hcd Hsrc Hc Heq. unfold smoothfs_fsync in Heq. rewrite Hc in Heq.
  destruct (Z.eqb_spec (smoothfs_lower_file_error lower) 0); cbn [negb] in Heq;
    [|by injection Heq as <- <-].
  destruct (smoothfs_write_staging_drain_inode ora now w) as [e1 w1] eqn:Ed.
  apply drain_spec in Ed as (D1 & D2 & D3 & D4 & D5 & D6 & D7); [|done].
  destruct (Z.eqb_spec e1 0) as [->|]; cbn [negb] in Heq; [|injection Heq as <- <-; by split_and!].
  injection Heq as <- <-. destruct (quiet_ok w1 (tick 1 w1)) as (Q1 & Q2 & Q3); [done|done|].
  split_and!; [done|congruence|]. intros _. cbn.
  destruct D7 as [(E & _ & Hd)|(E1 & E2 & E3)]; [|done].
  assert (range_staged (w_rs w) = false) as Hun.
  { destruct (range_staged (w_rs w)) eqn:Er; [|done].
    rewrite Hcd in Hd; [by discriminate Hd|done|by apply Hsrc]. }
  rewrite E, Hun. split; [done|]. rewrite <- D2. symmetry. apply abs_unstaged.
  - rewrite E. by apply Hok.
  - rewrite (ok_size w1 D1), E, (ok_unstaged w Hok Hun). simpl.
    pose proof (fsize_nonneg (w_base w1)). lia.
Qed.

Lemma fbyte_ftruncate f size p :
  0 <= size -> 0 <= p -> fbyte (ftruncate f size) p = if p <? size then fbyte f p else 0.
Proof.
  intros. unfold ftruncate. rewrite fbyte_take, Z2Nat.id by done. case_goal; [|done].
  rewrite fbyte_app by done. case_goal; [done|]. rewrite fbyte_replicate.
  symmetry. apply fbyte_beyond. to_prop. lia.
Qed.

Lemma fsize_ftruncate f size : 0 <= size -> fsize (ftruncate f size) = size.
Proof.
  intros. unfold ftruncate, fsize. rewrite length_take, length_app, length_replicate. lia.
Qed.

Lemma truncate_spec ora now size w err w' :
  world_ok w -> cache_drains w -> source_ok w -> cache_mode (w_sbi w) = true -> 0 <= size ->
  (let (e, w1) := drain_before_change ora now w in if e <? 0 then (e, w1) else setattr_lower ora size w1) = (err, w') ->
  world_ok w' /\ abs w' = if err =? 0 then ftruncate (abs w) size else abs w.
Proof.
  intros Hok Hcd Hsrc Hc Hsz Heq. unfold drain_before_change, setattr_lower in Heq.
  rewrite Hc in Heq. cbn [andb] in Heq.
  assert (exists e1 w1, (if range_staged (w_rs w) then smoothfs_write_staging_drain_inode ora now w
            else (0, w)) = (e1, w1) /\ e1 <= 0 /\ world_ok w1 /\ abs w1 = abs w
            /\ (e1 = 0 -> range_staged (w_rs w1) = false)) as (e1 & w1 & E & He & O1 & A1 & U1).
  { destruct (range_staged (w_rs w)) eqn:Er; [|by exists 0, w].
    destruct (smoothfs_write_staging_drain_inode ora now w) as [e1 w1] eqn:Ed.
    apply drain_spec in Ed as (D1 & D2 & D3 & D4 & D5 & D6 & D7); [|done].
    exists e1, w1. split_and!; try done. intros ->.
    destruct D7 as [(E & _ & Hd)|(E1 & E2 & E3)]; [|done].
    rewrite Hcd in Hd; [by discriminate Hd|done|by apply Hsrc]. }
  rewrite E in Heq. destruct (Z.ltb_spec e1 0).
  { injection Heq as <- <-. rewrite (proj2 (Z.eqb_neq e1 0)) by lia. done. }
  destruct (Z.ltb_spec (ora (w_k w1)) 0).
  { injection Heq as <- <-. rewrite (proj2 (Z.eqb_neq (ora (w_k w1)) 0)) by lia.
    destruct (quiet_ok w1 (tick 1 w1)) as (Q1 & Q2 & Q3); [done|done|]. split; [done|congruence]. }
  injection Heq as <- <-. rewrite Z.eqb_refl. specialize (U1 ltac:(lia)).
  pose proof (ok_unstaged w1 O1 U1) as Hr.
  assert (abs w1 = w_base w1) as Hab.
  { apply abs_unstaged; [done|]. rewrite (ok_size w1 O1), Hr. simpl.
    pose proof (fsize_nonneg (w_base w1)). lia. }
  match goal with |- world_ok ?x /\ _ => set (w2 := x) end.
  assert (range_staged_ranges (w_rs w2) = [] /\ i_size (w_si w2) = fsize (w_base w2)
    /\ range_staged (w_rs w2) = false) as (R1 & R2 & R3) by done.
  split.
  - constructor; rewrite ?R1, ?R2, ?R3; try done.
    + intros p Hp. by apply covered_nil in Hp.
    + change (ranges_end []) with 0. pose proof (fsize_nonneg (w_base w2)). lia.
  - rewrite (abs_unstaged w2 R1 R2), <- A1, Hab. done.
Qed.

(** In cache mode a size change of a staged file is a truncate or extension of
    the file readers see, or, when it fails, leaves that file unchanged; it
    fails to return only while the cutover gate stays closed. *)
Theorem cache_truncate_is_a_truncate ora now size waits w :
  world_ok w -> cache_drains w -> source_ok w -> cache_mode (w_sbi w) = true -> 0 <= size ->
  (forall e, Err e ∈ waits -> e < 0) ->
  match setattr_size ora now size waits w with
  | None => ms (w_si w) = MS_CUTOVER_IN_PROGRESS /\ Forall (eq (Ok MS_CUTOVER_IN_PROGRESS)) waits
  | Some (err, w') => world_ok w' /\ abs w' = if err =? 0 then ftruncate (abs w) size else abs w
  end.
Proof.
  intros Hok Hcd Hsrc Hc Hsz Hw. unfold setattr_size, smoothfs_begin_data_change.
  destruct (enter_write waits (ms (w_si w))) as [[e|s]|] eqn:Ee.
  - apply enter_write_Err in Ee; [|done]. rewrite (proj2 (Z.ltb_lt e 0)), (proj2 (Z.eqb_neq e 0)) by lia. done.
  - pose proof (set_ms_inert w s) as Hi. set (w0 := w <| w_si := _ |>) in *.
    destruct (inert_ok _ _ Hi) as (I1 & I2 & I3 & I4 & I5).
    pose proof Hi as (_ & _ & _ & _ & _ & _ & Hcm & _).
    destruct (drain_before_change ora now w0) as [e1 w1] eqn:Ed.
    destruct (if e1 <? 0 then (e1, w1) else setattr_lower ora size w1) as [err w'] eqn:Es.
    rewrite <- I2. apply (truncate_spec ora now size w0 err w'); [auto|auto|auto|congruence|done|].
    by rewrite Ed.
  - by apply enter_write_None.
Qed.

(** ** A concrete pool and file *)

Definition demo_tier (rank mnt : Z) : tier := Tier rank 0 (Path mnt 0) 0 0.

Definition stage_pool : sb_info :=
  sb_zero <| ntiers := 2 |> <| tiers := [demo_tier 0 10; demo_tier 1 20] |>
          <| write_staging_enabled := true |> <| write_staging_full_pct := 98 |>
          <| write_staging_drain_active_tier_mask := 3 |>.

Definition demo_inode : inode_info :=
  InodeInfo 7 FT_REG 420 4 1 demo_oid 0 1 1 MS_PLACED PIN_NONE 1 0 0 (Some (Path 20 5)) [Some 5]
    0 0 0 0 0 0 0 0 0 0 false None false false.

Definition stage_world : world :=
  World 0 stage_pool demo_inode rstage_init wstats_zero ∅ [1; 2; 3; 4] false 0 2.

Definition room : statfs_fn := fun _ => Ok (KStatfs 100 90 90 4096 10 10).

Definition io_at (pos : Z) : kiocb := Kiocb pos false false false false.

Lemma stage_world_ok : world_ok stage_world.
Proof. constructor; try done. intros p Hp. by apply covered_nil in Hp. Qed.

(** Three bytes staged at offset 2. *)
Definition staged_world : world :=
  snd (smoothfs_range_stage_write no_faults 5 1 false 2 [7; 8; 9] stage_world).

Example staged_world_reads :
  abs staged_world = [1; 2; 7; 8; 9] /\ w_base staged_world = [1; 2; 3; 4]
  /\ fst (smoothfs_range_stage_read_iter no_faults (Some (Ok 20)) staged_world 1 10) = Ok [2; 7; 8; 9]
  /\ w_base (snd (smoothfs_write_staging_drain_one_range no_faults 6 staged_world)) = [1; 2; 7; 8; 9].
Proof. vm_compute. by repeat split. Qed.

Lemma staged_write_is_a_write_witness :
  let r := smoothfs_range_stage_write no_faults 5 1 false 2 [7; 8; 9] stage_world in
  fst (fst (fst r)) = 3 /\ world_ok (snd r) /\ abs (snd r) = pwrite (abs stage_world) 2 [7; 8; 9].
Proof.
  intros r. assert (snd (fst r) = 3) as Hu by (vm_compute; reflexivity).
  split; [vm_compute; reflexivity|].
  destruct (staged_write_is_a_write no_faults 5 1 false 2 [7; 8; 9] stage_world
    (fst (fst (fst r))) (snd (fst (fst r))) (snd (fst r)) (snd r)) as (H1 & _ & H3 & _).
  - exact stage_world_ok.
  - lia.
  - fold r. by destruct r as [[[? ?] ?] ?].
  - split; [exact H1|]. rewrite H3, Hu. reflexivity.
Defined.

Lemma staged_world_ok : world_ok staged_world.
Proof.
  unfold staged_world. destruct (smoothfs_range_stage_write _ _ _ _ _ _ _) as [[[a b] c] w] eqn:E.
  apply stage_write_spec in E as (H & _); [exact H|exact stage_world_ok|lia].
Qed.

Lemma staged_read_is_a_read_witness :
  match fst (smoothfs_range_stage_read_iter no_faults (Some (Ok 20)) staged_world 1 10) with
  | Err e => e < 0 \/ e = 0
  | Ok bs => exists m, 0 <= m /\ bs = pread (abs staged_world) 1 m
      /\ (smooth_run no_faults SMOOTHFS_RANGE_READ_CHUNK ->
          m = Z.max 0 (Z.min 10 (i_size (w_si staged_world) - 1)))
  end.
Proof.
  apply (staged_read_is_a_read no_faults (Some (Ok 20)) staged_world 1 10).
  - exact staged_world_ok.
  - apply smooth_no_short, no_faults_smooth. discriminate.
  - lia.
  - lia.
Defined.

Lemma drain_preserves_the_file_witness :
  let r := smoothfs_write_staging_drain_one_range no_faults 6 staged_world in
  world_ok (snd r) /\ abs (snd r) = abs staged_world.
Proof.
  intros r. destruct (drain_preserves_the_file no_faults 6 staged_world (fst r) (snd r)) as (H1 & H2 & _).
  - exact staged_world_ok.
  - fold r. by destruct r.
  - by split.
Defined.

Definition opt_ret (x : option (Z * world)) : Z := match x with Some (r, _) => r | None => -1 end.
Definition opt_world (x : option (Z * world)) : world := match x with Some (_, w) => w | None => stage_world end.

Lemma write_iter_is_a_write_witness :
  let r := smoothfs_write_iter no_faults room 5 [] (Some (Ok 20)) (io_at 2) [7; 8; 9] stage_world in
  opt_ret r = 3 /\ exists n, 0 <= n <= 3 /\ world_ok (opt_world r)
    /\ abs (opt_world r) = pwrite (abs stage_world) 2 (take (Z.to_nat n) [7; 8; 9]) /\ n = 3.
Proof.
  intros r. assert (opt_ret r = 3) as Hr by (vm_compute; reflexivity). split; [exact Hr|].
  pose proof (write_iter_is_a_write no_faults room 5 [] (Some (Ok 20)) (io_at 2) [7; 8; 9] stage_world) as H.
  fold r in H. clearbody r. destruct r as [[ret w']|]; [|discriminate Hr]. cbn [opt_ret opt_world] in Hr |- *.
  destruct H as (n & H1 & H2 & H3 & H4 & H5 & _).
  - exact stage_world_ok.
  - intros Hc. discriminate Hc.
  - intros Hc. discriminate Hc.
  - cbn; clear; lia.
  - intros e H. destruct (not_elem_of_nil _ H).
  - discriminate.
  - exists n. split; [exact H1|]. split; [exact H2|]. split; [exact H4|].
    rewrite H5; rewrite Hr; [reflexivity|clear; lia].
Defined.

Definition cache_world : world :=
  stage_world <| w_sbi := stage_pool <| cache_mode := true |> |>.

Lemma cache_world_ok : world_ok cache_world.
Proof. constructor; try done. intros p Hp. by apply covered_nil in Hp. Qed.

Lemma cache_world_drains : cache_drains cache_world.
Proof.
  intros _ t Ht. unfold smoothfs_write_staging_drain_tier_active. cbn in *.
  destruct (Z.leb_spec 2 t); [lia|]. destruct (Z.eqb_spec t 0); [done|].
  assert (t = 1) as -> by lia. done.
Qed.

Lemma cache_fsync_reaches_base_witness :
  let r := smoothfs_fsync no_faults 6 (Some (Ok 20)) cache_world in
  fst r = 0 /\ world_ok (snd r) /\ w_base (snd r) = abs cache_world.
Proof.
  intros r. assert (fst r = 0) as Hr by (vm_compute; reflexivity).
  destruct (cache_fsync_reaches_base no_faults 6 (Some (Ok 20)) cache_world (fst r) (snd r)) as (H1 & H2 & H3).
  - exact cache_world_ok.
  - exact cache_world_drains.
  - discriminate.
  - reflexivity.
  - fold r. by destruct r.
  - split; [exact Hr|]. split; [exact H1|]. by apply H3.
Defined.

Lemma cache_truncate_is_a_truncate_witness :
  let r := setattr_size no_faults 6 2 [] cache_world in
  opt_ret r = 0 /\ world_ok (opt_world r) /\ abs (opt_world r) = [1; 2].
Proof.
  intros r. assert (opt_ret r = 0) as Hr by (vm_compute; reflexivity). split; [exact Hr|].
  pose proof (cache_truncate_is_a_truncate no_faults 6 2 [] cache_world) as H.
  fold r in H. clearbody r. destruct r as [[ret w']|]; [|discriminate Hr].
  cbn [opt_ret opt_world] in Hr |- *. destruct H as (H1 & H2).
  - exact cache_world_ok.
  - exact cache_world_drains.
  - discriminate.
  - reflexivity.
  - lia.
  - intros e H. destruct (not_elem_of_nil _ H).
  - split; [exact H1|]. rewrite H2, Hr. reflexivity.
Defined.

(** Outside cache mode a truncate leaves staged ranges in place, and the next
    drain     writes them back past the new end. *)
Example tier_truncate_resurrects_staged_bytes :
  let '(ret, _, _, w1) := smoothfs_range_stage_write no_faults 5 1 false 0 [7; 8; 9; 6] stage_world in
  let r := setattr_size no_faults 6 1 [] w1 in
  let (err, w2) := (opt_ret r, opt_world r) in
  let (derr, w3) := smoothfs_write_staging_drain_one_range no_faults 7 w2 in
  ret = 4 /\ err = 0 /\ i_size (w_si w2) = 1 /\ w_base w2 = [1]
  /\ derr = 0 /\ w_base w3 = [7; 8; 9; 6].
Proof. vm_compute. by repeat split. Qed.
