(* ===== verification/Drains.v ===== *)
(** * Draining a whole pool: the drain passes of src/src/smoothfs/super.c

    The files of a pool share the counters and the [.smoothfs] directory of the
    fastest tier.  A pass looks for a file with drainable ranges on the inode
    list, drains it, and looks again; it stops at the first error or when no
    drainable file is left.  Each file is the world of [Staging] seen through
    the shared parts. *)
From S2P Require Import Prelude Types Tiers KernelIO RangeList RangeMeta Staging.

(** One file's own part. *)
Record pfile := PFile {
  pf_si : inode_info;
  pf_rs : rstage;
  pf_base : list Z;
  pf_write_staged : bool;
  pf_drain_tier : Z;              (** [si->write_staged_drain_tier] *)
  pf_depth : nat;
}.

Record pool := Pool {
  po_k : nat;
  po_sbi : sb_info;
  po_st : wstats;
  po_dir : meta_dir;
  po_list : list Z;               (** [sbi->inode_list] *)
  po_files : gmap Z pfile;
}.

Definition smoothfs_write_staging_rehome_count (p : pool) (drainable_only : bool) : Z :=
  foldl (fun count ino =>
    match po_files p !! ino with
    | None => count
    | Some f =>
        if negb (pf_write_staged f) then count
        else if negb drainable_only then count + 1
        else if smoothfs_write_staging_drain_tier_active (po_sbi p) (pf_drain_tier f) then count + 1
        else count
    end) 0 (po_list p).

Definition smoothfs_write_staging_pending_rehomes (p : pool) : Z := smoothfs_write_staging_rehome_count p false.

(** The file [f] in pool [p]. *)
Definition focus (p : pool) (f : pfile) : world :=
  World (po_k p) (po_sbi p) (pf_si f) (pf_rs f) (po_st p) (po_dir p) (pf_base f) (pf_write_staged f)
    (smoothfs_write_staging_pending_rehomes p) (pf_depth f).

Definition unfocus (p : pool) (ino tier : Z) (w : world) : pool :=
  Pool (w_k w) (w_sbi w) (w_st w) (w_dir w) (po_list p)
    (<[ino := PFile (w_si w) (w_rs w) (w_base w) (w_write_staged w) tier (w_depth w)]> (po_files p)).

(** A range of this file can be drained; [grab] tells which inodes [igrab]
    still gets hold of. *)
Definition drainable (grab : Z -> bool) (p : pool) (ino : Z) : bool :=
  match po_files p !! ino with
  | None => false
  | Some f =>
      range_staged (pf_rs f)
      && smoothfs_write_staging_drain_tier_active (po_sbi p) (range_staged_source_tier (pf_rs f))
      && grab ino
  end.

Fixpoint find_first (ok : Z -> bool) (l : list Z) : option Z :=
  match l with
  | [] => None
  | ino :: l => if ok ino then Some ino else find_first ok l
  end.

Definition smoothfs_write_staging_find_drainable_range (grab : Z -> bool) (p : pool) : option Z :=
  find_first (drainable grab p) (po_list p).

Definition drain_file (ora : oracle) (now : Z) (p : pool) (ino : Z) : Z * pool :=
  match po_files p !! ino with
  | None => (0, p)
  | Some f => let (err, w) := smoothfs_write_staging_drain_one_range ora now (focus p f) in (err, unfocus p ino (pf_drain_tier f) w)
  end.

(** [while ((inode = find()) != NULL)]; [None]: the fuel ran out. *)
Fixpoint drain_pass (fuel : nat) (ora : oracle) (now : Z) (grab : Z -> bool) (p : pool) : option (Z * pool) :=
  match smoothfs_write_staging_find_drainable_range grab p with
  | None => Some (0, p)
  | Some ino =>
      match fuel with
      | O => None
      | S fuel =>
          let (err, p) := drain_file ora now p ino in
          if negb (err =? 0) then Some (err, p) else drain_pass fuel ora now grab p
      end
  end.

(** One round per file of the list is enough. *)
Definition smoothfs_write_staging_drain_ranges (ora : oracle) (now : Z) (grab : Z -> bool) (p : pool)
  : option (Z * pool) :=
  drain_pass (length (po_list p)) ora now grab p.

Definition smoothfs_cache_drain (ora : oracle) (now : Z) (grab : Z -> bool) (p : pool) : option (Z * pool) :=
  if negb (cache_mode (po_sbi p)) then Some (0, p) else smoothfs_write_staging_drain_ranges ora now grab p.

(** ** The files do not share names *)

Lemma append_inj_length s1 : forall s2 t1 t2, String.length s1 = String.length s2 ->
  (s1 ++ t1 = s2 ++ t2)%string -> s1 = s2.
Proof.
  induction s1 as [|c s1 IH]; intros [|c2 s2] t1 t2 Hl; try done. cbn. intros [= -> H]. f_equal. eapply IH; [|done]. by injection Hl.
Qed.

Definition oid_wf (o : list Z) : Prop := bytes_ok o /\ length o = SMOOTHFS_OID_LEN.

Lemma meta_names_differ o1 o2 s1 s2 : oid_wf o1 -> oid_wf o2 -> o1 <> o2 ->
  smoothfs_range_meta_name o1 s1 <> smoothfs_range_meta_name o2 s2.
Proof.
  intros [B1 L1] [B2 L2] Hne Heq. apply Hne. unfold smoothfs_range_meta_name in Heq. apply append_inj_l in Heq.
  apply append_inj_length in Heq; [|rewrite !length_hex_string; lia].
  pose proof (parse_meta_name o1 B1 L1) as P1. pose proof (parse_meta_name o2 B2 L2) as P2.
  unfold smoothfs_range_meta_name in P1, P2. rewrite Heq in P1. congruence.
Qed.

(** A drain touches the names of its own object only. *)
Lemma clear_frame ora k d o k' d' n : (forall s, n <> smoothfs_range_meta_name o s) ->
  smoothfs_range_staging_clear ora k d o = (k', d') -> d' !! n = d !! n.
Proof.
  intros Hn. assert (forall k d s, (snd (smoothfs_range_unlink_path ora k d (smoothfs_range_meta_name o s))) !! n = d !! n) as Hu.
  { intros k0 d0 s. destruct (unlink_path_frame ora k0 d0 (smoothfs_range_meta_name o s)) as (e & k1 & d1 & -> & [->| ->]); [done|].
    cbn. by rewrite lookup_delete_ne by (intros E; by apply (Hn s)). }
  unfold smoothfs_range_staging_clear. case_goal; [by intros [= _ <-]|].
  assert (forall k d s, (snd (if ora k <? 0 then (S k, d) else
      let '(_, k, d) := smoothfs_range_unlink_path ora (S k) d (smoothfs_range_meta_name o s) in (k, d))) !! n = d !! n) as Hd.
  { intros k0 d0 s. case_goal; [done|]. specialize (Hu (S k0) d0 s). by destruct (smoothfs_range_unlink_path _ _ _ _) as [[? ?] ?]. }
  intros H. pose proof (Hd (S k) d SMOOTHFS_RANGE_REC_SUFFIX) as H1.
  match type of H with (let (_, _) := ?x in _) = _ => destruct x as [k1 d1] end. cbn in H1.
  pose proof (Hd k1 d1 SMOOTHFS_RANGE_REC_TMP_SUFFIX) as H2. rewrite H in H2. cbn in H2. congruence.
Qed.

Lemma drain_frame ora now w e w' n : (forall s, n <> smoothfs_range_meta_name (oid (w_si w)) s) ->
  smoothfs_write_staging_drain_one_range ora now w = (e, w') -> w_dir w' !! n = w_dir w !! n.
Proof.
  intros Hn. unfold smoothfs_write_staging_drain_one_range. repeat (case_goal; [by intros [= _ <-]|]).
  destruct (drain_ranges_loop _ _ _ _ _ _) as [[[e1 k] b] d]. repeat (case_goal; [by intros [= _ <-]|]).
  match goal with |- context [let (_, _) := ?x in _] => destruct x as [e2 k2] end.
  case_goal; [by intros [= _ <-]|]. unfold drain_cleared.
  destruct (smoothfs_range_stage_unlink_path ora _) as [e3 w1] eqn:Eu.
  assert (oid (w_si w1) = oid (w_si w) /\ w_dir w1 !! n = w_dir w !! n) as [Eo Ed].
  { revert Eu. unfold smoothfs_range_stage_unlink_path. case_goal; intros [= _ <-]; cbn; [done|]. split; [done|].
    apply lookup_delete_ne. intros Ex. by apply (Hn SMOOTHFS_RANGE_REC_STAGE_SUFFIX). }
  destruct (smoothfs_range_staging_clear _ _ _ _) as [k3 d3] eqn:Ec. intros [= _ <-]. cbn.
  rewrite Eo in Ec. by rewrite (clear_frame _ _ _ _ _ _ _ Hn Ec).
Qed.

(** ** One drain, seen from the pool *)

(** The inode itself is not touched. *)
Lemma drain_cleared_si ora now d w e w' : drain_cleared ora now d w = (e, w') -> w_si w' = w_si w.
Proof.
  unfold drain_cleared. destruct (smoothfs_range_stage_unlink_path ora _) as [e1 w1] eqn:E1.
  assert (w_si w1 = w_si w) as E.
  { revert E1. unfold smoothfs_range_stage_unlink_path. case_goal; intros [= _ <-]; done. }
  destruct (smoothfs_range_staging_clear _ _ _ _). intros [= _ <-]. cbn. exact E.
Qed.

Lemma drain_si ora now w e w' : smoothfs_write_staging_drain_one_range ora now w = (e, w') -> w_si w' = w_si w.
Proof.
  unfold smoothfs_write_staging_drain_one_range. repeat (case_goal; [by intros [= _ <-]|]).
  destruct (drain_ranges_loop _ _ _ _ _ _) as [[[e1 k] b] d]. repeat (case_goal; [by intros [= _ <-]|]).
  match goal with |- context [let (_, _) := ?x in _] => destruct x as [e2 k2] end.
  case_goal; [by intros [= _ <-]|]. intros ->%drain_cleared_si. done.
Qed.

Record pool_ok (p : pool) : Prop := PoolOk {
  pk_files : forall ino f, po_files p !! ino = Some f -> world_ok (focus p f) /\ oid_wf (oid (pf_si f));
  pk_oids : forall i j f g, po_files p !! i = Some f -> po_files p !! j = Some g -> i <> j ->
    oid (pf_si f) <> oid (pf_si g);
}.

(** A file depends on the shared parts through its own stage file only. *)
Lemma focus_same p p' f : po_dir p' !! stage_name (focus p f) = po_dir p !! stage_name (focus p f) ->
  (world_ok (focus p f) -> world_ok (focus p' f)) /\ abs (focus p' f) = abs (focus p f).
Proof.
  intros Hd. assert (stage_file (focus p' f) = stage_file (focus p f)) as Hs.
  { unfold stage_file. change (stage_name (focus p' f)) with (stage_name (focus p f)). cbn. by rewrite Hd. }
  split.
  - intros Hok. constructor; rewrite ?Hs; apply Hok.
  - apply abs_ext; [done|]. intros q _. unfold view. by rewrite Hs.
Qed.

(** What a reader of any file sees. *)
Definition same_contents (p p' : pool) : Prop :=
  forall ino, abs <$> (focus p <$> po_files p !! ino) = abs <$> (focus p' <$> po_files p' !! ino).

Lemma drain_file_spec ora now p ino f err p' : pool_ok p -> po_files p !! ino = Some f ->
  drain_file ora now p ino = (err, p') ->
  pool_ok p' /\ same_contents p p' /\ po_list p' = po_list p /\ po_sbi p' = po_sbi p /\ err <= 0
  /\ (forall j, j <> ino -> po_files p' !! j = po_files p !! j)
  /\ (err = 0 -> forall grab, drainable grab p' ino = false).
Proof.
  intros Hp Hf. unfold drain_file. rewrite Hf.
  destruct (smoothfs_write_staging_drain_one_range ora now (focus p f)) as [e w] eqn:Ed. intros [= <- <-].
  destruct (pk_files p Hp _ _ Hf) as [Hok Hoid].
  destruct (drain_spec _ _ _ _ _ Hok Ed) as (D1 & D2 & (Hsb & Ho & _) & _ & _ & D6 & D7).
  cbn [focus w_si w_sbi w_rs] in Ho, Hsb, D7.
  set (f' := PFile (w_si w) (w_rs w) (w_base w) (w_write_staged w) (pf_drain_tier f) (w_depth w)).
  assert (forall j g, j <> ino -> po_files p !! j = Some g ->
    (world_ok (focus p g) -> world_ok (focus (unfocus p ino (pf_drain_tier f) w) g))
    /\ abs (focus (unfocus p ino (pf_drain_tier f) w) g) = abs (focus p g)) as Hother.
  { intros j g Hj Hg. apply focus_same. apply (drain_frame ora now (focus p f) e w); [|exact Ed].
    intros s. apply meta_names_differ; [by apply (pk_files p Hp j)|done|]. by apply (pk_oids p Hp j ino). }
  assert (world_ok (focus (unfocus p ino (pf_drain_tier f) w) f') /\ abs (focus (unfocus p ino (pf_drain_tier f) w) f') = abs (focus p f))
    as [Hok' Habs'].
  { rewrite <- D2. assert (stage_file (focus (unfocus p ino (pf_drain_tier f) w) f') = stage_file w) as Es by done. split.
    - constructor; rewrite ?Es; apply D1.
    - apply abs_ext; [done|]. intros q _. unfold view. by rewrite Es. }
  split_and!; [| |done|done|done| |].
  - constructor; cbn.
    + intros j g [[<- <-]|[Hne Hg]]%lookup_insert_Some; [cbn; rewrite Ho; by split|].
      destruct (pk_files p Hp _ _ Hg) as [? ?]. split; [by apply (Hother j)|done].
    + intros i j g h Hi Hj Hne. apply lookup_insert_Some in Hi as [[<- <-]|[Hi1 Hi]];
        apply lookup_insert_Some in Hj as [[<- <-]|[Hj1 Hj]]; cbn; rewrite ?Ho; try done; eapply (pk_oids p Hp); eauto.
  - intros j. change (po_files (unfocus p ino (pf_drain_tier f) w)) with (<[ino := f']> (po_files p)).
    set (p' := unfocus _ _ _ _) in *. destruct (decide (j = ino)) as [->|Hne].
    + rewrite lookup_insert_eq, Hf. exact (f_equal Some (eq_sym Habs')).
    + rewrite lookup_insert_ne by done. destruct (po_files p !! j) as [g|] eqn:Hg; [|done].
      exact (f_equal Some (eq_sym (proj2 (Hother _ _ Hne Hg)))).
  - intros j Hj. cbn. by rewrite lookup_insert_ne.
  - intros -> grab. unfold drainable. cbn. rewrite lookup_insert_eq. cbn. rewrite Hsb. cbn.
    destruct D7 as [(E & _ & Ha)|(-> & _)]; [|done]. rewrite E. cbn in Ha |- *.
    destruct (range_staged (pf_rs f)); [|done]. by rewrite Ha.
Qed.

(** ** The pass *)

Lemma find_first_Some ok l ino : find_first ok l = Some ino -> ino ∈ l /\ ok ino = true.
Proof.
  induction l as [|j l IH]; cbn; [done|]. destruct (ok j) eqn:E; [intros [= <-]; split; [by left|done]|].
  intros H. destruct (IH H). split; [by right|done].
Qed.

Lemma find_first_None ok l : find_first ok l = None -> forall ino, ino ∈ l -> ok ino = false.
Proof.
  induction l as [|j l IH]; cbn; [intros _ ino H; by apply elem_of_nil in H|]. destruct (ok j) eqn:E; [done|].
  intros H ino [->|Hi]%elem_of_cons; [done|by apply IH].
Qed.

Definition count (ok : Z -> bool) (l : list Z) : nat := length (List.filter ok l).

Lemma count_le ok ok' l : (forall i, ok' i = true -> ok i = true) -> (count ok' l <= count ok l)%nat.
Proof.
  intros H. unfold count. induction l as [|j l IH]; cbn; [done|].
  destruct (ok' j) eqn:E; [rewrite (H j E); cbn; lia|]. destruct (ok j); cbn; lia.
Qed.

Lemma count_lt ok ok' l ino : (forall i, ok' i = true -> ok i = true) -> ino ∈ l -> ok ino = true -> ok' ino = false ->
  (count ok' l < count ok l)%nat.
Proof.
  intros H Hin H1 H2. induction l as [|j l IH]; [by apply elem_of_nil in Hin|].
  pose proof (count_le ok ok' l H) as Hle. unfold count in *. cbn. apply elem_of_cons in Hin as [->|Hin].
  - rewrite H1, H2. cbn. lia.
  - specialize (IH Hin). destruct (ok' j) eqn:E; [rewrite (H j E); cbn; lia|]. destruct (ok j); cbn; lia.
Qed.

Lemma count_length ok l : (count ok l <= length l)%nat.
Proof. unfold count. induction l as [|j l IH]; cbn; [done|]. destruct (ok j); cbn; lia. Qed.

Lemma same_contents_trans p1 p2 p3 : same_contents p1 p2 -> same_contents p2 p3 -> same_contents p1 p3.
Proof. intros A B ino. by rewrite A. Qed.

Lemma drain_pass_spec ora now grab : forall fuel p, pool_ok p -> (count (drainable grab p) (po_list p) <= fuel)%nat ->
  exists err p', drain_pass fuel ora now grab p = Some (err, p') /\ pool_ok p' /\ same_contents p p'
  /\ po_list p' = po_list p /\ po_sbi p' = po_sbi p /\ err <= 0
  /\ (err = 0 -> forall ino, ino ∈ po_list p -> drainable grab p' ino = false).
Proof.
  induction fuel as [|fuel IH]; intros p Hp Hc; cbn [drain_pass];
    destruct (smoothfs_write_staging_find_drainable_range grab p) as [ino|] eqn:Ef;
    try (exists 0, p; split_and!; try done; intros _; by apply find_first_None).
  - apply find_first_Some in Ef as [Hin Hd]. assert (0 < count (drainable grab p) (po_list p))%nat; [|lia].
    eapply Nat.le_lt_trans; [|apply (count_lt _ (fun _ => false) _ ino); done]. lia.
  - apply find_first_Some in Ef as [Hin Hd]. destruct (po_files p !! ino) as [f|] eqn:Hf; [|unfold drainable in Hd; by rewrite Hf in Hd].
    destruct (drain_file ora now p ino) as [err p1] eqn:Ed.
    destruct (drain_file_spec _ _ _ _ _ _ _ Hp Hf Ed) as (A & B & D & E & F & G & J).
    destruct (Z.eqb_spec err 0) as [->|Hne]; cbn [negb]; [|exists err, p1; by split_and!].
    destruct (IH p1 A) as (err & p2 & -> & X & Y & Z0 & U & V & K).
    { rewrite D. enough (count (drainable grab p1) (po_list p) < count (drainable grab p) (po_list p))%nat by lia.
      apply (count_lt _ _ _ ino); [|done|done|by apply J]. intros i Hi. destruct (decide (i = ino)) as [->|Hne]; [done|].
      unfold drainable in *. by rewrite <- G, <- E by done. }
    exists err, p2. split_and!; [done|done|by eapply same_contents_trans|congruence|congruence|done|]. by rewrite D in K.
Qed.

(** The pool-wide drain pass, which restarts its search of the inode list after
    every drained file, ends within one round per listed inode for every pattern
    of faults; it changes no file as readers see it, and when it reports success
    every listed file that is still staged is on a tier whose drain is off or
    could not be grabbed. *)
Theorem drain_pass_ends ora now grab p : pool_ok p ->
  exists err p', smoothfs_write_staging_drain_ranges ora now grab p = Some (err, p')
  /\ pool_ok p' /\ same_contents p p' /\ err <= 0
  /\ (err = 0 -> forall ino f, ino ∈ po_list p -> po_files p' !! ino = Some f -> range_staged (pf_rs f) = true ->
      smoothfs_write_staging_drain_tier_active (po_sbi p) (range_staged_source_tier (pf_rs f)) = false \/ grab ino = false).
Proof.
  intros Hp. destruct (drain_pass_spec ora now grab (length (po_list p)) p Hp (count_length _ _))
    as (err & p' & A & B & D & _ & E & F & G).
  exists err, p'. split_and!; [done|done|done|done|]. intros He ino f Hin Hf Hr. specialize (G He ino Hin).
  unfold drainable in G. rewrite Hf, Hr, E in G. cbn in G. by apply andb_false_iff in G.
Qed.

(** Whatever a pass does, the inodes stay as they are. *)
Lemma drain_pass_inodes ora now grab : forall fuel p err p', drain_pass fuel ora now grab p = Some (err, p') ->
  po_list p' = po_list p /\ forall ino, pf_si <$> po_files p' !! ino = pf_si <$> po_files p !! ino.
Proof.
  assert (forall p ino err p', drain_file ora now p ino = (err, p') ->
    po_list p' = po_list p /\ forall j, pf_si <$> po_files p' !! j = pf_si <$> po_files p !! j) as Hd.
  { intros p ino err p'. unfold drain_file. destruct (po_files p !! ino) as [f|] eqn:Ef; [|by intros [= _ <-]].
    destruct (smoothfs_write_staging_drain_one_range ora now (focus p f)) as [e w] eqn:Ed. apply drain_si in Ed.
    intros [= _ <-]. split; [done|]. intros j. cbn [po_files unfocus]. destruct (decide (j = ino)) as [->|Hne].
    - rewrite lookup_insert_eq, Ef. cbn. by rewrite Ed.
    - by rewrite lookup_insert_ne. }
  induction fuel as [|fuel IH]; intros p err p'; cbn [drain_pass];
    (destruct (smoothfs_write_staging_find_drainable_range grab p) as [ino|]; [|by intros [= _ <-]]); [done|].
  destruct (drain_file ora now p ino) as [e p1] eqn:Ed. apply Hd in Ed as [L1 F1].
  case_goal; [by intros [= _ <-]|]. intros [L2 F2]%IH. split; [congruence|]. intros j. by rewrite F2.
Qed.

(** ** A drain that meets no fault *)

(** When no call fails and every transfer moves something, however little, each
    step of a drain succeeds. *)
Section Progress.
Context (ora : oracle) (Hora : smooth_run ora 1).

Lemma write_full_progress : forall fuel buf k f pos, (length buf <= fuel)%nat ->
  exists k' f', write_full_loop fuel ora k f pos buf = (0, k', f').
Proof.
  induction fuel as [|fuel IH]; intros [|b buf] k f pos Hl; cbn [write_full_loop]; try by eexists _, _. { cbn in Hl. lia. }
  pose proof (Hora k) as H1. unfold kernel_write. destruct (Z.ltb_spec (ora k) 0); [lia|]. set (n := Z.min _ _).
  assert (1 <= n) by (unfold n; cbn [length]; lia). destruct (Z.leb_spec n 0); [lia|]. apply IH. rewrite length_drop. cbn [length] in *. lia.
Qed.

Lemma drain_range_progress stage : forall fuel k base pos end_ drained, 0 <= pos -> end_ <= fsize stage -> end_ - pos <= Z.of_nat fuel ->
  exists k' base' drained', drain_range_loop fuel ora k stage base pos end_ drained = (0, k', base', drained').
Proof.
  induction fuel as [|fuel IH]; intros k base pos end_ drained Hp He Hf; cbn [drain_range_loop];
    (destruct (Z.leb_spec end_ pos); [by eexists _, _, _|]); [lia|].
  pose proof (Hora k) as H1. set (want := Z.min _ _). assert (0 < want) by (unfold want, SMOOTHFS_RANGE_READ_CHUNK; lia).
  unfold kernel_read. destruct (Z.ltb_spec (ora k) 0); [lia|].
  assert (0 < fsize (pread stage pos (Z.min (ora k) want))) as Hb by (rewrite length_pread by lia; unfold want in *; lia).
  destruct (pread stage pos _) as [|b l] eqn:Ep; [by vm_compute in Hb|]. rewrite <- Ep in Hb |- *. set (bs := pread _ _ _) in *.
  unfold smoothfs_write_full. destruct (write_full_progress (length bs) bs (S k) base pos) as (k1 & b1 & ->); [lia|]. cbn [negb Z.eqb].
  apply IH; lia.
Qed.

Lemma drain_ranges_progress stage : forall l k base drained, nonempty l -> (forall p, covered p l -> 0 <= p < fsize stage) ->
  exists k' base' drained', drain_ranges_loop ora k stage base l drained = (0, k', base', drained').
Proof.
  induction l as [|r l IH]; intros k base drained Hne Hc; cbn [drain_ranges_loop]; [by eexists _, _, _|].
  apply Forall_cons in Hne as [Hr Hne].
  assert (0 <= r_start r) by (apply Hc, covered_cons; left; unfold in_range; lia).
  assert (r_end r - 1 < fsize stage) by (apply Hc, covered_cons; left; unfold in_range; lia).
  destruct (drain_range_progress stage (Z.to_nat (r_end r - r_start r)) k base (r_start r) (r_end r) drained) as (k1 & b1 & d1 & ->); [lia..|].
  cbn [negb Z.eqb]. apply IH; [done|]. intros p Hp. apply Hc, covered_cons. by right.
Qed.

Lemma sync_base_parents_progress : forall depth k, exists k', smoothfs_sync_base_parents ora k depth = (0, k').
Proof.
  induction depth as [|n IH]; intros k; cbn [smoothfs_sync_base_parents]; [by eexists|].
  pose proof (Hora k). pose proof (Hora (S k)). destruct (Z.ltb_spec (ora k) 0); [lia|]. destruct (Z.ltb_spec (ora (S k)) 0); [lia|]. apply IH.
Qed.

Lemma drain_progress now w : world_ok w -> lower_path (w_si w) <> None ->
  exists w', smoothfs_write_staging_drain_one_range ora now w = (0, w').
Proof.
  intros Hok Hl. unfold smoothfs_write_staging_drain_one_range. destruct (range_staged (w_rs w)) eqn:Es; cbn [negb]; [|by eexists].
  case_goal; [by eexists|]. rewrite (ok_staged w Hok Es), (bool_decide_eq_false_2 _ Hl). cbn [negb orb].
  assert (forall k, (ora k <? 0) = false) as Ho by (intros k; pose proof (Hora k); lia). rewrite !Ho.
  destruct (drain_ranges_progress (stage_file w) (range_staged_ranges (w_rs w)) (w_k w + 3)%nat (w_base w) 0) as (k1 & b1 & d1 & ->);
    [by apply ranges_wf_nonempty, Hok|apply Hok|]. cbn [negb Z.eqb]. rewrite Ho.
  match goal with |- context [let (_, _) := ?x in _] => assert (exists k2, x = (0, k2)) as [k2 ->] end.
  { case_goal; [apply sync_base_parents_progress|by eexists]. }
  cbn [negb Z.eqb]. unfold drain_cleared, smoothfs_range_stage_unlink_path. rewrite Ho.
  match goal with |- context [let (_, _) := ?x in _] => destruct x end. by eexists.
Qed.

(** Every file of the pool has a lower file to drain to. *)
Definition all_lower (p : pool) : Prop := forall ino f, po_files p !! ino = Some f -> lower_path (pf_si f) <> None.

Lemma drain_pass_progress now grab : forall fuel p err p', pool_ok p -> all_lower p ->
  drain_pass fuel ora now grab p = Some (err, p') -> err = 0.
Proof.
  induction fuel as [|fuel IH]; intros p err p' Hp Hl; cbn [drain_pass];
    (destruct (smoothfs_write_staging_find_drainable_range grab p) as [ino|] eqn:Ef; [|by intros [= <- _]]); [done|].
  apply find_first_Some in Ef as [_ Hd]. destruct (po_files p !! ino) as [f|] eqn:Hf; [|unfold drainable in Hd; by rewrite Hf in Hd].
  destruct (drain_file ora now p ino) as [e p1] eqn:Ed. destruct (drain_file_spec _ _ _ _ _ _ _ Hp Hf Ed) as (Hp1 & _).
  unfold drain_file in Ed. rewrite Hf in Ed.
  destruct (drain_progress now (focus p f)) as [w Ew]; [by apply (pk_files p Hp ino)|by apply (Hl ino)|].
  rewrite Ew in Ed. injection Ed as <- <-. cbn [negb Z.eqb]. apply IH; [exact Hp1|]. apply drain_si in Ew. intros j g. cbn [po_files unfocus].
  intros [[<- <-]|[_ Hg]]%lookup_insert_Some; [|by apply (Hl j)]. cbn. rewrite Ew. by apply (Hl ino).
Qed.
End Progress.

(** ** A pool with a staged and a plain file *)

Definition other_inode : inode_info := demo_inode <| i_ino := 8 |> <| oid := replicate 16 9 |> <| i_size := 2 |>.

Definition staged_file : pfile := PFile (w_si staged_world) (w_rs staged_world) (w_base staged_world) false 4 2.
Definition plain_file : pfile := PFile other_inode rstage_init [5; 6] false 4 2.

Definition two_files : pool :=
  Pool (w_k staged_world) stage_pool (w_st staged_world) (w_dir staged_world) [8; 7]
    {[7 := staged_file; 8 := plain_file]}.

Lemma two_files_cases ino f : po_files two_files !! ino = Some f ->
  ino = 7 /\ f = staged_file \/ ino = 8 /\ f = plain_file.
Proof.
  cbn [po_files two_files]. intros [[<- <-]|[_ H]]%lookup_insert_Some; [by left|].
  apply lookup_singleton_Some in H as [<- <-]. by right.
Qed.

Lemma focus_file_of w p ws tier d : po_dir p = w_dir w -> world_ok w ->
  world_ok (focus p (PFile (w_si w) (w_rs w) (w_base w) ws tier d)).
Proof.
  intros Hd Hok. set (w' := focus p _). assert (stage_file w' = stage_file w) as Es.
  { unfold stage_file. change (w_dir w') with (po_dir p). by rewrite Hd. }
  constructor; rewrite ?Es; apply Hok.
Qed.

Lemma two_files_ok : pool_ok two_files.
Proof.
  constructor.
  - intros ino f [[-> ->]|[-> ->]]%two_files_cases; split.
    + apply focus_file_of; [reflexivity|exact staged_world_ok].
    + assert (oid (pf_si staged_file) = demo_oid) as -> by (vm_compute; reflexivity). split; [|done]. unfold bytes_ok, byte_ok. by repeat constructor.
    + constructor; try done. intros q Hq. by apply covered_nil in Hq.
    + split; [|done]. unfold bytes_ok, byte_ok. by repeat constructor.
  - intros i j f g [[-> ->]|[-> ->]]%two_files_cases [[-> ->]|[-> ->]]%two_files_cases Hne;
      [by destruct Hne|vm_compute; done|vm_compute; done|by destruct Hne].
Qed.

Lemma drain_pass_ends_witness :
  exists err p', smoothfs_write_staging_drain_ranges no_faults 6 (fun _ => true) two_files = Some (err, p')
  /\ err = 0 /\ same_contents two_files p' /\ pf_base <$> po_files p' !! 7 = Some [1; 2; 7; 8; 9].
Proof.
  destruct (drain_pass_ends no_faults 6 (fun _ => true) two_files two_files_ok) as (err & p' & H & _ & S & _).
  exists err, p'. split; [exact H|].
  assert (match smoothfs_write_staging_drain_ranges no_faults 6 (fun _ => true) two_files with
          | Some (e, q) => e = 0 /\ pf_base <$> po_files q !! 7 = Some [1; 2; 7; 8; 9]
          | None => False
          end) as Hv by (vm_compute; by split).
  rewrite H in Hv. destruct Hv as [E1 E2]. split; [exact E1|]. split; [exact S|exact E2].
Defined.
