(* ===== verification/Heat.v ===== *)
(** * Heat samples: src/src/smoothfs/heat.c

    A periodic work item drains what is staged, walks the inode list and sends
    the activity of each inode since its last sample, at most
    [SMOOTHFS_HEAT_BATCH_MAX] records per message.  An inode's counters are
    sampled by remembering their last value; the differences wrap at the
    counters' width. *)
From S2P Require Import Prelude Types Tiers KernelIO RangeList RangeMeta Staging Drains.

Definition SMOOTHFS_HEAT_BATCH_MAX : nat := 256.
Definition SMOOTHFS_HEAT_DRAIN_MS : Z := 30000.

(** [struct smoothfs_heat_sample_record] *)
Record heat_sample := HeatSample {
  hs_oid : list Z;
  open_count_delta : Z;
  read_bytes_delta : Z;
  write_bytes_delta : Z;
  hs_last_access_ns : Z;
  sample_window_ns : Z;
}.

(** Its bytes on the wire. *)
Definition heat_record_bytes (r : heat_sample) : list Z :=
  hs_oid r ++ le_split 4 (open_count_delta r) ++ le_split 4 0 ++ le_split 8 (read_bytes_delta r)
  ++ le_split 8 (write_bytes_delta r) ++ le_split 8 (hs_last_access_ns r) ++ le_split 8 (sample_window_ns r).

(** The work item: armed by the timer, or not ([None]); the number is the delay
    in milliseconds. *)
Record heat_work := HeatWork { hw_active : bool; heat_timer : option Z }.

Definition smoothfs_heat_init (h : heat_work) : Z * heat_work := (0, HeatWork true (Some SMOOTHFS_HEAT_DRAIN_MS)).
Definition smoothfs_heat_destroy (h : heat_work) : heat_work := HeatWork false None.
Definition smoothfs_heat_kick_drain (h : heat_work) : heat_work :=
  if hw_active h then HeatWork true (Some 0) else h.

(** Has the inode been used since its last sample? *)
Definition heat_idle (si : inode_info) : bool :=
  (u32 (open_count si) =? last_drained_open_count si) && (read_bytes si =? last_drained_read_bytes si)
  && (write_bytes si =? last_drained_write_bytes si).

Definition heat_record (now : Z) (si : inode_info) : heat_sample :=
  HeatSample (oid si) (u32 (u32 (open_count si) - last_drained_open_count si))
    (u64 (read_bytes si - last_drained_read_bytes si)) (u64 (write_bytes si - last_drained_write_bytes si))
    (last_access_ns si) (u64 (now - last_drain_ns si)).

Definition heat_drained (now : Z) (si : inode_info) : inode_info :=
  si <| last_drained_open_count := u32 (open_count si) |> <| last_drained_read_bytes := read_bytes si |>
     <| last_drained_write_bytes := write_bytes si |> <| last_drain_ns := now |>.

Definition set_inode (p : pool) (ino : Z) (f : pfile) (si : inode_info) : pool :=
  Pool (po_k p) (po_sbi p) (po_st p) (po_dir p) (po_list p)
    (<[ino := PFile si (pf_rs f) (pf_base f) (pf_write_staged f) (pf_drain_tier f) (pf_depth f)]> (po_files p)).

(** [list_for_each_entry] with the break at [max] records. *)
Fixpoint heat_collect_loop (now : Z) (max : nat) (l : list Z) (p : pool) (batch : list heat_sample)
  : list heat_sample * pool :=
  match l with
  | [] => (batch, p)
  | ino :: l =>
      if (max <=? length batch)%nat then (batch, p)
      else match po_files p !! ino with
           | None => heat_collect_loop now max l p batch
           | Some f =>
               if heat_idle (pf_si f) then heat_collect_loop now max l p batch
               else heat_collect_loop now max l (set_inode p ino f (heat_drained now (pf_si f)))
                      (batch ++ [heat_record now (pf_si f)])
           end
  end.

Definition smoothfs_heat_collect (now : Z) (max : nat) (p : pool) : list heat_sample * pool :=
  heat_collect_loop now max (po_list p) p [].

(** No listener is fine. *)
Definition ESRCH : Z := 3.
Definition multicast_send (err : Z) : Z := if err =? - ESRCH then 0 else err.

(** The message with the samples; [goodsize] is [NLMSG_GOODSIZE], [alloc]
    whether the message buffer was allocated, [mcast] what [genlmsg_multicast]
    answers.  An attribute takes 4 bytes and its payload rounded up to 4; the
    headers take 20.  The second result is what the listeners receive. *)
Definition nla_total_size (n : Z) : Z := 4 + (n + 3) / 4 * 4.

Definition smoothfs_netlink_emit_heat_samples (alloc : bool) (goodsize mcast : Z) (blob : list Z) : Z * option (list Z) :=
  let len := fsize blob in
  if len =? 0 then (0, None)
  else
    let need := Z.min (64 * 1024) (goodsize + len) in
    if negb alloc then (- ENOMEM, None)
    else if 20 + nla_total_size 16 + nla_total_size len <=? need
    then (multicast_send mcast, if mcast =? 0 then Some blob else None)
    else (- EMSGSIZE, None).

(** What one run of the work item does: the pool after it, the samples it
    took, the message it sent and the re-armed timer. *)
Definition smoothfs_heat_drain_work_fn (ora : oracle) (now : Z) (grab : Z -> bool) (goodsize mcast : Z) (alloc_batch alloc_msg : bool)
    (h : heat_work) (p : pool) : heat_work * pool * list heat_sample * option (list Z) :=
  if negb (hw_active h) then (h, p, [], None)
  else
    let p := match smoothfs_cache_drain ora now grab p with Some (_, p) => p | None => p end in
    let resched := HeatWork (hw_active h) (Some SMOOTHFS_HEAT_DRAIN_MS) in
    if negb alloc_batch then (resched, p, [], None)
    else
      let (batch, p) := smoothfs_heat_collect now SMOOTHFS_HEAT_BATCH_MAX p in
      let msg := if (0 <? length batch)%nat
                 then snd (smoothfs_netlink_emit_heat_samples alloc_msg goodsize mcast (concat (map heat_record_bytes batch)))
                 else None in
      (resched, p, batch, msg).

(** ** The samples add up *)

(** The sum of one delta over the samples of one object. *)
Definition total (delta : heat_sample -> Z) (o : list Z) (l : list heat_sample) : Z :=
  foldr (fun r a => if decide (hs_oid r = o) then delta r + a else a) 0 l.

Lemma total_app d o l1 l2 : total d o (l1 ++ l2) = total d o l1 + total d o l2.
Proof. unfold total. induction l1 as [|r l1 IH]; cbn; [done|]. rewrite IH. case_decide; lia. Qed.

(** What sampling may do to an inode. *)
Definition sampled (si si' : inode_info) : Prop :=
  oid si' = oid si /\ open_count si' = open_count si /\ read_bytes si' = read_bytes si
  /\ write_bytes si' = write_bytes si.

(** The samples in [l] account for the change of what inode [si] remembers. *)
Definition accounts (l : list heat_sample) (si si' : inode_info) : Prop :=
  u64 (total read_bytes_delta (oid si) l) = u64 (last_drained_read_bytes si' - last_drained_read_bytes si)
  /\ u64 (total write_bytes_delta (oid si) l) = u64 (last_drained_write_bytes si' - last_drained_write_bytes si)
  /\ u32 (total open_count_delta (oid si) l) = u32 (last_drained_open_count si' - last_drained_open_count si).

Definition oids_distinct (p : pool) : Prop := forall i j f g,
  po_files p !! i = Some f -> po_files p !! j = Some g -> oid (pf_si f) = oid (pf_si g) -> i = j.

Lemma mod_shift m a b c d e : 0 < m -> b mod m = (c - a) mod m -> e = a - d -> (e mod m + b) mod m = (c - d) mod m.
Proof. intros Hm H ->. rewrite Zplus_mod_idemp_l, <- Zplus_mod_idemp_r, H, Zplus_mod_idemp_r. f_equal. lia. Qed.

Lemma accounts_cons now si si' l : accounts l (heat_drained now si) si' -> accounts (heat_record now si :: l) si si'.
Proof.
  intros (A & B & D). unfold accounts, total in *. cbn in *. rewrite !decide_True by done.
  split_and!; (eapply mod_shift; [done|eassumption|reflexivity]).
Qed.

Lemma accounts_other r l si si' : hs_oid r <> oid si -> accounts l si si' -> accounts (r :: l) si si'.
Proof. intros H. unfold accounts, total. cbn. by rewrite !decide_False. Qed.

Lemma accounts_nil si : accounts [] si si.
Proof. unfold accounts. cbn. by rewrite !Z.sub_diag. Qed.

Lemma accounts_app l1 l2 si1 si2 si3 : oid si2 = oid si1 -> accounts l1 si1 si2 -> accounts l2 si2 si3 ->
  accounts (l1 ++ l2) si1 si3.
Proof.
  intros Ho (A & B & D) (A' & B' & D'). unfold accounts. rewrite !total_app. rewrite Ho in *. unfold u64, u32 in *.
  split_and!; rewrite Zplus_mod; [rewrite A, A'|rewrite B, B'|rewrite D, D']; rewrite <- Zplus_mod; f_equal; lia.
Qed.

Lemma set_inode_lookup p ino f si j : po_files p !! ino = Some f ->
  pf_si <$> po_files (set_inode p ino f si) !! j = if decide (j = ino) then Some si else pf_si <$> po_files p !! j.
Proof.
  intros Hf. cbn. case_decide as E; [subst; by rewrite lookup_insert_eq|by rewrite lookup_insert_ne].
Qed.

Lemma set_inode_distinct p ino f si : oids_distinct p -> po_files p !! ino = Some f -> oid si = oid (pf_si f) ->
  oids_distinct (set_inode p ino f si).
Proof.
  intros H Hf Ho i j g h. cbn. intros [[<- <-]|[Hi Hg]]%lookup_insert_Some [[<- <-]|[Hj Hh]]%lookup_insert_Some;
    cbn; rewrite ?Ho; eauto.
Qed.

(** The outcome of a walk for one inode. *)
Definition sample_step (new : list heat_sample) (p p' : pool) : Prop :=
  forall ino f, po_files p !! ino = Some f ->
    exists f', po_files p' !! ino = Some f' /\ sampled (pf_si f) (pf_si f') /\ accounts new (pf_si f) (pf_si f').

Lemma sample_step_refl p : sample_step [] p p.
Proof. intros ino f Hf. exists f. split; [done|]. split; [done|apply accounts_nil]. Qed.

Lemma sample_step_cons now p p' ino f new : oids_distinct p -> po_files p !! ino = Some f ->
  sample_step new (set_inode p ino f (heat_drained now (pf_si f))) p' ->
  sample_step (heat_record now (pf_si f) :: new) p p'.
Proof.
  intros Hd Hf H j g Hg. destruct (decide (j = ino)) as [->|Hne].
  - rewrite Hf in Hg. injection Hg as <-. destruct (H ino (PFile (heat_drained now (pf_si f)) (pf_rs f) (pf_base f)
      (pf_write_staged f) (pf_drain_tier f) (pf_depth f))) as (f' & A & B & D); [cbn; by rewrite lookup_insert_eq|].
    exists f'. split; [done|]. split; [exact B|]. by apply accounts_cons with (now := now).
  - destruct (H j g) as (f' & A & B & D); [cbn; by rewrite lookup_insert_ne|]. exists f'. split; [done|]. split; [done|].
    apply accounts_other; [|done]. cbn. intros E. apply Hne. symmetry. by eapply Hd.
Qed.

Lemma collect_spec now max : forall l p batch batch' p', oids_distinct p ->
  heat_collect_loop now max l p batch = (batch', p') ->
  exists new, batch' = batch ++ new /\ sample_step new p p' /\ po_list p' = po_list p
  /\ (length batch <= max -> length batch' <= max)%nat.
Proof.
  induction l as [|ino l IH]; intros p batch batch' p' Hd; cbn [heat_collect_loop].
  { intros [= <- <-]. exists []. rewrite app_nil_r. split_and!; [done|apply sample_step_refl|done|done]. }
  destruct (Nat.leb_spec max (length batch)) as [Hm|Hm].
  { intros [= <- <-]. exists []. rewrite app_nil_r. split_and!; [done|apply sample_step_refl|done|done]. }
  destruct (po_files p !! ino) as [f|] eqn:Hf; [|by apply IH]. destruct (heat_idle (pf_si f)); [by apply IH|].
  intros H. destruct (IH _ _ _ _ (set_inode_distinct p ino f (heat_drained now (pf_si f)) Hd Hf eq_refl) H) as (new & -> & A & B & D).
  exists (heat_record now (pf_si f) :: new). split; [by rewrite <- app_assoc|]. split; [by apply (sample_step_cons now p p' ino)|]. split; [exact B|].
  intros _. apply D. rewrite length_app. cbn. lia.
Qed.

(** A walk that does not fill its batch has seen every listed inode. *)
Lemma idle_drained now si : heat_idle (heat_drained now si) = true.
Proof. unfold heat_idle. cbn. by rewrite !Z.eqb_refl. Qed.

Definition idle_at (p : pool) (ino : Z) : Prop :=
  forall f, po_files p !! ino = Some f -> heat_idle (pf_si f) = true.

Lemma collect_complete now max : forall l p batch batch' p',
  heat_collect_loop now max l p batch = (batch', p') -> (length batch' < max)%nat ->
  (forall ino, idle_at p ino -> idle_at p' ino) /\ (forall ino, ino ∈ l -> idle_at p' ino).
Proof.
  induction l as [|ino l IH]; intros p batch batch' p'; cbn [heat_collect_loop].
  { intros [= <- <-] _. split; [done|]. intros ino H. by apply elem_of_nil in H. }
  destruct (Nat.leb_spec max (length batch)) as [Hm|Hm]; [intros [= <- <-]; lia|].
  assert (forall p1 batch1, heat_collect_loop now max l p1 batch1 = (batch', p') -> (length batch' < max)%nat ->
    (forall j, idle_at p j -> idle_at p1 j) -> idle_at p1 ino ->
    (forall j, idle_at p j -> idle_at p' j) /\ (forall j, j ∈ ino :: l -> idle_at p' j)) as Hgo.
  { intros p1 b1 H Hl Hk Hi. destruct (IH _ _ _ _ H Hl) as [A B]. split; [intros j Hj; by apply A, Hk|].
    intros j [->|Hj]%elem_of_cons; [by apply A|by apply B]. }
  destruct (po_files p !! ino) as [f|] eqn:Hf;
    [|intros H Hl; apply (Hgo p batch); [done|done|done|intros g Hg; congruence]].
  destruct (heat_idle (pf_si f)) eqn:Hi; [intros H Hl; apply (Hgo p batch); [done|done|done|intros g Hg; congruence]|].
  intros H Hl. apply (Hgo _ _ H Hl).
  - intros j Hj g. cbn. intros [[_ <-]|[_ Hg]]%lookup_insert_Some; [apply idle_drained|by apply Hj].
  - intros g. cbn. rewrite lookup_insert_eq. intros [= <-]. apply idle_drained.
Qed.

(** ** Runs of the work item *)

(** The inodes are used, or the work item runs. *)
Inductive heat_event :=
| HE_use (ino : Z) (use : inode_info -> inode_info)
| HE_work (ora : oracle) (now : Z) (grab : Z -> bool) (goodsize mcast : Z) (alloc_batch alloc_msg : bool).

(** Use changes the counters, not what was sampled. *)
Definition use_ok (e : heat_event) : Prop :=
  match e with
  | HE_use _ use => forall si, oid (use si) = oid si
      /\ last_drained_read_bytes (use si) = last_drained_read_bytes si
      /\ last_drained_write_bytes (use si) = last_drained_write_bytes si
      /\ last_drained_open_count (use si) = last_drained_open_count si
  | HE_work _ _ _ _ _ _ _ => True
  end.

Definition heat_step (s : heat_work * pool * list heat_sample) (e : heat_event) : heat_work * pool * list heat_sample :=
  let '(h, p, out) := s in
  match e with
  | HE_use ino use =>
      match po_files p !! ino with
      | Some f => (h, set_inode p ino f (use (pf_si f)), out)
      | None => s
      end
  | HE_work ora now grab goodsize mcast alloc_batch alloc_msg =>
      let '(h, p, batch, _) := smoothfs_heat_drain_work_fn ora now grab goodsize mcast alloc_batch alloc_msg h p in
      (h, p, out ++ batch)
  end.

Definition heat_run (s : heat_work * pool * list heat_sample) (l : list heat_event) := foldl heat_step s l.

(** The samples [new] account for what happened between [p] and [p']. *)
Definition tracked (new : list heat_sample) (p p' : pool) : Prop :=
  (forall ino f, po_files p !! ino = Some f ->
    exists f', po_files p' !! ino = Some f' /\ oid (pf_si f') = oid (pf_si f) /\ accounts new (pf_si f) (pf_si f'))
  /\ (forall ino f', po_files p' !! ino = Some f' -> is_Some (po_files p !! ino)).

Lemma tracked_distinct new p p' : tracked new p p' -> oids_distinct p -> oids_distinct p'.
Proof.
  intros [H Hdom] Hd i j f g Hf Hg E. destruct (Hdom _ _ Hf) as [f0 Hf0]. destruct (Hdom _ _ Hg) as [g0 Hg0].
  destruct (H _ _ Hf0) as (f1 & F1 & F2 & _). destruct (H _ _ Hg0) as (g1 & G1 & G2 & _).
  eapply Hd; [exact Hf0|exact Hg0|]. congruence.
Qed.

Lemma tracked_trans n1 n2 p1 p2 p3 : tracked n1 p1 p2 -> tracked n2 p2 p3 -> tracked (n1 ++ n2) p1 p3.
Proof.
  intros [A A'] [B B']. split.
  - intros ino f Hf. destruct (A _ _ Hf) as (f2 & F2 & O2 & S2). destruct (B _ _ F2) as (f3 & F3 & O3 & S3).
    exists f3. split; [done|]. split; [congruence|by eapply accounts_app].
  - intros ino f Hf. destruct (B' _ _ Hf) as [f2 Hf2]. by apply (A' ino f2).
Qed.

(** A change of the pool that leaves ids and samples alone. *)
Lemma tracked_same p p' : (forall ino, po_files p' !! ino = None <-> po_files p !! ino = None) ->
  (forall ino f f', po_files p !! ino = Some f -> po_files p' !! ino = Some f' -> oid (pf_si f') = oid (pf_si f)
    /\ last_drained_read_bytes (pf_si f') = last_drained_read_bytes (pf_si f)
    /\ last_drained_write_bytes (pf_si f') = last_drained_write_bytes (pf_si f)
    /\ last_drained_open_count (pf_si f') = last_drained_open_count (pf_si f)) -> tracked [] p p'.
Proof.
  intros Hdom H. split.
  - intros ino f Hf. destruct (po_files p' !! ino) as [f'|] eqn:Hf'; [|apply Hdom in Hf'; congruence].
    destruct (H _ _ _ Hf Hf') as (A & B & D & E). exists f'. split; [done|]. split; [done|].
    unfold accounts. rewrite B, D, E, !Z.sub_diag. done.
  - intros ino f' Hf'. destruct (po_files p !! ino) eqn:Hf; [by eexists|]. apply Hdom in Hf. congruence.
Qed.

Lemma collect_dom now max : forall l p batch batch' p' ino, heat_collect_loop now max l p batch = (batch', p') ->
  is_Some (po_files p' !! ino) -> is_Some (po_files p !! ino).
Proof.
  induction l as [|i l IH]; intros p batch batch' p' ino; cbn [heat_collect_loop]; [by intros [= _ <-]|].
  case_goal; [by intros [= _ <-]|]. destruct (po_files p !! i) as [f|] eqn:Hf; [|by apply IH].
  case_goal; [by apply IH|]. intros H Hs. apply (IH _ _ _ _ _ H) in Hs. revert Hs. cbn.
  destruct (decide (ino = i)) as [->|Hne]; [by rewrite Hf|by rewrite lookup_insert_ne].
Qed.

Lemma cache_drain_tracked ora now grab p : tracked [] p (match smoothfs_cache_drain ora now grab p with Some (_, p) => p | None => p end)
  /\ po_list (match smoothfs_cache_drain ora now grab p with Some (_, p) => p | None => p end) = po_list p.
Proof.
  assert (tracked [] p p) as Hr by (by apply tracked_same; [|intros ino f f' -> [= <-]]).
  unfold smoothfs_cache_drain. case_goal; [by split|]. unfold smoothfs_write_staging_drain_ranges.
  destruct (drain_pass _ _ _ _ _) as [[e p']|] eqn:Ed; [|by split]. apply drain_pass_inodes in Ed as [L H]. split; [|done].
  apply tracked_same.
  - intros ino. specialize (H ino). destruct (po_files p' !! ino), (po_files p !! ino); naive_solver.
  - intros ino f f' Hf Hf'. specialize (H ino). rewrite Hf, Hf' in H. injection H as ->. done.
Qed.

Lemma work_spec ora now grab goodsize mcast ab am h p h' p' batch msg : oids_distinct p ->
  smoothfs_heat_drain_work_fn ora now grab goodsize mcast ab am h p = (h', p', batch, msg) ->
  tracked batch p p' /\ (length batch <= SMOOTHFS_HEAT_BATCH_MAX)%nat
  /\ (hw_active h = true -> h' = HeatWork true (Some SMOOTHFS_HEAT_DRAIN_MS)
      /\ (ab = true -> (length batch < SMOOTHFS_HEAT_BATCH_MAX)%nat -> forall ino, ino ∈ po_list p -> idle_at p' ino)).
Proof.
  intros Hd. unfold smoothfs_heat_drain_work_fn. destruct (cache_drain_tracked ora now grab p) as [T L].
  destruct (hw_active h) eqn:Eh; cbn [negb];
    [|intros [= <- <- <- _]; split_and!; [by apply tracked_same; [|intros ino f f' -> [= <-]]|unfold SMOOTHFS_HEAT_BATCH_MAX; cbn; lia|done]].
  set (p1 := match smoothfs_cache_drain ora now grab p with Some (_, p) => p | None => p end) in *. clearbody p1.
  destruct ab; cbn [negb]; [|intros [= <- <- <- _]; split_and!; [done|unfold SMOOTHFS_HEAT_BATCH_MAX; cbn; lia|done]].
  unfold smoothfs_heat_collect. destruct (heat_collect_loop _ _ _ _ _) as [b p2] eqn:Ec. intros [= <- <- <- _].
  destruct (collect_spec _ _ _ _ _ _ _ (tracked_distinct _ _ _ T Hd) Ec) as (new & -> & S & L2 & N). cbn [app] in *.
  split; [|split; [apply N; cbn; lia|]].
  - apply (tracked_trans [] new p p1 p2 T). split.
    + intros ino f Hf. destruct (S _ _ Hf) as (f' & A & (B & _) & D). exists f'. by split_and!.
    + intros ino f' Hf'. eapply (collect_dom _ _ _ _ _ _ _ _ Ec). by exists f'.
  - intros _. split; [done|]. intros _ Hl ino Hin. rewrite <- L in Hin. by eapply collect_complete.
Qed.

(** Over any run of I/O and heat work items on a pool with distinct object ids,
    the samples collected for an object add up, at the width of the counters, to
    the growth of its drained counters over the run: no byte is reported twice
    and none is lost between two samples. *)
Theorem heat_samples_add_up h p l h' p' out : oids_distinct p -> Forall use_ok l ->
  heat_run (h, p, []) l = (h', p', out) ->
  forall ino f, po_files p !! ino = Some f ->
    exists f', po_files p' !! ino = Some f' /\ oid (pf_si f') = oid (pf_si f) /\ accounts out (pf_si f) (pf_si f').
Proof.
  intros Hd Hl H. enough (tracked out p p') as [T _] by exact T.
  assert (forall h0 p0 out0, oids_distinct p0 -> forall h1 p1 out1, heat_run (h0, p0, out0) l = (h1, p1, out1) ->
    exists new, out1 = out0 ++ new /\ tracked new p0 p1) as Hgen.
  { clear -Hl. induction Hl as [|e l He _ IH]; intros h0 p0 out0 Hd h1 p1 out1 H; cbn [heat_run foldl] in H.
    { injection H as <- <- <-. exists []. rewrite app_nil_r. split; [done|]. by apply tracked_same; [|intros ino f f' -> [= <-]]. }
    assert (exists h2 p2 new, heat_step (h0, p0, out0) e = (h2, p2, out0 ++ new) /\ tracked new p0 p2) as (h2 & p2 & n2 & E2 & T2).
    { destruct e as [ino use|ora now grab gs mc ab am]; cbn [heat_step].
      - destruct (po_files p0 !! ino) as [f|] eqn:Hf.
        + exists h0, (set_inode p0 ino f (use (pf_si f))), []. rewrite app_nil_r. split; [done|]. apply tracked_same.
          * intros j. cbn. rewrite lookup_insert_None. split; [by intros [? _]|]. intros E. split; [done|]. intros ->. congruence.
          * intros j g g' Hg. cbn. intros [[-> <-]|[_ Hg']]%lookup_insert_Some; [|by simplify_eq].
            rewrite Hf in Hg. injection Hg as <-. apply He.
        + exists h0, p0, []. rewrite app_nil_r. split; [done|]. by apply tracked_same; [|intros j g g' -> [= <-]].
      - destruct (smoothfs_heat_drain_work_fn _ _ _ _ _ _ _ _ _) as [[[h2 p2] b] m] eqn:Ew.
        apply work_spec in Ew as [T _]; [|done]. by exists h2, p2, b. }
    rewrite E2 in H. destruct (IH h2 p2 (out0 ++ n2) (tracked_distinct _ _ _ T2 Hd) h1 p1 out1 H) as (n3 & -> & T3).
    exists (n2 ++ n3). split; [by rewrite app_assoc|]. by eapply tracked_trans. }
  destruct (Hgen h p [] Hd h' p' out H) as (new & -> & T). exact T.
Qed.

(** ** Every batch fits its message *)

Definition oids_16 (p : pool) : Prop := forall ino f, po_files p !! ino = Some f -> length (oid (pf_si f)) = SMOOTHFS_OID_LEN.

Lemma collect_oids now max : forall l p batch batch' p', oids_16 p ->
  Forall (fun r => length (hs_oid r) = SMOOTHFS_OID_LEN) batch ->
  heat_collect_loop now max l p batch = (batch', p') -> Forall (fun r => length (hs_oid r) = SMOOTHFS_OID_LEN) batch'.
Proof.
  induction l as [|i l IH]; intros p batch batch' p' Hp Hb; cbn [heat_collect_loop]; [by intros [= <- _]|].
  case_goal; [by intros [= <- _]|]. destruct (po_files p !! i) as [f|] eqn:Hf; [|by apply IH].
  case_goal; [by apply IH|]. apply IH.
  - intros j g. cbn. intros [[-> <-]|[_ Hg]]%lookup_insert_Some; [by apply (Hp _ _ Hf)|by eapply Hp].
  - apply Forall_app. split; [done|]. constructor; [by apply (Hp _ _ Hf)|done].
Qed.

Lemma length_blob batch : Forall (fun r => length (hs_oid r) = SMOOTHFS_OID_LEN) batch ->
  fsize (concat (map heat_record_bytes batch)) = 56 * Z.of_nat (length batch).
Proof.
  induction 1 as [|r l Hr _ IH]; [done|]. cbn [map concat]. unfold fsize in *. rewrite length_app, Nat2Z.inj_add, IH.
  unfold heat_record_bytes. rewrite !length_app, !length_le_split, Hr. unfold SMOOTHFS_OID_LEN. cbn [length]. lia.
Qed.

Lemma emit_fits goodsize blob n : 44 <= goodsize <= 64 * 1024 - 56 * 256 -> (0 < n <= 256)%nat -> fsize blob = 56 * Z.of_nat n ->
  smoothfs_netlink_emit_heat_samples true goodsize 0 blob = (0, Some blob).
Proof.
  intros Hg Hn Hb. unfold smoothfs_netlink_emit_heat_samples, nla_total_size. rewrite Hb.
  rewrite (proj2 (Z.eqb_neq _ _)) by lia. cbn [negb].
  assert (20 + (4 + (16 + 3) / 4 * 4) + (4 + (56 * Z.of_nat n + 3) / 4 * 4) <= Z.min (64 * 1024) (goodsize + 56 * Z.of_nat n)) as H.
  { rewrite Z.min_r by lia. change ((16 + 3) / 4 * 4) with 16.
    replace (56 * Z.of_nat n + 3) with (3 + (14 * Z.of_nat n) * 4) by lia. rewrite Z.div_add by lia. change (3 / 4) with 0. lia. }
  by rewrite (proj2 (Z.leb_le _ _) H).
Qed.

(** C20. A work item collects at most 256 samples, their encoding is 56 bytes
    each and fits the netlink message, which is sent whole; when fewer were
    collected, every listed inode has been sampled; the work re-arms itself. *)
Theorem heat_batch_fits_its_message ora now grab goodsize p h h' p' batch msg :
  oids_distinct p -> oids_16 p -> 44 <= goodsize <= 64 * 1024 - 56 * 256 -> hw_active h = true ->
  smoothfs_heat_drain_work_fn ora now grab goodsize 0 true true h p = (h', p', batch, msg) ->
  (length batch <= SMOOTHFS_HEAT_BATCH_MAX)%nat
  /\ h' = HeatWork true (Some SMOOTHFS_HEAT_DRAIN_MS)
  /\ msg = (if (0 <? length batch)%nat then Some (concat (map heat_record_bytes batch)) else None)
  /\ fsize (concat (map heat_record_bytes batch)) = 56 * Z.of_nat (length batch)
  /\ ((length batch < SMOOTHFS_HEAT_BATCH_MAX)%nat -> forall ino, ino ∈ po_list p -> idle_at p' ino).
Proof.
  intros Hd H16 Hg Ha H. destruct (work_spec _ _ _ _ _ _ _ _ _ _ _ _ _ Hd H) as (_ & Hn & Hw).
  destruct (Hw Ha) as [-> Hidle]. split; [exact Hn|]. split; [done|].
  revert H. unfold smoothfs_heat_drain_work_fn. rewrite Ha. cbn [negb].
  destruct (cache_drain_tracked ora now grab p) as [[T T'] _].
  set (p1 := match smoothfs_cache_drain ora now grab p with Some (_, p) => p | None => p end) in *.
  assert (oids_16 p1) as H1.
  { intros ino f Hf. destruct (T' _ _ Hf) as [f0 Hf0]. destruct (T _ _ Hf0) as (f1 & F1 & O1 & _).
    rewrite Hf in F1. injection F1 as <-. rewrite O1. by eapply H16. }
  unfold smoothfs_heat_collect. destruct (heat_collect_loop _ _ _ _ _) as [b p2] eqn:Ec. intros [= _ <- <-].
  assert (fsize (concat (map heat_record_bytes b)) = 56 * Z.of_nat (length b)) as Hb
    by (by apply length_blob; eapply (collect_oids _ _ _ _ [] _ _ H1)).
  split; [|split; [exact Hb|by apply Hidle]].
  destruct (Nat.ltb_spec 0 (length b)); [|done]. by rewrite (emit_fits goodsize _ (length b)).
Qed.

(** ** A concrete pass *)

Definition used_pool : pool :=
  set_inode two_files 8 plain_file (other_inode <| read_bytes := 100 |> <| open_count := 1 |>).

Lemma used_pool_cases ino f : po_files used_pool !! ino = Some f ->
  ino = 7 /\ f = staged_file \/ ino = 8 /\ oid (pf_si f) = replicate 16 9.
Proof.
  cbn [po_files used_pool set_inode]. intros [[<- <-]|[Hne H]]%lookup_insert_Some; [by right|].
  apply two_files_cases in H as [H|[-> _]]; [by left|by destruct Hne].
Qed.

Lemma staged_file_oid : oid (pf_si staged_file) = demo_oid.
Proof. vm_compute. reflexivity. Qed.

Lemma used_pool_ids : oids_distinct used_pool /\ oids_16 used_pool.
Proof.
  split.
  - intros i j f g [[-> ->]|[-> Hf]]%used_pool_cases [[-> ->]|[-> Hg]]%used_pool_cases;
      rewrite ?staged_file_oid, ?Hf, ?Hg; intros E; [reflexivity|discriminate E|discriminate E|reflexivity].
  - intros i f [[-> ->]|[-> ->]]%used_pool_cases; [by rewrite staged_file_oid|done].
Qed.

Lemma heat_batch_fits_its_message_witness :
  let '(h, _, batch, msg) :=
    smoothfs_heat_drain_work_fn no_faults 50 (fun _ => true) 3700 0 true true (HeatWork true None) used_pool in
  length batch = 1%nat /\ h = HeatWork true (Some SMOOTHFS_HEAT_DRAIN_MS) /\ option_map fsize msg = Some 56.
Proof.
  assert (length (snd (fst (smoothfs_heat_drain_work_fn no_faults 50 (fun _ => true) 3700 0 true true
    (HeatWork true None) used_pool))) = 1%nat) as Hl by (vm_compute; reflexivity).
  destruct (smoothfs_heat_drain_work_fn no_faults 50 (fun _ => true) 3700 0 true true (HeatWork true None) used_pool)
    as [[[h p] b] m] eqn:E. cbn [fst snd] in Hl.
  destruct (heat_batch_fits_its_message no_faults 50 (fun _ => true) 3700 used_pool (HeatWork true None) h p b m
    (proj1 used_pool_ids) (proj2 used_pool_ids) ltac:(lia) eq_refl E) as (_ & -> & -> & Hb & _).
  rewrite Hl in *. split; [reflexivity|]. split; [reflexivity|]. cbn [Nat.ltb Nat.leb option_map]. rewrite Hb. reflexivity.
Defined.

Definition heat_history : list heat_event :=
  [HE_use 8 (fun si => si <| read_bytes := read_bytes si + 40 |>);
   HE_work no_faults 50 (fun _ => true) 3700 0 true true;
   HE_use 8 (fun si => si <| read_bytes := read_bytes si + 2 |>);
   HE_work no_faults 60 (fun _ => true) 3700 0 true true].

Lemma heat_samples_add_up_witness :
  let '(_, p', out) := heat_run (HeatWork true None, used_pool, []) heat_history in
  total read_bytes_delta (replicate 16 9) out = 142
  /\ exists f', po_files p' !! 8 = Some f' /\ u64 (total read_bytes_delta (replicate 16 9) out) = u64 (last_drained_read_bytes (pf_si f')).
Proof.
  assert (total read_bytes_delta (replicate 16 9) (snd (heat_run (HeatWork true None, used_pool, []) heat_history)) = 142) as Ht
    by (vm_compute; reflexivity).
  assert (Forall use_ok heat_history) as Hu by (repeat constructor).
  destruct (heat_run (HeatWork true None, used_pool, []) heat_history) as [[h p'] out] eqn:E. cbn [snd] in Ht.
  split; [exact Ht|].
  destruct (heat_samples_add_up (HeatWork true None) used_pool heat_history h p' out (proj1 used_pool_ids) Hu E 8
    (PFile (other_inode <| read_bytes := 100 |> <| open_count := 1 |>) rstage_init [5; 6] false 4 2) eq_refl)
    as (f' & F & _ & (A & _)).
  exists f'. split; [exact F|]. cbn in A. rewrite Z.sub_0_r in A. exact A.
Defined.

(** The samples of a pass whose message cannot be sent are gone: the inode
    counts as sampled. *)
Example failed_message_loses_samples :
  let '(_, p', batch, msg) :=
    smoothfs_heat_drain_work_fn no_faults 50 (fun _ => true) 3700 0 true false (HeatWork true None) used_pool in
  length batch = 1%nat /\ msg = None
  /\ snd (fst (smoothfs_heat_drain_work_fn no_faults 60 (fun _ => true) 3700 0 true true (HeatWork true None) p')) = [].
Proof. vm_compute. by repeat split. Qed.
