(* ===== verification/PlacementLog.v ===== *)
(** * The placement log: src/src/smoothfs/placement.c, log half

    An append-only file of 64-byte records on the fastest tier.  Records are
    queued in memory ([smoothfs_placement_record]) and appended by a worker;
    at mount the log is read back into one record per object, each normalized
    so that no object stays in the middle of a move. *)
From stdpp Require Import sorting.
From S2P Require Import Prelude Types KernelIO.
Set Warnings "-clear-no-such-hyp".

Definition SMOOTHFS_PLACEMENT_MAGIC : Z := 0x534D46504C4F470A.
Definition SMOOTHFS_PLACEMENT_REC_SIZE : Z := 64.
Definition SMOOTHFS_PLACEMENT_WB_HIGH_WATER : Z := 8192.

(** ** Appending *)

Definition encode_record (seq : Z) (oid : list Z) (movement_state current_tier intended_tier now : Z)
  : list Z :=
  le_split 8 SMOOTHFS_PLACEMENT_MAGIC ++ le_split 8 (u64 seq) ++ oid
  ++ [u8 movement_state; u8 current_tier; u8 intended_tier; pin_code PIN_NONE]
  ++ le_split 4 0 ++ le_split 8 (u64 now) ++ replicate 16 0.

(** [alloc]: the entry could be allocated.  Returns 0 in every case, the pool,
    and whether the worker is kicked at once. *)
Definition smoothfs_placement_record (alloc : bool) (now : Z) (sbi : sb_info) (oid : list Z)
    (s : movement_state) (current_tier intended_tier : Z) (sync : bool) : Z * sb_info * bool :=
  if negb (placement_wb_ready sbi) then (0, sbi, false)
  else if negb alloc then (0, sbi, false)
  else
    let seq := u64 (placement_seq sbi + 1) in
    let r := encode_record seq oid (ms_code s) current_tier intended_tier now in
    let sbi := sbi <| placement_seq := seq |>
                   <| placement_wb_pending := placement_wb_pending sbi ++ [r] |> in
    (0, sbi, sync || (SMOOTHFS_PLACEMENT_WB_HIGH_WATER <=? Z.of_nat (length (placement_wb_pending sbi)))).

(** The worker writes the batch; the log is open with [O_APPEND].  A failed or
    short write is only reported. *)
Fixpoint wb_write_all (ora : oracle) (k : nat) (log : list Z) (batch : list (list Z)) : nat * list Z :=
  match batch with
  | [] => (k, log)
  | r :: batch =>
      let (_, log) := kernel_write ora k log (fsize log) r in
      wb_write_all ora (S k) log batch
  end.

Definition smoothfs_placement_wb_worker (ora : oracle) (k : nat) (sbi : sb_info) : nat * sb_info :=
  let local := placement_wb_pending sbi in
  let sbi := sbi <| placement_wb_pending := [] |> in
  match placement_log sbi with
  | None => (k, sbi)
  | Some log =>
      let (k, log) := wb_write_all ora k log local in
      (k, sbi <| placement_log := Some log |>)
  end.

(** [wq]: the workqueue could be allocated. *)
Definition smoothfs_placement_wb_init (wq : bool) (sbi : sb_info) : Z * sb_info :=
  let sbi := sbi <| placement_wb_pending := [] |> in
  if negb wq then (- ENOMEM, sbi) else (0, sbi <| placement_wb_ready := true |>).

(** Kick and flush: the worker has run when this returns. *)
Definition smoothfs_placement_wb_drain (ora : oracle) (k : nat) (sbi : sb_info) : nat * sb_info :=
  if negb (placement_wb_ready sbi) then (k, sbi) else smoothfs_placement_wb_worker ora k sbi.

Definition smoothfs_placement_wb_destroy (ora : oracle) (k : nat) (sbi : sb_info) : nat * sb_info :=
  if negb (placement_wb_ready sbi) then (k, sbi)
  else smoothfs_placement_wb_worker ora k (sbi <| placement_wb_ready := false |>).

(** The contents of the closed log, and the pool without it. *)
Definition smoothfs_placement_close (ora : oracle) (k : nat) (sbi : sb_info)
  : nat * sb_info * option (list Z) :=
  match placement_log sbi with
  | None => (k, sbi, None)
  | Some _ =>
      let (k, sbi) := smoothfs_placement_wb_drain ora k sbi in
      (S k, sbi <| placement_log := None |>, placement_log sbi)
  end.

(** [disk] is the log file found at mount, if any.  [ensure_dir] (lookup and
    mkdir), the path buffer, [kern_path] and the open may fail. *)
Definition smoothfs_placement_open (ora : oracle) (k : nat) (disk : option (list Z)) (sbi : sb_info)
  : Z * sb_info :=
  if ora k <? 0 then (ora k, sbi)
  else if ora (k + 1)%nat <? 0 then (- ENOMEM, sbi)
  else
    let found := if ora (k + 2)%nat <? 0 then ora (k + 2)%nat
                 else match disk with Some _ => 0 | None => - ENOENT end in
    if negb (found =? 0) && negb (found =? - ENOENT) then (found, sbi)
    else if ora (k + 3)%nat <? 0 then (ora (k + 3)%nat, sbi)
    else
      let f := default [] disk in
      (0, sbi <| placement_log := Some f |>
              <| placement_seq := fsize f / SMOOTHFS_PLACEMENT_REC_SIZE |>).

(** ** Reading back *)

(** [struct smoothfs_replay_record]; the three [u8] states stay raw codes. *)
Record replay_record := ReplayRecord {
  rr_oid : list Z;
  rr_movement_state : Z;
  rr_current_tier : Z;
  rr_intended_tier : Z;
  rr_pin_state : Z;
  rr_gen : Z;
  rr_seq : Z;
  authoritative_tier : Z;
  normalized_state : Z;
  normalized : bool;
  fallback_tier : Z;
  fallback_rel_path : option string;
  fallback_gen : Z;
  chosen_tier : Z;
  chosen_rel_path : option string;
  chosen_gen : Z;
}.
#[export] Instance replay_record_eta : Eta replay_record := fun r =>
  ReplayRecord (rr_oid r) (rr_movement_state r) (rr_current_tier r) (rr_intended_tier r)
    (rr_pin_state r) (rr_gen r) (rr_seq r) (authoritative_tier r) (normalized_state r)
    (normalized r) (fallback_tier r) (fallback_rel_path r) (fallback_gen r)
    (chosen_tier r) (chosen_rel_path r) (chosen_gen r).

(** The hash index finds the record of an OID; the list keeps creation order. *)
Definition smoothfs_replay_find (records : list replay_record) (oid : list Z) : option replay_record :=
  snd <$> list_find (fun r => rr_oid r = oid) records.

Definition new_record (oid : list Z) : replay_record :=
  ReplayRecord oid 0 0 0 0 0 0 U8_MAX 0 false U8_MAX None 0 U8_MAX None 0.

(** [None]: out of memory. *)
Definition smoothfs_replay_get_or_create (alloc : bool) (records : list replay_record) (oid : list Z)
  : option (replay_record * list replay_record) :=
  match smoothfs_replay_find records oid with
  | Some r => Some (r, records)
  | None => if negb alloc then None else Some (new_record oid, records ++ [new_record oid])
  end.

(** Store a record back where its OID is. *)
Fixpoint update_record (rec : replay_record) (records : list replay_record) : list replay_record :=
  match records with
  | [] => []
  | r :: rs => if bytes_eqb (rr_oid r) (rr_oid rec) then rec :: rs else r :: update_record rec rs
  end.

Definition smoothfs_replay_normalize (rec : replay_record) : replay_record :=
  let rec := rec <| normalized := false |> <| normalized_state := rr_movement_state rec |>
                 <| authoritative_tier := rr_current_tier rec |> in
  match ms_of_code (rr_movement_state rec) with
  | MS_PLAN_ACCEPTED | MS_DESTINATION_RESERVED | MS_COPY_IN_PROGRESS
  | MS_COPY_COMPLETE | MS_COPY_VERIFIED =>
      rec <| normalized := true |> <| normalized_state := ms_code MS_PLACED |>
          <| authoritative_tier := rr_current_tier rec |>
  | MS_CUTOVER_IN_PROGRESS | MS_SWITCHED | MS_CLEANUP_IN_PROGRESS =>
      rec <| normalized := true |> <| normalized_state := ms_code MS_PLACED |>
          <| authoritative_tier := rr_intended_tier rec |>
  | _ => rec
  end.

(** One record's bytes applied to the table; [None]: out of memory. *)
Definition apply_log_record (alloc : bool) (buf : list Z) (records : list replay_record)
  : option (list replay_record) :=
  let seq := le_combine (slice 8 8 buf) in
  let oid := slice 16 16 buf in
  match smoothfs_replay_get_or_create alloc records oid with
  | None => None
  | Some (rec, records) =>
      if seq <? rr_seq rec then Some records
      else
        let rec := rec <| rr_seq := seq |>
                       <| rr_movement_state := default 0 (buf !! 32%nat) |>
                       <| rr_current_tier := default 0 (buf !! 33%nat) |>
                       <| rr_intended_tier := default 0 (buf !! 34%nat) |>
                       <| rr_pin_state := default 0 (buf !! 35%nat) |>
                       <| rr_gen := le_combine (slice 36 4 buf) |> in
        Some (update_record (smoothfs_replay_normalize rec) records)
  end.

(** The read loop; every round but the last consumes 64 bytes, so the number
    of records plus one is enough fuel. *)
Fixpoint load_log_loop (fuel : nat) (ora : oracle) (k : nat) (log : list Z) (pos : Z)
    (records : list replay_record) : Z * list replay_record :=
  match fuel with
  | O => (- EIO, records)
  | S fuel =>
      match kernel_read ora k log pos SMOOTHFS_PLACEMENT_REC_SIZE with
      | Err e => (e, records)
      | Ok [] => (0, records)
      | Ok buf =>
          if negb (fsize buf =? SMOOTHFS_PLACEMENT_REC_SIZE) then (- EIO, records)
          else if negb (le_combine (slice 0 8 buf) =? SMOOTHFS_PLACEMENT_MAGIC) then (- EINVAL, records)
          else match apply_log_record (0 <=? ora (S k)) buf records with
               | None => (- ENOMEM, records)
               | Some records =>
                   load_log_loop fuel ora (S (S k)) log (pos + SMOOTHFS_PLACEMENT_REC_SIZE) records
               end
      end
  end.

Definition smoothfs_replay_load_log (ora : oracle) (k : nat) (log : list Z)
    (records : list replay_record) : Z * list replay_record :=
  load_log_loop (S (length log)) ora k log 0 records.

(** ** Log entries *)

Record log_entry := LogEntry {
  le_seq : Z; le_oid : list Z; le_state : Z; le_current : Z; le_intended : Z; le_now : Z }.

Definition enc (e : log_entry) : list Z :=
  encode_record (le_seq e) (le_oid e) (le_state e) (le_current e) (le_intended e) (le_now e).

Definition log_bytes (es : list log_entry) : list Z := concat (map enc es).

Definition entry_ok (e : log_entry) : Prop :=
  0 <= le_seq e < 2 ^ 64 /\ length (le_oid e) = SMOOTHFS_OID_LEN
  /\ byte_ok (le_state e) /\ byte_ok (le_current e) /\ byte_ok (le_intended e).

(** What the log says about an entry's object. *)
Definition record_of (e : log_entry) : replay_record :=
  smoothfs_replay_normalize
    (new_record (le_oid e)
       <| rr_seq := le_seq e |> <| rr_movement_state := le_state e |>
       <| rr_current_tier := le_current e |> <| rr_intended_tier := le_intended e |>
       <| rr_pin_state := pin_code PIN_NONE |> <| rr_gen := 0 |>).

Definition latest (es : list log_entry) (oid : list Z) : option log_entry :=
  last (filter (fun e => le_oid e = oid) es).

Lemma length_enc e : entry_ok e -> length (enc e) = 64%nat.
Proof.
  intros (_ & Hl & _). unfold enc, encode_record.
  rewrite !length_app, !length_le_split, Hl, length_replicate. reflexivity.
Qed.

Lemma enc_decode e :
  entry_ok e ->
  le_combine (slice 0 8 (enc e)) = SMOOTHFS_PLACEMENT_MAGIC
  /\ le_combine (slice 8 8 (enc e)) = le_seq e
  /\ slice 16 16 (enc e) = le_oid e
  /\ enc e !! 32%nat = Some (le_state e) /\ enc e !! 33%nat = Some (le_current e)
  /\ enc e !! 34%nat = Some (le_intended e) /\ enc e !! 35%nat = Some (pin_code PIN_NONE)
  /\ le_combine (slice 36 4 (enc e)) = 0.
Proof.
  intros (Hs & Hl & H1 & H2 & H3). unfold byte_ok in *. unfold enc, encode_record, u8.
  rewrite !(Z.mod_small _ (2 ^ 8)) by lia.
  set (A := le_split 8 SMOOTHFS_PLACEMENT_MAGIC). set (B := le_split 8 (u64 (le_seq e))).
  assert (length A = 8%nat) as HA by apply length_le_split.
  assert (length B = 8%nat) as HB by apply length_le_split.
  split_and!.
  - rewrite slice_0_app by done. unfold A. apply le_combine_split_id. vm_compute. split; [discriminate|reflexivity].
  - rewrite slice_app_skip, HA by lia. rewrite slice_0_app by done.
    unfold B, u64. rewrite Z.mod_small by lia. apply le_combine_split_id. lia.
  - rewrite !slice_app_skip, HA, HB by lia. by apply slice_0_app.
  - rewrite !lookup_app_r, HA, HB, Hl by (rewrite ?HA, ?HB, ?Hl; unfold SMOOTHFS_OID_LEN; lia). done.
  - rewrite !lookup_app_r, HA, HB, Hl by (rewrite ?HA, ?HB, ?Hl; unfold SMOOTHFS_OID_LEN; lia). done.
  - rewrite !lookup_app_r, HA, HB, Hl by (rewrite ?HA, ?HB, ?Hl; unfold SMOOTHFS_OID_LEN; lia). done.
  - rewrite !lookup_app_r, HA, HB, Hl by (rewrite ?HA, ?HB, ?Hl; unfold SMOOTHFS_OID_LEN; lia). done.
  - rewrite !slice_app_skip, HA, HB, Hl by (rewrite ?HA, ?HB, ?Hl; unfold SMOOTHFS_OID_LEN; lia).
    unfold SMOOTHFS_OID_LEN. cbn [Nat.sub app]. reflexivity.
Qed.

(** ** The table: find, update, normalize *)

Lemma find_Some_oid rs oid r : smoothfs_replay_find rs oid = Some r -> rr_oid r = oid.
Proof.
  unfold smoothfs_replay_find. destruct (list_find _ _) as [[i x]|] eqn:E; [|done].
  intros [= <-]. by apply list_find_Some in E as (_ & H & _).
Qed.

Lemma find_cons r rs oid :
  smoothfs_replay_find (r :: rs) oid
  = if bytes_eqb (rr_oid r) oid then Some r else smoothfs_replay_find rs oid.
Proof.
  unfold smoothfs_replay_find, bytes_eqb. simpl. destruct (decide (rr_oid r = oid)) as [H|H].
  - by rewrite bool_decide_true.
  - rewrite bool_decide_false by done. by destruct (list_find _ rs) as [[? ?]|].
Qed.

Lemma find_update rec rs oid :
  smoothfs_replay_find (update_record rec rs) oid
  = if bytes_eqb (rr_oid rec) oid
    then (match smoothfs_replay_find rs oid with Some _ => Some rec | None => None end)
    else smoothfs_replay_find rs oid.
Proof.
  induction rs as [|r rs IH]; cbn [update_record].
  { by destruct (bytes_eqb (rr_oid rec) oid). }
  destruct (bytes_eqb (rr_oid r) (rr_oid rec)) eqn:E1.
  - rewrite !find_cons. apply bytes_eqb_eq in E1. rewrite E1.
    by destruct (bytes_eqb (rr_oid rec) oid).
  - rewrite !find_cons, IH. destruct (bytes_eqb (rr_oid rec) oid) eqn:E2; [|done].
    apply bytes_eqb_eq in E2. subst oid. by rewrite E1.
Qed.

Lemma find_snoc rs r oid :
  smoothfs_replay_find (rs ++ [r]) oid
  = match smoothfs_replay_find rs oid with
    | Some x => Some x
    | None => if bytes_eqb (rr_oid r) oid then Some r else None
    end.
Proof.
  induction rs as [|x rs IH]; cbn [app]; [by rewrite find_cons|].
  rewrite !find_cons, IH. by destruct (bytes_eqb (rr_oid x) oid).
Qed.

(** Normalizing touches the derived members only. *)
Lemma normalize_frame r :
  rr_oid (smoothfs_replay_normalize r) = rr_oid r /\ rr_seq (smoothfs_replay_normalize r) = rr_seq r
  /\ fallback_tier (smoothfs_replay_normalize r) = fallback_tier r
  /\ fallback_rel_path (smoothfs_replay_normalize r) = fallback_rel_path r
  /\ fallback_gen (smoothfs_replay_normalize r) = fallback_gen r
  /\ chosen_tier (smoothfs_replay_normalize r) = chosen_tier r
  /\ chosen_rel_path (smoothfs_replay_normalize r) = chosen_rel_path r
  /\ chosen_gen (smoothfs_replay_normalize r) = chosen_gen r.
Proof. unfold smoothfs_replay_normalize. by destruct (ms_of_code _). Qed.

Lemma record_of_oid e : rr_oid (record_of e) = le_oid e.
Proof. unfold record_of. by rewrite (proj1 (normalize_frame _)). Qed.

Lemma record_of_seq e : rr_seq (record_of e) = le_seq e.
Proof. unfold record_of. by rewrite (proj1 (proj2 (normalize_frame _))). Qed.

(** A record the path scan has not touched yet. *)
Definition unscanned (r : replay_record) : Prop :=
  fallback_tier r = U8_MAX /\ fallback_rel_path r = None /\ fallback_gen r = 0
  /\ chosen_tier r = U8_MAX /\ chosen_rel_path r = None /\ chosen_gen r = 0.

Lemma record_of_unscanned e : unscanned (record_of e).
Proof.
  unfold record_of, unscanned. match goal with |- context [smoothfs_replay_normalize ?r] =>
    destruct (normalize_frame r) as (_ & _ & -> & -> & -> & -> & -> & ->) end. done.
Qed.

(** A later entry of the same object replaces everything the log says. *)
Lemma normalize_overwrite r e :
  rr_oid r = le_oid e -> unscanned r ->
  smoothfs_replay_normalize
    (r <| rr_seq := le_seq e |> <| rr_movement_state := le_state e |>
       <| rr_current_tier := le_current e |> <| rr_intended_tier := le_intended e |>
       <| rr_pin_state := pin_code PIN_NONE |> <| rr_gen := 0 |>)
  = record_of e.
Proof.
  intros Ho (H1 & H2 & H3 & H4 & H5 & H6). destruct r; cbn in *; subst. reflexivity.
Qed.

Lemma apply_enc e rs :
  entry_ok e ->
  apply_log_record true (enc e) rs
  = match smoothfs_replay_find rs (le_oid e) with
    | Some r =>
        if le_seq e <? rr_seq r then Some rs
        else Some (update_record (smoothfs_replay_normalize
               (r <| rr_seq := le_seq e |> <| rr_movement_state := le_state e |>
                  <| rr_current_tier := le_current e |> <| rr_intended_tier := le_intended e |>
                  <| rr_pin_state := pin_code PIN_NONE |> <| rr_gen := 0 |>)) rs)
    | None => Some (update_record (record_of e) (rs ++ [new_record (le_oid e)]))
    end.
Proof.
  intros Hok. destruct (enc_decode e Hok) as (_ & D1 & D2 & D3 & D4 & D5 & D6 & D7).
  unfold apply_log_record, smoothfs_replay_get_or_create. rewrite D1, D2, D3, D4, D5, D6, D7.
  destruct (smoothfs_replay_find rs (le_oid e)) as [r|]; [reflexivity|].
  cbn [negb]. change (rr_seq (new_record (le_oid e))) with 0.
  destruct (Z.ltb_spec (le_seq e) 0) as [H|_]; [destruct Hok; lia|].
  unfold record_of. cbn [default from_option id]. reflexivity.
Qed.

(** The table agrees with the entries read so far. *)
Definition table_ok (es : list log_entry) (rs : list replay_record) : Prop :=
  forall oid, smoothfs_replay_find rs oid = record_of <$> latest es oid.

Lemma latest_snoc es e oid :
  latest (es ++ [e]) oid = if bytes_eqb (le_oid e) oid then Some e else latest es oid.
Proof.
  unfold latest, bytes_eqb. rewrite filter_app. destruct (decide (le_oid e = oid)) as [H|H].
  - rewrite bool_decide_true by done. rewrite filter_cons_True, filter_nil by done. apply last_snoc.
  - rewrite bool_decide_false by done. rewrite filter_cons_False, filter_nil, app_nil_r by done. done.
Qed.

Lemma latest_elem es oid e : latest es oid = Some e -> e ∈ es /\ le_oid e = oid.
Proof.
  unfold latest. intros H. apply last_Some_elem_of in H. apply list_elem_of_filter in H. tauto.
Qed.

Lemma table_step es e rs :
  table_ok es rs -> entry_ok e -> (forall e0, e0 ∈ es -> le_seq e0 <= le_seq e) ->
  exists rs', apply_log_record true (enc e) rs = Some rs' /\ table_ok (es ++ [e]) rs'.
Proof.
  intros Ht Hok Hs. rewrite apply_enc by done. rewrite Ht.
  destruct (latest es (le_oid e)) as [e0|] eqn:El; cbn [fmap option_fmap option_map].
  - apply latest_elem in El as HE. destruct HE as [He0 Ho]. rewrite record_of_seq.
    destruct (Z.ltb_spec (le_seq e) (le_seq e0)); [specialize (Hs _ He0); lia|].
    eexists; split; [reflexivity|]. rewrite normalize_overwrite by (rewrite ?record_of_oid; auto using record_of_unscanned).
    intros oid. rewrite find_update, latest_snoc, record_of_oid, Ht.
    destruct (bytes_eqb (le_oid e) oid) eqn:E; [|done].
    apply bytes_eqb_eq in E. subst oid. by rewrite El.
  - eexists; split; [reflexivity|]. intros oid.
    rewrite find_update, latest_snoc, record_of_oid, find_snoc. cbn [new_record rr_oid].
    destruct (bytes_eqb (le_oid e) oid) eqn:E.
    + apply bytes_eqb_eq in E. subst oid. by rewrite Ht, El.
    + rewrite <- Ht. by destruct (smoothfs_replay_find rs oid).
Qed.

(** ** Reading the whole log *)

Lemma log_bytes_app a b : log_bytes (a ++ b) = log_bytes a ++ log_bytes b.
Proof. unfold log_bytes. by rewrite map_app, concat_app. Qed.

Lemma fsize_log_bytes es : Forall entry_ok es -> fsize (log_bytes es) = 64 * Z.of_nat (length es).
Proof.
  induction 1 as [|e es He Hes IH]; [done|]. unfold log_bytes in *. cbn [map concat length].
  rewrite fsize_app, IH. unfold fsize. rewrite length_enc by done. lia.
Qed.

(** Sequence numbers never decrease along the log. *)
Definition seq_sorted (es : list log_entry) : Prop :=
  forall i j e1 e2, (i < j)%nat -> es !! i = Some e1 -> es !! j = Some e2 -> le_seq e1 <= le_seq e2.

Lemma seq_sorted_snoc es e e0 : seq_sorted (es ++ e :: nil) -> e0 ∈ es -> le_seq e0 <= le_seq e.
Proof.
  intros Hs Hin. apply list_elem_of_lookup in Hin as [i Hi].
  apply (Hs i (length es)); [by apply lookup_lt_Some in Hi| |].
  - by apply lookup_app_l_Some.
  - rewrite lookup_app_r, Nat.sub_diag by done. done.
Qed.

Lemma seq_sorted_app_l a b : seq_sorted (a ++ b) -> seq_sorted a.
Proof.
  intros Hs i j e1 e2 Hij H1 H2. apply (Hs i j); [done|by apply lookup_app_l_Some..].
Qed.

(** [tail]: the bytes of an append that a crash or a short write cut off. *)
Lemma load_loop_step ora fuel k done_ e todo tail rs :
  smooth_run ora 64 -> Forall entry_ok done_ -> entry_ok e ->
  load_log_loop (S fuel) ora k (log_bytes (done_ ++ e :: todo) ++ tail) (fsize (log_bytes done_)) rs
  = match apply_log_record true (enc e) rs with
    | None => (- ENOMEM, rs)
    | Some rs => load_log_loop fuel ora (S (S k)) (log_bytes ((done_ ++ [e]) ++ todo) ++ tail)
                   (fsize (log_bytes (done_ ++ [e]))) rs
    end.
Proof.
  intros Hs Hd He. cbn [load_log_loop]. unfold kernel_read.
  destruct (Z.ltb_spec (ora k) 0); [specialize (Hs k); lia|].
  rewrite Z.min_r by (specialize (Hs k); unfold SMOOTHFS_PLACEMENT_REC_SIZE; lia).
  assert (pread (log_bytes (done_ ++ e :: todo) ++ tail) (fsize (log_bytes done_)) SMOOTHFS_PLACEMENT_REC_SIZE
          = enc e) as ->.
  { rewrite log_bytes_app. unfold pread, slice, fsize, SMOOTHFS_PLACEMENT_REC_SIZE.
    rewrite Nat2Z.id, <- app_assoc, drop_app_length. unfold log_bytes. cbn [map concat].
    change (Z.to_nat 64) with 64%nat. rewrite <- (length_enc e He), <- app_assoc. by rewrite take_app_length. }
  assert (fsize (enc e) = SMOOTHFS_PLACEMENT_REC_SIZE) as Hf
    by (unfold fsize; by rewrite length_enc).
  destruct (enc e) as [|b l] eqn:Ee; [discriminate Hf|]. rewrite <- Ee in *.
  rewrite Hf, Z.eqb_refl. destruct (enc_decode e He) as [Hm _]. rewrite Hm, Z.eqb_refl. cbn [negb].
  destruct (Z.leb_spec 0 (ora (S k))); [|specialize (Hs (S k)); lia].
  destruct (apply_log_record true (enc e) rs); [|done].
  replace (fsize (log_bytes (done_ ++ [e]))) with (fsize (log_bytes done_) + SMOOTHFS_PLACEMENT_REC_SIZE).
  - by rewrite <- !app_assoc.
  - rewrite log_bytes_app, fsize_app. f_equal. unfold log_bytes. cbn [map concat].
    rewrite app_nil_r. by rewrite Hf.
Qed.

(** The end of the log: clean, or torn. *)
Lemma load_loop_end ora fuel k done_ tail rs :
  smooth_run ora 64 -> fsize tail < 64 ->
  load_log_loop (S fuel) ora k (log_bytes done_ ++ tail) (fsize (log_bytes done_)) rs
  = (match tail with [] => 0 | _ => - EIO end, rs).
Proof.
  intros Hs Hl. cbn [load_log_loop]. unfold kernel_read.
  destruct (Z.ltb_spec (ora k) 0); [specialize (Hs k); lia|].
  rewrite Z.min_r by (specialize (Hs k); unfold SMOOTHFS_PLACEMENT_REC_SIZE; lia).
  assert (pread (log_bytes done_ ++ tail) (fsize (log_bytes done_)) SMOOTHFS_PLACEMENT_REC_SIZE = tail) as ->.
  { unfold pread, slice, fsize, SMOOTHFS_PLACEMENT_REC_SIZE in *. rewrite Nat2Z.id, drop_app_length.
    apply take_ge. lia. }
  destruct tail as [|b l] eqn:Et; [done|]. rewrite <- Et in *.
  rewrite (proj2 (Z.eqb_neq (fsize tail) SMOOTHFS_PLACEMENT_REC_SIZE)); [done|].
  unfold SMOOTHFS_PLACEMENT_REC_SIZE. lia.
Qed.

Lemma load_loop_ok ora tail : smooth_run ora 64 -> fsize tail < 64 -> forall todo done_ fuel k rs,
  Forall entry_ok (done_ ++ todo) -> seq_sorted (done_ ++ todo) -> table_ok done_ rs ->
  (length todo < fuel)%nat ->
  exists rs', load_log_loop fuel ora k (log_bytes (done_ ++ todo) ++ tail) (fsize (log_bytes done_)) rs
              = (match tail with [] => 0 | _ => - EIO end, rs')
  /\ table_ok (done_ ++ todo) rs'.
Proof.
  intros Hs Hl. induction todo as [|e todo IH]; intros done_ fuel k rs Hok Hsq Ht Hf;
    (destruct fuel as [|fuel]; [simpl in Hf; lia|]).
  { exists rs. rewrite app_nil_r in *. split; [|done]. by apply load_loop_end. }
  pose proof Hok as Hok2. apply Forall_app in Hok2 as [Hd [He Htd]%Forall_cons].
  rewrite load_loop_step by done.
  assert (seq_sorted (done_ ++ [e])) as Hsq1
    by (eapply seq_sorted_app_l; rewrite <- app_assoc; exact Hsq).
  destruct (table_step done_ e rs Ht He) as (rs1 & -> & Ht1); [intros; by apply (seq_sorted_snoc done_)|].
  replace (done_ ++ e :: todo) with ((done_ ++ [e]) ++ todo) in * by (by rewrite <- app_assoc).
  apply IH; [done|done|done|simpl in Hf; lia].
Qed.

Lemma load_log_table ora k es tail :
  smooth_run ora 64 -> fsize tail < 64 -> Forall entry_ok es -> seq_sorted es ->
  exists rs, smoothfs_replay_load_log ora k (log_bytes es ++ tail) []
             = (match tail with [] => 0 | _ => - EIO end, rs) /\ table_ok es rs.
Proof.
  intros Hs Hl Hok Hsq. unfold smoothfs_replay_load_log.
  destruct (load_loop_ok ora tail Hs Hl es [] (S (length (log_bytes es ++ tail))) k [] Hok Hsq) as (rs & H & Ht).
  - intros oid. done.
  - pose proof (fsize_log_bytes es Hok) as Hf. unfold fsize in Hf. rewrite length_app. lia.
  - exists rs. by split.
Qed.

(** Loading a log of records with non-decreasing sequence numbers gives every
    object its last record, normalised; an incomplete record at the end is
    reported as an I/O error after the complete ones were applied. *)
Theorem load_log_latest_wins ora k es tail :
  smooth_run ora 64 -> fsize tail < 64 -> Forall entry_ok es -> seq_sorted es ->
  exists rs, smoothfs_replay_load_log ora k (log_bytes es ++ tail) []
             = (match tail with [] => 0 | _ => - EIO end, rs)
  /\ forall oid, smoothfs_replay_find rs oid = record_of <$> latest es oid.
Proof. intros. by apply load_log_table. Qed.

(** ** The log over time *)

(** The sequence numbers grow along the log. *)
Definition seq_lt (e1 e2 : log_entry) : Prop := le_seq e1 < le_seq e2.

Definition consecutive (es : list log_entry) : Prop := forall i e, es !! i = Some e -> le_seq e = Z.of_nat i + 1.

(** The log file followed by the queue is a run of records with growing sequence
    numbers, none above the pool's counter; 1, 2, ... without a gap unless an
    append was lost ([gap]). *)
Definition log_inv (x : sb_info * bool) : Prop :=
  exists es ps, placement_log (fst x) = Some (log_bytes es) /\ placement_wb_pending (fst x) = map enc ps
  /\ Forall entry_ok (es ++ ps) /\ StronglySorted seq_lt (es ++ ps)
  /\ Forall (fun e => le_seq e <= placement_seq (fst x)) (es ++ ps) /\ 0 <= placement_seq (fst x)
  /\ (snd x = false -> consecutive (es ++ ps) /\ placement_seq (fst x) = Z.of_nat (length (es ++ ps))).

(** An append fails, or writes the whole record. *)
Definition whole_writes (ora : oracle) : Prop := forall k, ora k < 0 \/ 64 <= ora k.

(** Queue a record; run the worker, with or without failing appends; crash, which
    loses the queue and may lose the last records of the file, and mount again:
    the writeback queue is set up and the log opened.  The flag says that an append
    has failed: from then on there is no remount in the run
    ([lost_appends_make_replay_ignore_newer_records]). *)
Inductive log_step : sb_info * bool -> sb_info * bool -> Prop :=
| LS_record sbi gap alloc now oid s c i sync :
    length oid = SMOOTHFS_OID_LEN -> byte_ok (ms_code s) -> byte_ok c -> byte_ok i ->
    placement_seq sbi + 1 < 2 ^ 64 ->
    log_step (sbi, gap) (snd (fst (smoothfs_placement_record alloc now sbi oid s c i sync)), gap)
| LS_worker sbi gap ora k : smooth_run ora 64 ->
    log_step (sbi, gap) (snd (smoothfs_placement_wb_worker ora k sbi), gap)
| LS_worker_fails sbi gap ora k : whole_writes ora ->
    log_step (sbi, gap) (snd (smoothfs_placement_wb_worker ora k sbi), true)
| LS_remount sbi ora k n sbi1 sbi' :
    smoothfs_placement_wb_init true sb_zero = (0, sbi1) ->
    smoothfs_placement_open ora k (take (64 * n) <$> placement_log sbi) sbi1 = (0, sbi') ->
    log_step (sbi, false) (sbi', false).

Lemma append_entry es e : pwrite (log_bytes es) (fsize (log_bytes es)) (enc e) = log_bytes (es ++ [e]).
Proof. rewrite pwrite_end, log_bytes_app. f_equal. unfold log_bytes. cbn [map concat]. by rewrite app_nil_r. Qed.

Lemma wb_write_all_smooth ora : smooth_run ora 64 -> forall ps k es,
  Forall entry_ok ps -> exists k', wb_write_all ora k (log_bytes es) (map enc ps) = (k', log_bytes (es ++ ps)).
Proof.
  intros Hs. induction ps as [|e ps IH]; intros k es Hok; cbn [wb_write_all map].
  { exists k. by rewrite app_nil_r. }
  apply Forall_cons in Hok as [He Hps]. unfold kernel_write.
  destruct (Z.ltb_spec (ora k) 0); [specialize (Hs k); lia|].
  rewrite Z.min_r by (specialize (Hs k); rewrite length_enc by done; lia).
  rewrite Nat2Z.id, firstn_all, append_entry.
  destruct (IH (S k) (es ++ [e]) Hps) as [k' Hk]. exists k'. by rewrite Hk, <- app_assoc.
Qed.

Lemma sorted_without (es : list log_entry) e ps : StronglySorted seq_lt (es ++ e :: ps) -> StronglySorted seq_lt (es ++ ps).
Proof.
  rewrite !StronglySorted_app, StronglySorted_cons. intros (H1 & H2 & _ & H3). split_and!; [|done..].
  intros x y Hx Hy. apply H1; [done|by right].
Qed.

(** With failing appends the log gets some of the queued records, in order. *)
Lemma wb_write_all_whole ora : whole_writes ora -> forall ps k es,
  Forall entry_ok ps -> StronglySorted seq_lt (es ++ ps) ->
  exists k' es', wb_write_all ora k (log_bytes es) (map enc ps) = (k', log_bytes es')
  /\ StronglySorted seq_lt es' /\ forall e, e ∈ es' -> e ∈ es ++ ps.
Proof.
  intros Hs. induction ps as [|e ps IH]; intros k es Hok Hso; cbn [wb_write_all map].
  { exists k, es. rewrite app_nil_r in *. done. }
  apply Forall_cons in Hok as [He Hps]. unfold kernel_write. destruct (Hs k) as [Hf|Hf].
  - destruct (Z.ltb_spec (ora k) 0); [|lia].
    destruct (IH (S k) es Hps (sorted_without _ _ _ Hso)) as (k' & es' & H1 & H2 & H3).
    exists k', es'. split_and!; [done|done|]. intros x Hx. apply H3 in Hx. set_solver.
  - destruct (Z.ltb_spec (ora k) 0); [lia|]. rewrite Z.min_r by (rewrite length_enc by done; lia).
    rewrite Nat2Z.id, firstn_all, append_entry.
    destruct (IH (S k) (es ++ [e]) Hps) as (k' & es' & H1 & H2 & H3); [by rewrite <- app_assoc|].
    exists k', es'. split_and!; [done|done|]. intros x Hx. apply H3 in Hx. set_solver.
Qed.

Lemma placement_open_ok ora k disk sbi sbi' :
  smoothfs_placement_open ora k disk sbi = (0, sbi') ->
  sbi' = sbi <| placement_log := Some (default [] disk) |>
             <| placement_seq := fsize (default [] disk) / SMOOTHFS_PLACEMENT_REC_SIZE |>.
Proof.
  unfold smoothfs_placement_open.
  destruct (Z.ltb_spec (ora k) 0); [intros [= ? _]; lia|].
  destruct (Z.ltb_spec (ora (k + 1)%nat) 0); [intros [= ? _]|].
  case_goal; [intros [= H' _]; rewrite H' in *; discriminate|].
  destruct (Z.ltb_spec (ora (k + 3)%nat) 0); [intros [= ? _]; lia|]. by intros [= <-].
Qed.

Lemma take_log_bytes n es : Forall entry_ok es -> take (64 * n) (log_bytes es) = log_bytes (take n es).
Proof.
  revert es. induction n as [|n IH]; intros es Hok; [by rewrite Nat.mul_0_r, !take_0|].
  destruct es as [|e es]; [by rewrite !take_nil|]. apply Forall_cons in Hok as [He Hes].
  unfold log_bytes in *. cbn [take map concat].
  replace (64 * S n)%nat with (length (enc e) + 64 * n)%nat by (rewrite length_enc by done; lia).
  rewrite take_app_add. by rewrite IH.
Qed.

Lemma log_inv_record sbi gap alloc now oid s c i sync : log_inv (sbi, gap) ->
  length oid = SMOOTHFS_OID_LEN -> byte_ok (ms_code s) -> byte_ok c -> byte_ok i -> placement_seq sbi + 1 < 2 ^ 64 ->
  log_inv (snd (fst (smoothfs_placement_record alloc now sbi oid s c i sync)), gap).
Proof.
  intros (es & ps & Hl & Hp & Hok & Hso & Hle & H0 & Hg) Ho Hm Hc Hi Hsq. cbn [fst snd] in *.
  unfold smoothfs_placement_record. case_goal; [by exists es, ps|]. case_goal; [by exists es, ps|].
  set (e := LogEntry (u64 (placement_seq sbi + 1)) oid (ms_code s) c i now).
  assert (u64 (placement_seq sbi + 1) = placement_seq sbi + 1) as Hu by (unfold u64; apply Z.mod_small; lia).
  assert (le_seq e = placement_seq sbi + 1) as Hs by exact Hu.
  exists es, (ps ++ [e]). rewrite app_assoc. split_and!; [done|cbn; by rewrite map_app, <- Hp| | | |cbn; lia|].
  - apply Forall_app. split; [done|]. constructor; [|done]. unfold entry_ok. rewrite Hs. split_and!; try done; lia.
  - apply StronglySorted_app. split_and!; [|done|by repeat constructor].
    intros x y Hx ->%list_elem_of_singleton. rewrite Forall_forall in Hle. specialize (Hle x Hx). cbn in Hle. unfold seq_lt. lia.
  - cbn. rewrite Hu. apply Forall_app. split; [|constructor; [lia|done]]. eapply Forall_impl; [exact Hle|]. cbn. intros; lia.
  - cbn. intros Hgap. destruct (Hg Hgap) as [Hn Hsz]. split.
    + intros j e0 Hj. apply lookup_snoc_Some in Hj as [[Hlt Hj]|[-> <-]]; [by apply Hn|]. lia.
    + rewrite Hu, length_app. cbn. lia.
Qed.

Lemma log_inv_remount sbi n sbi1 ora k sbi' : log_inv (sbi, false) ->
  smoothfs_placement_wb_init true sb_zero = (0, sbi1) ->
  smoothfs_placement_open ora k (take (64 * n) <$> placement_log sbi) sbi1 = (0, sbi') -> log_inv (sbi', false).
Proof.
  intros (es & ps & Hl & Hp & Hok & Hso & Hle & H0 & Hg) [= <-] ->%placement_open_ok. cbn [fst snd] in *.
  destruct (Hg eq_refl) as [Hn _]. apply Forall_app in Hok as [Hes _].
  rewrite Hl. cbn [fmap option_fmap option_map default]. rewrite take_log_bytes by done.
  assert (Forall entry_ok (take n es)) as Hes' by by apply Forall_take.
  assert (consecutive (take n es)) as Hn'.
  { intros i e Hi. apply Hn. apply lookup_take_Some in Hi as [Hi _]. by apply lookup_app_l_Some. }
  exists (take n es), []. rewrite app_nil_r.
  assert (fsize (log_bytes (take n es)) / SMOOTHFS_PLACEMENT_REC_SIZE = Z.of_nat (length (take n es))) as Hsz.
  { rewrite fsize_log_bytes by done. unfold SMOOTHFS_PLACEMENT_REC_SIZE. rewrite Z.mul_comm. by apply Z.div_mul. }
  split_and!; [done|done|done| | |cbn; lia|by split].
  - apply StronglySorted_app_1_l in Hso. rewrite <- (take_drop n es) in Hso. by apply StronglySorted_app_1_l in Hso.
  - cbn. rewrite Hsz. apply Forall_forall. intros e [i Hi]%list_elem_of_lookup.
    rewrite (Hn' _ _ Hi). apply lookup_lt_Some in Hi. lia.
Qed.

Lemma log_inv_step x y : log_inv x -> log_step x y -> log_inv y.
Proof.
  intros Hx Hst. destruct Hst as [sbi gap alloc now oid s c i sync|sbi gap ora k Hs|sbi gap ora k Hs|sbi ora k n sbi1 sbi' Hi Ho];
    [by apply log_inv_record| | |by eapply log_inv_remount].
  - destruct Hx as (es & ps & Hl & Hp & Hok & Hso & Hle & H0 & Hg). cbn [fst snd] in *.
    unfold smoothfs_placement_wb_worker. rewrite Hp. apply Forall_app in Hok as HH. destruct HH as [_ Hps].
    destruct (wb_write_all_smooth ora Hs ps k es Hps) as [k' Hk].
    exists (es ++ ps), []. rewrite app_nil_r. cbn. rewrite Hl, Hk. done.
  - destruct Hx as (es & ps & Hl & Hp & Hok & Hso & Hle & H0 & Hg). cbn [fst snd] in *.
    unfold smoothfs_placement_wb_worker. rewrite Hp. apply Forall_app in Hok as HH. destruct HH as [_ Hps].
    destruct (wb_write_all_whole ora Hs ps k es Hps Hso) as (k' & es' & Hk & Hso' & Hin).
    exists es', []. rewrite app_nil_r. cbn. rewrite Hl, Hk. rewrite Forall_forall in Hok, Hle.
    split_and!; [done|done| |done| |done|done]; apply Forall_forall; intros e He%Hin; [by apply Hok|by apply Hle].
Qed.

Lemma growing_sorted es : StronglySorted seq_lt es -> seq_sorted es.
Proof.
  intros Hs i j e1 e2 Hij H1 H2. apply list_elem_of_split_length in H1 as (l1 & l2 & -> & ->).
  rewrite lookup_app_r in H2 by lia. destruct (j - length l1)%nat as [|m] eqn:E; [lia|]. cbn in H2.
  apply StronglySorted_app in Hs as (_ & _ & [Hs _]%StronglySorted_cons).
  rewrite Forall_forall in Hs. apply list_elem_of_lookup_2 in H2. specialize (Hs _ H2). unfold seq_lt in Hs. lia.
Qed.

Lemma contiguous_sorted es : consecutive es -> seq_sorted es.
Proof. intros H i j e1 e2 Hij H1 H2. apply H in H1, H2. lia. Qed.

(** C4. From a log of consecutively numbered records, after any sequence of
    queued records, writeback passes and crashes with remount (a crash loses the
    queue and may lose whole records at the end of the file; the mount sets up
    the queue and opens the log), the log on disk is a run of whole records with
    growing sequence numbers, loading it without I/O faults succeeds, and every
    object's table entry is its newest record that reached the disk. Appends may
    fail, but not leave part of a record behind, and a run has no remount after
    a failed append; without failed appends the numbering stays consecutive.
    (Both exclusions are faults of the code: a torn record makes later mounts
    fail, and a remount after a lost append restarts the numbering too low.) *)
Theorem log_recovers_latest_after_crashes x y ora k :
  log_inv x -> rtc log_step x y -> smooth_run ora 64 ->
  exists es rs, placement_log (fst y) = Some (log_bytes es)
  /\ smoothfs_replay_load_log ora k (log_bytes es) [] = (0, rs)
  /\ (forall oid, smoothfs_replay_find rs oid = record_of <$> latest es oid)
  /\ StronglySorted seq_lt es /\ (snd y = false -> consecutive es).
Proof.
  intros Hi Hr Hs. assert (log_inv y) as (es & ps & Hl & Hp & Hok & Hso & _ & _ & Hg)
    by (eapply rtc_invariant; [exact log_inv_step|exact Hi|exact Hr]).
  apply Forall_app in Hok as [Hes _]. apply StronglySorted_app_1_l in Hso.
  destruct (load_log_table ora k es [] Hs ltac:(done) Hes (growing_sorted es Hso)) as (rs & H1 & H2).
  rewrite app_nil_r in H1. exists es, rs. split_and!; try done.
  intros Hgap i e He. apply (proj1 (Hg Hgap)). by apply lookup_app_l_Some.
Qed.

(** Normalisation moves every interrupted state to PLACED, on the source before
    the     cutover and on the destination from it on, and leaves the others
    alone. *)
Theorem normalize_never_mid_move r :
  let r' := smoothfs_replay_normalize r in
  (normalized r' = true ->
     normalized_state r' = ms_code MS_PLACED
     /\ (authoritative_tier r' = rr_current_tier r \/ authoritative_tier r' = rr_intended_tier r))
  /\ (normalized r' = false -> authoritative_tier r' = rr_current_tier r
       /\ normalized_state r' = rr_movement_state r)
  /\ (authoritative_tier r' <> rr_current_tier r ->
       rr_movement_state r ∈ map ms_code [MS_CUTOVER_IN_PROGRESS; MS_SWITCHED; MS_CLEANUP_IN_PROGRESS])
  /\ ~ normalized_state r' ∈ map ms_code
         [MS_PLAN_ACCEPTED; MS_DESTINATION_RESERVED; MS_COPY_IN_PROGRESS; MS_COPY_COMPLETE;
          MS_COPY_VERIFIED; MS_CUTOVER_IN_PROGRESS; MS_SWITCHED; MS_CLEANUP_IN_PROGRESS].
Proof.
  cbv zeta. unfold smoothfs_replay_normalize.
  pose proof (ms_code_of_code (rr_movement_state r)) as Hc. cbn [rr_movement_state].
  assert (rr_movement_state (r <| normalized := false |> <| normalized_state := rr_movement_state r |>
    <| authoritative_tier := rr_current_tier r |>) = rr_movement_state r) as -> by done.
  destruct (ms_of_code (rr_movement_state r)) eqn:E; cbn; rewrite <- ?Hc; cbn;
    (split_and!; [try done; auto|try done|try (intros; set_solver)|]);
    try (rewrite !not_elem_of_cons; split_and!; [lia..|apply not_elem_of_nil]).
  cbn in Hc. subst raw. intros Hin. rewrite !elem_of_cons in Hin. revert E.
  destruct Hin as [->|[->|[->|[->|[->|[->|[->|[->|Hn]]]]]]]]; cbn; try done.
  by apply not_elem_of_nil in Hn.
Qed.

(** ** Concrete logs *)

Definition oid_a : list Z := replicate 16 1.
Definition oid_b : list Z := replicate 16 2.
Definition demo_entries : list log_entry :=
  [LogEntry 1 oid_a 0 0 0 10; LogEntry 2 oid_b 0 1 1 11; LogEntry 3 oid_a 6 0 1 12].
Definition never_fails : oracle := fun _ => 4096.
Definition log_pool : sb_info :=
  sb_zero <| placement_wb_ready := true |> <| placement_log := Some [] |>.

Lemma never_fails_smooth : smooth_run never_fails 64.
Proof. intros k. unfold never_fails. lia. Qed.

Lemma demo_entries_ok : Forall entry_ok demo_entries.
Proof. repeat constructor; cbn; lia. Qed.

Lemma demo_entries_contiguous : consecutive demo_entries.
Proof. intros i e. do 3 (destruct i as [|i]; [by intros [= <-]|]). done. Qed.

Lemma load_log_latest_wins_witness :
  exists rs, smoothfs_replay_load_log never_fails 0 (log_bytes demo_entries ++ [7]) [] = (- EIO, rs)
  /\ smoothfs_replay_find rs oid_a = Some (record_of (LogEntry 3 oid_a 6 0 1 12))
  /\ authoritative_tier (record_of (LogEntry 3 oid_a 6 0 1 12)) = 1.
Proof.
  destruct (load_log_latest_wins never_fails 0 demo_entries [7]) as (rs & H1 & H2).
  - exact never_fails_smooth.
  - reflexivity.
  - exact demo_entries_ok.
  - apply contiguous_sorted. exact demo_entries_contiguous.
  - exists rs. split; [exact H1|]. split; [rewrite H2; reflexivity|reflexivity].
Defined.

Lemma log_pool_inv : log_inv (log_pool, false).
Proof. exists [], []. split_and!; try done; try by constructor. Qed.

(** A record is queued and written, the pool crashes and is mounted again, and a
    second record is queued and written. *)
Lemma log_recovers_latest_after_crashes_witness :
  let sbi := snd (fst (smoothfs_placement_record true 10 log_pool oid_a MS_PLACED 0 0 true)) in
  let sbi := snd (smoothfs_placement_wb_worker never_fails 0 sbi) in
  let sbi := snd (smoothfs_placement_open never_fails 0 (take (64 * 1) <$> placement_log sbi)
                    (snd (smoothfs_placement_wb_init true sb_zero))) in
  let sbi := snd (fst (smoothfs_placement_record true 11 sbi oid_a MS_PLACED 1 1 true)) in
  let sbi := snd (smoothfs_placement_wb_worker never_fails 0 sbi) in
  exists es rs, placement_log sbi = Some (log_bytes es)
  /\ smoothfs_replay_load_log never_fails 0 (log_bytes es) [] = (0, rs)
  /\ (forall oid, smoothfs_replay_find rs oid = record_of <$> latest es oid)
  /\ consecutive es /\ length (log_bytes es) = 128%nat.
Proof.
  set (s1 := snd (fst (smoothfs_placement_record _ _ _ _ _ _ _ _))). cbv zeta.
  set (s2 := snd (smoothfs_placement_wb_worker _ _ s1)).
  set (s3 := snd (smoothfs_placement_open _ _ _ _)).
  set (s4 := snd (fst (smoothfs_placement_record _ _ s3 _ _ _ _ _))).
  set (s5 := snd (smoothfs_placement_wb_worker _ _ s4)).
  destruct (log_recovers_latest_after_crashes (log_pool, false) (s5, false) never_fails 0) as (es & rs & H1 & H2 & H3 & _ & H4).
  - exact log_pool_inv.
  - eapply rtc_l; [apply (LS_record log_pool false true 10 oid_a MS_PLACED 0 0 true); [reflexivity|split; [discriminate|reflexivity]..|reflexivity]|].
    eapply rtc_l; [apply (LS_worker _ false never_fails 0), never_fails_smooth|].
    eapply rtc_l; [apply (LS_remount s2 never_fails 0 1 (snd (smoothfs_placement_wb_init true sb_zero)) s3); reflexivity|].
    eapply rtc_l; [apply (LS_record s3 false true 11 oid_a MS_PLACED 1 1 true); [reflexivity|split; [discriminate|reflexivity]..|vm_compute; reflexivity]|].
    eapply rtc_l; [apply (LS_worker s4 false never_fails 0), never_fails_smooth|]. apply rtc_refl.
  - exact never_fails_smooth.
  - exists es, rs. split; [exact H1|]. split; [exact H2|]. split; [exact H3|]. split; [apply H4; reflexivity|].
    assert (length <$> placement_log s5 = Some 128%nat) as Hl by (vm_compute; reflexivity).
    cbn [fst] in H1. rewrite H1 in Hl. injection Hl as Hl. exact Hl.
Defined.

(** An oracle under which the second and third kernel calls fail. *)
Definition two_failures : oracle := fun k => if (k =? 1)%nat || (k =? 2)%nat then - EIO else 4096.

(** Queue the given states for one object, write them under [ora], remount. *)
Definition record_all (sbi : sb_info) (l : list (movement_state * Z)) : sb_info :=
  foldl (fun sbi p => snd (fst (smoothfs_placement_record true 0 sbi oid_a (fst p) (snd p) (snd p) true)))
    sbi l.

Definition remounted (sbi : sb_info) : sb_info :=
  snd (smoothfs_placement_open never_fails 0 (placement_log sbi) log_pool).

(** After two failed appends and a remount the sequence restarts below the last
    record on disk, and a newer record is ignored by the next replay. *)
Example lost_appends_make_replay_ignore_newer_records :
  let sbi := record_all log_pool [(MS_PLACED, 0); (MS_PLACED, 1); (MS_PLACED, 2); (MS_PLACED, 3)] in
  let sbi := snd (smoothfs_placement_wb_worker two_failures 0 sbi) in
  let sbi := record_all (remounted sbi) [(MS_PLACED, 5)] in
  let sbi := snd (smoothfs_placement_wb_worker never_fails 0 sbi) in
  let (err, rs) := smoothfs_replay_load_log never_fails 0 (default [] (placement_log sbi)) [] in
  err = 0 /\ (rr_current_tier <$> smoothfs_replay_find rs oid_a) = Some 3
  /\ (rr_seq <$> smoothfs_replay_find rs oid_a) = Some 4 /\ placement_seq sbi = 3.
Proof. vm_compute. by repeat split. Qed.
