(* ===== verification/InodeMaps.v ===== *)
(** * The inode cache and its indices: src/src/smoothfs/super.c

    The three rhashtables (OID, relative path, lower inode number), the queue
    that persists new object ids in the background, [smoothfs_iget], which
    attaches a smoothfs inode to a lower object, and [smoothfs_evict_inode],
    which must take the inode out of every index before its memory goes.

    [iget_locked], [ilookup] and the hash tables belong to the kernel; the
    model keeps their documented behaviour: one inode per number, lookups
    return the newest entry with the key, removal is of a given entry. *)
From S2P Require Import Prelude Types Oid.

(** The pool with its OID writeback queue. *)
Record pool := Pool {
  p_sbi : sb_info;
  oid_wb_ready : bool;
  oid_wb_pending : list (path * list Z);
}.
#[export] Instance pool_eta : Eta pool := fun r => Pool (p_sbi r) (oid_wb_ready r) (oid_wb_pending r).

(** ** rhashtables *)

Section Rht.
Context {K : Type} `{EqDecision K}.

(** [rhashtable_lookup_fast] *)
Definition rht_lookup (k : K) (t : list (K * Z)) : option Z :=
  snd <$> (snd <$> list_find (fun e => e.1 = k) t).

(** Removal of one entry: the first with this key and value. *)
Fixpoint rht_remove (k : K) (v : Z) (t : list (K * Z)) : list (K * Z) :=
  match t with
  | [] => []
  | e :: t => if bool_decide (e.1 = k) && (e.2 =? v) then t else e :: rht_remove k v t
  end.
End Rht.

Definition zero_oid : list Z := replicate SMOOTHFS_OID_LEN 0.

(** [fault]: an allocation error of the table (0 for none). *)
Definition smoothfs_oid_map_insert (fault : Z) (sbi : sb_info) (si : inode_info) : Z * sb_info :=
  if bytes_eqb (oid si) zero_oid then (0, sbi)
  else if fault <? 0 then (fault, sbi)
  else (0, sbi <| oid_map := (oid si, i_ino si) :: oid_map sbi |>).

Definition smoothfs_oid_map_remove (sbi : sb_info) (si : inode_info) : sb_info :=
  if negb (oid_map_ready sbi) then sbi
  else if bytes_eqb (oid si) zero_oid then sbi
  else sbi <| oid_map := rht_remove (oid si) (i_ino si) (oid_map sbi) |>.

Definition smoothfs_lookup_oid (sbi : sb_info) (o : list Z) : option Z :=
  if negb (oid_map_ready sbi) then None else rht_lookup o (oid_map sbi).

Definition smoothfs_path_map_add (fault : Z) (sbi : sb_info) (si : inode_info) : sb_info * inode_info :=
  match rel_path si with
  | None => (sbi, si)
  | Some p =>
      if negb (path_map_ready sbi) || path_hashed si then (sbi, si)
      else if fault <? 0 then (sbi, si)
      else (sbi <| path_map := (p, i_ino si) :: path_map sbi |>, si <| path_hashed := true |>)
  end.

Definition smoothfs_path_map_del (sbi : sb_info) (si : inode_info) : sb_info * inode_info :=
  if negb (path_hashed si) then (sbi, si)
  else
    let sbi := if path_map_ready sbi
               then match rel_path si with
                    | Some p => sbi <| path_map := rht_remove p (i_ino si) (path_map sbi) |>
                    | None => sbi
                    end
               else sbi in
    (sbi, si <| path_hashed := false |>).

Definition smoothfs_lookup_rel_path (sbi : sb_info) (p : option string) : option Z :=
  match p with
  | None => None
  | Some p => if negb (path_map_ready sbi) then None else rht_lookup p (path_map sbi)
  end.

Definition smoothfs_lower_key (tier_idx lower_ino : Z) : Z :=
  Z.lor (Z.shiftl tier_idx 56) (Z.land lower_ino (Z.shiftl 1 56 - 1)).

(** 0 when nothing is cached. *)
Definition smoothfs_lower_ino_map_get (sbi : sb_info) (tier_idx lower_ino : Z) : Z :=
  if negb (lower_ino_map_ready sbi) then 0
  else default 0 (rht_lookup (smoothfs_lower_key tier_idx lower_ino) (lower_ino_map sbi)).

Definition smoothfs_lower_ino_map_insert (fault : Z) (sbi : sb_info) (tier_idx lower_ino ino_no : Z)
  : Z * sb_info :=
  if negb (lower_ino_map_ready sbi) then (0, sbi)
  else if fault <? 0 then (if fault =? - EEXIST then 0 else fault, sbi)
  else (0, sbi <| lower_ino_map := (smoothfs_lower_key tier_idx lower_ino, ino_no) :: lower_ino_map sbi |>).

Definition smoothfs_lower_ino_map_remove (sbi : sb_info) (tier_idx lower_ino : Z) : sb_info :=
  if negb (lower_ino_map_ready sbi) then sbi
  else
    let key := smoothfs_lower_key tier_idx lower_ino in
    match rht_lookup key (lower_ino_map sbi) with
    | None => sbi
    | Some v => sbi <| lower_ino_map := rht_remove key v (lower_ino_map sbi) |>
    end.

(** ** OID writeback *)

(** One pass of the worker: [faults i] is the xattr error of the i-th entry. *)
Fixpoint oid_wb_write (faults : nat -> Z) (i : nat) (lower_ : gmap Z lnode)
    (batch : list (path * list Z)) : gmap Z lnode :=
  match batch with
  | [] => lower_
  | (p, o) :: batch =>
      let lower_ := match lower_ !! p_dentry p with
                    | None => lower_
                    | Some l => <[p_dentry p := snd (smoothfs_write_oid_xattr (faults i) l o)]> lower_
                    end in
      oid_wb_write faults (S i) lower_ batch
  end.

Definition smoothfs_oid_wb_worker (faults : nat -> Z) (pl : pool) : pool :=
  pl <| p_sbi := p_sbi pl <| lower := oid_wb_write faults 0 (lower (p_sbi pl)) (oid_wb_pending pl) |> |>
     <| oid_wb_pending := [] |>.

(** The lower inode [d] lost its last link: nothing to persist on. *)
Definition smoothfs_oid_wb_forget (pl : pool) (d : option Z) : pool :=
  match d with
  | None => pl
  | Some d =>
      match lower (p_sbi pl) !! d with
      | Some l =>
          if negb (l_nlink l =? 0) || negb (oid_wb_ready pl) then pl
          else pl <| oid_wb_pending := filter (fun e => p_dentry e.1 <> d) (oid_wb_pending pl) |>
      | None => pl
      end
  end.

Definition smoothfs_oid_wb_drain (faults : nat -> Z) (pl : pool) : pool :=
  if negb (oid_wb_ready pl) then pl else smoothfs_oid_wb_worker faults pl.

Definition smoothfs_oid_wb_destroy (faults : nat -> Z) (pl : pool) : pool :=
  if negb (oid_wb_ready pl) then pl
  else smoothfs_oid_wb_worker faults (pl <| oid_wb_ready := false |>).

(** The oldest pending id of this lower inode. *)
Definition smoothfs_oid_wb_peek (pl : pool) (p : path) : option (list Z) :=
  if negb (oid_wb_ready pl) then None
  else match lower (p_sbi pl) !! p_dentry p with
       | None => None
       | Some _ => snd <$> (snd <$> list_find (fun e : path * list Z => p_dentry e.1 = p_dentry p)
                                      (oid_wb_pending pl))
       end.

Definition smoothfs_oid_wb_queue (fault : Z) (alloc : bool) (pl : pool) (p : path) (o : list Z)
  : Z * pool :=
  if negb (oid_wb_ready pl) then
    match lower (p_sbi pl) !! p_dentry p with
    | None => (- EIO, pl)
    | Some l =>
        let (err, l) := smoothfs_write_oid_xattr fault l o in
        (err, pl <| p_sbi := p_sbi pl <| lower := <[p_dentry p := l]> (lower (p_sbi pl)) |> |>)
    end
  else if negb alloc then (- ENOMEM, pl)
  else (0, pl <| oid_wb_pending := oid_wb_pending pl ++ [(p, o)] |>).

(** ** Inodes *)

(** [smoothfs_alloc_inode].  The four [last_drain*] members are not written
    there; [garbage] is what the slab object held. *)
Definition smoothfs_alloc_inode (garbage ino : Z) : inode_info :=
  InodeInfo ino FT_REG 0 0 1 zero_oid 0 0 0 MS_PLACED PIN_NONE 1 0 0 None [] 0 0 0 0 0 0
    garbage garbage garbage garbage false None false false.

Definition smoothfs_copy_attrs (si : inode_info) (l : lnode) : inode_info :=
  si <| i_type := l_type l |> <| i_perm := l_perm l |> <| i_size := l_size l |>
     <| i_nlink := l_nlink l |>.

(** What the kernel decides during one [smoothfs_iget]. *)
Record iget_env := IgetEnv {
  ie_xxh64 : list Z -> Z;
  ie_le : bool; ie_now : Z; ie_rand : Z;       (* smoothfs_alloc_oid *)
  ie_read1 : Z; ie_read2 : Z; ie_readgen : Z;  (* xattr faults *)
  ie_wb : nat -> Z;                            (* faults of a synchronous drain *)
  ie_queue : Z; ie_queue_mem : bool;
  ie_mem : bool;                               (* iget_locked has memory *)
  ie_oid_insert : Z; ie_lower_insert : Z;
  ie_garbage : Z;
}.

(** The OID of a lower object that has no usable cache entry: from its xattr,
    from the queue, or newly minted.  Returns the id and the generation. *)
Definition iget_identity (e : iget_env) (fresh : bool) (p : path) (l : lnode) (pl : pool)
  : pool * result (list Z * Z) :=
  let '(pl, r) :=
    if fresh then (pl, Err (- ENODATA))
    else match smoothfs_read_oid_xattr (ie_read1 e) l with
         | Err err =>
             if err =? - ENODATA then
               match smoothfs_oid_wb_peek pl p with
               | Some o => (pl, Ok o)
               | None =>
                   let pl := smoothfs_oid_wb_drain (ie_wb e) pl in
                   (pl, smoothfs_read_oid_xattr (ie_read2 e)
                          (default l (lower (p_sbi pl) !! p_dentry p)))
               end
             else (pl, Err err)
         | Ok o => (pl, Ok o)
         end in
  match r with
  | Ok o => (pl, Ok (o, snd (smoothfs_read_gen_xattr (ie_readgen e) l 0)))
  | Err err =>
      if err =? - ENODATA then
        let (sbi, o) := smoothfs_alloc_oid (ie_le e) (ie_now e) (ie_rand e) (p_sbi pl) in
        let (qerr, pl) := smoothfs_oid_wb_queue (ie_queue e) (ie_queue_mem e) (pl <| p_sbi := sbi |>) p o in
        if negb (qerr =? 0) then (pl, Err qerr) else (pl, Ok (o, 0))
      else (pl, Err err)
  end.

(** A new inode enters the cache, the list and the OID table. *)
Definition iget_new (e : iget_env) (root : bool) (p : path) (l : lnode) (o : list Z) (g tier_idx ino : Z)
    (pl : pool) : pool * result Z :=
  let sbi := p_sbi pl in
  let si := smoothfs_alloc_inode (ie_garbage e) ino <| oid := o |> <| gen := g |>
              <| lower_path := Some p |> in
  let tier := if root then 0
              else if tier_idx <? SMOOTHFS_MAX_TIERS then tier_idx else smoothfs_tier_of sbi (p_mnt p) in
  let si := smoothfs_copy_attrs (si <| current_tier := tier |> <| intended_tier := tier |>) l in
  let sbi := sbi <| inode_list := ino :: inode_list sbi |> in
  let (err, sbi) := smoothfs_oid_map_insert (ie_oid_insert e) sbi si in
  if negb (err =? 0) && negb (err =? - EEXIST)
  then (pl <| p_sbi := sbi <| inode_list := inode_list (p_sbi pl) |> |>, Err err)
  else
    let sbi := put_inode sbi si in
    let sbi := if negb root && (tier_idx <? SMOOTHFS_MAX_TIERS)
               then snd (smoothfs_lower_ino_map_insert (ie_lower_insert e) sbi tier_idx (l_ino l) ino)
               else sbi in
    (pl <| p_sbi := sbi |>, Ok ino).

(** [iget_locked]: the cached inode of this number, or a new one. *)
Definition iget_locked (e : iget_env) (root : bool) (p : path) (l : lnode) (o : list Z) (g tier_idx ino : Z)
    (pl : pool) : pool * result Z :=
  if negb (ie_mem e) then (pl, Err (- ENOMEM))
  else match inodes (p_sbi pl) !! ino with
       | Some _ => (pl, Ok ino)
       | None => iget_new e root p l o g tier_idx ino pl
       end.

(** The backing check of a cache hit: same mount, same lower inode. *)
Definition backing_matches (si : inode_info) (p : path) : bool :=
  match lower_path si with
  | Some q => (p_mnt q =? p_mnt p) && (p_dentry q =? p_dentry p)
  | None => false
  end.

Definition smoothfs_iget (e : iget_env) (root fresh : bool) (p : path) (l : lnode) (pl : pool)
  : pool * result Z :=
  if root then iget_locked e true p l zero_oid 0 SMOOTHFS_MAX_TIERS 1 pl
  else
    let tier_idx := smoothfs_tier_of (p_sbi pl) (p_mnt p) in
    let cached := smoothfs_lower_ino_map_get (p_sbi pl) tier_idx (l_ino l) in
    let hit := if cached =? 0 then None else inodes (p_sbi pl) !! cached in
    match hit with
    | Some si =>
        if backing_matches si p then (pl, Ok cached)
        else
          let pl := pl <| p_sbi := smoothfs_lower_ino_map_remove (p_sbi pl) tier_idx (l_ino l) |> in
          match iget_identity e fresh p l pl with
          | (pl, Err err) => (pl, Err err)
          | (pl, Ok (o, g)) =>
              iget_locked e false p l o g tier_idx (smoothfs_inode_no_from_oid (ie_xxh64 e) o) pl
          end
    | None =>
        match iget_identity e fresh p l pl with
        | (pl, Err err) => (pl, Err err)
        | (pl, Ok (o, g)) =>
            iget_locked e false p l o g tier_idx (smoothfs_inode_no_from_oid (ie_xxh64 e) o) pl
        end
    end.

(** Take the inode out of every index; its lower object is released. *)
Definition smoothfs_evict_inode (sbi : sb_info) (si : inode_info) : sb_info :=
  let (sbi, si) := smoothfs_clear_write_reservation sbi si in
  let sbi := smoothfs_oid_map_remove sbi si in
  let (sbi, si) := smoothfs_path_map_del sbi si in
  let sbi := match lower_path si with
             | Some p =>
                 let t := smoothfs_tier_of sbi (p_mnt p) in
                 if t <? SMOOTHFS_MAX_TIERS
                 then match lower sbi !! p_dentry p with
                      | Some l => smoothfs_lower_ino_map_remove sbi t (l_ino l)
                      | None => sbi
                      end
                 else sbi
             | None => sbi
             end in
  sbi <| inode_list := filter (fun i => i <> i_ino si) (inode_list sbi) |>
      <| inodes := delete (i_ino si) (inodes sbi) |>.

(** [smoothfs_set_inode_placement]-style change of the relative path: out of
    the table, new string, back in. *)
Definition replace_rel_path (fault : Z) (sbi : sb_info) (si : inode_info) (p : option string)
  : sb_info * inode_info :=
  let (sbi, si) := smoothfs_path_map_del sbi si in
  smoothfs_path_map_add fault sbi (si <| rel_path := p |>).

(** ** Tables: lemmas *)

Section RhtProps.
Context {K : Type} `{EqDecision K}.
Implicit Types t : list (K * Z).

Lemma rht_lookup_elem k v t : rht_lookup k t = Some v -> (k, v) ∈ t.
Proof.
  unfold rht_lookup. destruct (list_find _ _) as [[i [k' v']]|] eqn:E; [|done].
  intros [= <-]. apply list_find_Some in E as (H1 & H2 & _). cbn in H2. subst.
  by eapply list_elem_of_lookup_2.
Qed.

Lemma rht_lookup_is_Some k v t : (k, v) ∈ t -> is_Some (rht_lookup k t).
Proof.
  intros Hin. unfold rht_lookup.
  destruct (list_find (fun e => e.1 = k) t) as [[i e]|] eqn:E; [by eexists|].
  apply list_find_None in E. rewrite Forall_forall in E. by apply E in Hin.
Qed.

Lemma rht_remove_incl k v t e : e ∈ rht_remove k v t -> e ∈ t.
Proof.
  induction t as [|a t IH]; simpl; [done|]. case_goal; [by right|].
  intros [->|H]%elem_of_cons; [left|right; auto].
Qed.

Lemma rht_remove_other k v t e : e ∈ t -> e <> (k, v) -> e ∈ rht_remove k v t.
Proof.
  induction t as [|a t IH]; simpl; [done|]. intros [->|H]%elem_of_cons Hne.
  - case_goal; [|left]. to_prop. destruct a as [a b]; cbn in *.
    match goal with H : bool_decide _ = true |- _ => apply bool_decide_eq_true in H end. by subst.
  - case_goal; [done|]. right. auto.
Qed.

Lemma rht_remove_NoDup k v t : NoDup (snd <$> t) -> NoDup (snd <$> rht_remove k v t).
Proof.
  induction t as [|a t IH]; simpl; [done|]. intros [Ha Ht]%NoDup_cons. case_goal; [done|].
  simpl. apply NoDup_cons. split; [|auto]. intros Hin. apply Ha.
  apply list_elem_of_fmap in Hin as (x & -> & Hx). apply list_elem_of_fmap_2.
  by eapply rht_remove_incl.
Qed.

(** With each value present once, removal leaves no entry of the value. *)
Lemma rht_remove_gone k v t k' :
  NoDup (snd <$> t) -> (forall k', (k', v) ∈ t -> k' = k) -> (k', v) ∉ rht_remove k v t.
Proof.
  induction t as [|[a b] t IH]; simpl; [intros _ _ H; by apply not_elem_of_nil in H|].
  intros [Ha Ht]%NoDup_cons Hk. destruct (bool_decide (a = k) && (b =? v)) eqn:E.
  - to_prop. subst b. intros Hin. apply Ha. apply list_elem_of_fmap. by exists (k', v).
  - intros [Heq|Hin]%elem_of_cons.
    + injection Heq as -> ->. assert (a = k) as -> by (apply Hk; left).
      by rewrite bool_decide_true, Z.eqb_refl in E.
    + apply IH in Hin; [done|done|]. intros k0 H0. apply Hk. by right.
Qed.
End RhtProps.

(** ** The invariant of the indices *)

Record index_ok (sbi : sb_info) : Prop := IndexOk {
  ix_oid_ready : oid_map_ready sbi = true;
  ix_path_ready : path_map_ready sbi = true;
  ix_ino : forall ino si, inodes sbi !! ino = Some si -> i_ino si = ino;
  ix_oid : forall o ino, (o, ino) ∈ oid_map sbi ->
    o <> zero_oid /\ exists si, inodes sbi !! ino = Some si /\ oid si = o;
  ix_oid_nodup : NoDup (snd <$> oid_map sbi);
  ix_path : forall p ino, (p, ino) ∈ path_map sbi ->
    exists si, inodes sbi !! ino = Some si /\ rel_path si = Some p /\ path_hashed si = true;
  ix_path_nodup : NoDup (snd <$> path_map sbi);
  ix_list : forall ino, ino ∈ inode_list sbi <-> is_Some (inodes sbi !! ino);
  ix_list_nodup : NoDup (inode_list sbi);
}.

(** Nothing in the pool refers to inode [ino] any more, the lower-inode cache
    apart, whose entries are checked when they are used. *)
Definition no_reference (sbi : sb_info) (ino : Z) : Prop :=
  inodes sbi !! ino = None /\ (ino ∉ inode_list sbi)
  /\ (forall o, ~ ((o, ino) ∈ oid_map sbi)) /\ (forall p, ~ ((p, ino) ∈ path_map sbi)).

Lemma clear_reservation_frame sbi si sbi' si' :
  smoothfs_clear_write_reservation sbi si = (sbi', si') ->
  oid_map sbi' = oid_map sbi /\ oid_map_ready sbi' = oid_map_ready sbi
  /\ path_map sbi' = path_map sbi /\ path_map_ready sbi' = path_map_ready sbi
  /\ inodes sbi' = inodes sbi /\ inode_list sbi' = inode_list sbi
  /\ i_ino si' = i_ino si /\ oid si' = oid si /\ rel_path si' = rel_path si
  /\ path_hashed si' = path_hashed si /\ lower_path si' = lower_path si.
Proof. unfold smoothfs_clear_write_reservation. repeat case_goal; intros [= <- <-]; done. Qed.

Lemma lower_ino_remove_frame sbi t l :
  let sbi' := smoothfs_lower_ino_map_remove sbi t l in
  oid_map sbi' = oid_map sbi /\ oid_map_ready sbi' = oid_map_ready sbi
  /\ path_map sbi' = path_map sbi /\ path_map_ready sbi' = path_map_ready sbi
  /\ inodes sbi' = inodes sbi /\ inode_list sbi' = inode_list sbi
  /\ lower sbi' = lower sbi /\ oid_monotonic sbi' = oid_monotonic sbi.
Proof. cbv zeta. unfold smoothfs_lower_ino_map_remove. repeat case_goal; done. Qed.

(** The inodes a lower key is mapped to, the newest first: the table keeps
    entries that a newer one shadows. *)
Fixpoint mapped_to (k : Z) (m : list (Z * Z)) : list Z :=
  match m with
  | [] => []
  | e :: m => if e.1 =? k then e.2 :: mapped_to k m else mapped_to k m
  end.

Lemma mapped_lookup k m : rht_lookup k m = head (mapped_to k m).
Proof.
  unfold rht_lookup. induction m as [|[k' v] m IH]; [done|]. cbn [list_find mapped_to fst snd].
  destruct (Z.eqb_spec k' k) as [->|Hne]; [by rewrite decide_True|].
  rewrite decide_False by done. rewrite <- IH. by destruct (list_find _ m) as [[? ?]|].
Qed.

Lemma mapped_remove k k' v m : rht_lookup k m = Some v ->
  mapped_to k' (rht_remove k v m) = if decide (k' = k) then tail (mapped_to k' m) else mapped_to k' m.
Proof.
  rewrite mapped_lookup. induction m as [|[k1 v1] m IH]; [done|]. cbn [rht_remove mapped_to fst snd].
  destruct (Z.eqb_spec k1 k) as [->|Hne].
  - intros [= ->]. rewrite bool_decide_true, Z.eqb_refl by done. cbn [andb].
    case_decide as Hk; [subst; by rewrite Z.eqb_refl|]. destruct (Z.eqb_spec k k'); congruence.
  - intros Hv. rewrite bool_decide_false by done. cbn [andb mapped_to fst snd]. rewrite (IH Hv).
    destruct (Z.eqb_spec k1 k') as [<-|Hn]; [|done]. by rewrite !decide_False.
Qed.

(** What moving an inode from the lower key [old], if it had one, to [new] does to
    the table, key by key: the newest entry under [old] goes, and unless the
    insertion failed the inode is put in front under [new]. *)
Definition remapped (old : option Z) (new fault ino : Z) (sbi sbi' : sb_info) : Prop :=
  if lower_ino_map_ready sbi
  then forall k, mapped_to k (lower_ino_map sbi')
         = (if decide (k = new /\ 0 <= fault) then [ino] else [])
           ++ (if decide (Some k = old) then tail (mapped_to k (lower_ino_map sbi)) else mapped_to k (lower_ino_map sbi))
  else lower_ino_map sbi' = lower_ino_map sbi.

(** [sbi1] is [sbi] without the newest entry under [old]. *)
Definition unmapped (old : option Z) (sbi sbi1 : sb_info) : Prop :=
  if lower_ino_map_ready sbi
  then forall k, mapped_to k (lower_ino_map sbi1)
         = (if decide (Some k = old) then tail (mapped_to k (lower_ino_map sbi)) else mapped_to k (lower_ino_map sbi))
  else lower_ino_map sbi1 = lower_ino_map sbi.

Lemma lower_map_unmaps sbi sbi1 t i :
  lower_ino_map sbi1 = lower_ino_map (smoothfs_lower_ino_map_remove sbi t i) ->
  unmapped (Some (smoothfs_lower_key t i)) sbi sbi1.
Proof.
  unfold unmapped, smoothfs_lower_ino_map_remove. intros Hm. destruct (lower_ino_map_ready sbi); cbn [negb] in *; [|exact Hm].
  intros k. rewrite Hm. destruct (rht_lookup _ _) as [v|] eqn:E; cbn.
  - rewrite (mapped_remove _ _ _ _ E). destruct (decide (k = _)) as [->|Hne]; [by rewrite decide_True|].
    rewrite decide_False; [done|congruence].
  - case_decide as Hd; [|done]. injection Hd as ->. rewrite mapped_lookup in E. by destruct (mapped_to _ _).
Qed.

Lemma unmapped_refl sbi sbi1 : lower_ino_map sbi1 = lower_ino_map sbi -> unmapped None sbi sbi1.
Proof. intros E. unfold unmapped. rewrite E. by case_goal. Qed.

Lemma lower_map_moves fault old sbi sbi1 t' i' ino : unmapped old sbi sbi1 ->
  lower_ino_map_ready sbi1 = lower_ino_map_ready sbi ->
  remapped old (smoothfs_lower_key t' i') fault ino sbi
    (snd (smoothfs_lower_ino_map_insert fault sbi1 t' i' ino)).
Proof.
  intros Hk Hr. unfold remapped, smoothfs_lower_ino_map_insert. rewrite Hr.
  unfold unmapped in Hk. destruct (lower_ino_map_ready sbi); cbn [negb] in *; [|exact Hk].
  intros k. destruct (Z.ltb_spec fault 0); cbn [snd].
  - rewrite (decide_False (P := _ /\ 0 <= fault)) by (intros [_ ?]; lia). by rewrite Hk.
  - change (lower_ino_map (sbi1 <| lower_ino_map := ?m |>)) with m. cbn [mapped_to fst snd].
    destruct (Z.eqb_spec (smoothfs_lower_key t' i') k) as [<-|Hne].
    + rewrite (decide_True (P := _ /\ 0 <= fault)) by done. cbn [app]. f_equal. apply Hk.
    + rewrite (decide_False (P := _ /\ 0 <= fault)) by (intros [? _]; congruence). apply Hk.
Qed.

Lemma index_ok_frame sbi sbi' :
  oid_map sbi' = oid_map sbi -> oid_map_ready sbi' = oid_map_ready sbi ->
  path_map sbi' = path_map sbi -> path_map_ready sbi' = path_map_ready sbi ->
  inodes sbi' = inodes sbi -> inode_list sbi' = inode_list sbi -> index_ok sbi -> index_ok sbi'.
Proof.
  intros E1 E2 E3 E4 E5 E6 [? ? ? ? ? ? ? ? ?].
  constructor; rewrite ?E1, ?E2, ?E3, ?E4, ?E5, ?E6; done.
Qed.

(** What [smoothfs_evict_inode] leaves in each index. *)
Lemma evict_shape sbi si :
  index_ok sbi -> inodes sbi !! i_ino si = Some si ->
  let sbi' := smoothfs_evict_inode sbi si in
  oid_map_ready sbi' = true /\ path_map_ready sbi' = true
  /\ inodes sbi' = delete (i_ino si) (inodes sbi)
  /\ inode_list sbi' = filter (fun i => i <> i_ino si) (inode_list sbi)
  /\ oid_map sbi' = (if bytes_eqb (oid si) zero_oid then oid_map sbi
                     else rht_remove (oid si) (i_ino si) (oid_map sbi))
  /\ path_map sbi' = (if path_hashed si
                      then match rel_path si with
                           | Some p => rht_remove p (i_ino si) (path_map sbi)
                           | None => path_map sbi
                           end
                      else path_map sbi).
Proof.
  intros Hok Hsi. cbv zeta. unfold smoothfs_evict_inode.
  destruct (smoothfs_clear_write_reservation sbi si) as [sbi1 si1] eqn:Ec.
  apply clear_reservation_frame in Ec as (F1&F2&F3&F4&F5&F6&F7&F8&F9&F10&F11).
  destruct Hok as [R1 R2 _ _ _ _ _ _ _].
  set (sbi2 := smoothfs_oid_map_remove sbi1 si1).
  assert (oid_map sbi2 = (if bytes_eqb (oid si) zero_oid then oid_map sbi
      else rht_remove (oid si) (i_ino si) (oid_map sbi)) /\ oid_map_ready sbi2 = true
      /\ path_map sbi2 = path_map sbi /\ path_map_ready sbi2 = true /\ inodes sbi2 = inodes sbi
      /\ inode_list sbi2 = inode_list sbi) as (G1&G2&G3&G4&G5&G6).
  { unfold sbi2, smoothfs_oid_map_remove. rewrite F2, R1, F8, F7. cbn [negb].
    case_goal; cbn; rewrite ?F1, ?F2, ?F3, ?F4, ?F5, ?F6, ?R1, ?R2; done. }
  clearbody sbi2. unfold smoothfs_path_map_del. rewrite F10, G4, F9, F7.
  assert (forall s3 si3, i_ino si3 = i_ino si ->
    let s4 := match lower_path si3 with
      | Some p => if smoothfs_tier_of s3 (p_mnt p) <? SMOOTHFS_MAX_TIERS
                  then match lower s3 !! p_dentry p with
                       | Some l => smoothfs_lower_ino_map_remove s3 (smoothfs_tier_of s3 (p_mnt p)) (l_ino l)
                       | None => s3 end
                  else s3
      | None => s3 end in
    oid_map s4 = oid_map s3 /\ oid_map_ready s4 = oid_map_ready s3 /\ path_map s4 = path_map s3
    /\ path_map_ready s4 = path_map_ready s3 /\ inodes s4 = inodes s3 /\ inode_list s4 = inode_list s3) as Hlow.
  { intros s3 si3 _. cbv zeta. repeat case_goal; try done.
    match goal with |- context [smoothfs_lower_ino_map_remove ?a ?b ?c] =>
      destruct (lower_ino_remove_frame a b c) as (L1&L2&L3&L4&L5&L6&_) end. done. }
  destruct (path_hashed si); cbn [negb]; [destruct (rel_path si) as [p|]|];
    match goal with |- context [match lower_path ?x with _ => _ end] =>
      match goal with |- context [smoothfs_tier_of ?s _] =>
        destruct (Hlow s x) as (L1&L2&L3&L4&L5&L6); [cbn; congruence|] end end;
    cbn -[smoothfs_tier_of] in *; rewrite ?L1, ?L2, ?L3, ?L4, ?L5, ?L6, ?G1, ?G2, ?G3, ?G4, ?G5, ?G6, ?F7; done.
Qed.

Lemma evict_spec sbi si :
  index_ok sbi -> inodes sbi !! i_ino si = Some si ->
  (path_hashed si = true -> is_Some (rel_path si)) ->
  index_ok (smoothfs_evict_inode sbi si) /\ no_reference (smoothfs_evict_inode sbi si) (i_ino si).
Proof.
  intros Hok Hsi Hph. destruct (evict_shape sbi si Hok Hsi) as (E1&E2&E3&E4&E5&E6).
  set (sbi' := smoothfs_evict_inode sbi si) in *. clearbody sbi'.
  destruct Hok as [R1 R2 H1 H2 H3 H4 H5 H6 H7].
  assert (forall o, (o, i_ino si) ∉ oid_map sbi') as No.
  { intros o. rewrite E5. case_goal.
    - apply bytes_eqb_eq in E. intros Hin. apply H2 in Hin as (Hz & s & Hs & <-).
      rewrite Hsi in Hs. by injection Hs as <-.
    - apply rht_remove_gone; [done|]. intros o' Hin. apply H2 in Hin as (_ & s & Hs & <-).
      rewrite Hsi in Hs. by injection Hs as <-. }
  assert (forall p, (p, i_ino si) ∉ path_map sbi') as Np.
  { intros p. rewrite E6. destruct (path_hashed si) eqn:Eh.
    - destruct (Hph eq_refl) as [q Hq]. rewrite Hq. apply rht_remove_gone; [done|].
      intros p' Hin. apply H4 in Hin as (s & Hs & Hr & _). rewrite Hsi in Hs. injection Hs as <-.
      congruence.
    - intros Hin. apply H4 in Hin as (s & Hs & _ & Hh). rewrite Hsi in Hs. injection Hs as <-.
      by rewrite Eh in Hh. }
  assert (forall i, i <> i_ino si -> inodes sbi' !! i = inodes sbi !! i) as Hne
    by (intros; rewrite E3; by rewrite lookup_delete_ne).
  split.
  - constructor; try done.
    + intros ino s Hs. rewrite E3 in Hs. apply lookup_delete_Some in Hs as [_ Hs]. by apply H1.
    + intros o ino Hin. destruct (decide (ino = i_ino si)) as [->|Hn]; [by apply No in Hin|].
      rewrite Hne by done. apply H2. rewrite E5 in Hin. case_hyp Hin; [done|]. by eapply rht_remove_incl.
    + rewrite E5. case_goal; [done|]. by apply rht_remove_NoDup.
    + intros p ino Hin. destruct (decide (ino = i_ino si)) as [->|Hn]; [by apply Np in Hin|].
      rewrite Hne by done. apply H4. rewrite E6 in Hin. repeat case_hyp Hin; try done. by eapply rht_remove_incl.
    + rewrite E6. repeat case_goal; try done. by apply rht_remove_NoDup.
    + intros ino. rewrite E4, list_elem_of_filter, H6, E3. destruct (decide (ino = i_ino si)) as [->|Hn].
      * rewrite lookup_delete_eq. split; [by intros [? _]|by intros [? ?]].
      * rewrite lookup_delete_ne by done. tauto.
    + rewrite E4. by apply NoDup_filter.
  - split_and!; [rewrite E3; apply lookup_delete_eq| |done|done].
    rewrite E4, list_elem_of_filter. by intros [? _].
Qed.

(** Evicting an inode keeps the cache indices consistent and leaves no entry of
    the object map, the path map or the inode list that refers to it. *)
Theorem evict_leaves_no_reference sbi si :
  index_ok sbi -> inodes sbi !! i_ino si = Some si ->
  (path_hashed si = true -> is_Some (rel_path si)) ->
  index_ok (smoothfs_evict_inode sbi si) /\ no_reference (smoothfs_evict_inode sbi si) (i_ino si).
Proof. apply evict_spec. Qed.

(** ** iget *)

Lemma oid_wb_queue_frame fault alloc pl p o err pl' :
  smoothfs_oid_wb_queue fault alloc pl p o = (err, pl') ->
  oid_map (p_sbi pl') = oid_map (p_sbi pl) /\ oid_map_ready (p_sbi pl') = oid_map_ready (p_sbi pl)
  /\ path_map (p_sbi pl') = path_map (p_sbi pl) /\ path_map_ready (p_sbi pl') = path_map_ready (p_sbi pl)
  /\ inodes (p_sbi pl') = inodes (p_sbi pl) /\ inode_list (p_sbi pl') = inode_list (p_sbi pl).
Proof.
  unfold smoothfs_oid_wb_queue. destruct (oid_wb_ready pl); cbn [negb].
  - destruct alloc; cbn [negb]; by intros [= <- <-].
  - destruct (lower (p_sbi pl) !! p_dentry p) as [l0|]; [|by intros [= <- <-]].
    destruct (smoothfs_write_oid_xattr _ _ _) as [we wl]. by intros [= <- <-].
Qed.

(** A failed or successful identity step leaves the indices alone; the id it
    yields is the one on the lower file or in the queue, when there is one. *)
Lemma identity_frame e fresh p l pl pl' r :
  iget_identity e fresh p l pl = (pl', r) ->
  oid_map (p_sbi pl') = oid_map (p_sbi pl) /\ oid_map_ready (p_sbi pl') = oid_map_ready (p_sbi pl)
  /\ path_map (p_sbi pl') = path_map (p_sbi pl) /\ path_map_ready (p_sbi pl') = path_map_ready (p_sbi pl)
  /\ inodes (p_sbi pl') = inodes (p_sbi pl) /\ inode_list (p_sbi pl') = inode_list (p_sbi pl).
Proof.
  unfold iget_identity.
  match goal with |- context [let '(_, _) := ?x in _] => destruct x as [pl1 r1] eqn:E1 end.
  assert (oid_map (p_sbi pl1) = oid_map (p_sbi pl) /\ oid_map_ready (p_sbi pl1) = oid_map_ready (p_sbi pl)
    /\ path_map (p_sbi pl1) = path_map (p_sbi pl) /\ path_map_ready (p_sbi pl1) = path_map_ready (p_sbi pl)
    /\ inodes (p_sbi pl1) = inodes (p_sbi pl) /\ inode_list (p_sbi pl1) = inode_list (p_sbi pl))
    as (F1&F2&F3&F4&F5&F6).
  { unfold smoothfs_oid_wb_drain, smoothfs_oid_wb_worker in E1.
    destruct fresh; [by injection E1 as <- <-|].
    destruct (smoothfs_read_oid_xattr _ _) as [err0|o0]; [|by injection E1 as <- <-].
    destruct (err0 =? - ENODATA); [|by injection E1 as <- <-].
    destruct (smoothfs_oid_wb_peek pl p); [by injection E1 as <- <-|].
    destruct (oid_wb_ready pl); by injection E1 as <- <-. }
  destruct r1 as [err|o]; [|intros [= <- <-]; done].
  destruct (err =? - ENODATA); [|intros [= <- <-]; done].
  destruct (smoothfs_alloc_oid _ _ _ _) as [sbi2 o] eqn:Ea. injection Ea as <- _.
  destruct (smoothfs_oid_wb_queue _ _ _ _ _) as [qerr pl2] eqn:Eq.
  apply oid_wb_queue_frame in Eq as (Q1&Q2&Q3&Q4&Q5&Q6).
  destruct (qerr =? 0); intros [= <- <-]; rewrite Q1, Q2, Q3, Q4, Q5, Q6; done.
Qed.

(** The identity a lower object already has. *)
Definition known_oid (pl : pool) (p : path) (l : lnode) : option (list Z) :=
  match l_oid l with
  | Some o => Some o
  | None => smoothfs_oid_wb_peek pl p
  end.

Lemma read_oid_present l o :
  l_oid l = Some o -> length o = SMOOTHFS_OID_LEN -> smoothfs_read_oid_xattr 0 l = Ok o.
Proof.
  intros Ho Hl. unfold smoothfs_read_oid_xattr, vfs_getxattr. rewrite Ho, Hl. cbn.
  by rewrite Hl.
Qed.

Lemma read_oid_absent l : l_oid l = None -> smoothfs_read_oid_xattr 0 l = Err (- ENODATA).
Proof. intros Ho. unfold smoothfs_read_oid_xattr, vfs_getxattr. by rewrite Ho. Qed.

Lemma identity_known e p l pl o :
  ie_read1 e = 0 -> known_oid pl p l = Some o -> length o = SMOOTHFS_OID_LEN ->
  exists g, iget_identity e false p l pl = (pl, Ok (o, g)).
Proof.
  intros Hr Hk Hl. unfold iget_identity, known_oid in *. rewrite Hr.
  destruct (l_oid l) as [o'|] eqn:El.
  - injection Hk as ->. rewrite (read_oid_present l o) by done. by eexists.
  - rewrite (read_oid_absent l) by done. rewrite Z.eqb_refl, Hk. by eexists.
Qed.

(** Adding a fresh inode to the cache, the list and (unless its id is zero)
    the OID table keeps the indices consistent. *)
Lemma iget_new_index_ok sbi sbi' si ino o :
  index_ok sbi -> inodes sbi !! ino = None -> i_ino si = ino -> oid si = o ->
  path_hashed si = false ->
  oid_map_ready sbi' = true -> path_map_ready sbi' = true -> path_map sbi' = path_map sbi ->
  (oid_map sbi' = oid_map sbi /\ o = zero_oid
   \/ oid_map sbi' = (o, ino) :: oid_map sbi /\ o <> zero_oid) ->
  inodes sbi' = <[ino := si]> (inodes sbi) -> inode_list sbi' = ino :: inode_list sbi ->
  index_ok sbi'.
Proof.
  intros [R1 R2 H1 H2 H3 H4 H5 H6 H7] Hn Hi Ho Hph E1 E2 E3 E4 E5 E6.
  assert (Hnl : ino ∉ inode_list sbi) by (rewrite H6, Hn; by intros [? ?]).
  assert (forall i s, inodes sbi !! i = Some s -> <[ino := si]> (inodes sbi) !! i = Some s) as Hmono.
  { intros i s Hs. rewrite lookup_insert_ne; [done|]. intros <-. congruence. }
  constructor; try done; rewrite ?E3, ?E5, ?E6.
  - intros i s Hs. apply lookup_insert_Some in Hs as [[<- <-]|[_ Hs]]; [done|by apply H1].
  - intros o' i Hin. assert ((o', i) = (o, ino) /\ o <> zero_oid \/ (o', i) ∈ oid_map sbi) as [[[= -> ->] Hz]|Hin'].
    { destruct E4 as [[E4 _]|[E4 Hz]]; rewrite E4 in Hin; [by right|]. apply elem_of_cons in Hin as [?|?]; auto. }
    + split; [done|]. exists si. by rewrite lookup_insert_eq.
    + destruct (H2 _ _ Hin') as (Hz & s & Hs & Hos). split; [done|]. exists s. auto.
  - destruct E4 as [[-> _]|[-> _]]; [done|]. rewrite fmap_cons. apply NoDup_cons. split; [|exact H3]. cbn.
    intros ([o' i] & Hoi & Hin)%list_elem_of_fmap. cbn in Hoi. subst i. apply H2 in Hin as (_ & s & Hs & _).
    cbn in *. congruence.
  - intros p i Hin. destruct (H4 _ _ Hin) as (s & Hs & Hr). exists s. auto.
  - exact H5.
  - intros i. rewrite elem_of_cons, H6. destruct (decide (i = ino)) as [->|Hne].
    + rewrite lookup_insert_eq. split; [by eauto|by left].
    + rewrite lookup_insert_ne by done. split; [by intros [?|?]|by right].
  - apply NoDup_cons. by split.
Qed.

Lemma iget_locked_spec e root p l o g t ino pl pl' r :
  index_ok (p_sbi pl) -> ie_oid_insert e <> - EEXIST ->
  iget_locked e root p l o g t ino pl = (pl', r) ->
  index_ok (p_sbi pl')
  /\ (forall i, r = Ok i -> i = ino /\
      (inodes (p_sbi pl) !! ino = None ->
         exists si, inodes (p_sbi pl') !! ino = Some si /\ oid si = o /\ lower_path si = Some p
           /\ (o <> zero_oid -> (o, ino) ∈ oid_map (p_sbi pl')))
      /\ (is_Some (inodes (p_sbi pl) !! ino) -> pl' = pl)).
Proof.
  intros Hok Hz. unfold iget_locked. destruct (ie_mem e); cbn [negb]; [|by intros [= <- <-]].
  destruct (inodes (p_sbi pl) !! ino) as [s|] eqn:Ei.
  { intros [= <- <-]. split; [done|]. intros i [= <-]. split_and!; [done|done|done]. }
  unfold iget_new. set (si := smoothfs_copy_attrs _ _).
  assert (oid si = o /\ i_ino si = ino /\ lower_path si = Some p /\ rel_path si = None
          /\ path_hashed si = false) as (S1&S2&S3&S4&S5) by done.
  clearbody si. destruct Hok as [R1 R2 H1 H2 H3 H4 H5 H6 H7].
  set (s1 := p_sbi pl <| inode_list := _ |>).
  destruct (smoothfs_oid_map_insert (ie_oid_insert e) s1 si) as [err s2] eqn:Eo.
  assert ((err = 0 /\ s2 = s1 /\ o = zero_oid)
       \/ (err = 0 /\ s2 = s1 <| oid_map := (o, ino) :: oid_map s1 |> /\ o <> zero_oid)
       \/ (err < 0 /\ err <> - EEXIST /\ s2 = s1)) as Hcase.
  { unfold smoothfs_oid_map_insert in Eo. rewrite S1, S2 in Eo.
    destruct (bytes_eqb o zero_oid) eqn:Ez; [injection Eo as <- <-; left; by apply bytes_eqb_eq in Ez|].
    apply bytes_eqb_neq in Ez. destruct (Z.ltb_spec (ie_oid_insert e) 0); injection Eo as <- <-; auto 6. }
  intros Heq. assert (Hnew : ino ∉ inode_list (p_sbi pl)) by (rewrite H6, Ei; by intros [? ?]).
  assert (err < 0 /\ pl' = pl <| p_sbi := s2 <| inode_list := inode_list (p_sbi pl) |> |> /\ r = Err err
    \/ err = 0 /\ (exists s3, pl' = pl <| p_sbi := s3 |> /\ r = Ok ino
         /\ oid_map s3 = oid_map s2 /\ oid_map_ready s3 = oid_map_ready s2 /\ path_map s3 = path_map s2
         /\ path_map_ready s3 = path_map_ready s2 /\ inodes s3 = <[ino := si]> (inodes s2)
         /\ inode_list s3 = inode_list s2)) as Hout.
  { destruct Hcase as [(-> & Es & _)|[(-> & Es & _)|(Hneg & Hnx & Es)]].
    1,2: right; split; [done|]; cbn [Z.eqb negb andb] in Heq; injection Heq as <- <-; eexists;
      (split; [reflexivity|]); split; [done|];
      unfold smoothfs_lower_ino_map_insert, put_inode; rewrite S2; repeat case_goal; done.
    left. split; [done|]. rewrite (proj2 (Z.eqb_neq err 0)), (proj2 (Z.eqb_neq err (- EEXIST))) in Heq by lia.
    cbn [negb andb] in Heq. by injection Heq as <- <-. }
  destruct Hout as [(Hneg & -> & ->)|(-> & s3 & -> & -> & E1 & E2 & E3 & E4 & E5 & E6)].
  - destruct Hcase as [(? & _)|[(? & _)|(_ & _ & ->)]]; [lia|lia|]. split; [|done].
    by apply (index_ok_frame (p_sbi pl)).
  - assert ((oid_map s2 = oid_map (p_sbi pl) /\ o = zero_oid
        \/ oid_map s2 = (o, ino) :: oid_map (p_sbi pl) /\ o <> zero_oid)
      /\ path_map s2 = path_map (p_sbi pl) /\ path_map_ready s2 = true
      /\ oid_map_ready s2 = true /\ inodes s2 = inodes (p_sbi pl)
      /\ inode_list s2 = ino :: inode_list (p_sbi pl)) as (Ho2 & P1 & P2 & P3 & P4 & P5).
    { destruct Hcase as [(_ & -> & Hzo)|[(_ & -> & Hzo)|(? & _)]]; [| |lia]; split_and!; auto. }
    clear Hcase Heq Eo. split.
    + apply (iget_new_index_ok (p_sbi pl) s3 si ino o);
        [by constructor|done|done|done|done|congruence|congruence|congruence|by rewrite E1|congruence|congruence].
    + intros i [= <-]. split_and!; [done| |intros [? ?]; congruence]. intros _. exists si.
      change (p_sbi (pl <| p_sbi := s3 |>)) with s3.
      rewrite E5, lookup_insert_eq, E1. split_and!; try done.
      intros Hnz. destruct Ho2 as [[_ ?]|[-> _]]; [done|left].
Qed.

Lemma oid_insert_monotonic fault sbi si : 
  oid_monotonic (snd (smoothfs_oid_map_insert fault sbi si)) = oid_monotonic sbi.
Proof. unfold smoothfs_oid_map_insert. by repeat case_goal. Qed.

Lemma lower_insert_monotonic fault sbi t i n :
  oid_monotonic (snd (smoothfs_lower_ino_map_insert fault sbi t i n)) = oid_monotonic sbi.
Proof. unfold smoothfs_lower_ino_map_insert. by repeat case_goal. Qed.

Lemma iget_locked_monotonic e root p l o g t ino pl pl' r :
  iget_locked e root p l o g t ino pl = (pl', r) ->
  oid_monotonic (p_sbi pl') = oid_monotonic (p_sbi pl).
Proof.
  unfold iget_locked. case_goal; [by intros [= <- <-]|].
  destruct (inodes (p_sbi pl) !! ino); [by intros [= <- <-]|].
  unfold iget_new. set (si := smoothfs_copy_attrs _ _). clearbody si.
  set (s1 := p_sbi pl <| inode_list := _ |>).
  assert (oid_monotonic s1 = oid_monotonic (p_sbi pl)) as H1 by reflexivity. clearbody s1.
  pose proof (oid_insert_monotonic (ie_oid_insert e) s1 si) as H2.
  destruct (smoothfs_oid_map_insert _ _ _) as [err s2]. cbn [snd] in H2.
  destruct (_ && _); intros [= <- <-].
  - transitivity (oid_monotonic s2); [reflexivity|congruence].
  - assert (oid_monotonic (put_inode s2 si) = oid_monotonic s2) as H3 by reflexivity.
    destruct (negb root && _).
    + transitivity (oid_monotonic (snd (smoothfs_lower_ino_map_insert (ie_lower_insert e)
        (put_inode s2 si) t (l_ino l) ino))); [reflexivity|]. rewrite lower_insert_monotonic. congruence.
    + transitivity (oid_monotonic (put_inode s2 si)); [reflexivity|congruence].
Qed.

(** Every cached inode but the root is numbered by its id. *)
Definition numbered (xxh64 : list Z -> Z) (sbi : sb_info) : Prop :=
  forall ino si, inodes sbi !! ino = Some si ->
    ino = 1 \/ ino = smoothfs_inode_no_from_oid xxh64 (oid si).

(** No cached inode's number collides with that of [o]. *)
Definition no_collision (xxh64 : list Z -> Z) (sbi : sb_info) (o : list Z) : Prop :=
  smoothfs_inode_no_from_oid xxh64 o <> 1 /\
  forall i si, inodes sbi !! i = Some si ->
    smoothfs_inode_no_from_oid xxh64 (oid si) = smoothfs_inode_no_from_oid xxh64 o -> oid si = o.

(** The slow path with a known identity. *)
Lemma iget_slow_known e p l pl pl' t o ino :
  index_ok (p_sbi pl) -> numbered (ie_xxh64 e) (p_sbi pl) -> ie_oid_insert e <> - EEXIST ->
  no_collision (ie_xxh64 e) (p_sbi pl) o -> (exists g, iget_identity e false p l pl = (pl, Ok (o, g))) ->
  match iget_identity e false p l pl with
  | (pl, Err err) => (pl, Err err)
  | (pl, Ok (o, g)) => iget_locked e false p l o g t (smoothfs_inode_no_from_oid (ie_xxh64 e) o) pl
  end = (pl', Ok ino) ->
  index_ok (p_sbi pl') /\ oid_monotonic (p_sbi pl') = oid_monotonic (p_sbi pl)
  /\ exists si, inodes (p_sbi pl') !! ino = Some si /\ oid si = o.
Proof.
  intros Hok Hnum Hins [Hno Hcol] [g Hid] Heq. rewrite Hid in Heq.
  pose proof (iget_locked_monotonic _ _ _ _ _ _ _ _ _ _ _ Heq) as Hm.
  apply iget_locked_spec in Heq as [Hok' Hres]; [|done|done].
  destruct (Hres ino eq_refl) as (-> & Hnew & Hold). split; [done|]. split; [done|].
  destruct (inodes (p_sbi pl) !! smoothfs_inode_no_from_oid (ie_xxh64 e) o) as [s|] eqn:Es.
  - rewrite (Hold ltac:(by eexists)). exists s. split; [done|].
    destruct (Hnum _ _ Es) as [?|Hn]; [done|]. by eapply Hcol.
  - destruct (Hnew eq_refl) as (si & H1 & H2 & _). by exists si.
Qed.

(** A lower object that is not in the cache is attached to a new inode with the id
    it carries. *)
Lemma iget_new_object e p l pl o (ino := smoothfs_inode_no_from_oid (ie_xxh64 e) o) :
  index_ok (p_sbi pl) -> ie_mem e = true -> ie_oid_insert e = 0 -> ie_read1 e = 0 ->
  l_oid l = Some o -> length o = SMOOTHFS_OID_LEN -> inodes (p_sbi pl) !! ino = None ->
  (forall i si, inodes (p_sbi pl) !! i = Some si -> backing_matches si p = false) ->
  exists pl' si, smoothfs_iget e false false p l pl = (pl', Ok ino)
  /\ inodes (p_sbi pl') !! ino = Some si /\ i_ino si = ino /\ oid si = o /\ lower_path si = Some p.
Proof.
  intros Hok Hm Hins Hr Ho Hl Hn Hb.
  assert (forall pl1 t, index_ok (p_sbi pl1) -> inodes (p_sbi pl1) = inodes (p_sbi pl) ->
    exists pl' si, match iget_identity e false p l pl1 with
      | (pl, Err err) => (pl, Err err)
      | (pl, Ok (o, g)) => iget_locked e false p l o g t (smoothfs_inode_no_from_oid (ie_xxh64 e) o) pl
      end = (pl', Ok ino)
    /\ inodes (p_sbi pl') !! ino = Some si /\ i_ino si = ino /\ oid si = o /\ lower_path si = Some p) as Hslow.
  { intros pl1 t Hok1 Hi1. destruct (identity_known e p l pl1 o Hr) as [g Hid]; [unfold known_oid; by rewrite Ho|done|].
    rewrite Hid. fold ino. destruct (iget_locked e false p l o g t ino pl1) as [pl' r] eqn:E.
    assert (r = Ok ino) as ->.
    { apply (f_equal snd) in E. cbn [snd] in E. rewrite <- E. unfold iget_locked. rewrite Hm, Hi1, Hn. cbn [negb].
      unfold iget_new, smoothfs_oid_map_insert. rewrite Hins. cbn [Z.ltb Z.compare]. by destruct (bytes_eqb _ _). }
    apply iget_locked_spec in E as [Hok' Hres]; [|done|by rewrite Hins].
    destruct (Hres ino eq_refl) as (_ & Hnew & _). destruct Hnew as (si & H1 & H2 & H3 & _); [by rewrite Hi1|].
    exists pl', si. split_and!; try done. by apply (ix_ino _ Hok'). }
  unfold smoothfs_iget. set (t := smoothfs_tier_of _ _). set (c := smoothfs_lower_ino_map_get _ _ _).
  destruct (if c =? 0 then None else inodes (p_sbi pl) !! c) as [s0|] eqn:Eh; [|by apply Hslow].
  rewrite (Hb c s0) by (by destruct (c =? 0)).
  destruct (lower_ino_remove_frame (p_sbi pl) t (l_ino l)) as (F1&F2&F3&F4&F5&F6&F7&F8).
  apply Hslow; [by apply (index_ok_frame (p_sbi pl))|exact F5].
Qed.

(** Attaching an inode to a lower object whose id is known, from its xattr or
    from the writeback queue, allocates no new id and returns an inode of that
    id (or the one already backed by this object), and keeps the cache indices
    consistent. *)
Theorem iget_keeps_identity e p l pl pl' ino o :
  index_ok (p_sbi pl) -> numbered (ie_xxh64 e) (p_sbi pl) ->
  ie_read1 e = 0 -> ie_oid_insert e <> - EEXIST ->
  known_oid pl p l = Some o -> length o = SMOOTHFS_OID_LEN ->
  no_collision (ie_xxh64 e) (p_sbi pl) o ->
  smoothfs_iget e false false p l pl = (pl', Ok ino) ->
  index_ok (p_sbi pl') /\ oid_monotonic (p_sbi pl') = oid_monotonic (p_sbi pl)
  /\ exists si, inodes (p_sbi pl') !! ino = Some si
     /\ (oid si = o \/ backing_matches si p = true).
Proof.
  intros Hok Hnum Hr Hins Hk Hl Hcol Heq. unfold smoothfs_iget in Heq.
  set (t := smoothfs_tier_of _ _) in Heq. set (c := smoothfs_lower_ino_map_get _ _ _) in Heq.
  destruct (if c =? 0 then None else inodes (p_sbi pl) !! c) as [s|] eqn:Eh.
  - destruct (backing_matches s p) eqn:Eb.
    { injection Heq as <- <-. split; [done|]. split; [done|]. exists s. split; [|by right].
      by destruct (c =? 0). }
    destruct (lower_ino_remove_frame (p_sbi pl) t (l_ino l)) as (F1&F2&F3&F4&F5&F6&F7&F8).
    set (pl1 := pl <| p_sbi := _ |>) in Heq.
    assert (index_ok (p_sbi pl1)) as Hok1 by (by apply (index_ok_frame (p_sbi pl))).
    apply (iget_slow_known e p l pl1 pl' t o ino) in Heq as (H1 & H2 & si & H3 & H4).
    + split; [done|]. split; [by rewrite H2|]. exists si. auto.
    + done.
    + intros i s0. cbn. rewrite F5. apply Hnum.
    + done.
    + destruct Hcol as [Hc1 Hc2]. split; [done|]. intros i s0. cbn. rewrite F5. apply Hc2.
    + apply identity_known; [done| |done]. rewrite <- Hk. unfold known_oid, smoothfs_oid_wb_peek. cbn.
      by rewrite F7.
  - apply (iget_slow_known e p l pl pl' t o ino) in Heq as (H1 & H2 & si & H3 & H4);
      [|done|done|done|done|by apply identity_known].
    split; [done|]. split; [done|]. exists si. auto.
Qed.

(** ** Relative paths and lower keys *)

Lemma path_del_shape sbi si :
  index_ok sbi -> inodes sbi !! i_ino si = Some si ->
  (path_hashed si = true -> is_Some (rel_path si)) ->
  exists pm, smoothfs_path_map_del sbi si = (sbi <| path_map := pm |>, si <| path_hashed := false |>)
  /\ NoDup (snd <$> pm) /\ (forall e, e ∈ pm -> e ∈ path_map sbi) /\ (forall p, ~ (p, i_ino si) ∈ pm).
Proof.
  intros [R1 R2 H1 H2 H3 H4 H5 H6 H7] Hsi Hp. unfold smoothfs_path_map_del.
  destruct (path_hashed si) eqn:Eh; cbn [negb].
  - rewrite R2. destruct (Hp eq_refl) as [q Hq]. rewrite Hq. eexists. split; [reflexivity|].
    split_and!; [by apply rht_remove_NoDup|by apply rht_remove_incl|].
    intros p. apply rht_remove_gone; [done|]. intros k Hin. apply H4 in Hin as (s & Hs & Hr & _).
    rewrite Hsi in Hs. injection Hs as <-. congruence.
  - exists (path_map sbi). split; [destruct sbi, si; cbn in *; by subst|].
    split_and!; [done|done|]. intros p Hin. apply H4 in Hin as (s & Hs & _ & Hh).
    rewrite Hsi in Hs. injection Hs as <-. congruence.
Qed.

(** The entry an inode with path [q] has in the path map when it is hashed. *)
Definition path_entries (q : option string) (h : bool) (ino : Z) : list (string * Z) :=
  match q with Some p => if h then [(p, ino)] else [] | None => [] end.

Lemma path_entries_elem q h ino p i :
  (p, i) ∈ path_entries q h ino -> q = Some p /\ h = true /\ i = ino.
Proof.
  destruct q as [p0|], h; cbn; try (by intros ?%elem_of_nil).
  intros Hin%list_elem_of_singleton. by injection Hin as -> ->.
Qed.

Lemma replace_rel_path_shape fault sbi si q pm :
  path_map_ready sbi = true ->
  smoothfs_path_map_del sbi si = (sbi <| path_map := pm |>, si <| path_hashed := false |>) ->
  exists h, (0 <= fault -> is_Some q -> h = true) /\ (h = true -> is_Some q)
  /\ replace_rel_path fault sbi si q
     = (sbi <| path_map := path_entries q h (i_ino si) ++ pm |>, si <| rel_path := q |> <| path_hashed := h |>).
Proof.
  intros R2 Hd. unfold replace_rel_path. rewrite Hd. unfold smoothfs_path_map_add.
  change (rel_path (si <| path_hashed := false |> <| rel_path := q |>)) with q.
  change (path_map_ready (sbi <| path_map := pm |>)) with (path_map_ready sbi).
  change (path_hashed (si <| path_hashed := false |> <| rel_path := q |>)) with false.
  rewrite R2. cbn [negb orb]. destruct q as [p|].
  - destruct (Z.ltb_spec fault 0); [exists false|exists true]; (split_and!; [| |reflexivity]); [lia|done|done|by eexists].
  - exists false. split_and!; [by intros _ [? ?]|done|reflexivity].
Qed.

Lemma index_ok_repath sbi si q h pm :
  index_ok sbi -> inodes sbi !! i_ino si = Some si ->
  NoDup (snd <$> pm) -> (forall e, e ∈ pm -> e ∈ path_map sbi) -> (forall p, ~ (p, i_ino si) ∈ pm) ->
  index_ok (put_inode (sbi <| path_map := path_entries q h (i_ino si) ++ pm |>)
                      (si <| rel_path := q |> <| path_hashed := h |>)).
Proof.
  intros [R1 R2 H1 H2 H3 H4 H5 H6 H7] Hsi Hnd Hincl Hgone.
  set (si' := si <| rel_path := q |> <| path_hashed := h |>).
  assert (inodes (put_inode (sbi <| path_map := path_entries q h (i_ino si) ++ pm |>) si')
    = <[i_ino si := si']> (inodes sbi)) as P1 by done.
  constructor; rewrite ?P1; try done.
  - intros ino s Hs. apply lookup_insert_Some in Hs as [[<- <-]|[_ Hs]]; [done|by apply H1].
  - intros o ino Hin. destruct (H2 _ _ Hin) as (Hz & s & Hs & Ho). split; [done|].
    destruct (decide (ino = i_ino si)) as [->|].
    + exists si'. rewrite lookup_insert_eq. split; [done|]. rewrite Hsi in Hs. by injection Hs as <-.
    + exists s. by rewrite lookup_insert_ne.
  - intros p ino Hin. cbn in Hin. apply elem_of_app in Hin as [Hin|Hin].
    + apply path_entries_elem in Hin as (-> & -> & ->). exists si'. by rewrite lookup_insert_eq.
    + destruct (decide (ino = i_ino si)) as [->|Hne]; [by apply Hgone in Hin|].
      destruct (H4 _ _ (Hincl _ Hin)) as (s & Hs & Hr). exists s. by rewrite lookup_insert_ne.
  - cbn. destruct q as [p|]; [|done]. destruct h; [|done]. cbn. apply NoDup_cons. split; [|done].
    intros ([k v] & Hv & Hin)%list_elem_of_fmap. cbn in Hv. subst v. by apply Hgone in Hin.
  - intros ino. change (inode_list _) with (inode_list sbi). rewrite H6.
    destruct (decide (ino = i_ino si)) as [->|]; [rewrite lookup_insert_eq, Hsi; by split; eexists|].
    by rewrite lookup_insert_ne.
Qed.

(** Changing the relative path of a cached inode keeps the cache indices
    consistent: the inode is found under the new path, when the insertion
    succeeds, and under no other. *)
Theorem replace_rel_path_keeps_index fault sbi si q sbi' si' :
  index_ok sbi -> inodes sbi !! i_ino si = Some si ->
  (path_hashed si = true -> is_Some (rel_path si)) ->
  replace_rel_path fault sbi si q = (sbi', si') ->
  index_ok (put_inode sbi' si') /\ rel_path si' = q
  /\ (0 <= fault -> smoothfs_lookup_rel_path (put_inode sbi' si') q
        = match q with Some _ => Some (i_ino si) | None => None end)
  /\ (forall p, (p, i_ino si) ∈ path_map (put_inode sbi' si') -> Some p = q).
Proof.
  intros Hok Hsi Hp Heq. destruct (path_del_shape sbi si Hok Hsi Hp) as (pm & Hd & Hnd & Hincl & Hgone).
  destruct (replace_rel_path_shape fault sbi si q pm) as (h & Hh & _ & Hs); [by destruct Hok|done|].
  rewrite Hs in Heq. injection Heq as <- <-. split_and!.
  - by apply index_ok_repath.
  - done.
  - intros Hf. unfold smoothfs_lookup_rel_path.
    change (path_map_ready _) with (path_map_ready sbi). destruct Hok as [_ -> _ _ _ _ _ _ _]. cbn [negb].
    destruct q as [p|]; [|done]. rewrite Hh by done. cbn. unfold rht_lookup. simpl. by rewrite decide_True.
  - intros p Hin. cbn in Hin. apply elem_of_app in Hin as [Hin|Hin]; [|by apply Hgone in Hin].
    by apply path_entries_elem in Hin as (-> & _).
Qed.

Lemma shift_low_disjoint t i : 0 <= i < 2 ^ 56 -> Z.land (t * 2 ^ 56) i = 0.
Proof.
  intros Hi. apply Z.bits_inj'. intros n Hn. rewrite Z.land_spec, Z.bits_0.
  destruct (decide (n < 56)); [by rewrite Z.mul_pow2_bits_low by lia|].
  rewrite (Z.bits_above_log2 i n), andb_false_r; [done|lia|].
  destruct (decide (i = 0)) as [->|]; [simpl; lia|]. apply Z.log2_lt_pow2; [lia|].
  eapply Z.lt_le_trans; [apply Hi|]. apply Z.pow_le_mono_r; lia.
Qed.

Lemma lor_shift_low t i : 0 <= i < 2 ^ 56 -> Z.lor (Z.shiftl t 56) i = t * 2 ^ 56 + i.
Proof.
  intros Hi. rewrite Z.shiftl_mul_pow2 by lia.
  pose proof (Z.add_lor_land (t * 2 ^ 56) i) as H. rewrite shift_low_disjoint in H by done. lia.
Qed.

(** Lower keys of different tiers or different 56-bit inode numbers differ. *)
Theorem lower_key_injective t1 i1 t2 i2 :
  0 <= t1 <= SMOOTHFS_MAX_TIERS -> 0 <= t2 <= SMOOTHFS_MAX_TIERS -> 0 <= i1 < 2 ^ 56 -> 0 <= i2 < 2 ^ 56 ->
  smoothfs_lower_key t1 i1 = smoothfs_lower_key t2 i2 -> t1 = t2 /\ i1 = i2.
Proof.
  intros Ht1 Ht2 Hi1 Hi2. unfold smoothfs_lower_key, SMOOTHFS_MAX_TIERS in *.
  change (Z.shiftl 1 56 - 1) with (Z.ones 56). rewrite !Z.land_ones, !Z.mod_small by lia.
  rewrite !lor_shift_low by lia. lia.
Qed.

(** ** A concrete pool *)

Definition map_pool : sb_info :=
  sb_zero <| ntiers := 1 |> <| tiers := [Tier 0 0 (Path 10 0) 0 0] |> <| oid_map_ready := true |>
          <| path_map_ready := true |> <| lower_ino_map_ready := true |>
          <| lower := {[ 5 := LNode 77 FT_REG 420 3 1 None None false ]} |>.

Definition some_oid : list Z := replicate 16 9.
Definition some_hash (o : list Z) : Z := foldr (fun b a => (a * 31 + b) mod 2 ^ 63) 0 o.

Definition calm_env : iget_env :=
  IgetEnv some_hash true 0 0 0 0 0 (fun _ => 0) 0 true true 0 0 0.

Definition queued_pool : pool := Pool map_pool true [(Path 10 5, some_oid)].

Lemma map_pool_index_ok : index_ok map_pool.
Proof.
  constructor; try done; try apply NoDup_nil_2.
  - intros o ino H. by apply not_elem_of_nil in H.
  - intros p ino H. by apply not_elem_of_nil in H.
  - intros ino. split; [intros H; by apply not_elem_of_nil in H|by intros [? ?]].
Qed.

Lemma iget_keeps_identity_witness :
  let r := smoothfs_iget calm_env false false (Path 10 5) (LNode 77 FT_REG 420 3 1 None None false) queued_pool in
  exists ino, snd r = Ok ino /\ index_ok (p_sbi (fst r)) /\ oid_monotonic (p_sbi (fst r)) = 0
  /\ exists si, inodes (p_sbi (fst r)) !! ino = Some si
     /\ (oid si = some_oid \/ backing_matches si (Path 10 5) = true).
Proof.
  intros r. destruct (snd r) as [err|ino] eqn:E.
  { assert (match snd r with Ok _ => true | Err _ => false end = true) as H by (vm_compute; reflexivity).
    rewrite E in H. discriminate H. }
  exists ino. split; [reflexivity|].
  apply (iget_keeps_identity calm_env (Path 10 5) (LNode 77 FT_REG 420 3 1 None None false) queued_pool).
  - exact map_pool_index_ok.
  - intros i si H. discriminate H.
  - reflexivity.
  - discriminate.
  - reflexivity.
  - reflexivity.
  - split; [vm_compute; discriminate|]. intros i si H. discriminate H.
  - fold r. rewrite <- E. by destruct r.
Defined.

(** One cached file with a relative path. *)
Definition cached_inode : inode_info :=
  smoothfs_alloc_inode 0 3 <| oid := some_oid |> <| rel_path := Some "a/b"%string |> <| path_hashed := true |>.
Definition cached_pool : sb_info :=
  map_pool <| inodes := {[ 3 := cached_inode ]} |> <| inode_list := [3] |>
           <| oid_map := [(some_oid, 3)] |> <| path_map := [("a/b"%string, 3)] |>.

Lemma cached_pool_index_ok : index_ok cached_pool.
Proof.
  constructor; try done; change (inodes cached_pool) with ({[ 3 := cached_inode ]} : gmap Z inode_info).
  - intros ino si H. apply lookup_singleton_Some in H as [<- <-]. done.
  - intros o ino H. apply list_elem_of_singleton in H as [= -> ->]. split; [done|]. by exists cached_inode.
  - apply NoDup_singleton.
  - intros p ino H. apply list_elem_of_singleton in H as [= -> ->]. by exists cached_inode.
  - apply NoDup_singleton.
  - intros ino. change (inode_list cached_pool) with [3]. rewrite list_elem_of_singleton. split.
    + intros ->. by exists cached_inode.
    + intros [s H]. by apply lookup_singleton_Some in H as [<- _].
  - apply NoDup_singleton.
Qed.

Lemma evict_leaves_no_reference_witness :
  index_ok (smoothfs_evict_inode cached_pool cached_inode)
  /\ no_reference (smoothfs_evict_inode cached_pool cached_inode) 3.
Proof.
  apply (evict_leaves_no_reference cached_pool cached_inode).
  - exact cached_pool_index_ok.
  - reflexivity.
  - intros _. by eexists.
Defined.

Lemma replace_rel_path_keeps_index_witness :
  let r := replace_rel_path 0 cached_pool cached_inode (Some "c"%string) in
  index_ok (put_inode (fst r) (snd r))
  /\ smoothfs_lookup_rel_path (put_inode (fst r) (snd r)) (Some "c"%string) = Some 3.
Proof.
  intros r. destruct (replace_rel_path_keeps_index 0 cached_pool cached_inode (Some "c"%string) (fst r) (snd r))
    as (H1 & _ & H3 & _).
  - exact cached_pool_index_ok.
  - reflexivity.
  - intros _. by eexists.
  - fold r. by destruct r.
  - split; [exact H1|]. apply H3. lia.
Defined.

Lemma lower_key_injective_witness :
  smoothfs_lower_key 1 7 = 2 ^ 56 + 7 /\ (1 = 1 /\ 7 = 7).
Proof.
  split; [reflexivity|]. apply (lower_key_injective 1 7 1 7); unfold SMOOTHFS_MAX_TIERS; try lia; reflexivity.
Defined.

(** [rhashtable_insert_fast] takes a second entry under the same key; removing
    the     newer one uncovers the older. *)
Example lower_ino_map_keeps_a_shadowed_entry :
  let (e1, s1) := smoothfs_lower_ino_map_insert 0 map_pool 0 77 3 in
  let (e2, s2) := smoothfs_lower_ino_map_insert 0 s1 0 77 4 in
  e1 = 0 /\ e2 = 0 /\ smoothfs_lower_ino_map_get s2 0 77 = 4
  /\ smoothfs_lower_ino_map_get (smoothfs_lower_ino_map_remove s2 0 77) 0 77 = 3.
Proof. vm_compute. by repeat split. Qed.
