(* ===== verification/Reissue.v ===== *)
(** * Lower files behind open descriptors: src/src/smoothfs/lower.c

    Every open file keeps the lower file it was opened on and the cutover
    generation it was opened at.  A cutover swaps the inode's lower path and
    then bumps the generation; the next use of the descriptor notices and
    reopens against the new path, with a fresh permission check under the
    saved credentials.

    The calls of several threads interleave between their reads of the inode,
    so the pieces of [smoothfs_open_lower] and [smoothfs_reissue_lower] are
    separate definitions: the functions compose them, the step relation
    interleaves them with cutovers. *)
From stdpp Require Import relations.
From S2P Require Import Prelude Types InodeMaps.

Definition O_ACCMODE : Z := 3.
Definition O_RDONLY : Z := 0.
Definition O_WRONLY : Z := 1.
Definition O_RDWR : Z := 2.
Definition O_CREAT : Z := 64.
Definition O_EXCL : Z := 128.
Definition O_NOCTTY : Z := 256.
Definition O_APPEND : Z := 1024.
Definition O_LARGEFILE : Z := 32768.
Definition MAY_WRITE : Z := 2.
Definition MAY_READ : Z := 4.
Definition MAY_APPEND : Z := 8.

Definition reissue_perm_mask (flags : Z) : Z :=
  let acc := Z.land flags O_ACCMODE in
  let mask := if acc =? O_RDONLY then MAY_READ
              else if acc =? O_WRONLY then MAY_WRITE
              else if acc =? O_RDWR then Z.lor MAY_READ MAY_WRITE
              else 0 in
  if negb (Z.land flags O_APPEND =? 0) then Z.lor mask MAY_APPEND else mask.

(** A file of a lower file system: where and how it was opened. *)
Record lfile := LFile { lf_path : path; lf_flags : Z }.

(** [struct smoothfs_file_info] *)
Record file_info := FileInfo { lower_file : lfile; lower_gen : Z; open_flags : Z; open_cred : Z }.

(** What the kernel answers: the attributes behind a path, whether [cred] may
    access the inode (0 or an error), and [dentry_open]'s result. *)
Record open_env := OpenEnv {
  oe_node : path -> lnode;
  oe_permission : inode_info -> Z -> Z -> Z;
  oe_dentry_open : path -> Z -> result lfile;
}.

(** [si->lower_path]; the member of an inode without a backing is zero. *)
Definition smoothfs_get_lower_path (si : inode_info) : path := default (Path 0 0) (lower_path si).

Section Lower.
Context (e : open_env).

Definition open_lower_now (si : inode_info) (flags cred : Z) (reissue : bool) : result lfile * inode_info :=
  let p := smoothfs_get_lower_path si in
  let si := if reissue then smoothfs_copy_attrs si (oe_node e p) else si in
  let err := if reissue then oe_permission e si cred (reissue_perm_mask flags) else 0 in
  if negb (err =? 0) then (Err err, si)
  else (oe_dentry_open e p (Z.lor (Z.ldiff flags (Z.lor O_CREAT (Z.lor O_EXCL O_NOCTTY))) O_LARGEFILE), si).

(** *** Opening: open the lower file, then note the generation *)

Definition open_begin (alloc : bool) (si : inode_info) (f_flags cred : Z) : result lfile :=
  if negb alloc then Err (- ENOMEM) else fst (open_lower_now si f_flags cred false).

Definition open_end (si : inode_info) (f_flags cred : Z) (lf : lfile) : file_info * inode_info :=
  (FileInfo lf (cutover_gen si) f_flags cred, si <| open_count := open_count si + 1 |>).

Definition smoothfs_open_lower (alloc : bool) (si : inode_info) (f_flags cred : Z)
  : result file_info * inode_info :=
  match open_begin alloc si f_flags cred with
  | Err err => (Err err, si)
  | Ok lf => let (fi, si) := open_end si f_flags cred lf in (Ok fi, si)
  end.

(** [file->private_data] afterwards. *)
Definition smoothfs_release_lower (fi : option file_info) : Z * option file_info := (0, None).

(** *** Reissue: note the generation, reopen, store *)

Definition reissue_check (si : inode_info) (fi : file_info) : option Z :=
  if lower_gen fi =? cutover_gen si then None else Some (cutover_gen si).

Definition reissue_open (si : inode_info) (fi : file_info) : result lfile * inode_info :=
  open_lower_now si (open_flags fi) (open_cred fi) true.

Definition reissue_store (fi : file_info) (cur_gen : Z) (lf : lfile) : file_info :=
  FileInfo lf cur_gen (open_flags fi) (open_cred fi).

Definition smoothfs_reissue_lower (si : inode_info) (fi : option file_info)
  : Z * option file_info * inode_info :=
  match fi with
  | None => (- EBADF, None, si)
  | Some fi =>
      match reissue_check si fi with
      | None => (0, Some fi, si)
      | Some cur_gen =>
          match reissue_open si fi with
          | (Err err, si) => (err, Some fi, si)
          | (Ok lf, si) => (0, Some (reissue_store fi cur_gen lf), si)
          end
      end
  end.

Definition smoothfs_lower_file (si : inode_info) (fi : option file_info)
  : result lfile * option file_info * inode_info :=
  match fi with
  | None => (Err (- EBADF), None, si)
  | Some _ =>
      let '(err, fi, si) := smoothfs_reissue_lower si fi in
      if negb (err =? 0) then (Err err, fi, si)
      else match fi with
           | Some f => (Ok (lower_file f), fi, si)
           | None => (Err (- EBADF), fi, si)
           end
  end.

End Lower.

(** ** Interleaving *)

(** Where a thread stands: it has opened the lower file of a new descriptor;
    it holds the descriptor's [reissue_lock] and has read the generation; it
    has reopened. *)
Inductive pc :=
| P_opened (fd flags cred : Z) (lf : lfile)
| P_locked (fd g : Z)
| P_reopened (fd g : Z) (lf : lfile).

Record rstate := RState {
  r_si : inode_info;
  r_switching : bool;              (** lower path swapped, generation not yet bumped *)
  r_fds : gmap Z file_info;
  r_pcs : gmap Z pc;
}.

Definition on_fd (fd : Z) (p : pc) : bool :=
  match p with P_opened _ _ _ _ => false | P_locked f _ => f =? fd | P_reopened f _ _ => f =? fd end.
(** [reissue_lock] of [fd] is free. *)
Definition lock_free (s : rstate) (fd : Z) : Prop :=
  forall t p, r_pcs s !! t = Some p -> on_fd fd p = false.
(** No thread is inside [smoothfs_open_lower]. *)
Definition no_open (s : rstate) : Prop :=
  forall t fd fl c lf, r_pcs s !! t <> Some (P_opened fd fl c lf).

Section Steps.
Context (e : open_env).

(** Cutovers of one inode are serialised by its lock: swap, then bump (before
    the generation wraps). *)
Inductive rstep : rstate -> rstate -> Prop :=
| st_swap si fds pcs p :
    no_open (RState si false fds pcs) ->
    rstep (RState si false fds pcs) (RState (si <| lower_path := Some p |>) true fds pcs)
| st_bump si fds pcs :
    cutover_gen si + 1 < 2 ^ 32 ->
    rstep (RState si true fds pcs) (RState (si <| cutover_gen := u32 (cutover_gen si + 1) |>) false fds pcs)
| st_open_begin si sw fds pcs t fd fl c lf :
    pcs !! t = None -> open_begin e true si fl c = Ok lf ->
    rstep (RState si sw fds pcs) (RState si sw fds (<[t := P_opened fd fl c lf]> pcs))
| st_open_end si sw fds pcs t fd fl c lf :
    pcs !! t = Some (P_opened fd fl c lf) -> fds !! fd = None ->
    rstep (RState si sw fds pcs)
      (RState (snd (open_end si fl c lf)) sw (<[fd := fst (open_end si fl c lf)]> fds) (delete t pcs))
| st_check si sw fds pcs t fd fi g :
    pcs !! t = None -> lock_free (RState si sw fds pcs) fd -> fds !! fd = Some fi ->
    reissue_check si fi = Some g ->
    rstep (RState si sw fds pcs) (RState si sw fds (<[t := P_locked fd g]> pcs))
| st_reopen si sw fds pcs t fd fi g lf si' :
    pcs !! t = Some (P_locked fd g) -> fds !! fd = Some fi -> reissue_open e si fi = (Ok lf, si') ->
    rstep (RState si sw fds pcs) (RState si' sw fds (<[t := P_reopened fd g lf]> pcs))
| st_reopen_fails si sw fds pcs t fd fi g err si' :
    pcs !! t = Some (P_locked fd g) -> fds !! fd = Some fi -> reissue_open e si fi = (Err err, si') ->
    rstep (RState si sw fds pcs) (RState si' sw fds (delete t pcs))
| st_store si sw fds pcs t fd fi g lf :
    pcs !! t = Some (P_reopened fd g lf) -> fds !! fd = Some fi ->
    rstep (RState si sw fds pcs) (RState si sw (<[fd := reissue_store fi g lf]> fds) (delete t pcs))
| st_close si sw fds pcs fd :
    lock_free (RState si sw fds pcs) fd ->
    rstep (RState si sw fds pcs) (RState si sw (delete fd fds) pcs).

End Steps.

(** ** Every descriptor that looks current is current *)

Section Current.
Context (e : open_env).
(** [dentry_open] opens the path it is given, or returns an error number. *)
Context (opens : forall p fl lf, oe_dentry_open e p fl = Ok lf -> lf_path lf = p).
Context (open_errors : forall p fl err, oe_dentry_open e p fl = Err err -> err < 0).

Definition at_current (s : rstate) (lf : lfile) : Prop := lf_path lf = smoothfs_get_lower_path (r_si s).

(** A lower file noted at generation [g]. *)
Definition noted_ok (s : rstate) (g : Z) (lf : lfile) : Prop :=
  g <= cutover_gen (r_si s) /\ (r_switching s = false -> g = cutover_gen (r_si s) -> at_current s lf).

Definition pc_ok (s : rstate) (p : pc) : Prop :=
  match p with
  | P_opened _ _ _ lf => at_current s lf
  | P_locked _ g => g <= cutover_gen (r_si s)
  | P_reopened _ g lf => noted_ok s g lf
  end.

Record rinv (s : rstate) : Prop := RInv {
  ri_gen : 0 <= cutover_gen (r_si s) < 2 ^ 32;
  ri_fds : map_Forall (fun _ fi => noted_ok s (lower_gen fi) (lower_file fi)) (r_fds s);
  ri_pcs : map_Forall (fun _ p => pc_ok s p) (r_pcs s);
}.

Lemma open_now_spec si fl c b r si' : open_lower_now e si fl c b = (r, si') ->
  smoothfs_get_lower_path si' = smoothfs_get_lower_path si /\ cutover_gen si' = cutover_gen si
  /\ r <> Err 0
  /\ (forall lf, r = Ok lf -> lf_path lf = smoothfs_get_lower_path si
       /\ (b = true -> oe_permission e si' c (reissue_perm_mask fl) = 0)).
Proof.
  unfold open_lower_now. set (si1 := if b then _ else si). intros H.
  assert (si1 = si' /\ smoothfs_get_lower_path si1 = smoothfs_get_lower_path si /\ cutover_gen si1 = cutover_gen si) as (<- & A & B).
  { destruct (negb _); injection H as _ <-; unfold si1; by destruct b. }
  split; [exact A|]. split; [exact B|].
  destruct (Z.eqb_spec (if b then oe_permission e si1 c (reissue_perm_mask fl) else 0) 0) as [E|E];
    cbn [negb] in H; injection H as H.
  - split; [intros ->; by apply open_errors in H|]. intros lf ->. split; [by eapply opens|]. intros ->. exact E.
  - subst r. split; [by intros [= ?]|done].
Qed.

Lemma noted_ok_eq s s' g lf : smoothfs_get_lower_path (r_si s') = smoothfs_get_lower_path (r_si s) ->
  cutover_gen (r_si s') = cutover_gen (r_si s) -> r_switching s' = r_switching s ->
  noted_ok s g lf -> noted_ok s' g lf.
Proof. unfold noted_ok, at_current. by intros -> -> ->. Qed.

Lemma pc_ok_eq s s' p : smoothfs_get_lower_path (r_si s') = smoothfs_get_lower_path (r_si s) ->
  cutover_gen (r_si s') = cutover_gen (r_si s) -> r_switching s' = r_switching s ->
  pc_ok s p -> pc_ok s' p.
Proof.
  intros A B C. destruct p; cbn; unfold at_current; rewrite ?A, ?B; auto. by apply noted_ok_eq.
Qed.

(** A step that keeps path, generation and switching state keeps the old
    descriptors and threads; what it adds is shown separately. *)
Lemma rinv_same s s' : rinv s ->
  smoothfs_get_lower_path (r_si s') = smoothfs_get_lower_path (r_si s) ->
  cutover_gen (r_si s') = cutover_gen (r_si s) -> r_switching s' = r_switching s ->
  (forall fd fi, r_fds s' !! fd = Some fi -> r_fds s !! fd = Some fi \/ noted_ok s (lower_gen fi) (lower_file fi)) ->
  (forall t p, r_pcs s' !! t = Some p -> r_pcs s !! t = Some p \/ pc_ok s p) -> rinv s'.
Proof.
  intros [I1 I2 I3] A B C F P. constructor; [by rewrite B| |].
  - intros fd fi H. apply (noted_ok_eq s); [done..|]. destruct (F _ _ H) as [H'|H']; [by apply (I2 fd)|done].
  - intros t p H. apply (pc_ok_eq s); [done..|]. destruct (P _ _ H) as [H'|H']; [by apply (I3 t)|done].
Qed.

Lemma insert_cases {A} (m : gmap Z A) k v (P : A -> Prop) : P v ->
  forall k' v', <[k := v]> m !! k' = Some v' -> m !! k' = Some v' \/ P v'.
Proof. intros Hv k' v' [[<- <-]|[_ ?]]%lookup_insert_Some; auto. Qed.

Lemma delete_cases {A} (m : gmap Z A) k (P : A -> Prop) :
  forall k' v', delete k m !! k' = Some v' -> m !! k' = Some v' \/ P v'.
Proof. intros k' v' [_ ?]%lookup_delete_Some; auto. Qed.

Lemma same_cases {A} (m : gmap Z A) (P : A -> Prop) :
  forall k' v', m !! k' = Some v' -> m !! k' = Some v' \/ P v'.
Proof. auto. Qed.

Ltac same_point I := apply (rinv_same _ _ I); cbn; try apply same_cases; try apply delete_cases; try done.

Lemma swap_keeps si fds pcs p : no_open (RState si false fds pcs) ->
  rinv (RState si false fds pcs) -> rinv (RState (si <| lower_path := Some p |>) true fds pcs).
Proof.
  intros Hno [I1 I2 I3]. cbn in *. constructor; [done| |].
  - intros fd fi H. destruct (I2 _ _ H) as [G _]. by split.
  - intros t q H. pose proof (I3 _ _ H) as Hq. destruct q; cbn in *; [|done|].
    + exfalso. by eapply Hno.
    + destruct Hq as [G _]. by split.
Qed.

Lemma bump_keeps si fds pcs : cutover_gen si + 1 < 2 ^ 32 ->
  rinv (RState si true fds pcs) ->
  rinv (RState (si <| cutover_gen := u32 (cutover_gen si + 1) |>) false fds pcs).
Proof.
  intros Hlt [I1 I2 I3]. cbn in *.
  assert (u32 (cutover_gen si + 1) = cutover_gen si + 1) as E by (apply Z.mod_small; lia).
  assert (forall g lf, noted_ok (RState si true fds pcs) g lf ->
    noted_ok (RState (si <| cutover_gen := u32 (cutover_gen si + 1) |>) false fds pcs) g lf) as Hn.
  { intros g lf [G _]. cbn in G. unfold noted_ok. cbn. rewrite E. split; [lia|]. intros _ ->. lia. }
  constructor; cbn.
  - rewrite E. lia.
  - intros fd fi H. apply Hn. by apply (I2 fd).
  - intros t q H. pose proof (I3 _ _ H) as Hq. destruct q; cbn in *; [done| |by apply Hn]. rewrite E. lia.
Qed.

Lemma rstep_keeps s s' : rstep e s s' -> rinv s -> rinv s'.
Proof.
  intros Hstep I. destruct Hstep as [si fds pcs p Hno|si fds pcs Hlt|si sw fds pcs t fd fl c lf _ Ho
    |si sw fds pcs t fd fl c lf Ht _|si sw fds pcs t fd fi g _ _ _ Hc|si sw fds pcs t fd fi g lf si' Ht Hf Ho
    |si sw fds pcs t fd fi g err si' Ht Hf Ho|si sw fds pcs t fd fi g lf Ht _|si sw fds pcs fd _].
  - by apply swap_keeps.
  - by apply bump_keeps.
  - unfold open_begin in Ho. cbn [negb] in Ho. destruct (open_lower_now e si fl c false) as [r si'] eqn:E.
    cbn [fst] in Ho. subst r. destruct (open_now_spec _ _ _ _ _ _ E) as (_ & _ & _ & H). destruct (H _ eq_refl) as [Hp _].
    same_point I. apply insert_cases. exact Hp.
  - pose proof (ri_pcs _ I _ _ Ht) as Hp. cbn in Hp. same_point I.
    apply insert_cases. split; [reflexivity|]. intros _ _. exact Hp.
  - same_point I. apply insert_cases. cbn.
    unfold reissue_check in Hc. destruct (lower_gen fi =? cutover_gen si); [done|]. injection Hc as <-. reflexivity.
  - destruct (open_now_spec _ _ _ _ _ _ Ho) as (A & B & _ & H). destruct (H _ eq_refl) as [Hp _].
    same_point I. apply insert_cases. pose proof (ri_pcs _ I _ _ Ht) as Hg.
    split; [exact Hg|]. intros _ _. exact Hp.
  - destruct (open_now_spec _ _ _ _ _ _ Ho) as (A & B & _). same_point I.
  - pose proof (ri_pcs _ I _ _ Ht) as Hp. same_point I.
    apply insert_cases. exact Hp.
  - same_point I.
Qed.

Lemma rsteps_keep s s' : rtc (rstep e) s s' -> rinv s -> rinv s'.
Proof. induction 1 as [|s1 s2 s3 H _ IH]; [done|]. intros I. by apply IH, (rstep_keeps _ _ H). Qed.

(** A fresh inode with no descriptors. *)
Definition rstart (si : inode_info) : rstate := RState si false ∅ ∅.

Lemma rstart_inv si : 0 <= cutover_gen si < 2 ^ 32 -> rinv (rstart si).
Proof. intros H. constructor; [done| |]; intros k v Hv; cbn in Hv; by rewrite lookup_empty in Hv. Qed.

(** C19. After any interleaving of opens, cutovers, reissues and closes, each
    cut at the points where the code drops its locks, in which no cutover
    switches the lower path between the two halves of a first open, the lower
    file that an operation on a descriptor gets is open on the inode's current
    lower path at the current cutover generation, or the operation gets an error
    and the descriptor stays marked stale; a descriptor is reopened only if the
    opener's credentials still have the access it was opened with. *)
Theorem used_descriptor_is_current si s fd fi r fi' si' :
  0 <= cutover_gen si < 2 ^ 32 -> rtc (rstep e) (rstart si) s -> r_switching s = false ->
  r_fds s !! fd = Some fi -> smoothfs_lower_file e (r_si s) (Some fi) = (r, Some fi', si') ->
  smoothfs_get_lower_path si' = smoothfs_get_lower_path (r_si s)
  /\ match r with
     | Err err => fi' = fi /\ lower_gen fi <> cutover_gen (r_si s)
     | Ok lf => lf = lower_file fi' /\ lf_path lf = smoothfs_get_lower_path (r_si s)
         /\ lower_gen fi' = cutover_gen (r_si s)
         /\ (fi' = fi \/ oe_permission e si' (open_cred fi) (reissue_perm_mask (open_flags fi)) = 0)
     end.
Proof.
  intros Hg Hrun Hsw Hfd. pose proof (rsteps_keep _ _ Hrun (rstart_inv si Hg)) as I.
  destruct (ri_fds _ I _ _ Hfd) as [_ Hcur]. unfold smoothfs_lower_file, smoothfs_reissue_lower, reissue_check.
  destruct (Z.eqb_spec (lower_gen fi) (cutover_gen (r_si s))) as [E|E].
  - cbn. intros [= <- <- <-]. split; [done|]. split; [done|]. split; [by apply Hcur|]. by split; [|left].
  - unfold reissue_open. destruct (open_lower_now e (r_si s) _ _ true) as [[err|lf] si1] eqn:Eo;
      destruct (open_now_spec _ _ _ _ _ _ Eo) as (A & B & H).
    + destruct (Z.eqb_spec err 0) as [->|Hne]; [by destruct H|]. cbn. by intros [= <- <- <-].
    + cbn. intros [= <- <- <-]. destruct H as [_ H]. destruct (H _ eq_refl) as [Hp Hperm].
      split; [done|]. split; [done|]. split; [done|]. split; [done|right; by apply Hperm].
Qed.

End Current.

(** ** A descriptor across a cutover *)

Definition open_all : open_env :=
  OpenEnv (fun p => LNode (p_dentry p) FT_REG 420 4 1 None None false) (fun _ _ _ => 0) (fun p fl => Ok (LFile p fl)).

Definition cut_inode : inode_info :=
  InodeInfo 7 FT_REG 420 4 1 [] 0 1 1 MS_PLACED PIN_NONE 1 0 0 (Some (Path 20 5)) []
    0 0 0 0 0 0 0 0 0 0 false None false false.

Definition opened_fi : file_info := fst (open_end cut_inode O_RDWR 1000 (LFile (Path 20 5) (Z.lor O_RDWR O_LARGEFILE))).
(** After the swap and after the bump. *)
Definition swap_inode : inode_info := cut_inode <| open_count := 1 |> <| lower_path := Some (Path 10 9) |>.
Definition bumped_inode : inode_info := swap_inode <| cutover_gen := 1 |>.

Lemma cut_run : rtc (rstep open_all) (rstart cut_inode) (RState bumped_inode false {[3 := opened_fi]} ∅).
Proof.
  eapply rtc_l; [apply (st_open_begin _ _ _ _ _ 1 3 O_RDWR 1000); [reflexivity|reflexivity]|].
  eapply rtc_l; [apply (st_open_end _ _ _ _ _ 1 3 O_RDWR 1000 (LFile (Path 20 5) (Z.lor O_RDWR O_LARGEFILE))); reflexivity|].
  eapply rtc_l; [apply (st_swap _ _ _ _ (Path 10 9)); intros t fd fl c lf; cbn; rewrite delete_insert_id by done; done|].
  eapply rtc_l; [apply st_bump; reflexivity|].
  apply rtc_refl.
Qed.

Lemma used_descriptor_is_current_witness :
  let '(r, fi, _) := smoothfs_lower_file open_all bumped_inode (Some opened_fi) in
  exists lf, r = Ok lf /\ lf_path lf = Path 10 9 /\ option_map lower_gen fi = Some 1.
Proof.
  destruct (used_descriptor_is_current open_all ltac:(by intros p fl lf [= <-]) ltac:(done) cut_inode
    (RState bumped_inode false {[3 := opened_fi]} ∅) 3 opened_fi
    (fst (fst (smoothfs_lower_file open_all bumped_inode (Some opened_fi))))
    (reissue_store opened_fi 1 (LFile (Path 10 9) (Z.lor O_RDWR O_LARGEFILE)))
    (snd (smoothfs_lower_file open_all bumped_inode (Some opened_fi)))) as [_ H].
  - done.
  - exact cut_run.
  - reflexivity.
  - reflexivity.
  - vm_compute. reflexivity.
  - cbn in H. destruct H as (_ & Hp & Hg & _). eexists. split; [reflexivity|]. split; [exact Hp|reflexivity].
Defined.

(** An open that is overtaken by a cutover between opening the lower file and
    noting the generation keeps the old lower file for good: the descriptor
    looks current. *)
Example overtaken_open_is_never_reissued :
  match open_begin open_all true cut_inode O_RDWR 1000 with
  | Ok lf =>
      let (fi, si) := open_end bumped_inode O_RDWR 1000 lf in
      fst (fst (smoothfs_lower_file open_all si (Some fi))) = Ok lf
      /\ lf_path lf = Path 20 5 /\ smoothfs_get_lower_path si = Path 10 9
  | Err _ => False
  end.
Proof. vm_compute. by repeat split. Qed.
