(* ===== verification/ReadCache.v ===== *)
(** * The read cache: src/src/smoothfs/file.c

    In cache mode the data of a file lives on the base tier; reads go through a
    per-inode cache in an anonymous file on the fastest tier, in chunks of
    [SMOOTHFS_RANGE_READ_CHUNK] bytes.  A chunk is valid for the write sequence
    number and cutover generation at which it was read, and is dropped when
    either moves or when the lower file is mapped writable.

    [smoothfs_read_iter] chooses between the staged, the cached and the direct
    read.  The promise is that all three read the same file. *)
From S2P Require Import Prelude Types Tiers KernelIO RangeList RangeMeta Staging.

(** [read_cache_file], [read_cache_chunks], [read_cache_seq], [read_cache_gen] *)
Record rcache := RCache { rc_file : option (list Z); rc_chunks : gmap Z Z; rc_seq : Z; rc_gen : Z }.
#[export] Instance rcache_eta : Eta rcache := fun r => RCache (rc_file r) (rc_chunks r) (rc_seq r) (rc_gen r).

Definition smoothfs_read_cache_clear (rc : rcache) : rcache := rc <| rc_file := None |> <| rc_chunks := ∅ |>.

(** Drop what another version of the file left behind. *)
Definition cache_revalidate (mapped : bool) (seq gen : Z) (rc : rcache) : rcache :=
  if mapped || negb (rc_seq rc =? seq) || negb (rc_gen rc =? gen)
  then smoothfs_read_cache_clear rc <| rc_seq := seq |> <| rc_gen := gen |>
  else rc.

Section Cached.
Context (ora : oracle).

(** A hit is a full read of the bytes the chunk is valid for. *)
Definition cache_hit (k : nat) (rc : rcache) (index : Z) : option (list Z) * nat :=
  match rc_file rc, rc_chunks rc !! index with
  | Some f, Some valid =>
      match kernel_read ora k f (index * SMOOTHFS_RANGE_READ_CHUNK) valid with
      | Ok bs => (if Z.of_nat (length bs) =? valid then Some bs else None, S k)
      | Err _ => (None, S k)
      end
  | _, _ => (None, k)
  end.

(** Keep what was read from the lower file, when there is room. *)
Definition cache_fill (k : nat) (near mapped : bool) (index : Z) (bs : list Z) (rc : rcache) : rcache * nat :=
  if (length bs =? 0)%nat || mapped || near then (rc, k)
  else
    let (f, k) := match rc_file rc with
                  | Some f => (Some f, k)
                  | None => (if ora k <? 0 then None else Some [], S k)   (* O_TMPFILE *)
                  end in
    match f with
    | None => (rc, k)
    | Some f =>
        let chunks := delete index (rc_chunks rc) in
        let (n, f) := kernel_write ora k f (index * SMOOTHFS_RANGE_READ_CHUNK) bs in
        let stored := (n =? Z.of_nat (length bs)) && (0 <=? ora (S k)) in
        (rc <| rc_file := Some f |>
            <| rc_chunks := if stored then <[index := Z.of_nat (length bs)]> chunks else chunks |>, (k + 2)%nat)
    end.

(** The bytes of one chunk: from the cache or from the lower file [low]. *)
Definition cache_chunk (k : nat) (near mapped : bool) (low : list Z) (index : Z) (rc : rcache)
  : result (list Z) * rcache * nat :=
  let (hit, k) := cache_hit k rc index in
  match hit with
  | Some bs => (Ok bs, rc, k)
  | None =>
      match kernel_read ora k low (index * SMOOTHFS_RANGE_READ_CHUNK) SMOOTHFS_RANGE_READ_CHUNK with
      | Err e => (Err e, rc, S k)
      | Ok bs => let (rc, k) := cache_fill (S k) near mapped index bs rc in (Ok bs, rc, k)
      end
  end.

(** [while (iov_iter_count(to))]; [count] is what the destination still takes. *)
Fixpoint cached_loop (fuel : nat) (k : nat) (near : nat -> bool) (mapped : nat -> bool) (low : list Z) (seq gen : Z)
    (rc : rcache) (count pos : Z) (out : list Z) : result (list Z) * rcache * nat :=
  match fuel with
  | O => (Ok out, rc, k)
  | S fuel =>
      if count <=? 0 then (Ok out, rc, k)
      else
        let index := pos / SMOOTHFS_RANGE_READ_CHUNK in
        let offset := pos - index * SMOOTHFS_RANGE_READ_CHUNK in
        let rc := cache_revalidate (mapped k) seq gen rc in
        let '(r, rc, k) := cache_chunk k (near k) (mapped k) low index rc in
        match r with
        | Err e => (done_or out e, rc, k)
        | Ok bs =>
            if Z.of_nat (length bs) <=? offset then (Ok out, rc, k)
            else
              let n := Z.max 0 (Z.min (ora k) (Z.min (Z.of_nat (length bs) - offset) count)) in
              if n <=? 0 then (Ok out, rc, S k)
              else cached_loop fuel (S k) near mapped low seq gen rc (count - n) (pos + n)
                     (out ++ pread bs offset n)
        end
  end.

(** [lower] is what [smoothfs_lower_file] returned. *)
Definition smoothfs_cached_read_iter (near mapped : nat -> bool) (lower : option (result Z)) (w : world) (rc : rcache)
    (pos count : Z) : result (list Z) * rcache * nat :=
  let err := smoothfs_lower_file_error lower in
  if negb (err =? 0) then (Err err, rc, w_k w)
  else if ora (w_k w) <? 0 then (kernel_read ora (S (w_k w)) (w_base w) pos count, rc, (w_k w + 2)%nat)
  else cached_loop (Z.to_nat count) (S (w_k w)) near mapped (w_base w) (write_seq (w_si w)) (cutover_gen (w_si w))
         rc count pos [].

(** [direct] is [IOCB_DIRECT]. *)
Definition smoothfs_read_iter (near mapped : nat -> bool) (now : Z) (lower : option (result Z)) (direct : bool)
    (w : world) (rc : rcache) (pos count : Z) : result (list Z) * world * rcache :=
  if range_staged (w_rs w) && direct then (Err (- EBUSY), w, rc)
  else
    let '(r, rc, k) :=
      if range_staged (w_rs w) then
        let (r, k) := smoothfs_range_stage_read_iter ora lower w pos count in (r, rc, k)
      else if cache_mode (w_sbi w) && negb direct && (current_tier (w_si w) =? ntiers (w_sbi w) - 1) then
        smoothfs_cached_read_iter near mapped lower w rc pos count
      else
        let err := smoothfs_lower_file_error lower in
        if negb (err =? 0) then (Err err, rc, w_k w)
        else (kernel_read ora (w_k w) (w_base w) pos count, rc, S (w_k w)) in
    let w := w <| w_k := k |> in
    match r with
    | Ok (_ :: _ as bs) =>
        (r, w <| w_si := w_si w <| read_bytes := read_bytes (w_si w) + Z.of_nat (length bs) |>
                              <| last_access_ns := now |> |>, rc)
    | _ => (r, w, rc)
    end.

End Cached.

(** ** Coherence *)

Lemma chunk_pos : 0 < SMOOTHFS_RANGE_READ_CHUNK.
Proof. done. Qed.
Opaque SMOOTHFS_RANGE_READ_CHUNK.

(** What chunk [i] of the cache holds are the first [v] bytes of that chunk of
    the lower file. *)
Definition chunk_ok (low : list Z) (rc : rcache) (i v : Z) : Prop :=
  0 <= i /\ 0 < v <= SMOOTHFS_RANGE_READ_CHUNK
  /\ fsize (pread low (i * SMOOTHFS_RANGE_READ_CHUNK) v) = v
  /\ exists f, rc_file rc = Some f
     /\ pread f (i * SMOOTHFS_RANGE_READ_CHUNK) v = pread low (i * SMOOTHFS_RANGE_READ_CHUNK) v.
Definition cache_valid (low : list Z) (rc : rcache) : Prop :=
  forall i v, rc_chunks rc !! i = Some v -> chunk_ok low rc i v.

(** The cache is only trusted at the version it was filled at. *)
Definition cache_coherent (low : list Z) (seq gen : Z) (rc : rcache) : Prop :=
  rc_seq rc <= seq /\ (rc_seq rc = seq -> rc_gen rc = gen -> cache_valid low rc).

(** No chunk was cut short when it was read. *)
Definition cache_full (low : list Z) (rc : rcache) : Prop :=
  forall i v, rc_chunks rc !! i = Some v ->
    v = Z.min SMOOTHFS_RANGE_READ_CHUNK (fsize low - i * SMOOTHFS_RANGE_READ_CHUNK).

Lemma clear_valid low rc : cache_valid low (smoothfs_read_cache_clear rc).
Proof. intros i v H. cbn in H. by rewrite lookup_empty in H. Qed.

Lemma revalidate_spec low mapped seq gen rc : cache_coherent low seq gen rc ->
  let rc' := cache_revalidate mapped seq gen rc in
  cache_valid low rc' /\ rc_seq rc' = seq /\ rc_gen rc' = gen
  /\ (rc_chunks rc' = rc_chunks rc \/ rc_chunks rc' = ∅).
Proof.
  intros [_ H]. cbv zeta. unfold cache_revalidate.
  destruct (mapped || negb (rc_seq rc =? seq) || negb (rc_gen rc =? gen)) eqn:E.
  - split_and!; [|done|done|by right]. intros i v Hv. cbn in Hv. by rewrite lookup_empty in Hv.
  - apply orb_false_iff in E as [E E2]. apply orb_false_iff in E as [_ E1]. to_prop. split_and!; auto.
Qed.

(** Reads within one version. *)

Lemma pread_exact f p m : 0 <= p -> 0 <= m -> pread f p m = pread f p (fsize (pread f p m)).
Proof.
  intros Hp Hm. pose proof (length_pread f p m Hp Hm) as Hn. pose proof (fsize_nonneg f).
  generalize dependent (fsize (pread f p m)). intros n Hn. apply fbyte_ext.
  - rewrite !length_pread by lia. lia.
  - intros q [Hq Hq2]. rewrite length_pread in Hq2 by lia. rewrite !fbyte_pread by lia.
    destruct (Z.ltb_spec q m); destruct (Z.ltb_spec q n); try lia; done.
Qed.

Lemma pread_pread f p m off n : 0 <= p -> 0 <= off -> 0 <= n -> off + n <= fsize (pread f p m) -> 0 <= m ->
  pread (pread f p m) off n = pread f (p + off) n.
Proof.
  intros Hp Ho Hn Hle Hm. rewrite length_pread in Hle by lia. apply fbyte_ext.
  - rewrite !length_pread by lia. lia.
  - intros q [Hq Hq2]. rewrite !length_pread in Hq2 by lia. rewrite !fbyte_pread by lia.
    destruct (Z.ltb_spec q n); [|lia]. destruct (Z.ltb_spec (off + q) m); [f_equal; lia|lia].
Qed.

Lemma pread_pwrite_other f p bs q v : 0 <= p -> 0 <= q -> 0 <= v -> q + v <= p \/ p + fsize bs <= q ->
  fsize (pread f q v) = v -> pread (pwrite f p bs) q v = pread f q v.
Proof.
  intros Hp Hq Hv Hd Hl. destruct (decide (bs = [])) as [->|Hne]; [done|]. rewrite length_pread in Hl by lia.
  apply fbyte_ext.
  - rewrite !length_pread, fsize_pwrite by lia || done. lia.
  - intros x [Hx Hx2]. rewrite !fbyte_pread by lia. destruct (Z.ltb_spec x v); [|done].
    rewrite fbyte_pwrite by lia. destruct (Z.leb_spec p (q + x)); destruct (Z.ltb_spec (q + x) (p + fsize bs)); try done; lia.
Qed.

Lemma pread_pwrite_same f p bs : 0 <= p -> pread (pwrite f p bs) p (fsize bs) = bs.
Proof.
  intros Hp. pose proof (fsize_nonneg bs) as Hb. destruct (decide (bs = [])) as [->|Hne]; [done|].
  apply fbyte_ext.
  - rewrite length_pread, fsize_pwrite by lia || done. lia.
  - intros x [Hx Hx2]. rewrite length_pread, fsize_pwrite in Hx2 by lia || done.
    rewrite fbyte_pread, fbyte_pwrite by lia. destruct (Z.ltb_spec x (fsize bs)); [|lia].
    destruct (Z.leb_spec p (p + x)); [|lia]. destruct (Z.ltb_spec (p + x) (p + fsize bs)); [|lia]. cbn. f_equal. lia.
Qed.

Section CachedProps.
Context (ora : oracle).
Local Notation "'CH'" := SMOOTHFS_RANGE_READ_CHUNK.

Lemma hit_spec low rc k i bs k' : cache_valid low rc -> cache_hit ora k rc i = (Some bs, k') ->
  exists v, rc_chunks rc !! i = Some v /\ 0 <= i /\ 0 < v <= CH /\ bs = pread low (i * CH) v /\ fsize bs = v.
Proof.
  intros Hv. unfold cache_hit. destruct (rc_file rc) as [f|] eqn:Ef; [|done].
  destruct (rc_chunks rc !! i) as [v|] eqn:Ev; [|done]. destruct (Hv _ _ Ev) as (Hi & Hr & Hs & f' & Ef' & Hp).
  rewrite Ef in Ef'. injection Ef' as <-. pose proof chunk_pos as HC. unfold kernel_read.
  destruct (Z.ltb_spec (ora k) 0) as [|Hk]; [done|].
  destruct (Z.eqb_spec (Z.of_nat (length (pread f (i * CH) (Z.min (ora k) v)))) v) as [Hl|]; [|done].
  intros [= <- _]. exists v. change (Z.of_nat (length ?l)) with (fsize l) in Hl.
  assert (Z.min (ora k) v = v) as Em by (rewrite length_pread in Hl by nia; lia).
  rewrite Em in *. split_and!; [done|done|lia|lia|done|done].
Qed.

Lemma fill_spec low rc k near mapped i bs rc' k' : cache_valid low rc -> 0 <= i -> fsize bs <= CH ->
  bs = pread low (i * CH) (fsize bs) -> cache_fill ora k near mapped i bs rc = (rc', k') ->
  cache_valid low rc' /\ rc_seq rc' = rc_seq rc /\ rc_gen rc' = rc_gen rc
  /\ (forall j v, rc_chunks rc' !! j = Some v -> rc_chunks rc !! j = Some v \/ (j = i /\ v = fsize bs)).
Proof.
  intros Hv Hi Hb Hbs. unfold cache_fill. pose proof chunk_pos as HC. pose proof (fsize_nonneg bs).
  destruct ((length bs =? 0)%nat || mapped || near) eqn:E0; [intros [= <- <-]; auto|].
  assert (0 < fsize bs) as Hpos.
  { apply orb_false_iff in E0 as [E0 _]. apply orb_false_iff in E0 as [E0%Nat.eqb_neq _]. unfold fsize. lia. }
  destruct (match rc_file rc with Some f => _ | None => _ end) as [[f|] k1] eqn:Ef; [|intros [= <- <-]; auto].
  unfold kernel_write. set (n := Z.min (ora k1) (Z.of_nat (length bs))).
  assert (forall g, (forall j v, rc_chunks rc !! j = Some v -> j <> i -> pread g (j * CH) v = pread low (j * CH) v) ->
    (forall b : bool, (b = true -> pread g (i * CH) (fsize bs) = bs) ->
     let rc2 := rc <| rc_file := Some g |>
       <| rc_chunks := if b then <[i := fsize bs]> (delete i (rc_chunks rc)) else delete i (rc_chunks rc) |> in
     cache_valid low rc2 /\ rc_seq rc2 = rc_seq rc /\ rc_gen rc2 = rc_gen rc
     /\ (forall j v, rc_chunks rc2 !! j = Some v -> rc_chunks rc !! j = Some v \/ (j = i /\ v = fsize bs)))) as Hfin.
  { intros g Hg b Hb2. cbv zeta. cbn.
    assert (forall j v, (if b then <[i := fsize bs]> (delete i (rc_chunks rc)) else delete i (rc_chunks rc)) !! j = Some v ->
      (j <> i /\ rc_chunks rc !! j = Some v) \/ (b = true /\ j = i /\ v = fsize bs)) as Hc.
    { intros j v. destruct b; [intros [[<- <-]|[? [_ ?]%lookup_delete_Some]]%lookup_insert_Some; auto|].
      intros [? ?]%lookup_delete_Some. auto. }
    split_and!; [|done|done|intros j v [[_ ?]|(_ & ? & ?)]%Hc; auto].
    intros j v [[Hne Hj]|(Eb & -> & ->)]%Hc; unfold chunk_ok; cbn.
    - destruct (Hv _ _ Hj) as (A & B & D & _). split; [exact A|]. split; [exact B|]. split; [exact D|].
      exists g. split; [done|by apply Hg].
    - split; [exact Hi|]. split; [lia|]. split; [by rewrite <- Hbs|]. exists g. split; [done|]. rewrite (Hb2 Eb). exact Hbs. }
  (* other chunks are elsewhere in the file *)
  assert (forall bs', fsize bs' <= CH -> forall j v, rc_chunks rc !! j = Some v -> j <> i ->
    pread (pwrite f (i * CH) bs') (j * CH) v = pread low (j * CH) v) as Hother.
  { intros bs' Hb' j v Hj Hne. destruct (Hv _ _ Hj) as (A & B & D & f0 & Ef0 & Hp0).
    rewrite Ef0 in Ef. injection Ef as <- _. rewrite <- Hp0. apply pread_pwrite_other; [nia|nia|lia|nia|]. by rewrite Hp0. }
  destruct (ora k1 <? 0) eqn:Ek.
  - intros [= <- <-]. apply (Hfin f); [|intros Hx; apply andb_true_iff in Hx as [Hx _]; to_prop; lia].
    intros j v Hj Hne. specialize (Hother [] ltac:(unfold fsize; simpl; lia) j v Hj Hne). done.
  - intros [= <- <-]. change (Z.of_nat (length bs)) with (fsize bs) in *. apply Hfin.
    + apply Hother. unfold fsize. rewrite length_take. unfold fsize in *. lia.
    + intros [Hx _]%andb_true_iff. to_prop. rewrite take_ge by (unfold fsize in *; lia). apply pread_pwrite_same. nia.
Qed.

(** One chunk: a prefix of the chunk of the lower file, all of it when nothing
    is cut short. *)
Lemma chunk_spec low rc k near mapped i r rc' k' : cache_valid low rc -> 0 <= i ->
  cache_chunk ora k near mapped low i rc = (r, rc', k') ->
  cache_valid low rc' /\ rc_seq rc' = rc_seq rc /\ rc_gen rc' = rc_gen rc
  /\ match r with
     | Err e => e < 0 /\ (smooth_run ora CH -> False)
     | Ok bs => fsize bs <= CH /\ bs = pread low (i * CH) (fsize bs)
         /\ (smooth_run ora CH -> cache_full low rc -> cache_full low rc' /\ bs = pread low (i * CH) CH)
     end.
Proof.
  intros Hv Hi. unfold cache_chunk. pose proof chunk_pos as HC.
  destruct (cache_hit ora k rc i) as [[bs|] k1] eqn:Eh.
  - intros [= <- <- <-]. destruct (hit_spec low rc k i bs k1 Hv Eh) as (v & Ev & _ & Hr & Hbs & Hl).
    split_and!; [done|done|done|lia|by rewrite Hl|]. intros _ Hf. split; [done|]. specialize (Hf _ _ Ev).
    assert (v = fsize (pread low (i * CH) CH)) as E by (rewrite length_pread by nia; lia).
    rewrite Hbs, E. symmetry. apply pread_exact; nia.
  - unfold kernel_read. destruct (Z.ltb_spec (ora k1) 0) as [Hk|Hk].
    { intros [= <- <- <-]. split_and!; [done|done|done|done|]. intros Hs. specialize (Hs k1). lia. }
    set (bs := pread low (i * CH) (Z.min (ora k1) CH)).
    assert (bs = pread low (i * CH) (fsize bs)) as Hbs by (apply pread_exact; nia).
    assert (fsize bs <= CH) as Hb by (unfold bs; rewrite length_pread by nia; lia).
    destruct (cache_fill ora (S k1) near mapped i bs rc) as [rc1 k2] eqn:Ef. intros [= <- <- <-].
    destruct (fill_spec low rc _ _ _ i bs rc1 k2 Hv Hi Hb Hbs Ef) as (F1 & F2 & F3 & F4).
    split_and!; [done|done|done|done|done|]. intros Hs Hf.
    assert (bs = pread low (i * CH) CH) as Efull by (unfold bs; specialize (Hs k1); by rewrite Z.min_r by lia).
    split; [|done]. intros j v Hj. destruct (F4 _ _ Hj) as [?|[-> ->]]; [by apply Hf|].
    pose proof (F1 _ _ Hj) as (_ & Hv0 & _). rewrite Efull in Hv0 |- *. rewrite length_pread in * by nia. lia.
Qed.

(** What a run of the loop from [pos] with [out] already read returns. *)
Definition cached_outcome (full : Prop) (low : list Z) (fuel : nat) (count pos : Z) (out : list Z)
    (res : result (list Z)) : Prop :=
  match res with
  | Err e => e < 0 /\ out = [] /\ (smooth_run ora CH -> False)
  | Ok out' => exists m, 0 <= m <= Z.max 0 count /\ out' = out ++ pread low pos m
      /\ (smooth_run ora CH -> full -> count <= Z.of_nat fuel -> m = Z.max 0 (Z.min count (fsize low - pos)))
  end.

Lemma cached_outcome_none full low fuel count pos out :
  (smooth_run ora CH -> full -> count <= Z.of_nat fuel -> Z.min count (fsize low - pos) <= 0) ->
  cached_outcome full low fuel count pos out (Ok out).
Proof.
  intros H. exists 0. unfold pread at 1. cbn. rewrite app_nil_r. split_and!; [lia|lia|done|].
  intros H1 H2 H3. specialize (H H1 H2 H3). lia.
Qed.

Lemma cached_loop_spec near mapped low seq gen : forall fuel k rc count pos out r rc' k',
  cache_coherent low seq gen rc -> 0 <= pos ->
  cached_loop ora fuel k near mapped low seq gen rc count pos out = (r, rc', k') ->
  cache_coherent low seq gen rc' /\ cached_outcome (cache_full low rc) low fuel count pos out r
  /\ (smooth_run ora CH -> cache_full low rc -> cache_full low rc').
Proof.
  pose proof chunk_pos as HC.
  induction fuel as [|fuel IH]; intros k rc count pos out r rc' k' Hc Hp; cbn [cached_loop].
  { intros [= <- <- <-]. split_and!; [exact Hc|apply cached_outcome_none; lia|done]. }
  destruct (Z.leb_spec count 0) as [Hz|Hz].
  { intros [= <- <- <-]. split_and!; [exact Hc|apply cached_outcome_none; lia|done]. }
  set (i := pos / CH). set (off := pos - i * CH).
  assert (0 <= i /\ 0 <= off < CH) as [Hi Ho].
  { unfold off, i. pose proof (Z.div_pos pos CH Hp HC). pose proof (Z.mod_pos_bound pos CH HC).
    rewrite (Z.mod_eq pos CH) in * by lia. nia. }
  destruct (revalidate_spec low (mapped k) seq gen rc Hc) as (V1 & S1 & G1 & D1).
  set (rc1 := cache_revalidate (mapped k) seq gen rc) in *. clearbody rc1.
  assert (cache_full low rc -> cache_full low rc1) as Hf1.
  { intros Hf j v. destruct D1 as [-> | ->]; [apply Hf|by rewrite lookup_empty]. }
  destruct (cache_chunk ora k (near k) (mapped k) low i rc1) as [[r1 rc2] k2] eqn:Ech.
  destruct (chunk_spec low rc1 k _ _ i r1 rc2 k2 V1 Hi Ech) as (V2 & S2 & G2 & Hr).
  assert (cache_coherent low seq gen rc2) as Hc2 by (split; [lia|done]).
  destruct r1 as [e|bs].
  { intros [= <- <- <-]. destruct Hr as [He Hns]. split; [done|]. split; [|by intros ?%Hns].
    destruct out; [done|]. apply cached_outcome_none. by intros ?%Hns. }
  destruct Hr as (Hl & Hbs & Hfull). pose proof (fsize_nonneg bs) as Hb0.
  change (Z.of_nat (length bs)) with (fsize bs).
  assert (smooth_run ora CH -> cache_full low rc -> cache_full low rc2) as Hf2 by (intros A B; by apply Hfull; [|apply Hf1]).
  assert (smooth_run ora CH -> cache_full low rc -> fsize bs = Z.max 0 (Z.min CH (fsize low - i * CH))) as Hlen.
  { intros A B. destruct (Hfull A (Hf1 B)) as [_ ->]. apply length_pread; nia. }
  destruct (Z.leb_spec (fsize bs) off).
  { intros [= <- <- <-]. split_and!; [exact Hc2| |done]. apply cached_outcome_none.
    intros A B _. specialize (Hlen A B). lia. }
  set (n := Z.max 0 (Z.min (ora k2) (Z.min (fsize bs - off) count))).
  destruct (Z.leb_spec n 0).
  { intros [= <- <- <-]. split_and!; [exact Hc2| |done]. apply cached_outcome_none.
    intros A B _. specialize (A k2). lia. }
  assert (pread bs off n = pread low pos n /\ fsize (pread low pos n) = n) as [Hpn Hln].
  { assert (pread bs off n = pread low pos n) as E.
    { assert (0 <= i * CH) by nia. assert (off + n <= fsize bs) as Hon by lia. clearbody n.
      rewrite Hbs. rewrite pread_pread; [f_equal; unfold off; lia|lia|lia|lia| |lia]. by rewrite <- Hbs. }
    split; [done|]. rewrite <- E, length_pread by lia. lia. }
  rewrite Hpn. assert (0 <= pos + n) as Hp2 by lia. intros H2. destruct (IH _ _ _ _ _ _ _ _ Hc2 Hp2 H2) as (Q1 & Q2 & Q3).
  split; [done|]. split; [|intros A B; by apply Q3, Hf2].
  destruct r as [e|out']; cbn in Q2 |- *.
  { destruct Q2 as (_ & Happ & _). apply app_nil in Happ as [_ Happ]. rewrite Happ in Hln. unfold fsize in Hln. simpl in Hln. lia. }
  destruct Q2 as (m & Hm & -> & Hmm). exists (n + m). split; [lia|]. split.
  - rewrite <- app_assoc, pread_app by lia. done.
  - intros A B Hfu. rewrite (Hmm A (Hf2 A B)) by lia.
    assert (pos + n <= fsize low) by (rewrite length_pread in Hln by lia; lia). lia.
Qed.

End CachedProps.

(** ** The read of a file *)

(** With nothing staged, the file is the lower file. *)
Lemma unstaged_file w : world_ok w -> range_staged (w_rs w) = false -> abs w = w_base w.
Proof.
  intros Hok Hu. pose proof (ok_unstaged w Hok Hu) as Hr. pose proof (fsize_nonneg (w_base w)).
  apply abs_unstaged; [done|]. rewrite (ok_size w Hok), Hr. cbn. lia.
Qed.

(** A plain read of the lower file. *)
Lemma plain_read ora k f pos count : 0 <= pos -> 0 <= count ->
  match kernel_read ora k f pos count with
  | Err e => e < 0
  | Ok bs => exists m, 0 <= m <= count /\ bs = pread f pos m
      /\ (smooth_run ora count -> bs = pread f pos (Z.max 0 (Z.min count (fsize f - pos))))
  end.
Proof.
  intros Hp Hc. unfold kernel_read. destruct (Z.ltb_spec (ora k) 0); [done|].
  exists (Z.min (ora k) count). split; [lia|]. split; [done|]. intros Hs. specialize (Hs k).
  rewrite Z.min_r by lia. rewrite (pread_exact f pos count) by done. by rewrite length_pread by done.
Qed.

Lemma smooth_weaken ora a b : a <= b -> smooth_run ora b -> smooth_run ora a.
Proof. intros Hab H k. specialize (H k). lia. Qed.

(** What a read of [count] bytes at [pos] of file [f] may return. *)
Definition reads (ora : oracle) (full : Prop) (f : list Z) (pos count err : Z) (r : result (list Z)) : Prop :=
  match r with
  | Err e => e < 0 \/ e = err
  | Ok bs => exists m, 0 <= m <= count /\ bs = pread f pos m
      /\ (smooth_run ora (Z.max SMOOTHFS_RANGE_READ_CHUNK count) -> full ->
          bs = pread f pos (Z.max 0 (Z.min count (fsize f - pos))))
  end.

Lemma reads_plain ora full k f pos count err : 0 <= pos -> 0 <= count ->
  reads ora full f pos count err (kernel_read ora k f pos count).
Proof.
  intros Hp Hc. pose proof (plain_read ora k f pos count Hp Hc) as H. unfold reads.
  destruct (kernel_read ora k f pos count) as [e|bs]; [by left|]. destruct H as (m & Hm & Hb & Hs).
  exists m. split; [done|]. split; [done|]. intros Hsm _. apply Hs. eapply smooth_weaken; [|exact Hsm]. lia.
Qed.

Lemma reads_cached ora near mapped lower w rc pos count r rc' k' :
  cache_coherent (w_base w) (write_seq (w_si w)) (cutover_gen (w_si w)) rc -> 0 <= pos -> 0 <= count ->
  smoothfs_cached_read_iter ora near mapped lower w rc pos count = (r, rc', k') ->
  cache_coherent (w_base w) (write_seq (w_si w)) (cutover_gen (w_si w)) rc'
  /\ reads ora (cache_full (w_base w) rc) (w_base w) pos count (smoothfs_lower_file_error lower) r.
Proof.
  intros Hc Hp Hn. unfold smoothfs_cached_read_iter.
  destruct (Z.eqb_spec (smoothfs_lower_file_error lower) 0) as [Herr|Herr]; cbn [negb]; [|intros [= <- <- <-]; split; [done|by right]].
  destruct (Z.ltb_spec (ora (w_k w)) 0).
  { intros E. injection E as <- <- <-. split; [done|by apply reads_plain]. }
  intros H1. destruct (cached_loop_spec ora near mapped (w_base w) _ _ _ _ _ _ _ _ _ _ _ Hc Hp H1) as (C1 & O1 & _).
  split; [done|]. destruct r as [e|bs]; [left; apply O1|]. destruct O1 as (m & Hm & -> & Hs). cbn [app].
  exists m. split; [lia|]. split; [done|]. intros Hsm Hf. f_equal. apply Hs; [|done|lia].
  eapply smooth_weaken; [|exact Hsm]. lia.
Qed.

Lemma reads_staged ora full lower w pos count : world_ok w -> no_short ora SMOOTHFS_RANGE_READ_CHUNK -> 0 <= pos -> 0 <= count ->
  reads ora full (abs w) pos count (smoothfs_lower_file_error lower)
    (fst (smoothfs_range_stage_read_iter ora lower w pos count)).
Proof.
  intros Hok Hs Hp Hc. unfold smoothfs_range_stage_read_iter.
  destruct (Z.eqb_spec (smoothfs_lower_file_error lower) 0) as [Herr|Herr]; cbn [negb]; [|by right].
  pose proof (stage_read_loop_spec ora w _ Hok Hs ltac:(lia) (Z.to_nat count) (w_k w) count pos [] Hp) as H.
  destruct (stage_read_loop _ _ _ _ _ _ _) as [[e0|out] k]; cbn in H |- *; [left; tauto|].
  destruct H as (m & Hm & Hm' & -> & Hsm). exists m. split; [lia|]. split; [done|]. intros H1 _.
  rewrite fsize_abs by (by apply ok_isize_nonneg). f_equal. apply Hsm; [|lia].
  eapply smooth_weaken; [|exact H1]. lia.
Qed.

Lemma read_iter_spec ora near mapped now lower direct w rc pos count r w' rc' :
  world_ok w -> (range_staged (w_rs w) = true -> no_short ora SMOOTHFS_RANGE_READ_CHUNK) -> 0 <= pos -> 0 <= count ->
  cache_coherent (abs w) (write_seq (w_si w)) (cutover_gen (w_si w)) rc ->
  smoothfs_read_iter ora near mapped now lower direct w rc pos count = (r, w', rc') ->
  cache_coherent (abs w) (write_seq (w_si w)) (cutover_gen (w_si w)) rc' /\ inert w w'
  /\ write_seq (w_si w') = write_seq (w_si w) /\ cutover_gen (w_si w') = cutover_gen (w_si w)
  /\ reads ora (cache_full (abs w) rc) (abs w) pos count (smoothfs_lower_file_error lower) r.
Proof.
  intros Hok Hns Hp Hn Hc. unfold smoothfs_read_iter.
  destruct (range_staged (w_rs w)) eqn:Es; cbn [andb].
  - destruct direct; [intros [= <- <- <-]; split; [exact Hc|]; split; [apply inert_refl|]; split_and!; [done|done|by left]|].
    pose proof (reads_staged ora (cache_full (abs w) rc) lower w pos count Hok (Hns eq_refl) Hp Hn) as Hr.
    destruct (smoothfs_range_stage_read_iter ora lower w pos count) as [r0 k]. cbn [fst] in Hr.
    destruct r0 as [e|[|b bs]]; intros [= <- <- <-]; (split; [exact Hc|]); (split; [by repeat split|]); (split; [done|]); (split; [done|exact Hr]).
  - rewrite (unstaged_file w Hok Es) in *.
    match goal with |- context [let '(_, _) := ?x in _] => destruct x as [[r0 rc0] k0] eqn:E0 end.
    assert (cache_coherent (w_base w) (write_seq (w_si w)) (cutover_gen (w_si w)) rc0
      /\ reads ora (cache_full (w_base w) rc) (w_base w) pos count (smoothfs_lower_file_error lower) r0) as [H1 H2].
    { destruct (cache_mode (w_sbi w) && negb direct && _); [by eapply reads_cached|].
      destruct (Z.eqb_spec (smoothfs_lower_file_error lower) 0) as [Herr|Herr]; cbn [negb] in E0; injection E0 as <- <- <-;
        (split; [done|]); [by apply reads_plain|by right]. }
    clear E0. destruct r0 as [e|[|b bs]]; intros [= <- <- <-]; (split; [exact H1|]); (split; [by repeat split|]); (split; [done|]); (split; [done|exact H2]).
Qed.

(** C18. read_iter through the chunk cache, the overlay or the lower file fails
    or returns a prefix of what a plain read of the composed file returns,
    changes no byte, and leaves a cache that agrees with the file at the current
    write sequence and cutover generation. The prefix is all of it up to end of
    file when no call fails or is cut short now and none was cut short while the
    cached chunks were filled (the code caches a short chunk as if the file
    ended there). While ranges are staged, a kernel read of a chunk is assumed
    to fail or to be whole, since the overlay takes a short one for the end of
    the lower bytes. *)
Theorem read_iter_is_a_read ora near mapped now lower direct w rc pos count r w' rc' :
  world_ok w -> (range_staged (w_rs w) = true -> no_short ora SMOOTHFS_RANGE_READ_CHUNK) -> 0 <= pos -> 0 <= count ->
  cache_coherent (abs w) (write_seq (w_si w)) (cutover_gen (w_si w)) rc ->
  smoothfs_read_iter ora near mapped now lower direct w rc pos count = (r, w', rc') ->
  cache_coherent (abs w) (write_seq (w_si w)) (cutover_gen (w_si w)) rc' /\ abs w' = abs w
  /\ reads ora (cache_full (abs w) rc) (abs w) pos count (smoothfs_lower_file_error lower) r.
Proof.
  intros Hok Hns Hp Hn Hc H. destruct (read_iter_spec _ _ _ _ _ _ _ _ _ _ _ _ _ Hok Hns Hp Hn Hc H) as (A & B & _ & _ & D).
  split; [exact A|]. split; [by apply inert_ok|exact D].
Qed.

(** A write makes the cache of the version before it worthless, not wrong. *)
Lemma coherent_after_write low low' seq gen gen' rc :
  cache_coherent low seq gen rc -> cache_coherent low' (seq + 1) gen' rc.
Proof. intros [H _]. split; [lia|]. intros E. lia. Qed.

(** A freshly cleared cache (a mapping is about to write past it). *)
Lemma coherent_cleared low seq gen rc : rc_seq rc <= seq -> cache_coherent low seq gen (smoothfs_read_cache_clear rc).
Proof. intros H. split; [done|]. intros _ _. apply clear_valid. Qed.

(** ** Concrete reads *)

Definition rcache_init : rcache := RCache None ∅ 0 0.
Definition no_near : nat -> bool := fun _ => false.

Lemma rcache_init_coherent low seq gen : 0 <= seq -> cache_coherent low seq gen rcache_init.
Proof. intros H. split; [exact H|]. intros _ _ i v Hv. cbn in Hv. by rewrite lookup_empty in Hv. Qed.

(** A first read fills the cache, a second one is served from it. *)
Definition cached_once : result (list Z) * world * rcache :=
  smoothfs_read_iter no_faults no_near no_near 9 (Some (Ok 20)) false cache_world rcache_init 1 10.

Example second_read_hits_the_cache :
  fst (fst cached_once) = Ok [2; 3; 4] /\ rc_chunks (snd cached_once) !! 0 = Some 4
  /\ cache_hit no_faults 0 (snd cached_once) 0 = (Some [1; 2; 3; 4], 1%nat).
Proof. vm_compute. by repeat split. Qed.

Lemma read_iter_is_a_read_witness :
  cache_coherent (abs cache_world) 0 0 (snd cached_once)
  /\ reads no_faults (cache_full (abs cache_world) rcache_init) (abs cache_world) 1 10 0 (fst (fst cached_once)).
Proof.
  destruct (read_iter_is_a_read no_faults no_near no_near 9 (Some (Ok 20)) false cache_world rcache_init 1 10
              (fst (fst cached_once)) (snd (fst cached_once)) (snd cached_once)) as (H1 & _ & H2).
  - exact cache_world_ok.
  - discriminate.
  - lia.
  - lia.
  - apply rcache_init_coherent. discriminate.
  - fold cached_once. destruct cached_once as [[a b] c]. reflexivity.
  - split; [exact H1|exact H2].
Defined.

(** A lower read that is cut short is kept as the whole chunk: until the file
    changes, readers see its end there. *)
Example short_lower_read_is_cached_as_the_end :
  let ora := fun k : nat => if (k =? 1)%nat then 2 else 1000000 in
  let '(r1, w1, rc1) := smoothfs_read_iter ora no_near no_near 9 (Some (Ok 20)) false cache_world rcache_init 0 10 in
  let '(r2, _, _) := smoothfs_read_iter no_faults no_near no_near 9 (Some (Ok 20)) false w1 rc1 2 10 in
  r1 = Ok [1; 2] /\ r2 = Ok [] /\ abs w1 = [1; 2; 3; 4].
Proof. vm_compute. by repeat split. Qed.
