(* ===== verification/FileOps.v ===== *)
(** * The other file operations: src/src/smoothfs/file.c

    Mapping, seeking, splicing, preallocation, reflink and ioctl.  Each hands
    its request to the lower file.  In cache mode what is staged is drained
    first, so that the lower file is the file; the operations that change data
    also pass the cutover gate and move the write sequence number, which is
    what the read cache is keyed by.

    The lower file system's own operations are parameters: a change is a
    function from the lower file's bytes to a return value and new bytes. *)
From S2P Require Import Prelude Types Tiers KernelIO RangeList RangeMeta Staging Drains ReadCache InodeMaps Reissue.

(** ** open, release *)

(** [can_odirect] is [FMODE_CAN_ODIRECT] of the lower file; the result carries
    the upper file's. *)
Definition smoothfs_open (e : open_env) (can_odirect : lfile -> bool) (alloc : bool) (si : inode_info) (f_flags cred : Z)
  : result (file_info * bool) * inode_info :=
  match smoothfs_open_lower e alloc si f_flags cred with
  | (Err err, si) => (Err err, si)
  | (Ok fi, si) => (Ok (fi, can_odirect (lower_file fi)), si)
  end.

Definition smoothfs_release (w : world) (fi : option file_info) : Z * option file_info * world :=
  let si := w_si w <| open_count := open_count (w_si w) - 1 |> in
  let w := w <| w_si := si |> in
  let w := if open_count si =? 0
           then let (sbi, si) := smoothfs_clear_write_reservation (w_sbi w) si in
                w <| w_sbi := sbi |> <| w_si := si |>
           else w in
  let (ret, fi) := smoothfs_release_lower fi in (ret, fi, w).

Section FileOps.
Context (ora : oracle) (now : Z).

(** The drain that precedes an operation of a cache-mode pool. *)
Definition cache_drain_first (w : world) : Z * world :=
  if cache_mode (w_sbi w) then smoothfs_write_staging_drain_inode ora now w else (0, w).

(** [shared] is [vma_is_shared_maywrite]. *)
Definition smoothfs_mmap_unlocked (lower : option (result Z)) (can_mmap shared : bool) (w : world) (rc : rcache)
  : Z * world * rcache :=
  let (err, w) := cache_drain_first w in
  if negb (err =? 0) then (err, w, rc)
  else
    let err := smoothfs_lower_file_error lower in
    if negb (err =? 0) then (err, w, rc)
    else if negb can_mmap then (- ENODEV, w, rc)
    else if shared && mappings_quiesced (w_si w) then (- EBUSY, w, rc)
    else if range_staged (w_rs w) then (- EBUSY, w, rc)
    else
      let rc := if shared then smoothfs_read_cache_clear rc else rc in
      (call ora (w_k w), tick 1 w, rc).

(** [seek f_pos offset whence bytes]: the lower file's [llseek], or the generic
    one.  The second result is [file->f_pos]. *)
Definition smoothfs_llseek (lower : option (result Z)) (seek : Z -> Z -> Z -> list Z -> Z) (f_pos offset whence : Z)
    (w : world) : Z * Z * world :=
  let (err, w) := cache_drain_first w in
  if negb (err =? 0) then (err, f_pos, w)
  else
    let err := smoothfs_lower_file_error lower in
    if negb (err =? 0) then (err, f_pos, w)
    else
      let ret := seek f_pos offset whence (w_base w) in
      (ret, if 0 <=? ret then ret else f_pos, w).

Definition smoothfs_splice_read (lower : option (result Z)) (splice : option (list Z -> result (list Z))) (w : world)
  : result (list Z) * world :=
  let (err, w) := cache_drain_first w in
  if negb (err =? 0) then (Err err, w)
  else
    let err := smoothfs_lower_file_error lower in
    if negb (err =? 0) then (Err err, w)
    else match splice with
         | None => (Err (- EINVAL), w)
         | Some splice => (splice (w_base w), w)
         end.

(** *** Operations that change the lower file

    [held] is the lower file the call looked up before it waited at the gate:
    [None] when it still is the inode's lower file, the bytes of the old one
    when a cutover overtook the call.  [noted] says which return values bump
    the write sequence number. *)
Definition data_change (waits : list (result movement_state)) (held : option (list Z))
    (op : list Z -> Z * list Z) (noted : Z -> bool) (w : world) : option (Z * option (list Z) * world) :=
  match smoothfs_begin_data_change ora now waits w with
  | None => None
  | Some (err, w) =>
      Some (if err <? 0 then (err, held, w)
            else
              let '(ret, held, w) :=
                match held with
                | None => let (ret, base) := op (w_base w) in (ret, None, w <| w_base := base |>)
                | Some old => let (ret, old) := op old in (ret, Some old, w)
                end in
              (ret, held, if noted ret then w <| w_si := smoothfs_note_data_change (w_si w) |> else w))
  end.

Definition smoothfs_splice_write (waits : list (result movement_state)) (lower : option (result Z))
    (held : option (list Z)) (splice : option (list Z -> Z * list Z)) (w : world)
  : option (Z * option (list Z) * world) :=
  let err := smoothfs_lower_file_error lower in
  if negb (err =? 0) then Some (err, held, w)
  else match splice with
       | None => Some (- EINVAL, held, w)
       | Some op => data_change waits held op (Z.ltb 0) w
       end.

Definition smoothfs_fallocate (waits : list (result movement_state)) (lower : option (result Z))
    (held : option (list Z)) (fallocate : option (list Z -> Z * list Z)) (w : world)
  : option (Z * option (list Z) * world) :=
  let err := smoothfs_lower_file_error lower in
  if negb (err =? 0) then Some (err, held, w)
  else match fallocate with
       | None => Some (- EOPNOTSUPP, held, w)
       | Some op => data_change waits held op (Z.eqb 0) w
       end.

(** The source of a reflink: no file, a file of another file system with its
    mount, or a smoothfs file. *)
Inductive rfile :=
| RF_null
| RF_other (mnt : Z) (data : list Z)
| RF_smooth (lower : option (result Z)) (src : world).

Definition smoothfs_remap_source_file (src : rfile) : option (result Z) :=
  match src with
  | RF_null => Some (Err (- EBADF))
  | RF_smooth lower w =>
      if cache_mode (w_sbi w) && range_staged (w_rs w) then Some (Err (- EBUSY)) else lower
  | RF_other mnt _ => Some (Ok mnt)
  end.

(** The bytes the lower operation finds there. *)
Definition rfile_bytes (src : rfile) : list Z :=
  match src with RF_null => [] | RF_other _ d => d | RF_smooth _ w => w_base w end.

Definition lower_mnt (lower : option (result Z)) : Z :=
  match lower with Some (Ok mnt) => mnt | _ => 0 end.

(** [sb_of] is the superblock behind a mount; [remap] is the lower file's
    [remap_file_range] and [clone] [vfs_clone_file_range], both on the bytes of
    source and destination. *)
Definition smoothfs_remap_file_range (waits : list (result movement_state)) (sb_of : Z -> Z)
    (file_in : rfile) (lower : option (result Z)) (held : option (list Z))
    (remap : option (list Z -> list Z -> Z * list Z)) (clone : list Z -> list Z -> Z * list Z) (remap_flags : Z)
    (w : world) : option (Z * option (list Z) * world) :=
  let lower_in := smoothfs_remap_source_file file_in in
  let lower_out := smoothfs_remap_source_file (RF_smooth lower w) in
  let err := smoothfs_lower_file_error lower_in in
  if negb (err =? 0) then Some (err, held, w)
  else
    let err := smoothfs_lower_file_error lower_out in
    if negb (err =? 0) then Some (err, held, w)
    else if negb (sb_of (lower_mnt lower_in) =? sb_of (lower_mnt lower_out)) then Some (- EXDEV, held, w)
    else
      let op := match remap with
                | Some remap => remap (rfile_bytes file_in)
                | None => if remap_flags =? 0 then clone (rfile_bytes file_in)
                          else fun base => (- EOPNOTSUPP, base)
                end in
      data_change waits held op (Z.leb 0) w.

(** The argument of FICLONE (a descriptor) and FICLONERANGE (a user structure,
    which may fault). *)
Inductive clone_arg :=
| CA_whole (src_fd : Z)
| CA_range (range : option (Z * Z * Z * Z)).   (** src_fd, src_offset, src_length, dest_offset *)

(** A clone that succeeds returns 0. *)
Definition clone_ret (r : option (Z * option (list Z) * world)) : option (Z * option (list Z) * world) :=
  match r with
  | Some (ret, held, w) => Some (if ret <? 0 then ret else 0, held, w)
  | None => None
  end.

(** [ficlone] is the lower file's FICLONE; [clone pos_in pos_out len] is
    [vfs_clone_file_range]. *)
Definition smoothfs_clone_ioctl (waits : list (result movement_state)) (fget : Z -> option rfile)
    (lower : option (result Z)) (held : option (list Z))
    (ficlone : option (list Z -> list Z -> Z * list Z)) (clone : Z -> Z -> Z -> list Z -> list Z -> Z * list Z)
    (arg : clone_arg) (w : world) : option (Z * option (list Z) * world) :=
  let err := smoothfs_lower_file_error lower in
  if negb (err =? 0) then Some (err, held, w)
  else
    match arg with
    | CA_range None => Some (- EFAULT, held, w)
    | CA_whole src_fd =>
        match fget src_fd with
        | None => Some (- EBADF, held, w)
        | Some src =>
            let err := smoothfs_lower_file_error (smoothfs_remap_source_file src) in
            if negb (err =? 0) then Some (err, held, w)
            else match ficlone with
                 | None => Some (- ENOTTY, held, w)
                 | Some ficlone =>
                     if ora (w_k w) <? 0 then Some (ora (w_k w), held, tick 1 w)
                     else clone_ret (data_change waits held (ficlone (rfile_bytes src)) (Z.leb 0) (tick 1 w))
                 end
        end
    | CA_range (Some (src_fd, pos_in, len, pos_out)) =>
        match fget src_fd with
        | None => Some (- EBADF, held, w)
        | Some src =>
            let err := smoothfs_lower_file_error (smoothfs_remap_source_file src) in
            if negb (err =? 0) then Some (err, held, w)
            else
              let len := if len =? 0 then fsize (rfile_bytes src) - pos_in else len in
              clone_ret (data_change waits held (clone pos_in pos_out len (rfile_bytes src)) (Z.leb 0) w)
        end
    end.

(** The branch of [smoothfs_setattr_inner] that changes no size (mode, owner,
    times): [notify_change], then the attributes are copied back. *)
Definition setattr_nosize (waits : list (result movement_state)) (w : world) : option (Z * world) :=
  match smoothfs_begin_data_change ora now waits w with
  | None => None
  | Some (err, w) =>
      Some (if err <? 0 then (err, w)
            else if ora (w_k w) <? 0 then (ora (w_k w), tick 1 w)
            else (0, tick 1 (w <| w_si := w_si w <| i_size := fsize (w_base w) |> |>)))
  end.

Definition FICLONE : Z := 0x40049409.
Definition FICLONERANGE : Z := 0x4020940d.

(** [ioctl cmd arg] is the lower file's; [whole] and [range] decode the
    argument of the two clone commands. *)
Definition smoothfs_unlocked_ioctl (waits : list (result movement_state)) (fget : Z -> option rfile)
    (range : Z -> option (Z * Z * Z * Z)) (lower : option (result Z)) (held : option (list Z))
    (ficlone : option (list Z -> list Z -> Z * list Z)) (clone : Z -> Z -> Z -> list Z -> list Z -> Z * list Z)
    (ioctl : option (Z -> Z -> list Z -> Z * list Z)) (cmd arg : Z) (w : world)
  : option (Z * option (list Z) * world) :=
  if cmd =? FICLONE then smoothfs_clone_ioctl waits fget lower held ficlone clone (CA_whole arg) w
  else if cmd =? FICLONERANGE then
    smoothfs_clone_ioctl waits fget lower held ficlone clone (CA_range (range arg)) w
  else
    let err := smoothfs_lower_file_error lower in
    if negb (err =? 0) then Some (err, held, w)
    else match ioctl with
         | None => Some (- ENOTTY, held, w)
         | Some ioctl =>
             let (ret, base) := ioctl cmd arg (w_base w) in Some (ret, held, w <| w_base := base |>)
         end.

End FileOps.

Definition smoothfs_compat_ioctl (lower : option (result Z)) (ioctl : option (Z -> Z -> list Z -> Z * list Z))
    (cmd arg : Z) (w : world) : Z * world :=
  let err := smoothfs_lower_file_error lower in
  if negb (err =? 0) then (err, w)
  else match ioctl with
       | None => (- ENOTTY, w)
       | Some ioctl => let (ret, base) := ioctl cmd arg (w_base w) in (ret, w <| w_base := base |>)
       end.

Definition F_UNLCK : Z := 2.
Definition FL_LEASE : Z := 32.

(** [lease] is the flags of the lease passed in, if any; [generic] what
    [generic_setlease] answers. *)
Definition smoothfs_setlease (generic : Z) (arg : Z) (lease : option Z) : Z :=
  if negb (arg =? F_UNLCK) && match lease with None => true | Some fl => Z.land fl FL_LEASE =? 0 end
  then - EINVAL else generic.

(** ** Versions: no change of the file without a new sequence number *)

Definition moved (w w' : world) : Prop :=
  cutover_gen (w_si w') = cutover_gen (w_si w) /\ write_seq (w_si w) <= write_seq (w_si w')
  /\ (write_seq (w_si w') = write_seq (w_si w) -> abs w' = abs w).


Lemma moved_refl w : moved w w.
Proof. by repeat split. Qed.





Lemma drain_unstaged ora now w : range_staged (w_rs w) = false ->
  smoothfs_write_staging_drain_inode ora now w = (0, w).
Proof. intros H. unfold smoothfs_write_staging_drain_inode, smoothfs_write_staging_drain_one_range. by rewrite H. Qed.

(** *** The staged write *)












(** ** Changes act on the file, not beneath it *)

(** The four calls that change the lower file. *)
Inductive change :=
| C_splice_write (lower : option (result Z)) (splice : option (list Z -> Z * list Z))
| C_fallocate (lower : option (result Z)) (fallocate : option (list Z -> Z * list Z))
| C_remap (sb_of : Z -> Z) (file_in : rfile) (lower : option (result Z))
    (remap : option (list Z -> list Z -> Z * list Z)) (clone : list Z -> list Z -> Z * list Z) (flags : Z)
| C_clone (fget : Z -> option rfile) (lower : option (result Z)) (ficlone : option (list Z -> list Z -> Z * list Z))
    (clone : Z -> Z -> Z -> list Z -> list Z -> Z * list Z) (arg : clone_arg).

Definition run_change (ora : oracle) (now : Z) (waits : list (result movement_state)) (held : option (list Z))
    (c : change) (w : world) : option (Z * option (list Z) * world) :=
  match c with
  | C_splice_write lower op => smoothfs_splice_write ora now waits lower held op w
  | C_fallocate lower op => smoothfs_fallocate ora now waits lower held op w
  | C_remap sb_of file_in lower remap clone flags =>
      smoothfs_remap_file_range ora now waits sb_of file_in lower held remap clone flags w
  | C_clone fget lower ficlone clone arg => smoothfs_clone_ioctl ora now waits fget lower held ficlone clone arg w
  end.

(** The file a reflink reads. *)
Definition change_source (c : change) : option rfile :=
  match c with
  | C_remap _ file_in _ _ _ _ => Some file_in
  | C_clone fget _ _ _ (CA_whole fd) => fget fd
  | C_clone fget _ _ _ (CA_range (Some (fd, _, _, _))) => fget fd
  | _ => None
  end.

(** The lower operation behind a call, with what it returns to the caller and
    when it counts as a change. *)
Definition change_op (c : change) : option (list Z -> Z * list Z) :=
  match c with
  | C_splice_write _ op => op
  | C_fallocate _ op => op
  | C_remap _ file_in _ remap clone flags =>
      Some match remap with
           | Some remap => remap (rfile_bytes file_in)
           | None => if flags =? 0 then clone (rfile_bytes file_in) else fun base => (- EOPNOTSUPP, base)
           end
  | C_clone _ _ ficlone _ (CA_whole _) =>
      match ficlone, change_source c with
      | Some ficlone, Some src => Some (ficlone (rfile_bytes src))
      | _, _ => None
      end
  | C_clone _ _ _ clone (CA_range (Some (_, pos_in, len, pos_out))) =>
      match change_source c with
      | Some src => Some (clone pos_in pos_out (if len =? 0 then fsize (rfile_bytes src) - pos_in else len)
                            (rfile_bytes src))
      | None => None
      end
  | C_clone _ _ _ _ (CA_range None) => None
  end.

Definition change_noted (c : change) : Z -> bool :=
  match c with C_splice_write _ _ => Z.ltb 0 | C_fallocate _ _ => Z.eqb 0 | _ => Z.leb 0 end.

Definition change_ret (c : change) (ret : Z) : Z :=
  match c with C_clone _ _ _ _ _ => if ret <? 0 then ret else 0 | _ => ret end.

Definition change_lowers (c : change) : list (option (result Z)) :=
  match c with
  | C_splice_write lower _ | C_fallocate lower _ | C_remap _ _ lower _ _ _ | C_clone _ lower _ _ _ => [lower]
  end ++ match change_source c with Some src => [smoothfs_remap_source_file src] | None => [] end.

(** A call either fails early or is a data change. *)
Definition early (held : option (list Z)) (w : world) (r : option (Z * option (list Z) * world)) : Prop :=
  exists err k, err <> 0 /\ r = Some (err, held, tick k w).

Definition ret_of (f : Z -> Z) (r : option (Z * option (list Z) * world)) : option (Z * option (list Z) * world) :=
  match r with Some (ret, held, w) => Some (f ret, held, w) | None => None end.

Lemma ret_of_id f r : (forall z, f z = z) -> ret_of f r = r.
Proof. intros H. destruct r as [[[? ?] ?]|]; cbn; by rewrite ?H. Qed.

Lemma tick_0 w : tick 0 w = w.
Proof. unfold tick. rewrite Nat.add_0_r. by destruct w. Qed.

Lemma early_now held w err : err <> 0 -> early held w (Some (err, held, w)).
Proof. intros H. exists err, 0%nat. by rewrite tick_0. Qed.

Lemma lower_error_early held w err r (P : option (Z * option (list Z) * world) -> Prop) :
  (err = 0 -> early held w r \/ P r) ->
  early held w (if negb (err =? 0) then Some (err, held, w) else r)
  \/ P (if negb (err =? 0) then Some (err, held, w) else r).
Proof. intros H. destruct (Z.eqb_spec err 0) as [E|E]; cbn [negb]; [by apply H|]. left. by apply early_now. Qed.

Ltac lower_ok w :=
  match goal with
  | |- context [if negb (?e =? 0) then Some (?e, ?h, w) else ?r] =>
      pattern (if negb (e =? 0) then Some (e, h, w) else r);
      match goal with |- (fun x => early _ _ x \/ @?P x) _ => apply (lower_error_early h w e r P) end
  end.

Lemma run_change_cases ora now waits held c w :
  early held w (run_change ora now waits held c w)
  \/ exists op k, change_op c = Some op
     /\ (forall src, change_source c = Some src -> smoothfs_lower_file_error (smoothfs_remap_source_file src) = 0)
     /\ run_change ora now waits held c w
        = ret_of (change_ret c) (data_change ora now waits held op (change_noted c) (tick k w)).
Proof.
  destruct c as [lower op|lower op|sb_of fin lower remap clone flags|fget lower ficlone clone arg]; cbn [run_change].
  - unfold smoothfs_splice_write. lower_ok w. intros _. destruct op as [op|]; [|left; by apply early_now].
    right. exists op, 0%nat. split; [done|]. split; [done|]. by rewrite tick_0, ret_of_id.
  - unfold smoothfs_fallocate. lower_ok w. intros _. destruct op as [op|]; [|left; by apply early_now].
    right. exists op, 0%nat. split; [done|]. split; [done|]. by rewrite tick_0, ret_of_id.
  - unfold smoothfs_remap_file_range. lower_ok w. intros E1. lower_ok w. intros E2.
    destruct (negb (_ =? _)); [left; by apply early_now|]. right. eexists _, 0%nat. split; [reflexivity|].
    split; [by intros src [= <-]|]. by rewrite tick_0, ret_of_id.
  - unfold smoothfs_clone_ioctl. lower_ok w. intros E1.
    destruct arg as [fd|[[[[fd pin] len] pout]|]]; [| |left; by apply early_now].
    + destruct (fget fd) as [src|] eqn:Ef; [|left; by apply early_now]. lower_ok w. intros E2.
      destruct ficlone as [fc|]; [|left; by apply early_now].
      destruct (Z.ltb_spec (ora (w_k w)) 0); [left; exists (ora (w_k w)), 1%nat; split; [lia|done]|].
      right. exists (fc (rfile_bytes src)), 1%nat. cbn [change_op change_source]. rewrite Ef. split; [done|]. split; [by intros ? [= <-]|done].
    + destruct (fget fd) as [src|] eqn:Ef; [|left; by apply early_now]. lower_ok w. intros E2.
      right. eexists _, 0%nat. rewrite tick_0. cbn [change_op change_source]. rewrite Ef. split; [reflexivity|].
      split; [by intros ? [= <-]|done].
Qed.

(** Inside the gate of a cache-mode pool nothing is staged. *)
Definition cached_pool (w : world) : Prop := cache_mode (w_sbi w) = true /\ cache_drains w /\ source_ok w.

Lemma drain_pool ora now w e w' : world_ok w -> cached_pool w ->
  smoothfs_write_staging_drain_inode ora now w = (e, w') ->
  world_ok w' /\ cached_pool w' /\ abs w' = abs w /\ w_si w' = w_si w /\ e <= 0
  /\ (e = 0 -> range_staged (w_rs w') = false)
  /\ (range_staged (w_rs w) = false -> range_staged (w_rs w') = false).
Proof.
  intros Hok (Hc & Hd & Hs) H. pose proof (drain_si _ _ _ _ _ H) as Hsi.
  apply drain_spec in H as (D1 & D2 & (Hsb & _) & _ & _ & D6 & D7); [|done].
  split; [done|]. split; [|split; [done|split; [done|split; [done|]]]].
  - unfold cached_pool, cache_drains, source_ok in *. rewrite Hsb. split; [done|]. split; [done|].
    destruct D7 as [(-> & _)|(-> & _)]; [done|by intros ?].
  - destruct D7 as [(E & _ & Ha)|(E & _)]; [|by rewrite E]. rewrite E. split; [|done]. intros He.
    destruct (range_staged (w_rs w)) eqn:Er; [|done]. rewrite Hd in Ha; [by discriminate Ha|done|by apply Hs].
Qed.

Lemma cached_pool_inert w w' : inert w w' -> cached_pool w -> cached_pool w'.
Proof.
  intros Hi (A & B & D). destruct (inert_ok _ _ Hi) as (_ & _ & _ & I4 & I5).
  destruct Hi as (_ & _ & _ & _ & _ & _ & Hc & _). split; [congruence|auto].
Qed.

Lemma begin_change_spec ora now waits w e w' : world_ok w -> cached_pool w -> (forall e, Err e ∈ waits -> e < 0) ->
  smoothfs_begin_data_change ora now waits w = Some (e, w') ->
  world_ok w' /\ cached_pool w' /\ abs w' = abs w /\ write_seq (w_si w') = write_seq (w_si w)
  /\ cutover_gen (w_si w') = cutover_gen (w_si w) /\ e <= 0 /\ (e = 0 -> range_staged (w_rs w') = false)
  /\ (range_staged (w_rs w) = false -> range_staged (w_rs w') = false).
Proof.
  intros Hok Hp Hw. unfold smoothfs_begin_data_change.
  destruct (enter_write waits (ms (w_si w))) as [[e0|s]|] eqn:Ee; [| |done].
  { intros [= <- <-]. apply enter_write_Err in Ee; [|done]. split_and!; try done; lia. }
  pose proof (set_ms_inert w s) as Hi. set (w0 := w <| w_si := _ |>) in *.
  destruct (inert_ok _ _ Hi) as (I1 & I2 & _). intros [= H]. unfold drain_before_change in H.
  assert (smoothfs_write_staging_drain_inode ora now w0 = (e, w')) as Hd.
  { revert H. destruct (cached_pool_inert _ _ Hi Hp) as (-> & _). cbn [andb].
    destruct (range_staged (w_rs w0)) eqn:Er; [done|]. by rewrite drain_unstaged. }
  destruct (drain_pool _ _ _ _ _ (I1 Hok) (cached_pool_inert _ _ Hi Hp) Hd) as (A & B & D & E & F & G & J).
  split; [done|]. split; [done|]. split; [congruence|]. rewrite E. by split_and!.
Qed.

(** What a change that got through the gate leaves behind. *)
Definition changed (op : list Z -> Z * list Z) (noted : Z -> bool) (w : world) (ret : Z) (w' : world) : Prop :=
  ret = fst (op (abs w)) /\ w_base w' = snd (op (abs w)) /\ range_staged (w_rs w') = false
  /\ range_staged_ranges (w_rs w') = [] /\ i_size (w_si w') = i_size (w_si w)
  /\ write_seq (w_si w') = write_seq (w_si w) + (if noted ret then 1 else 0).

Lemma isize_abs w w' : world_ok w -> world_ok w' -> abs w' = abs w -> i_size (w_si w') = i_size (w_si w).
Proof. intros H H' E. rewrite <- (fsize_abs w'), E, fsize_abs by (by apply ok_isize_nonneg). done. Qed.

Lemma data_change_spec ora now waits op noted w ret held w' : world_ok w -> cached_pool w ->
  (forall e, Err e ∈ waits -> e < 0) -> data_change ora now waits None op noted w = Some (ret, held, w') ->
  held = None /\ cached_pool w' /\ cutover_gen (w_si w') = cutover_gen (w_si w)
  /\ (ret < 0 /\ world_ok w' /\ abs w' = abs w /\ write_seq (w_si w') = write_seq (w_si w)
      /\ (range_staged (w_rs w) = false -> range_staged (w_rs w') = false)
      \/ changed op noted w ret w').
Proof.
  intros Hok Hp Hw. unfold data_change.
  destruct (smoothfs_begin_data_change ora now waits w) as [[e w1]|] eqn:Eb; [|done].
  destruct (begin_change_spec _ _ _ _ _ _ Hok Hp Hw Eb) as (A & B & D & E & F & G & U & K).
  destruct (Z.ltb_spec e 0) as [He|He].
  { intros [= <- <- <-]. split; [done|]. split; [done|]. split; [done|]. by left. }
  specialize (U ltac:(lia)). pose proof (unstaged_file w1 A U) as Hb. pose proof (ok_unstaged w1 A U) as Hr.
  rewrite <- Hb, D. destruct (op (abs w)) as [r b] eqn:Eo. intros [= <- <- <-]. split; [done|].
  split; [by destruct (noted r)|]. split; [by destruct (noted r)|]. right. unfold changed. rewrite Eo. cbn [fst snd].
  pose proof (isize_abs w w1 Hok A D). destruct (noted r); cbn; split_and!; try done; lia.
Qed.

Lemma data_change_None ora now waits held op noted w : data_change ora now waits held op noted w = None ->
  enter_write waits (ms (w_si w)) = None.
Proof.
  unfold data_change, smoothfs_begin_data_change. destruct (enter_write waits (ms (w_si w))) as [[e|s]|]; [done| |done].
  by destruct (drain_before_change _ _ _) as [e w1].
Qed.

Lemma tick_pool k w : cached_pool w -> cached_pool (tick k w).
Proof. done. Qed.
Lemma tick_ok k w : world_ok w -> world_ok (tick k w).
Proof. intros H. by apply (quiet_ok w (tick k w) (quiet_refl w)). Qed.

Lemma source_bytes lower src : world_ok src -> cache_mode (w_sbi src) = true ->
  smoothfs_lower_file_error (smoothfs_remap_source_file (RF_smooth lower src)) = 0 ->
  rfile_bytes (RF_smooth lower src) = abs src.
Proof.
  intros Hok Hc. cbn. rewrite Hc. destruct (range_staged (w_rs src)) eqn:Er; [done|]. intros _.
  symmetry. by apply unstaged_file.
Qed.

Lemma run_change_spec ora now waits c w ret held w' : world_ok w -> cached_pool w ->
  (forall e, Err e ∈ waits -> e < 0) -> run_change ora now waits None c w = Some (ret, held, w') ->
  held = None /\ cached_pool w' /\ cutover_gen (w_si w') = cutover_gen (w_si w)
  /\ (ret <> 0 /\ world_ok w' /\ abs w' = abs w /\ write_seq (w_si w') = write_seq (w_si w)
      /\ (range_staged (w_rs w) = false -> range_staged (w_rs w') = false)
      \/ exists op r, change_op c = Some op /\ changed op (change_noted c) w r w' /\ ret = change_ret c r
         /\ (forall lower src, change_source c = Some (RF_smooth lower src) -> world_ok src ->
             cache_mode (w_sbi src) = true -> rfile_bytes (RF_smooth lower src) = abs src)).
Proof.
  intros Hok Hp Hw H. destruct (run_change_cases ora now waits None c w) as [(err & k & He & E)|(op & k & Ho & Hs & E)].
  - rewrite E in H. injection H as <- <- <-. split; [done|]. split; [done|]. split; [done|]. left.
    split; [done|]. split; [by apply tick_ok|]. done.
  - rewrite E in H. destruct (data_change _ _ _ _ _ _ _) as [[[r h] w1]|] eqn:Ed; [|done]. injection H as <- <- <-.
    destruct (data_change_spec _ _ _ _ _ _ _ _ _ (tick_ok k w Hok) (tick_pool k w Hp) Hw Ed) as (A & B & D & [F|F]).
    + split; [done|]. split; [done|]. split; [done|]. left. destruct F as (F1 & F2 & F3 & F4 & F5).
      split; [|done]. destruct c; cbn; try lia. destruct (Z.ltb_spec r 0); lia.
    + split; [done|]. split; [done|]. split; [done|]. right. exists op, r. split; [done|]. split; [exact F|]. split; [done|].
      intros lower src Hc Hk Hm. by apply source_bytes; [..|apply Hs].
Qed.

(** Counting a change touches neither the bytes nor the staging state. *)
Lemma noted_inert w (b : bool) : inert w (if b then w <| w_si := smoothfs_note_data_change (w_si w) |> else w).
Proof. destruct b; by repeat split. Qed.

(** A call that a cutover overtook changes the lower file it looked up before. *)
Lemma overtaken_change_spec ora now waits old c w ret held w' : world_ok w -> cached_pool w ->
  (forall e, Err e ∈ waits -> e < 0) -> run_change ora now waits (Some old) c w = Some (ret, held, w') ->
  world_ok w' /\ abs w' = abs w
  /\ (ret <> 0 /\ held = Some old /\ write_seq (w_si w') = write_seq (w_si w)
      \/ exists op, change_op c = Some op /\ ret = change_ret c (fst (op old)) /\ held = Some (snd (op old))
         /\ range_staged (w_rs w') = false
         /\ write_seq (w_si w') = write_seq (w_si w) + (if change_noted c (fst (op old)) then 1 else 0)
         /\ (forall lower src, change_source c = Some (RF_smooth lower src) -> world_ok src ->
             cache_mode (w_sbi src) = true -> rfile_bytes (RF_smooth lower src) = abs src)).
Proof.
  intros Hok Hp Hw H. destruct (run_change_cases ora now waits (Some old) c w) as [(err & k & He & E)|(op & k & Ho & Hs & E)].
  - rewrite E in H. injection H as <- <- <-. split; [by apply tick_ok|]. split; [done|]. by left.
  - rewrite E in H. unfold data_change in H.
    destruct (smoothfs_begin_data_change ora now waits (tick k w)) as [[e w1]|] eqn:Eb; [|done].
    destruct (begin_change_spec _ _ _ _ _ _ (tick_ok k w Hok) (tick_pool k w Hp) Hw Eb) as (A & B & D & F & G & N & U & K).
    destruct (Z.ltb_spec e 0) as [Hn|Hn]; cbn [ret_of] in H.
    { injection H as <- <- <-. split; [done|]. split; [done|]. left. split; [|done].
      destruct c; cbn; try lia. destruct (Z.ltb_spec e 0); lia. }
    specialize (U ltac:(lia)). destruct (op old) as [r b] eqn:Eo. cbn [ret_of] in H. injection H as <- <- <-.
    destruct (inert_ok _ _ (noted_inert w1 (change_noted c r))) as (I1 & I2 & _).
    split; [by apply I1|]. split; [exact (eq_trans I2 D)|]. right. exists op. rewrite Eo. cbn [fst snd]. split_and!; [done|done|done|by destruct (change_noted c r)| |].
    + change (write_seq (w_si (tick k w))) with (write_seq (w_si w)) in F. destruct (change_noted c r); cbn; lia.
    + intros lower src Hc Hk Hm. by apply source_bytes; [..|apply Hs].
Qed.

(** C17. In cache mode splice_write, fallocate, remap and the clone ioctls
    either fail and leave the file and its write sequence as they were, or end
    with nothing staged, the write sequence bumped exactly when the result calls
    for it, and the lower operation applied, for a clone from a smoothfs file on
    what readers of the source see: to the bytes readers see, when no cutover
    switched the file after the call had looked up its lower file; when one did,
    to the lower file that was looked up, so that readers of the file see no
    change at all (the change is lost, and the call still reports the
    operation's result). They fail to return only while the cutover gate stays
    closed. *)
Theorem changes_act_on_the_file ora now waits held c w :
  world_ok w -> cached_pool w -> (forall e, Err e ∈ waits -> e < 0) ->
  match run_change ora now waits held c w with
  | None => ms (w_si w) = MS_CUTOVER_IN_PROGRESS /\ Forall (eq (Ok MS_CUTOVER_IN_PROGRESS)) waits
  | Some (ret, held', w') =>
      ret <> 0 /\ held' = held /\ world_ok w' /\ abs w' = abs w /\ write_seq (w_si w') = write_seq (w_si w)
      \/ exists op, change_op c = Some op /\ range_staged (w_rs w') = false
         /\ (forall lower src, change_source c = Some (RF_smooth lower src) -> world_ok src ->
             cache_mode (w_sbi src) = true -> rfile_bytes (RF_smooth lower src) = abs src)
         /\ let target := match held with None => abs w | Some old => old end in
            ret = change_ret c (fst (op target))
            /\ write_seq (w_si w') = write_seq (w_si w) + (if change_noted c (fst (op target)) then 1 else 0)
            /\ match held with
               | None => held' = None /\ w_base w' = snd (op (abs w))
               | Some old => held' = Some (snd (op old)) /\ abs w' = abs w
               end
  end.
Proof.
  intros Hok Hp Hw. destruct (run_change ora now waits held c w) as [[[ret held'] w']|] eqn:E.
  - destruct held as [old|].
    + destruct (overtaken_change_spec _ _ _ _ _ _ _ _ _ Hok Hp Hw E) as (A & B & [(D & F & G)|(op & D & F & G & J & K & L)]);
        [by left|]. right. exists op. by split_and!.
    + destruct (run_change_spec _ _ _ _ _ _ _ _ Hok Hp Hw E) as (N & _ & _ & [(A & B & D & F & _)|(op & r & A & B & D & F)]);
        [by left|]. right. exists op. destruct B as (-> & B2 & B3 & _ & _ & B4). by split_and!.
  - apply enter_write_None. destruct (run_change_cases ora now waits held c w) as [(err & k & _ & E')|(op & k & _ & _ & E')];
      rewrite E in E'; [done|]. apply (data_change_None ora now waits held op (change_noted c) (tick k w)).
    by destruct (data_change _ _ _ _ _ _ _) as [[[? ?] ?]|].
Qed.

(** ** Writes keep the pool drainable and a mapped file unstaged *)









(** ** One file over time *)





(** *** What each step relies on *)









(** *** Reads *)






(** *** The other steps *)











(** In cache mode the operations that hand the lower file itself to someone
    (mmap, splice_read, llseek) first make it equal to what readers see, and
    change no byte; a writable shared mapping leaves no cached chunk behind. *)
Theorem lower_readers_see_the_file ora now lower w : world_ok w -> cached_pool w ->
  (forall e, lower = Some (Err e) -> e < 0) ->
  (forall can shared rc e w' rc', smoothfs_mmap_unlocked ora now lower can shared w rc = (e, w', rc') ->
     abs w' = abs w /\ (e = 0 -> w_base w' = abs w /\ (shared = true -> rc_chunks rc' = ∅)))
  /\ (forall splice r w', smoothfs_splice_read ora now lower splice w = (r, w') ->
     abs w' = abs w /\ (forall bs, r = Ok bs -> exists f, splice = Some f /\ f (abs w) = Ok bs))
  /\ (forall seek f_pos offset whence ret pos w', smoothfs_llseek ora now lower seek f_pos offset whence w = (ret, pos, w') ->
     abs w' = abs w /\ if 0 <=? ret then ret = seek f_pos offset whence (abs w) /\ pos = ret else pos = f_pos).
Proof.
  intros Hok Hp Hl. unfold smoothfs_mmap_unlocked, smoothfs_splice_read, smoothfs_llseek, cache_drain_first.
  pose proof Hp as (-> & _). destruct (smoothfs_write_staging_drain_inode ora now w) as [e1 w1] eqn:Ed.
  destruct (drain_pool _ _ _ _ _ Hok Hp Ed) as (A & _ & D & _ & N & U & _).
  assert (e1 = 0 -> w_base w1 = abs w) as Hb by (intros E; rewrite <- D; symmetry; apply unstaged_file; auto).
  assert (smoothfs_lower_file_error lower <= 0) as Hle.
  { destruct lower as [[e|m]|]; cbn; [specialize (Hl e eq_refl); lia|lia|done]. }
  split_and!.
  - intros can shared rc e w' rc'. destruct (Z.eqb_spec e1 0) as [E1|E1]; cbn [negb]; [|by intros [= <- <- <-]].
    destruct (Z.eqb_spec (smoothfs_lower_file_error lower) 0) as [E2|E2]; cbn [negb]; [|by intros [= <- <- <-]].
    do 3 (case_goal; [by intros [= <- <- <-]|]). intros [= _ <- <-]. split; [exact D|]. intros _. split; [by apply Hb|by intros ->].
  - intros splice r w'. destruct (Z.eqb_spec e1 0) as [E1|E1]; cbn [negb]; [|by intros [= <- <-]].
    destruct (Z.eqb_spec (smoothfs_lower_file_error lower) 0) as [E2|E2]; cbn [negb]; [|by intros [= <- <-]].
    destruct splice as [f|]; intros [= <- <-]; [|done]. split; [done|]. intros bs Hbs. exists f. by rewrite <- Hb.
  - intros seek f_pos offset whence ret pos w'. destruct (Z.eqb_spec e1 0) as [E1|E1]; cbn [negb];
      [|intros [= <- <- <-]; split; [done|]; destruct (Z.leb_spec 0 e1); [lia|done]].
    destruct (Z.eqb_spec (smoothfs_lower_file_error lower) 0) as [E2|E2]; cbn [negb];
      [|intros [= <- <- <-]; split; [done|]; destruct (Z.leb_spec 0 (smoothfs_lower_file_error lower)); [lia|done]].
    intros [= <- <- <-]. split; [done|]. rewrite Hb by done. by case_goal.
Qed.

(** ** Concrete runs *)

Lemma cache_world_pool : cached_pool cache_world.
Proof. split; [done|]. split; [exact cache_world_drains|done]. Qed.

Definition append_two : list Z -> Z * list Z := fun b => (2, b ++ [5; 6]).
Definition zero_first : list Z -> Z * list Z := fun b => (0, match b with [] => [] | _ :: b => 0 :: b end).

(** A fallocate on the file, and one that a cutover overtook, which acts on the old
    lower file. *)
Lemma changes_act_on_the_file_witness :
  match run_change no_faults 6 [] None (C_fallocate (Some (Ok 20)) (Some zero_first)) cache_world with
  | None => False
  | Some (ret, _, w') => ret = 0 /\ w_base w' = [0; 2; 3; 4] /\ write_seq (w_si w') = 1
  end
  /\ match run_change no_faults 6 [] (Some [8; 8]) (C_fallocate (Some (Ok 20)) (Some zero_first)) cache_world with
     | None => False
     | Some (ret, held, w') => ret = 0 /\ held = Some [0; 8] /\ abs w' = abs cache_world
     end.
Proof.
  assert (forall h, option_map (fun x => fst (fst x)) (run_change no_faults 6 [] h (C_fallocate (Some (Ok 20)) (Some zero_first)) cache_world)
      = Some 0) as Hv by (intros [h|]; vm_compute; reflexivity).
  assert (forall e : Z, Err (A := movement_state) e ∈ [] -> e < 0) as Hw by (intros e H; by apply elem_of_nil in H).
  split.
  - pose proof (changes_act_on_the_file no_faults 6 [] None (C_fallocate (Some (Ok 20)) (Some zero_first)) cache_world
      cache_world_ok cache_world_pool Hw) as H. specialize (Hv None).
    destruct (run_change _ _ _ _ _ _) as [[[ret h] w']|]; [|discriminate Hv]. injection Hv as Hr. cbn in Hr. subst ret.
    destruct H as [(H & _)|(op & Ho & _ & _ & _ & Hs & _ & Hb)]; [by destruct H|]. injection Ho as <-.
    split; [reflexivity|]. split; [exact Hb|exact Hs].
  - pose proof (changes_act_on_the_file no_faults 6 [] (Some [8; 8]) (C_fallocate (Some (Ok 20)) (Some zero_first)) cache_world
      cache_world_ok cache_world_pool Hw) as H. specialize (Hv (Some [8; 8])).
    destruct (run_change _ _ _ _ _ _) as [[[ret h] w']|]; [|discriminate Hv]. injection Hv as Hr. cbn in Hr. subst ret.
    destruct H as [(H & _)|(op & Ho & _ & _ & _ & _ & Hb & Ha)]; [by destruct H|]. injection Ho as <-.
    split; [reflexivity|]. split; [exact Hb|exact Ha].
Defined.

Lemma lower_readers_see_the_file_witness :
  fst (smoothfs_splice_read no_faults 6 (Some (Ok 20)) (Some Ok) cache_world) = Ok [1; 2; 3; 4]
  /\ abs (snd (smoothfs_splice_read no_faults 6 (Some (Ok 20)) (Some Ok) cache_world)) = abs cache_world.
Proof.
  destruct (lower_readers_see_the_file no_faults 6 (Some (Ok 20)) cache_world cache_world_ok cache_world_pool ltac:(done))
    as (_ & H & _).
  split; [vm_compute; reflexivity|]. apply (H (Some Ok) (fst (smoothfs_splice_read no_faults 6 (Some (Ok 20)) (Some Ok) cache_world))).
  by destruct (smoothfs_splice_read _ _ _ _ _).
Defined.






(** Outside cache mode nothing is drained first: splice and seek look at the
    lower file beneath the staged bytes. *)
Example tier_mode_splice_and_seek_miss_staged_bytes :
  abs staged_world = [1; 2; 7; 8; 9]
  /\ fst (smoothfs_splice_read no_faults 6 (Some (Ok 20)) (Some Ok) staged_world) = Ok [1; 2; 3; 4]
  /\ fst (fst (smoothfs_llseek no_faults 6 (Some (Ok 20)) (fun _ off _ b => fsize b + off) 0 0 2 staged_world)) = 4.
Proof. vm_compute. by repeat split. Qed.

(** Nor is a staged source refused: a clone copies the bytes beneath. *)
Example tier_mode_clone_copies_old_bytes :
  match smoothfs_clone_ioctl no_faults 6 [] (fun _ => Some (RF_smooth (Some (Ok 20)) staged_world)) (Some (Ok 20)) None
          (Some (fun src _ => (0, src))) (fun _ _ _ src _ => (0, src)) (CA_whole 4) stage_world with
  | Some (ret, _, w') => ret = 0 /\ abs staged_world = [1; 2; 7; 8; 9] /\ w_base w' = [1; 2; 3; 4]
  | None => False
  end.
Proof. vm_compute. by repeat split. Qed.

(** Changing a file's mode while bytes are staged past the lower end of file
    cuts the file off there. *)
Example tier_mode_chmod_hides_staged_bytes :
  match setattr_nosize no_faults 6 [] staged_world with
  | Some (err, w') => err = 0 /\ abs staged_world = [1; 2; 7; 8; 9] /\ abs w' = [1; 2; 7; 8]
  | None => False
  end.
Proof. vm_compute. by repeat split. Qed.

(** A splice that grows the file leaves the upper size behind: the next append
    is staged at the old end and destroys what was spliced. *)
Example append_after_splice_overwrites :
  match smoothfs_splice_write no_faults 6 [] (Some (Ok 20)) None (Some append_two) cache_world with
  | Some (ret, _, w1) =>
      ret = 2 /\ w_base w1 = [1; 2; 3; 4; 5; 6]
      /\ match smoothfs_write_iter no_faults room 6 [] (Some (Ok 20)) (Kiocb 0 false true false false) [9] w1 with
         | Some (n, w2) => n = 1 /\ w_base (snd (smoothfs_write_staging_drain_inode no_faults 7 w2)) = [1; 2; 3; 4; 9; 6]
         | None => False
         end
  | None => False
  end.
Proof. vm_compute. by repeat split. Qed.

(** The lower file is looked up before the gate: a call that waited for a
    cutover changes the file the object has left, and reports success. *)
Example overtaken_change_is_lost :
  let w := cache_world <| w_si := demo_inode <| ms := MS_CUTOVER_IN_PROGRESS |> |> in
  match smoothfs_splice_write no_faults 6 [Ok MS_SWITCHED] (Some (Ok 20)) (Some [1; 2; 3; 4]) (Some append_two) w with
  | Some (ret, held, w') => ret = 2 /\ held = Some [1; 2; 3; 4; 5; 6] /\ w_base w' = [1; 2; 3; 4]
  | None => False
  end.
Proof. vm_compute. by repeat split. Qed.
