(* ===== verification/LowerFs.v ===== *)
(** * Lower namespaces and the calls smoothfs makes on them

    The directory trees of the tiers, and what the VFS documents of the calls
    inode.c, super.c and dir.c make on them: [lookup_one], [vfs_path_lookup],
    [vfs_create], [vfs_mkdir], [vfs_link], [vfs_unlink], [vfs_rmdir],
    [vfs_rename].  A lower inode is a number, the key of [lower] in the pool; an
    entry maps a directory and a name to such a number.

    Namespace code runs in a small state and error monad over the pool and the
    trees: a failing kernel call (the oracle's next answer is negative) ends the
    computation with that error unless the code catches it ([attempt]). *)
From S2P Require Import Prelude Types Oid Tiers KernelIO PlacementLog InodeMaps.

Definition ELOOP : Z := 40.
Definition ENOTEMPTY : Z := 39.

(** The trees: entries, the superblock of each node, the directory and name
    of the dentry each node was created or last renamed under, the target of
    each symbolic link (whether absolute, and its components), and the next
    unused node number. *)
Record lfs := Lfs {
  lf_ent : gmap (Z * string) Z;
  lf_sb : gmap Z Z;
  lf_at : gmap Z (Z * string);
  lf_link : gmap Z (bool * list string);
  lf_next : Z;
}.
#[export] Instance lfs_eta : Eta lfs := fun r =>
  Lfs (lf_ent r) (lf_sb r) (lf_at r) (lf_link r) (lf_next r).

(** A lower dentry: its directory, its name, and its inode ([None] for a
    negative dentry). *)
Record ldentry := LDentry { ld_parent : Z; ld_name : string; ld_node : option Z }.

(** The dentry a node is known by. *)
Definition dentry_of (fs : lfs) (d : Z) : ldentry :=
  match lf_at fs !! d with
  | Some (p, n) => LDentry p n (Some d)
  | None => LDentry d EmptyString (Some d)
  end.

Record nworld := NWorld { nw_pool : pool; nw_fs : lfs; nw_k : nat }.
#[export] Instance nworld_eta : Eta nworld := fun r => NWorld (nw_pool r) (nw_fs r) (nw_k r).

Definition nw_sb (w : nworld) : sb_info := p_sbi (nw_pool w).

(** What the kernel decides: the answers to fallible calls, the faults of each
    [smoothfs_iget], the fill level of the tiers, the inode number the lower
    filesystem gives to a new inode, the clock. *)
Record ns_env := NsEnv {
  ne_ora : nat -> Z;
  ne_iget : nat -> iget_env;
  ne_statfs : statfs_fn;
  ne_oom : bool;
  ne_ino : nat -> Z;
  ne_now : Z;
}.

(** ** The monad *)

Definition M (A : Type) : Type := nworld -> result A * nworld.

Definition ok {A} (a : A) : M A := fun w => (Ok a, w).
Definition fail {A} (err : Z) : M A := fun w => (Err err, w).
Definition mbind_ns {A B} (m : M A) (k : A -> M B) : M B :=
  fun w => match m w with (Err err, w) => (Err err, w) | (Ok a, w) => k a w end.

Notation "'let!' x := m 'in' k" := (mbind_ns m (fun x => k))
  (at level 10, x pattern, m at level 200, k at level 200) : smoothfs_scope.

(** The outcome of [m] as a value: the code goes on after an error. *)
Definition attempt {A} (m : M A) : M (result A) := fun w => let (r, w) := m w in (Ok r, w).

Definition getw : M nworld := fun w => (Ok w, w).
Definition on_sb (f : sb_info -> sb_info) : M unit :=
  fun w => (Ok tt, w <| nw_pool := nw_pool w <| p_sbi := f (nw_sb w) |> |>).
Definition on_fs (f : lfs -> lfs) : M unit := fun w => (Ok tt, w <| nw_fs := f (nw_fs w) |>).
Definition get_sb : M sb_info := fun w => (Ok (nw_sb w), w).

(** A pointer to a cached inode or to a positive lower dentry is followed. *)
Definition get_inode (ino : Z) : M inode_info :=
  fun w => (match inodes (nw_sb w) !! ino with Some si => Ok si | None => Err (- ESTALE) end, w).
Definition get_node (d : Z) : M lnode :=
  fun w => (match lower (nw_sb w) !! d with Some l => Ok l | None => Err (- ESTALE) end, w).
Definition put_si (si : inode_info) : M unit := on_sb (fun sbi => put_inode sbi si).
(** Members of a cached inode are assigned through its pointer. *)
Definition update_inode (ino : Z) (f : inode_info -> inode_info) : M unit :=
  let! si := get_inode ino in put_si (f si).
Definition put_node (d : Z) (l : lnode) : M unit :=
  on_sb (fun sbi => sbi <| lower := <[d := l]> (lower sbi) |>).

Section Calls.
Context (e : ns_env).

(** The next answer of the kernel. *)
Definition ask : M Z := fun w => (Ok (ne_ora e (nw_k w)), w <| nw_k := S (nw_k w) |>).
Definition fallible : M unit := let! a := ask in if a <? 0 then fail a else ok tt.
(** [kmalloc] and friends *)
Definition kalloc : M unit := let! a := ask in if a <? 0 then fail (- ENOMEM) else ok tt.

(** ** Lookup *)

(** [lookup_one]: the child, or a negative dentry. *)
Definition lookup_one (parent : Z) (name : string) : M (option Z) :=
  let! _ := fallible in let! w := getw in ok (lf_ent (nw_fs w) !! (parent, name)).

(** [link_path_walk] with [LOOKUP_FOLLOW], rooted at [root]; at most [links]
    symbolic links are followed.  [at_] is the dentry of [cur]. *)
Fixpoint path_walk (fs : lfs) (nodes : gmap Z lnode) (root : Z) (links : nat)
  : ldentry -> Z -> list string -> result (ldentry * Z) :=
  fix go (at_ : ldentry) (cur : Z) (comps : list string) {struct comps} : result (ldentry * Z) :=
    match comps with
    | [] => Ok (at_, cur)
    | c :: rest =>
        if bool_decide (c = EmptyString) || bool_decide (c = "."%string) then go at_ cur rest
        else if negb (match nodes !! cur with Some l => S_ISDIR (l_type l) | None => false end)
        then Err (- ENOTDIR)
        else if bool_decide (c = ".."%string) then
          let up := if cur =? root then root else ld_parent (dentry_of fs cur) in
          go (dentry_of fs up) up rest
        else match lf_ent fs !! (cur, c) with
             | None => Err (- ENOENT)
             | Some d =>
                 match (lf_link fs !! d : option (bool * list string)) with
                 | None => go (LDentry cur c (Some d)) d rest
                 | Some (abs_, target) =>
                     match links with
                     | O => Err (- ELOOP)
                     | S links' =>
                         let from := if abs_ then root else cur in
                         path_walk fs nodes root links' (dentry_of fs from) from (target ++ rest)
                     end
                 end
             end
    end.

Definition MAXSYMLINKS : nat := 40.

(** The components of a relative path string. *)
Definition rel_comps (rel : string) : list string := strsep_all (Ascii.ascii_of_nat 47) rel.

Definition vfs_path_lookup (root : path) (rel : string) : M (path * ldentry) :=
  let! _ := fallible in
  let! w := getw in
  let d := p_dentry root in
  match path_walk (nw_fs w) (lower (nw_sb w)) d MAXSYMLINKS (dentry_of (nw_fs w) d) d (rel_comps rel) with
  | Err err => fail err
  | Ok (at_, d) => ok (Path (p_mnt root) d, at_)
  end.

(** [smoothfs_resolve_rel_path_on_tier] (smoothfs.h) *)
Definition smoothfs_resolve_rel_path_on_tier (t : Z) (rel : string) : M (path * ldentry) :=
  let! w := getw in
  if ntiers (nw_sb w) <=? t then fail (- EINVAL)
  else match tier_at (nw_sb w) t with
       | None => fail (- EINVAL)
       | Some tr =>
           if str_empty rel then ok (t_path tr, dentry_of (nw_fs w) (p_dentry (t_path tr)))
           else vfs_path_lookup (t_path tr) rel
       end.

(** ** Changing the trees *)

(** A new inode under a free name. *)
Definition new_node (parent : Z) (name : string) (ty : ftype) (perm nlink : Z) : M Z :=
  let! w := getw in
  let fs := nw_fs w in
  let d := lf_next fs in
  let! _ := put_node d (LNode (ne_ino e (nw_k w)) ty perm 0 nlink None None false) in
  let! _ := on_fs (fun fs => fs <| lf_ent := <[(parent, name) := d]> (lf_ent fs) |>
                             <| lf_sb := <[d := default 0 (lf_sb fs !! parent)]> (lf_sb fs) |>
                             <| lf_at := <[d := (parent, name)]> (lf_at fs) |>
                             <| lf_next := d + 1 |>) in
  ok d.

Definition vfs_make (ty : ftype) (nlink : Z) (parent : Z) (name : string) (perm : Z) : M Z :=
  let! _ := fallible in
  let! w := getw in
  match lf_ent (nw_fs w) !! (parent, name) with
  | Some _ => fail (- EEXIST)
  | None => new_node parent name ty perm nlink
  end.

Definition vfs_create := vfs_make FT_REG 1.
Definition vfs_mkdir := vfs_make FT_DIR 2.
Definition vfs_mknod := vfs_make FT_SPECIAL 1.
Definition vfs_symlink (target : bool * list string) (parent : Z) (name : string) : M Z :=
  let! d := vfs_make FT_LNK 1 parent name 511 in
  let! _ := on_fs (fun fs => fs <| lf_link := <[d := target]> (lf_link fs) |>) in
  ok d.

Definition drop_entry (parent : Z) (name : string) : M unit :=
  on_fs (fun fs => fs <| lf_ent := delete (parent, name) (lf_ent fs) |>).

Definition drop_link (d : Z) (to : Z -> Z) : M unit :=
  let! l := get_node d in put_node d (l <| l_nlink := to (l_nlink l) |>).

Definition vfs_link (d parent : Z) (name : string) : M unit :=
  let! _ := fallible in
  let! w := getw in
  match lf_ent (nw_fs w) !! (parent, name) with
  | Some _ => fail (- EEXIST)
  | None =>
      let! l := get_node d in
      if S_ISDIR (l_type l) then fail (- EPERM)
      else if l_nlink l =? 0 then fail (- ENOENT)
      else
        let! _ := put_node d (l <| l_nlink := l_nlink l + 1 |>) in
        on_fs (fun fs => fs <| lf_ent := <[(parent, name) := d]> (lf_ent fs) |>)
  end.

Definition vfs_unlink (parent : Z) (name : string) : M unit :=
  let! _ := fallible in
  let! w := getw in
  match lf_ent (nw_fs w) !! (parent, name) with
  | None => fail (- ENOENT)
  | Some d =>
      let! l := get_node d in
      if S_ISDIR (l_type l) then fail (- EISDIR)
      else let! _ := drop_entry parent name in drop_link d (fun n => n - 1)
  end.

(** The entries of a directory. *)
Definition dir_entries (fs : lfs) (dir : Z) : list (string * Z) :=
  omap (fun x : Z * string * Z => if x.1.1 =? dir then Some (x.1.2, x.2) else None) (map_to_list (lf_ent fs)).

Definition vfs_rmdir (parent : Z) (name : string) : M unit :=
  let! _ := fallible in
  let! w := getw in
  match lf_ent (nw_fs w) !! (parent, name) with
  | None => fail (- ENOENT)
  | Some d =>
      let! l := get_node d in
      if negb (S_ISDIR (l_type l)) then fail (- ENOTDIR)
      else match dir_entries (nw_fs w) d with
           | _ :: _ => fail (- ENOTEMPTY)
           | [] => let! _ := drop_entry parent name in drop_link d (fun _ => 0)
           end
  end.

(** Plain replace-if-exists rename within one superblock. *)
Definition vfs_rename (op : Z) (oname : string) (np : Z) (nname : string) : M unit :=
  let! _ := fallible in
  let! w := getw in
  match lf_ent (nw_fs w) !! (op, oname) with
  | None => fail (- ENOENT)
  | Some d =>
      let! l := get_node d in
      let move := on_fs (fun fs =>
        fs <| lf_ent := <[(np, nname) := d]> (delete (op, oname) (lf_ent fs)) |>
           <| lf_at := <[d := (np, nname)]> (lf_at fs) |>) in
      match lf_ent (nw_fs w) !! (np, nname) with
      | None => move
      | Some t =>
          if t =? d then ok tt
          else
            let! tl := get_node t in
            if S_ISDIR (l_type l) then
              if negb (S_ISDIR (l_type tl)) then fail (- ENOTDIR)
              else match dir_entries (nw_fs w) t with
                   | _ :: _ => fail (- ENOTEMPTY)
                   | [] => let! _ := drop_link t (fun _ => 0) in move
                   end
            else if S_ISDIR (l_type tl) then fail (- EISDIR)
            else let! _ := drop_link t (fun n => n - 1) in move
      end
  end.

(** [RENAME_EXCHANGE]: the two names swap their inodes. *)
Definition vfs_exchange (op : Z) (oname : string) (np : Z) (nname : string) : M unit :=
  let! _ := fallible in
  let! w := getw in
  match lf_ent (nw_fs w) !! (op, oname), lf_ent (nw_fs w) !! (np, nname) with
  | Some d, Some t =>
      on_fs (fun fs => fs <| lf_ent := <[(np, nname) := d]> (<[(op, oname) := t]> (lf_ent fs)) |>
                          <| lf_at := <[d := (np, nname)]> (<[t := (op, oname)]> (lf_at fs)) |>)
  | _, _ => fail (- ENOENT)
  end.

End Calls.

(** Whether directory [x] is [d] or lies below it. *)
Fixpoint below (fuel : nat) (fs : lfs) (d x : Z) : bool :=
  (x =? d) || match fuel with
              | O => false
              | S fuel => match lf_at fs !! x with Some (p, _) => below fuel fs d p | None => false end
              end.

(** The chain of parents is no longer than the number of nodes. *)
Definition is_below (fs : lfs) (d x : Z) : bool := below (size (lf_at fs)) fs d x.

(** ** Lemmas *)

(** Components that name an entry: neither empty nor a dot name. *)
Definition plain_name (c : string) : Prop :=
  c <> EmptyString /\ c <> "."%string /\ c <> ".."%string.

(** One more plain component at the end of a walk. *)
Lemma path_walk_snoc fs nodes root links at0 cur comps at_ dir l n d :
  path_walk fs nodes root links at0 cur comps = Ok (at_, dir) ->
  nodes !! dir = Some l -> S_ISDIR (l_type l) = true -> plain_name n ->
  lf_ent fs !! (dir, n) = Some d -> lf_link fs !! d = None ->
  path_walk fs nodes root links at0 cur (comps ++ [n]) = Ok (LDentry dir n (Some d), d).
Proof.
  intros Hw Hl Hd (N1 & N2 & N3) He Hs. revert at0 cur comps Hw.
  induction links as [|links IH]; intros at0 cur comps; revert at0 cur;
    (induction comps as [|c comps IHc]; intros at0 cur; simpl;
     [intros [= -> ->]; rewrite !bool_decide_eq_false_2 by done; cbn [orb]; by rewrite Hl, Hd, He, Hs|]);
    (destruct (bool_decide (c = EmptyString) || bool_decide (c = "."%string)); [apply IHc|]);
    (destruct (negb _); [done|]); (destruct (bool_decide (c = ".."%string)); [apply IHc|]);
    (destruct (lf_ent fs !! (cur, c)) as [d'|]; [|done]);
    (destruct (lf_link fs !! d') as [[abs_ target]|]; [|apply IHc]); [done|].
  intros Hw. rewrite app_assoc. by apply IH.
Qed.

(** ** Reasoning about the monad *)

Lemma bind_ok {A B} (m : M A) (k : A -> M B) w b w' :
  mbind_ns m k w = (Ok b, w') <-> exists a w1, m w = (Ok a, w1) /\ k a w1 = (Ok b, w').
Proof.
  unfold mbind_ns. destruct (m w) as [[err|a] w1]; split.
  - done.
  - by intros (a & w2 & ? & _).
  - intros H. by exists a, w1.
  - by intros (a' & w2 & [= <- <-] & H).
Qed.

(** Split a successful computation into its steps. *)
Ltac run_ok H :=
  match type of H with
  | mbind_ns _ _ _ = (Ok _, _) =>
      let a := fresh "a" in let w := fresh "w" in let H1 := fresh "Hs" in
      apply bind_ok in H as (a & w & H1 & H); run_ok H1; run_ok H
  | getw _ = (Ok _, _) => unfold getw in H; injection H as <- <-
  | get_sb _ = (Ok _, _) => unfold get_sb in H; injection H as <- <-
  | ok _ _ = (Ok _, _) => unfold ok in H; injection H as <- <-
  | fail _ _ = (Ok _, _) => discriminate H
  | _ => idtac
  end.

(** Only the call counter moved. *)
Definition ticked (w w' : nworld) : Prop := exists k, w' = w <| nw_k := k |>.

Lemma ticked_refl w : ticked w w.
Proof. exists (nw_k w). by destruct w. Qed.
Lemma ticked_trans w1 w2 w3 : ticked w1 w2 -> ticked w2 w3 -> ticked w1 w3.
Proof. intros [k1 ->] [k2 ->]. exists k2. done. Qed.

Lemma ask_ticks e w r w' : ask e w = (r, w') -> r = Ok (ne_ora e (nw_k w)) /\ ticked w w'.
Proof. intros [= <- <-]. split; [done|by eexists]. Qed.

Lemma kalloc_ticks e w r w' : kalloc e w = (r, w') -> ticked w w'.
Proof. unfold kalloc, mbind_ns, ask. cbn. case_goal; intros [= _ <-]; by eexists. Qed.

Lemma fallible_ticks e w r w' : fallible e w = (r, w') -> ticked w w'.
Proof. unfold fallible, mbind_ns, ask. cbn. case_goal; intros [= _ <-]; by eexists. Qed.

Lemma fallible_err e w err w' : fallible e w = (Err err, w') -> exists k, err = ne_ora e k /\ err < 0.
Proof.
  unfold fallible, mbind_ns, ask. cbn. case_goal; intros [= <- _]. exists (nw_k w). to_prop. done.
Qed.

Lemma lookup_one_ticks e p n w r w' : lookup_one e p n w = (r, w') -> ticked w w'.
Proof.
  unfold lookup_one, mbind_ns. destruct (fallible e w) as [[?|?] w1] eqn:Ef; apply fallible_ticks in Ef; by intros [= _ <-].
Qed.

(** A run without faults. *)
Definition calm (e : ns_env) : Prop := forall k, 0 <= ne_ora e k.

Section Calm.
Context (e : ns_env) (Hc : calm e).

Lemma fallible_calm w : fallible e w = (Ok tt, w <| nw_k := S (nw_k w) |>).
Proof. unfold fallible, mbind_ns, ask. destruct (Z.ltb_spec (ne_ora e (nw_k w)) 0); [|done]. specialize (Hc (nw_k w)). lia. Qed.

Lemma kalloc_calm w : kalloc e w = (Ok tt, w <| nw_k := S (nw_k w) |>).
Proof. unfold kalloc, mbind_ns, ask. destruct (Z.ltb_spec (ne_ora e (nw_k w)) 0); [|done]. specialize (Hc (nw_k w)). lia. Qed.

Lemma lookup_one_calm parent name w :
  lookup_one e parent name w = (Ok (lf_ent (nw_fs w) !! (parent, name)), w <| nw_k := S (nw_k w) |>).
Proof. unfold lookup_one, mbind_ns. by rewrite fallible_calm. Qed.
End Calm.

(** The value of a path resolution, faults apart. *)
Definition resolved (w : nworld) (t : Z) (rel : string) : result (path * ldentry) :=
  if ntiers (nw_sb w) <=? t then Err (- EINVAL)
  else match tier_at (nw_sb w) t with
       | None => Err (- EINVAL)
       | Some tr =>
           let d := p_dentry (t_path tr) in
           if str_empty rel then Ok (t_path tr, dentry_of (nw_fs w) d)
           else match path_walk (nw_fs w) (lower (nw_sb w)) d MAXSYMLINKS (dentry_of (nw_fs w) d) d (rel_comps rel) with
                | Err err => Err err
                | Ok (at_, d) => Ok (Path (p_mnt (t_path tr)) d, at_)
                end
       end.

Lemma tier_resolve_spec e t rel w r w' :
  smoothfs_resolve_rel_path_on_tier e t rel w = (r, w') ->
  ticked w w' /\ (r = resolved w t rel \/ exists k, r = Err (ne_ora e k) /\ ne_ora e k < 0).
Proof.
  unfold smoothfs_resolve_rel_path_on_tier, resolved, mbind_ns, getw, get_sb, fail, ok.
  destruct (ntiers (nw_sb w) <=? t); [intros [= <- <-]; split; [apply ticked_refl|by left]|].
  destruct (tier_at (nw_sb w) t) as [tr|]; [|intros [= <- <-]; split; [apply ticked_refl|by left]].
  destruct (str_empty rel); [intros [= <- <-]; split; [apply ticked_refl|by left]|].
  unfold vfs_path_lookup, mbind_ns, getw, fail, ok.
  destruct (fallible e w) as [[err|u] w1] eqn:Ef; pose proof (fallible_ticks _ _ _ _ Ef) as Ht.
  - intros [= <- <-]. split; [done|]. right. apply fallible_err in Ef as (k & -> & ?). by exists k.
  - destruct Ht as [k ->].
    change (nw_fs (w <| nw_k := k |>)) with (nw_fs w). change (nw_sb (w <| nw_k := k |>)) with (nw_sb w).
    cbv zeta. destruct (path_walk _ _ _ _ _ _ _) as [err|[at_ d]]; intros [= <- <-]; (split; [by eexists|by left]).
Qed.

Lemma tier_resolve_calm e t rel w : calm e ->
  exists k, smoothfs_resolve_rel_path_on_tier e t rel w = (resolved w t rel, w <| nw_k := k |>).
Proof.
  intros Hc. destruct (smoothfs_resolve_rel_path_on_tier e t rel w) as [r w'] eqn:E.
  apply tier_resolve_spec in E as [[k ->] [->|(k' & _ & Hlt)]]; [by exists k|]. specialize (Hc k'). lia.
Qed.
