(* ===== verification/Movement.v ===== *)
(** * Moving objects between tiers: src/src/smoothfs/movement.c

    The user-space daemon copies a file to another tier and drives the kernel
    through PLAN, CUTOVER and COMPLETE (or ROLLBACK).  A cutover drops the
    inode lock while it waits for writers, so it is two steps here, with any
    other movement command possible in between.

    Lower lookups, allocations and the writer drain are decided by the kernel:
    their results are members of [cut_env].  Recovery of an object that is not
    in memory is placement.c's; movement relies on it through [Recovery]. *)
From S2P Require Import Prelude Types Oid KernelIO PlacementLog InodeMaps.

(** Every cached inode is filed under its own number. *)
Definition keyed (sbi : sb_info) : Prop :=
  forall ino si, inodes sbi !! ino = Some si -> i_ino si = ino.

(** What movement expects of [smoothfs_recovery_resolve_oid].  [R] is the
    state recovery keeps (its index, the identity writeback queue).  It may add
    inodes and refresh the one it returns, never into the cutover state; every
    other cached inode is untouched.  [recovery_wf] is recovery's own invariant. *)
Class Recovery (R : Type) := {
  recovery_resolve_oid : R -> sb_info -> list Z -> option Z * (R * sb_info);
  recovery_wf : R -> Prop;
  recovery_wf_keeps : forall rec sbi o r rec' sbi', recovery_wf rec ->
    recovery_resolve_oid rec sbi o = (r, (rec', sbi')) -> recovery_wf rec';
  recovery_others : forall rec sbi o r rec' sbi', recovery_wf rec -> keyed sbi ->
    recovery_resolve_oid rec sbi o = (r, (rec', sbi')) ->
    forall ino si, r <> Some ino -> inodes sbi !! ino = Some si -> inodes sbi' !! ino = Some si;
  recovery_inodes : forall rec sbi o r rec' sbi', recovery_wf rec -> keyed sbi ->
    recovery_resolve_oid rec sbi o = (r, (rec', sbi')) ->
    forall ino si, inodes sbi' !! ino = Some si ->
      i_ino si = ino /\ (ms si = MS_CUTOVER_IN_PROGRESS -> inodes sbi !! ino = Some si);
}.

Section Movement.
Context {R : Type} `{Recovery R}.

(** The pool together with recovery's state. *)
Record mworld := MWorld { mw_rec : R; mw_sb : sb_info }.

(** The live map first, then the recovery index. *)
Definition smoothfs_lookup_oid_resolve (w : mworld) (o : list Z) : option Z * mworld :=
  match smoothfs_lookup_oid (mw_sb w) o with
  | Some i => (Some i, w)
  | None => let '(r, (rec, sbi)) := recovery_resolve_oid (mw_rec w) (mw_sb w) o in (r, MWorld rec sbi)
  end.

(** Run [k] on the object, under its inode lock; [absent] when there is no
    such object. *)
Definition on_object {A} (absent : A) (w : mworld) (o : list Z)
    (k : sb_info -> inode_info -> A * sb_info) : A * mworld :=
  let (r, w) := smoothfs_lookup_oid_resolve w o in
  match (i ← r; inodes (mw_sb w) !! i) with
  | None => (absent, w)
  | Some si => let (a, sbi) := k (mw_sb w) si in (a, MWorld (mw_rec w) sbi)
  end.

(** The lower inode's [mapping_writably_mapped]. *)
Definition writably_mapped (sbi : sb_info) (si : inode_info) : bool :=
  match lower_path si with
  | Some p => match lower sbi !! p_dentry p with Some l => l_mapped l | None => false end
  | None => false
  end.

Definition smoothfs_can_move (sbi : sb_info) (si : inode_info) (force : bool) : bool :=
  if negb (pin_eqb (pin si) PIN_NONE) && negb (force && pin_eqb (pin si) PIN_LEASE) then false
  else if 1 <? nlink_observed si then false
  else if writably_mapped sbi si then false
  else if negb (S_ISREG (i_type si)) then false
  else true.

(** Point every alias at [d]: find one that differs, set it, look again. *)
Fixpoint set_first_alias (d : Z) (l : list (option Z)) : option (list (option Z)) :=
  match l with
  | [] => None
  | a :: l =>
      if bool_decide (a = Some d)
      then (fun l' => a :: l') <$> set_first_alias d l
      else Some (Some d :: l)
  end.

Fixpoint set_aliases_loop (fuel : nat) (d : Z) (l : list (option Z)) : list (option Z) :=
  match fuel with
  | O => l
  | S fuel => match set_first_alias d l with
              | None => l
              | Some l' => set_aliases_loop fuel d l'
              end
  end.

Definition smoothfs_set_lower_dentry_all (si : inode_info) (d : Z) : inode_info :=
  si <| aliases := set_aliases_loop (length (aliases si)) d (aliases si) |>.

(** The kernel's part in finding the path of an inode: whether it has a dentry
    alias, the buffer, [dentry_path_raw], the copies of that path and of the
    recorded one. *)
Record alias_env := AliasEnv {
  al_found : bool;
  al_buf : bool;
  al_raw : option string;
  al_dup_raw : bool;
  al_dup_rel : bool;
}.
Definition no_alias : alias_env := AliasEnv false true None true true.

Definition drop_slash (p : string) : string :=
  match p with
  | String c p' => if Ascii.eqb c (Ascii.ascii_of_nat 47) then p' else p
  | EmptyString => p
  end.

(** The path of a dentry alias, when the inode has one and it can be rendered
    and copied; else a copy of the recorded relative path. *)
Definition smoothfs_current_rel_path (al : alias_env) (si : inode_info) : option string :=
  let recorded := if al_dup_rel al then rel_path si else None in
  if negb (al_found al) then recorded
  else
    let rel := if negb (al_buf al) then None
               else match al_raw al with
                    | Some p => if al_dup_raw al then Some (drop_slash p) else None
                    | None => None
                    end in
    match rel with
    | Some r => Some r
    | None => recorded
    end.

(** [strrchr(path, '/')]: the part before the last slash, if any, and the
    last component. *)
Fixpoint split_last_slash (s : string) : option (string * string) :=
  match s with
  | EmptyString => None
  | String c s' =>
      match split_last_slash s' with
      | Some (d, b) => Some (String c d, b)
      | None => if Ascii.eqb c (Ascii.ascii_of_nat 47) then Some (EmptyString, s') else None
      end
  end.

(** [dir_lookup tier path]: the directory at a relative path of a tier;
    [child_lookup dir name]: a child dentry, negative as [None]. *)
Definition smoothfs_resolve_cutover_dest (alloc : bool)
    (dir_lookup : Z -> string -> result path) (child_lookup : path -> string -> result (option Z))
    (sbi : sb_info) (dest_tier : Z) (src_name : string) (rel : option string) : result path :=
  if ntiers sbi <=? dest_tier then Err (- EINVAL)
  else
    let root := match tier_at sbi dest_tier with Some t => t_path t | None => Path 0 0 end in
    let finish (parent : result path) (name : string) : result path :=
      match parent with
      | Err e => Err e
      | Ok parent =>
          if bool_decide (name = EmptyString) then Err (- EINVAL)
          else match child_lookup parent name with
               | Err e => Err e
               | Ok None => Err (- ENOENT)
               | Ok (Some d) => Ok (Path (p_mnt parent) d)
               end
      end in
    match rel with
    | Some r =>
        if bool_decide (r = EmptyString) then finish (Ok root) src_name
        else if negb alloc then Err (- ENOMEM)
        else match split_last_slash r with
             | Some (d, b) =>
                 finish (if bool_decide (d = EmptyString) then Ok root else dir_lookup dest_tier d) b
             | None => finish (Ok root) r
             end
    | None => finish (Ok root) src_name
    end.

(** ** Plan *)

Definition emit_move_state (ok : bool) (sbi : sb_info) (o : list Z) (s : movement_state) (seq : Z)
  : sb_info :=
  if ok then sbi <| events := events sbi ++ [EV_MOVE_STATE o s seq] |> else sbi.

Definition plan_locked (alloc emit : bool) (now : Z) (o : list Z) (dest_tier seq : Z) (force : bool)
    (sbi : sb_info) (si : inode_info) : Z * sb_info :=
  if negb (ms_eqb (ms si) MS_PLACED) then (- EBUSY, sbi)
  else if dest_tier =? current_tier si then (- EALREADY, sbi)
  else if negb (smoothfs_can_move sbi si force) then (- EBUSY, sbi)
  else
    let si := si <| mappings_quiesced := false |> <| intended_tier := dest_tier |>
                 <| ms := MS_PLAN_ACCEPTED |> <| transaction_seq := seq |> in
    let '(_, sbi, _) := smoothfs_placement_record alloc now (put_inode sbi si) o MS_PLAN_ACCEPTED
                          (current_tier si) dest_tier false in
    (0, emit_move_state emit sbi o MS_PLAN_ACCEPTED seq).

Definition smoothfs_movement_plan (alloc emit : bool) (now : Z) (w : mworld) (o : list Z)
    (dest_tier seq : Z) (force : bool) : Z * mworld :=
  let sbi := mw_sb w in
  if quiesced sbi then (- EAGAIN, w)
  else if ntiers sbi <=? dest_tier then (- EINVAL, w)
  else if cache_mode sbi && negb (dest_tier =? ntiers sbi - 1) then (- EINVAL, w)
  else on_object (- ENOENT) w o (plan_locked alloc emit now o dest_tier seq force).

(** ** Cutover *)

(** The states a cutover may start from. *)
Definition pre_cutover (s : movement_state) : bool :=
  match s with
  | MS_PLAN_ACCEPTED | MS_DESTINATION_RESERVED | MS_COPY_IN_PROGRESS
  | MS_COPY_COMPLETE | MS_COPY_VERIFIED => true
  | _ => false
  end.

Record cut_env := CutEnv {
  ce_alloc : nat -> bool;              (* log entries, the path copy *)
  ce_emit : bool;
  ce_now : Z;
  ce_drain : Z;                        (* 0, or -EBUSY: writers did not drain in time *)
  ce_alias_path : alias_env;
  ce_src_name : string;
  ce_dir_lookup : Z -> string -> result path;
  ce_child_lookup : path -> string -> result (option Z);
  ce_write_oid : Z; ce_read_oid : Z; ce_write_gen : Z; ce_open : Z; ce_fsync : Z;
  ce_lower_insert : Z; ce_path_insert : Z;
}.

(** First half, under the inode lock: check and close the gate.  Returns the
    inode number the second half works on. *)
Definition begin_locked (e : cut_env) (o : list Z) (seq : Z) (sbi : sb_info) (si : inode_info)
  : result Z * sb_info :=
  if ntiers sbi <=? intended_tier si then (Err (- EINVAL), sbi)
  else if negb (pre_cutover (ms si)) then (Err (- EBUSY), sbi)
  else if negb (transaction_seq si =? seq) then (Err (- ESTALE), sbi)
  else if writably_mapped sbi si then (Err (- EBUSY), sbi)
  else
    let si := si <| ms := MS_CUTOVER_IN_PROGRESS |> in
    let '(_, sbi, _) := smoothfs_placement_record (ce_alloc e 0%nat) (ce_now e) (put_inode sbi si) o
                          MS_CUTOVER_IN_PROGRESS (current_tier si) (intended_tier si) true in
    (Ok (i_ino si), sbi).

Definition cutover_begin (e : cut_env) (w : mworld) (o : list Z) (seq : Z) : result Z * mworld :=
  if quiesced (mw_sb w) then (Err (- EAGAIN), w)
  else on_object (Err (- ENOENT)) w o (begin_locked e o seq).

(** The writers stalled at the inode's gate. *)
Definition wake_up_all (sbi : sb_info) (si : inode_info) : sb_info :=
  sbi <| events := events sbi ++ [EV_WAKE (i_ino si)] |>.

(** Leave the gate without switching; writers wake up. *)
Definition cutover_leave (e : cut_env) (sbi : sb_info) (si : inode_info) (o : list Z)
    (s : movement_state) : sb_info :=
  let si := si <| ms := s |> in
  let sbi := wake_up_all (put_inode sbi si) si in
  snd (fst (smoothfs_placement_record (ce_alloc e 1%nat) (ce_now e) sbi o s
              (current_tier si) (intended_tier si) false)).

(** Persist the object's identity on the destination. *)
Definition stamp_identity (e : cut_env) (si : inode_info) (l : lnode) : Z * lnode :=
  let (err, l) := smoothfs_write_oid_xattr (ce_write_oid e) l (oid si) in
  let err := if err =? - EEXIST
             then match smoothfs_read_oid_xattr (ce_read_oid e) l with
                  | Err er => er
                  | Ok existing => if bytes_eqb existing (oid si) then 0 else - ESTALE
                  end
             else err in
  let (err, l) := if err =? 0 then smoothfs_write_gen_xattr (ce_write_gen e) l (gen si) else (err, l) in
  let err := if err =? 0 then (if ce_open e <? 0 then ce_open e
                               else if ce_fsync e <? 0 then ce_fsync e else 0) else err in
  (err, l).

(** Make [dest] the backing of the object. *)
Definition cutover_switch (e : cut_env) (sbi : sb_info) (si : inode_info) (o : list Z) (seq : Z)
    (src_ino : Z) (dest : path) (dl : lnode) (rel : option string) : sb_info :=
  let sbi := smoothfs_lower_ino_map_remove sbi (current_tier si) src_ino in
  let (si, _) := smoothfs_swap_lower_path si dest in
  let sbi := snd (smoothfs_lower_ino_map_insert (ce_lower_insert e) sbi (intended_tier si) (l_ino dl)
                    (i_ino si)) in
  let (sbi, si) := match rel with
                   | Some r => replace_rel_path (ce_path_insert e) sbi si (Some r)
                   | None => (sbi, si)
                   end in
  let si := smoothfs_set_lower_dentry_all si (p_dentry dest) in
  let si := si <| current_tier := intended_tier si |> <| cutover_gen := u32 (cutover_gen si + 1) |>
               <| ms := MS_SWITCHED |> in
  let sbi := wake_up_all sbi si in
  let (sbi, si) := if pin_eqb (pin si) PIN_LEASE
                   then (sbi <| events := events sbi ++ [EV_MODIFY (i_ino si)] |>, si <| pin := PIN_NONE |>)
                   else (sbi, si) in
  let si := smoothfs_copy_attrs si dl in
  let '(_, sbi, _) := smoothfs_placement_record (ce_alloc e 2%nat) (ce_now e) (put_inode sbi si) o
                        MS_SWITCHED (current_tier si) (current_tier si) true in
  emit_move_state (ce_emit e) sbi o MS_SWITCHED seq.

(** Second half: [ino] is the inode the first half worked on. *)
Definition cutover_finish (e : cut_env) (sbi : sb_info) (ino : Z) (o : list Z) (seq : Z)
    (expected_write_seq : option Z) : Z * sb_info :=
  match inodes sbi !! ino with
  | None => (- ENOENT, sbi)
  | Some si =>
      if negb (ce_drain e =? 0) then
        (- EBUSY, if ms_eqb (ms si) MS_CUTOVER_IN_PROGRESS
                  then cutover_leave e sbi si o MS_COPY_VERIFIED else sbi)
      else if negb (ms_eqb (ms si) MS_CUTOVER_IN_PROGRESS) then
        (- EBUSY, cutover_leave e sbi si o MS_COPY_VERIFIED)
      else if match expected_write_seq with Some w => negb (write_seq si =? w) | None => false end
      then (- ESTALE, cutover_leave e sbi si o MS_FAILED)
      else
        let rel := smoothfs_current_rel_path (ce_alias_path e) si in
        match smoothfs_resolve_cutover_dest (ce_alloc e 3%nat) (ce_dir_lookup e) (ce_child_lookup e) sbi
                (intended_tier si) (ce_src_name e) rel with
        | Err err => (err, cutover_leave e sbi si o MS_FAILED)
        | Ok dest =>
            match lower sbi !! p_dentry dest, (p ← lower_path si; lower sbi !! p_dentry p) with
            | Some dl, Some sl =>
                if l_size dl <? l_size sl then (- EAGAIN, cutover_leave e sbi si o MS_FAILED)
                else
                  let (err, dl) := stamp_identity e si dl in
                  let sbi := sbi <| lower := <[p_dentry dest := dl]> (lower sbi) |> in
                  if negb (err =? 0) then (err, cutover_leave e sbi si o MS_FAILED)
                  else (0, cutover_switch e sbi si o seq (l_ino sl) dest dl rel)
            | _, _ => (- ENOENT, cutover_leave e sbi si o MS_FAILED)
            end
        end
  end.

(** The whole call; [between] is what happens to the pool while the lock is
    dropped. *)
Definition smoothfs_movement_cutover (e : cut_env) (between : mworld -> mworld) (w : mworld)
    (o : list Z) (seq : Z) (expected_write_seq : option Z) : Z * mworld :=
  match cutover_begin e w o seq with
  | (Err err, w) => (err, w)
  | (Ok ino, w) =>
      let w := between w in
      let (err, sbi) := cutover_finish e (mw_sb w) ino o seq expected_write_seq in
      (err, MWorld (mw_rec w) sbi)
  end.

(** ** Revoke, complete, rollback, abort *)

Definition smoothfs_revoke_mappings (w : mworld) (o : list Z) : Z * mworld :=
  on_object (- ENOENT) w o (fun sbi si => (0, put_inode sbi (si <| mappings_quiesced := true |>))).

Definition smoothfs_clear_pool_mapping_quiesce (sbi : sb_info) : sb_info :=
  foldl (fun sbi ino => match inodes sbi !! ino with
                        | Some si => sbi <| inodes := <[ino := si <| mappings_quiesced := false |>]> (inodes sbi) |>
                        | None => sbi
                        end) sbi (inode_list sbi).

(** Back to PLACED on the current tier. *)
Definition settle (alloc emit : bool) (now : Z) (sbi : sb_info) (si : inode_info) (o : list Z) (seq : Z)
  : Z * sb_info :=
  let '(err, sbi, _) := smoothfs_placement_record alloc now sbi o MS_PLACED (current_tier si)
                          (current_tier si) true in
  if negb (err =? 0) then (err, sbi)
  else
    let si := si <| ms := MS_PLACED |> <| intended_tier := current_tier si |> in
    (0, emit_move_state emit (put_inode sbi si) o MS_PLACED seq).

Definition complete_locked (alloc emit : bool) (now : Z) (o : list Z) (seq : Z)
    (sbi : sb_info) (si : inode_info) : Z * sb_info :=
  if negb (transaction_seq si =? seq) then (- ESTALE, sbi)
  else if ms_eqb (ms si) MS_PLACED then (0, sbi)
  else if negb (ms_eqb (ms si) MS_SWITCHED) then (- EBUSY, sbi)
  else settle alloc emit now sbi si o seq.

Definition smoothfs_movement_complete (alloc emit : bool) (now : Z) (w : mworld) (o : list Z) (seq : Z)
  : Z * mworld := on_object (- ENOENT) w o (complete_locked alloc emit now o seq).

Definition rollback_locked (alloc emit : bool) (now : Z) (o : list Z) (seq : Z)
    (sbi : sb_info) (si : inode_info) : Z * sb_info :=
  if negb (transaction_seq si =? seq) then (- ESTALE, sbi)
  else if ms_eqb (ms si) MS_PLACED then (0, sbi)
  else if negb (pre_cutover (ms si) || ms_eqb (ms si) MS_FAILED) then (- EBUSY, sbi)
  else settle alloc emit now sbi si o seq.

Definition smoothfs_movement_rollback (alloc emit : bool) (now : Z) (w : mworld) (o : list Z) (seq : Z)
  : Z * mworld := on_object (- ENOENT) w o (rollback_locked alloc emit now o seq).

Definition abort_locked (alloc emit : bool) (now : Z) (o : list Z) (seq : Z)
    (sbi : sb_info) (si : inode_info) : Z * sb_info :=
  if negb (transaction_seq si =? seq) then (- ESTALE, sbi)
  else if negb (pre_cutover (ms si)) then (- EBUSY, sbi)
  else
    let si := si <| ms := MS_FAILED |> <| intended_tier := current_tier si |>
                 <| transaction_seq := 0 |> in
    let '(_, sbi, _) := smoothfs_placement_record alloc now (put_inode sbi si) o MS_FAILED
                          (current_tier si) (current_tier si) false in
    (0, emit_move_state emit sbi o MS_FAILED seq).

Definition smoothfs_movement_abort (alloc emit : bool) (now : Z) (w : mworld) (o : list Z) (seq : Z)
  : Z * mworld := on_object (- ENOENT) w o (abort_locked alloc emit now o seq).

(** Re-point a warm inode whose lower moved out of band; [found] is the
    result of the lookup on the other tiers. *)
Definition smoothfs_relower_after_forget (alias_path : alias_env)
    (found : string -> option (Z * path)) (lower_insert : Z) (sbi : sb_info) (si : inode_info)
    (old_tier old_lower_ino : Z) : bool * sb_info :=
  match smoothfs_current_rel_path alias_path si with
  | None => (false, sbi)
  | Some rel =>
      match found rel with
      | None => (false, sbi)
      | Some (found_tier, p) =>
          let sbi := smoothfs_lower_ino_map_remove sbi old_tier old_lower_ino in
          let mnt := match lower_path si with Some q => p_mnt q | None => -1 end in
          if negb (smoothfs_tier_of sbi mnt =? old_tier) then (true, sbi)
          else
            match lower sbi !! p_dentry p with
            | None => (true, sbi)
            | Some l =>
                let (si, _) := smoothfs_swap_lower_path si p in
                let sbi := snd (smoothfs_lower_ino_map_insert lower_insert sbi found_tier (l_ino l) (i_ino si)) in
                let si := smoothfs_set_lower_dentry_all si (p_dentry p) in
                let si := si <| current_tier := found_tier |> <| cutover_gen := u32 (cutover_gen si + 1) |> in
                (true, put_inode sbi (smoothfs_copy_attrs si l))
            end
      end
  end.

(** ** Local effects *)

Lemma record_frame alloc now sbi o s c i sync err sbi' b :
  smoothfs_placement_record alloc now sbi o s c i sync = (err, sbi', b) ->
  err = 0 /\ inodes sbi' = inodes sbi /\ lower sbi' = lower sbi
  /\ lower_ino_map sbi' = lower_ino_map sbi /\ ntiers sbi' = ntiers sbi.
Proof. unfold smoothfs_placement_record. repeat case_goal; intros [= <- <- _]; done. Qed.

Lemma record_events alloc now sbi o s c i sync :
  events (snd (fst (smoothfs_placement_record alloc now sbi o s c i sync))) = events sbi.
Proof. unfold smoothfs_placement_record. repeat case_goal; done. Qed.

(** The writers stalled at the gate of [si] were woken. *)
Definition woken (si : inode_info) (sbi sbi' : sb_info) : Prop :=
  exists rest, events sbi' = events sbi ++ EV_WAKE (i_ino si) :: rest.

Lemma emit_frame ok sbi o s seq :
  inodes (emit_move_state ok sbi o s seq) = inodes sbi
  /\ lower (emit_move_state ok sbi o s seq) = lower sbi
  /\ lower_ino_map (emit_move_state ok sbi o s seq) = lower_ino_map sbi
  /\ ntiers (emit_move_state ok sbi o s seq) = ntiers sbi.
Proof. by destruct ok. Qed.

(** The pool changed at most at inode [si], and there as [Q] says. *)
Definition local (Q : inode_info -> Prop) (sbi : sb_info) (si : inode_info) (sbi' : sb_info) : Prop :=
  inodes sbi' = inodes sbi
  \/ exists si', i_ino si' = i_ino si /\ Q si' /\ inodes sbi' = <[i_ino si := si']> (inodes sbi).

Ltac logged :=
  repeat match goal with
  | |- context [smoothfs_placement_record ?a ?n ?s ?o ?st ?c ?i ?y] =>
      let E := fresh "Erec" in
      destruct (smoothfs_placement_record a n s o st c i y) as [[? ?] ?] eqn:E;
      apply record_frame in E as (? & ? & ? & ? & ?)
  end.

Lemma plan_local alloc emit now o t seq force sbi si a sbi' :
  plan_locked alloc emit now o t seq force sbi si = (a, sbi') ->
  local (fun si' => a = 0 /\ ms si = MS_PLACED /\ si' = si <| mappings_quiesced := false |>
           <| intended_tier := t |> <| ms := MS_PLAN_ACCEPTED |> <| transaction_seq := seq |>) sbi si sbi'.
Proof.
  unfold plan_locked, ms_eqb. case_goal; [intros [= <- <-]; by left|].
  case_goal; [intros [= <- <-]; by left|]. case_goal; [intros [= <- <-]; by left|].
  apply negb_false_iff, bool_decide_eq_true in E. logged. intros [= <- <-]. right.
  eexists. split_and!; [| |exact E|reflexivity|]; [reflexivity..|].
  destruct (emit_frame emit s o MS_PLAN_ACCEPTED seq) as (-> & _). by rewrite H1.
Qed.

Lemma begin_local e o seq sbi si a sbi' :
  begin_locked e o seq sbi si = (a, sbi') ->
  (exists err, a = Err err /\ sbi' = sbi)
  \/ a = Ok (i_ino si) /\ pre_cutover (ms si) = true /\ transaction_seq si = seq
     /\ intended_tier si < ntiers sbi /\ writably_mapped sbi si = false
     /\ inodes sbi' = <[i_ino si := si <| ms := MS_CUTOVER_IN_PROGRESS |>]> (inodes sbi)
     /\ lower sbi' = lower sbi /\ lower_ino_map sbi' = lower_ino_map sbi /\ ntiers sbi' = ntiers sbi.
Proof.
  unfold begin_locked. repeat (case_goal; [intros [= <- <-]; left; by eexists|]).
  logged. intros [= <- <-]. to_prop. right. split_and!; try done; congruence.
Qed.

Lemma settle_local alloc emit now sbi si o seq a sbi' :
  settle alloc emit now sbi si o seq = (a, sbi') ->
  a = 0 /\ inodes sbi' = <[i_ino si := si <| ms := MS_PLACED |> <| intended_tier := current_tier si |>]>
                          (inodes sbi).
Proof.
  unfold settle. logged. subst. cbn [negb Z.eqb]. intros [= <- <-]. split; [done|].
  rewrite (proj1 (emit_frame _ _ _ _ _)). cbn. congruence.
Qed.

Lemma complete_local alloc emit now o seq sbi si a sbi' :
  complete_locked alloc emit now o seq sbi si = (a, sbi') ->
  local (fun si' => a = 0 /\ ms si = MS_SWITCHED /\ transaction_seq si = seq
           /\ si' = si <| ms := MS_PLACED |> <| intended_tier := current_tier si |>) sbi si sbi'.
Proof.
  unfold complete_locked, ms_eqb. repeat (case_goal; [intros [= <- <-]; by left|]).
  intros [-> Hi]%settle_local. to_prop. right. eexists. split_and!; [| | | |reflexivity|exact Hi]; try done.
  by apply bool_decide_eq_true in E1.
Qed.

Lemma rollback_local alloc emit now o seq sbi si a sbi' :
  rollback_locked alloc emit now o seq sbi si = (a, sbi') ->
  local (fun si' => a = 0 /\ (pre_cutover (ms si) = true \/ ms si = MS_FAILED) /\ transaction_seq si = seq
           /\ si' = si <| ms := MS_PLACED |> <| intended_tier := current_tier si |>) sbi si sbi'.
Proof.
  unfold rollback_locked, ms_eqb. repeat (case_goal; [intros [= <- <-]; by left|]).
  intros [-> Hi]%settle_local. apply negb_false_iff, orb_true_iff in E1. to_prop. right.
  eexists. split_and!; [| | | |reflexivity|exact Hi]; try done.
  by rewrite bool_decide_eq_true in E1.
Qed.

Lemma abort_local alloc emit now o seq sbi si a sbi' :
  abort_locked alloc emit now o seq sbi si = (a, sbi') ->
  local (fun si' => a = 0 /\ pre_cutover (ms si) = true /\ transaction_seq si = seq
           /\ si' = si <| ms := MS_FAILED |> <| intended_tier := current_tier si |>
                       <| transaction_seq := 0 |>) sbi si sbi'.
Proof.
  unfold abort_locked. repeat (case_goal; [intros [= <- <-]; by left|]).
  logged. intros [= <- <-]. to_prop. right. eexists.
  split_and!; [| | | |reflexivity|]; [try done..|].
  by rewrite (proj1 (emit_frame _ _ _ _ _)), H1.
Qed.

Lemma leave_inodes e sbi si o s :
  inodes (cutover_leave e sbi si o s) = <[i_ino si := si <| ms := s |>]> (inodes sbi)
  /\ lower (cutover_leave e sbi si o s) = lower sbi
  /\ lower_ino_map (cutover_leave e sbi si o s) = lower_ino_map sbi.
Proof. unfold cutover_leave. logged. cbn [fst snd]. split_and!; [etransitivity; [eassumption|done]..]. Qed.

Lemma leave_wakes e sbi si o s : woken si sbi (cutover_leave e sbi si o s).
Proof. exists []. unfold cutover_leave. by rewrite record_events. Qed.

(** ** The alias loop *)

Lemma set_first_alias_None d l : set_first_alias d l = None <-> Forall (eq (Some d)) l.
Proof.
  induction l as [|a l IH]; simpl; [done|]. case_bool_decide as Ha; subst.
  - rewrite fmap_None, IH. split; [by constructor|by intros [_ ?]%Forall_cons].
  - split; [done|]. intros [? _]%Forall_cons. congruence.
Qed.

Definition stale_aliases (d : Z) (l : list (option Z)) : nat := length (filter (.≠ Some d) l).

Lemma set_first_alias_Some d l l' : set_first_alias d l = Some l' ->
  length l' = length l /\ S (stale_aliases d l') = stale_aliases d l.
Proof.
  unfold stale_aliases. revert l'. induction l as [|a l IH]; intros l' Hs; simpl in Hs; [done|].
  case_bool_decide as Ha.
  - apply fmap_Some in Hs as (l1 & Hs & ->). destruct (IH _ Hs) as [H1 H2]. subst.
    rewrite !filter_cons_False by (intros Hn; by apply Hn). cbn [length]. by rewrite H1.
  - injection Hs as <-. rewrite filter_cons_False by (intros Hn; by apply Hn).
    rewrite filter_cons_True by done. done.
Qed.

(** The restarted scan ends after at most one round per stale alias, with
    every alias on [d]. *)
Lemma set_aliases_loop_all fuel d l :
  (stale_aliases d l <= fuel)%nat -> set_aliases_loop fuel d l = replicate (length l) (Some d).
Proof.
  revert l. induction fuel as [|fuel IH]; intros l Hf; simpl.
  - assert (Forall (eq (Some d)) l) as Hall.
    { apply Forall_forall. intros x Hx. destruct (decide (x = Some d)) as [->|Hn]; [done|]. exfalso.
      assert (x ∈ filter (.≠ Some d) l) as Hin by (apply list_elem_of_filter; done).
      unfold stale_aliases in Hf. destruct (filter _ l); [by apply not_elem_of_nil in Hin|cbn in Hf; lia]. }
    clear Hf. induction Hall as [|x l <- _ IHl]; [done|]. cbn. by rewrite <- IHl.
  - destruct (set_first_alias d l) as [l'|] eqn:E.
    + destruct (set_first_alias_Some _ _ _ E) as [H1 H2]. rewrite IH by lia. by rewrite H1.
    + apply set_first_alias_None in E. clear Hf IH. induction E as [|x l <- _ IHl]; [done|].
      cbn. by rewrite <- IHl.
Qed.

Lemma set_all_aliases si d : aliases (smoothfs_set_lower_dentry_all si d)
  = replicate (length (aliases si)) (Some d).
Proof. cbn. apply set_aliases_loop_all. apply length_filter. Qed.

(** ** The second half of a cutover *)

Lemma read_oid_Ok f l b : smoothfs_read_oid_xattr f l = Ok b -> l_oid l = Some b.
Proof.
  unfold smoothfs_read_oid_xattr, vfs_getxattr. destruct (f <? 0); [done|].
  destruct (l_oid l) as [v|]; [|done]. case_goal; [done|]. cbn. case_goal; congruence.
Qed.

Lemma read_oid_Err f l er : smoothfs_read_oid_xattr f l = Err er -> er < 0.
Proof.
  unfold smoothfs_read_oid_xattr, vfs_getxattr. destruct (Z.ltb_spec f 0); [by intros [= <-]|].
  destruct (l_oid l) as [v|]; [|by intros [= <-]].
  destruct (_ <? _)%nat; [by intros [= <-]|]. cbn. case_goal; [by intros [= <-]|done].
Qed.

Lemma write_oid_spec f l o err l' : smoothfs_write_oid_xattr f l o = (err, l') ->
  l_size l' = l_size l /\ l_ino l' = l_ino l /\ err <= 0 /\ (err = 0 -> l_oid l' = Some o).
Proof. unfold smoothfs_write_oid_xattr. repeat case_goal; intros [= <- <-]; to_prop; split_and!; try done; lia. Qed.

Lemma write_gen_spec f l g err l' : smoothfs_write_gen_xattr f l g = (err, l') ->
  l_size l' = l_size l /\ l_ino l' = l_ino l /\ l_oid l' = l_oid l /\ err <= 0
  /\ (err = 0 -> l_gen l' = Some (le_split 4 g)).
Proof. unfold smoothfs_write_gen_xattr. case_goal; intros [= <- <-]; to_prop; split_and!; try done; lia. Qed.

Lemma stamp_spec e si l err l' : stamp_identity e si l = (err, l') ->
  l_size l' = l_size l /\ l_ino l' = l_ino l /\ err <= 0
  /\ (err = 0 -> l_oid l' = Some (oid si) /\ l_gen l' = Some (le_split 4 (gen si))).
Proof.
  unfold stamp_identity. destruct (smoothfs_write_oid_xattr _ _ _) as [e1 l1] eqn:E1.
  apply write_oid_spec in E1 as (S1 & I1 & N1 & O1).
  set (e2 := if e1 =? - EEXIST then _ else _).
  assert (e2 <= 0 /\ (e2 = 0 -> l_oid l1 = Some (oid si))) as [N2 O2].
  { subst e2. destruct (e1 =? - EEXIST); [|done].
    destruct (smoothfs_read_oid_xattr _ _) as [er|b] eqn:Er.
    - apply read_oid_Err in Er. split; lia.
    - apply read_oid_Ok in Er. destruct (bytes_eqb b (oid si)) eqn:Eb; [|done].
      apply bytes_eqb_eq in Eb as ->. done. }
  clearbody e2. destruct (Z.eqb_spec e2 0) as [->|Hn].
  - destruct (smoothfs_write_gen_xattr _ _ _) as [e3 l3] eqn:E3.
    apply write_gen_spec in E3 as (S3 & I3 & O3 & N3 & G3). intros [= <- <-].
    rewrite S3, I3, O3. destruct (Z.eqb_spec e3 0) as [->|?]; [|split_and!; done].
    split_and!; [done|done| |auto]. repeat case_goal; to_prop; lia.
  - destruct (Z.eqb_spec e2 0); [done|]. by intros [= <- <-].
Qed.

(** The inode after a switch to [dest]. *)
Record repointed (si si' : inode_info) (dest : path) (dl : lnode) : Prop := Repointed {
  rp_state : ms si' = MS_SWITCHED;
  rp_tier : current_tier si' = intended_tier si;
  rp_intended : intended_tier si' = intended_tier si;
  rp_lower : lower_path si' = Some dest;
  rp_aliases : aliases si' = replicate (length (aliases si)) (Some (p_dentry dest));
  rp_gen : cutover_gen si' = u32 (cutover_gen si + 1);
  rp_seq : transaction_seq si' = transaction_seq si;
  rp_oid : oid si' = oid si /\ gen si' = gen si /\ i_ino si' = i_ino si;
  rp_size : i_size si' = l_size dl;
  rp_writes : write_seq si' = write_seq si;
  rp_pin : pin si' <> PIN_LEASE;
}.

Lemma rel_path_frame fault sbi si p sbi' si' : replace_rel_path fault sbi si p = (sbi', si') ->
  inodes sbi' = inodes sbi /\ lower sbi' = lower sbi /\ lower_ino_map sbi' = lower_ino_map sbi
  /\ exists q h, si' = si <| rel_path := q |> <| path_hashed := h |>.
Proof.
  unfold replace_rel_path, smoothfs_path_map_del, smoothfs_path_map_add.
  repeat case_goal; cbn; intros [= <- <-]; cbn; split_and!; try done.
  all: eexists _, _; try reflexivity.
Qed.

Lemma rel_path_events fault sbi si p : events (fst (replace_rel_path fault sbi si p)) = events sbi.
Proof. unfold replace_rel_path, smoothfs_path_map_del, smoothfs_path_map_add. repeat case_goal; done. Qed.

Lemma lower_insert_events f sbi t i n : events (snd (smoothfs_lower_ino_map_insert f sbi t i n)) = events sbi.
Proof. unfold smoothfs_lower_ino_map_insert. repeat case_goal; done. Qed.

Lemma lower_remove_rest sbi t i : events (smoothfs_lower_ino_map_remove sbi t i) = events sbi
  /\ lower_ino_map_ready (smoothfs_lower_ino_map_remove sbi t i) = lower_ino_map_ready sbi.
Proof. unfold smoothfs_lower_ino_map_remove. repeat case_goal; done. Qed.

Lemma lower_insert_frame f sbi t i n :
  inodes (snd (smoothfs_lower_ino_map_insert f sbi t i n)) = inodes sbi
  /\ lower (snd (smoothfs_lower_ino_map_insert f sbi t i n)) = lower sbi
  /\ (lower_ino_map (snd (smoothfs_lower_ino_map_insert f sbi t i n)) = lower_ino_map sbi
      \/ lower_ino_map (snd (smoothfs_lower_ino_map_insert f sbi t i n))
          = (smoothfs_lower_key t i, n) :: lower_ino_map sbi).
Proof. unfold smoothfs_lower_ino_map_insert. repeat case_goal; cbn; auto. Qed.

Lemma switch_spec e sbi si o seq src_ino dest dl rel :
  let sbi' := cutover_switch e sbi si o seq src_ino dest dl rel in
  exists si', inodes sbi' = <[i_ino si := si']> (inodes sbi) /\ repointed si si' dest dl
  /\ lower sbi' = lower sbi
  /\ remapped (Some (smoothfs_lower_key (current_tier si) src_ino)) (smoothfs_lower_key (intended_tier si) (l_ino dl))
       (ce_lower_insert e) (i_ino si) sbi sbi'
  /\ woken si sbi sbi'.
Proof.
  cbv zeta. unfold cutover_switch.
  destruct (lower_remove_rest sbi (current_tier si) src_ino) as [V1 Y1].
  destruct (lower_ino_remove_frame sbi (current_tier si) src_ino) as (_ & _ & _ & _ & F1 & _ & F2 & _).
  pose proof (lower_map_moves (ce_lower_insert e) _ sbi _ (intended_tier si) (l_ino dl) (i_ino si)
    (lower_map_unmaps sbi _ (current_tier si) src_ino eq_refl) Y1) as Hmap.
  set (s1 := smoothfs_lower_ino_map_remove _ _ _) in *. clearbody s1.
  unfold smoothfs_swap_lower_path. cbn iota zeta.
  set (si1 := si <| lower_path := Some dest |>).
  destruct (lower_insert_frame (ce_lower_insert e) s1 (intended_tier si1) (l_ino dl) (i_ino si1)) as (G1 & G2 & _).
  pose proof (lower_insert_events (ce_lower_insert e) s1 (intended_tier si1) (l_ino dl) (i_ino si1)) as V2.
  change (remapped (Some (smoothfs_lower_key (current_tier si) src_ino)) (smoothfs_lower_key (intended_tier si) (l_ino dl))
    (ce_lower_insert e) (i_ino si) sbi (snd (smoothfs_lower_ino_map_insert (ce_lower_insert e) s1 (intended_tier si1)
      (l_ino dl) (i_ino si1)))) in Hmap.
  set (s2 := snd _) in *. clearbody s2.
  set (r3 := match rel with Some r => _ | None => _ end).
  assert (events (fst r3) = events s2) as V3 by (subst r3; destruct rel; [apply rel_path_events|done]).
  assert (inodes (fst r3) = inodes s2 /\ lower (fst r3) = lower s2 /\ lower_ino_map (fst r3) = lower_ino_map s2
    /\ exists q h, snd r3 = si1 <| rel_path := q |> <| path_hashed := h |>) as (R1 & R2 & R3 & q & h & R4).
  { subst r3. destruct rel as [r|].
    - destruct (replace_rel_path _ _ _ _) as [s3 si3] eqn:E3. by apply rel_path_frame in E3.
    - cbn. split_and!; try done. exists (rel_path si1), (path_hashed si1). by destruct si. }
  clearbody r3. destruct r3 as [s3 si3]. cbn [fst snd] in *. subst si3.
  set (si4 := smoothfs_set_lower_dentry_all _ _).
  assert (aliases si4 = replicate (length (aliases si)) (Some (p_dentry dest))) as HA
    by exact (set_all_aliases (si1 <| rel_path := q |> <| path_hashed := h |>) (p_dentry dest)).
  set (si5 := si4 <| current_tier := _ |> <| cutover_gen := _ |> <| ms := _ |>).
  set (r6 := if pin_eqb (pin si5) PIN_LEASE then _ else _).
  assert (exists rest, events (fst r6) = events s3 ++ EV_WAKE (i_ino si) :: rest) as [rest V6].
  { subst r6. unfold wake_up_all. case_goal; cbn; [|by exists []]. eexists. by rewrite <- app_assoc. }
  assert (inodes (fst r6) = inodes s3 /\ lower (fst r6) = lower s3 /\ lower_ino_map (fst r6) = lower_ino_map s3
    /\ exists pn, snd r6 = si5 <| pin := pn |> /\ pn <> PIN_LEASE) as (Q1 & Q2 & Q3 & pn & Q4 & Q5).
  { subst r6. unfold pin_eqb. case_bool_decide as Hp; cbn; split_and!; try done; [by exists PIN_NONE|].
    exists (pin si5). by destruct si. }
  clearbody r6. destruct r6 as [s6 si6]. cbn [fst snd] in *. subst si6.
  match goal with |- context [smoothfs_placement_record ?a ?n ?x ?o ?st ?c ?i ?y] =>
    pose proof (record_events a n x o st c i y) as V7 end.
  logged. cbn [fst snd] in V7.
  match goal with |- context [emit_move_state ?a ?b ?c ?d ?f] =>
    destruct (emit_frame a b c d f) as (E1 & E2 & E3 & _);
    assert (exists tl, events (emit_move_state a b c d f) = events b ++ tl) as [tl V8]
      by (unfold emit_move_state; destruct a; [by eexists|exists []; by rewrite app_nil_r]) end.
  eexists. split_and!.
  - rewrite E1. etransitivity; [eassumption|]. cbn. rewrite Q1, R1, G1, F1. reflexivity.
  - constructor; try reflexivity; [exact HA|done|exact Q5].
  - rewrite E2. etransitivity; [eassumption|]. cbn. by rewrite Q2, R2, G2, F2.
  - revert Hmap. unfold remapped. rewrite E3. intros Hmap.
    match goal with H : lower_ino_map _ = lower_ino_map (put_inode _ _) |- _ => rewrite H end.
    cbn. by rewrite Q3, R3.
  - exists (rest ++ tl). rewrite V8, V7. cbn. rewrite V6, V3, V2, V1. by rewrite <- app_assoc.
Qed.

(** Lookup errors are negative errnos. *)
Definition env_ok (e : cut_env) : Prop :=
  (forall t p er, ce_dir_lookup e t p = Err er -> er < 0)
  /\ (forall d n er, ce_child_lookup e d n = Err er -> er < 0).

Lemma resolve_dest_Err e sbi t name rel er : env_ok e ->
  smoothfs_resolve_cutover_dest (ce_alloc e 3%nat) (ce_dir_lookup e) (ce_child_lookup e) sbi t name rel = Err er ->
  er < 0.
Proof.
  intros [Hd Hc]. unfold smoothfs_resolve_cutover_dest. case_goal; [by intros [= <-]|].
  set (root := match tier_at sbi t with Some _ => _ | None => _ end). clearbody root.
  assert (forall (parent : result path) n, (forall e0, parent = Err e0 -> e0 < 0) -> forall er',
    match parent with
    | Err e0 => Err e0
    | Ok parent => if bool_decide (n = EmptyString) then Err (- EINVAL)
        else match ce_child_lookup e parent n with
             | Err e0 => Err e0 | Ok None => Err (- ENOENT)
             | Ok (Some d) => Ok (Path (p_mnt parent) d) end
    end = Err er' -> er' < 0) as Hfin.
  { intros [e0|pa] n Hp er'; [intros [= <-]; by apply Hp|].
    case_bool_decide; [by intros [= <-]|].
    destruct (ce_child_lookup e pa n) as [e0|[d|]] eqn:Ec; [intros [= <-]; by eapply Hc|done|by intros [= <-]]. }
  destruct rel as [r|]; [|by apply (Hfin (Ok root) name)].
  case_bool_decide; [by apply (Hfin (Ok root) name)|]. destruct (ce_alloc e 3); cbn [negb]; [|by intros [= <-]].
  destruct (split_last_slash r) as [[d b]|]; 
    [|pose proof (Hfin (Ok root) r) as Hr; rewrite bool_decide_false in Hr by done; by apply Hr].
  apply Hfin. intros e0. case_bool_decide; [done|]. apply Hd.
Qed.

(** Everything the second half can do to the object. *)
Inductive finished (fault : Z) (sbi : sb_info) (si : inode_info) (expected : option Z) : Z -> sb_info -> Prop :=
| FinLeave err s sbi' :
    err < 0 -> s = MS_COPY_VERIFIED \/ s = MS_FAILED /\ ms si = MS_CUTOVER_IN_PROGRESS ->
    inodes sbi' = <[i_ino si := si <| ms := s |>]> (inodes sbi) ->
    (forall d l', lower sbi' !! d = Some l' -> exists l, lower sbi !! d = Some l /\ l_size l' = l_size l) ->
    woken si sbi sbi' ->
    finished fault sbi si expected err sbi'
| FinIdle err : err < 0 -> ms si <> MS_CUTOVER_IN_PROGRESS -> finished fault sbi si expected err sbi
| FinSwitch sbi' si' src dest sl dl :
    ms si = MS_CUTOVER_IN_PROGRESS ->
    (forall w, expected = Some w -> write_seq si = w) ->
    lower_path si = Some src -> lower sbi !! p_dentry src = Some sl ->
    lower sbi' !! p_dentry dest = Some dl -> l_size sl <= l_size dl ->
    l_oid dl = Some (oid si) -> l_gen dl = Some (le_split 4 (gen si)) ->
    repointed si si' dest dl ->
    inodes sbi' = <[i_ino si := si']> (inodes sbi) ->
    remapped (Some (smoothfs_lower_key (current_tier si) (l_ino sl))) (smoothfs_lower_key (intended_tier si) (l_ino dl))
      fault (i_ino si) sbi sbi' ->
    woken si sbi sbi' ->
    finished fault sbi si expected 0 sbi'.

Lemma finish_leave fault e sbi sbi1 si o s err expected :
  err < 0 -> s = MS_COPY_VERIFIED \/ s = MS_FAILED /\ ms si = MS_CUTOVER_IN_PROGRESS ->
  inodes sbi1 = inodes sbi -> events sbi1 = events sbi ->
  (forall d l', lower sbi1 !! d = Some l' -> exists l, lower sbi !! d = Some l /\ l_size l' = l_size l) ->
  finished fault sbi si expected err (cutover_leave e sbi1 si o s).
Proof.
  intros He Hs Hi Hv Hl. destruct (leave_inodes e sbi1 si o s) as (H1 & H2 & _).
  destruct (leave_wakes e sbi1 si o s) as [rest Hw].
  eapply FinLeave; [done|exact Hs|by rewrite H1, Hi|by rewrite H2|]. exists rest. by rewrite Hw, Hv.
Qed.

Lemma finish_cases e sbi ino si o seq expected err sbi' :
  env_ok e -> inodes sbi !! ino = Some si ->
  cutover_finish e sbi ino o seq expected = (err, sbi') -> finished (ce_lower_insert e) sbi si expected err sbi'.
Proof.
  intros He Hi. unfold cutover_finish. rewrite Hi. unfold ms_eqb.
  destruct (negb (ce_drain e =? 0)).
  { case_bool_decide; intros [= <- <-]; [apply finish_leave; eauto; done|by apply FinIdle]. }
  destruct (bool_decide (ms si = MS_CUTOVER_IN_PROGRESS)) eqn:Em; cbn [negb].
  2: { intros [= <- <-]. apply finish_leave; eauto; done. }
  apply bool_decide_eq_true in Em.
  set (bad := match expected with Some w => _ | None => _ end). destruct bad eqn:Eb; subst bad.
  { intros [= <- <-]. apply finish_leave; eauto; done. }
  set (rel := smoothfs_current_rel_path _ _).
  destruct (smoothfs_resolve_cutover_dest _ _ _ _ _ _ _) as [er|dest] eqn:Ed.
  { intros [= <- <-]. apply resolve_dest_Err in Ed; [|done]. apply finish_leave; eauto. }
  destruct (lower sbi !! p_dentry dest) as [dl|] eqn:Edl; [|intros [= <- <-]; apply finish_leave; eauto; done].
  destruct (p ← lower_path si; lower sbi !! p_dentry p) as [sl|] eqn:Esl;
    [|intros [= <- <-]; apply finish_leave; eauto; done].
  apply bind_Some in Esl as (src & Hsrc & Hsl).
  destruct (Z.ltb_spec (l_size dl) (l_size sl)); [intros [= <- <-]; apply finish_leave; eauto; done|].
  destruct (stamp_identity e si dl) as [er dl'] eqn:Est. pose proof (stamp_spec _ _ _ _ _ Est) as (S1 & S2 & S0 & S3).
  set (sbi1 := sbi <| lower := <[p_dentry dest := dl']> (lower sbi) |>).
  destruct (Z.eqb_spec er 0) as [->|Hne]; cbn [negb].
  - intros [= <- <-]. destruct (S3 eq_refl) as [S4 S5].
    destruct (switch_spec e sbi1 si o seq (l_ino sl) dest dl' rel) as (si' & W1 & W2 & W3 & W4 & W5).
    apply (FinSwitch _ sbi si expected _ si' src dest sl dl'); try assumption.
    + intros w ->. by apply negb_false_iff, Z.eqb_eq in Eb.
    + rewrite W3. apply lookup_insert_eq.
    + lia.
  - intros [= <- <-]. apply finish_leave; [lia|auto|done|done|].
    intros d l'. cbn. intros [[<- <-]|[_ Hl]]%lookup_insert_Some; eauto.
Qed.

(** C3. A cutover that succeeds found the inode behind its closed gate with the
    write sequence its caller expected, and switched to a destination at least
    as long as the source that carries the object's id and generation: state
    SWITCHED, current tier the intended one, every dentry alias and the lower
    path on the destination, the cutover generation bumped, a lease pin dropped,
    and the stalled writers woken. In the lower-inode index, when it is in use,
    exactly the newest entry of the old lower inode is taken out and, unless the
    insertion fails, an entry for the new one put in front; entries that were
    shadowed stay. *)
Theorem cutover_success_switches e sbi ino si o seq expected sbi' :
  env_ok e -> keyed sbi -> inodes sbi !! ino = Some si ->
  cutover_finish e sbi ino o seq expected = (0, sbi') ->
  ms si = MS_CUTOVER_IN_PROGRESS /\ (forall w, expected = Some w -> write_seq si = w)
  /\ exists si' src dest sl dl,
     lower_path si = Some src /\ lower sbi !! p_dentry src = Some sl
     /\ lower sbi' !! p_dentry dest = Some dl /\ l_size sl <= l_size dl
     /\ l_oid dl = Some (oid si) /\ l_gen dl = Some (le_split 4 (gen si))
     /\ inodes sbi' = <[ino := si']> (inodes sbi) /\ repointed si si' dest dl
     /\ remapped (Some (smoothfs_lower_key (current_tier si) (l_ino sl))) (smoothfs_lower_key (intended_tier si) (l_ino dl))
          (ce_lower_insert e) ino sbi sbi'
     /\ woken si sbi sbi'.
Proof.
  intros He Hk Hi Hf. apply (finish_cases _ _ _ si) in Hf; [|done..].
  rewrite <- (Hk _ _ Hi). inversion Hf; subst; [lia|lia|].
  split; [done|]. split; [done|]. by exists si', src, dest, sl, dl.
Qed.

(** C7. A cutover that fails at any point after it closed the gate returns a
    negative error, leaves the object on its source (tier, backing path, aliases
    and every other member as before) and out of the gate state, changes no
    file's size, and wakes the stalled writers if the gate was closed. *)
Theorem cutover_failure_keeps_source e sbi ino si o seq expected err sbi' :
  env_ok e -> keyed sbi -> inodes sbi !! ino = Some si ->
  cutover_finish e sbi ino o seq expected = (err, sbi') -> err <> 0 ->
  err < 0
  /\ (exists s, inodes sbi' = <[ino := si <| ms := s |>]> (inodes sbi) /\ s <> MS_CUTOVER_IN_PROGRESS)
  /\ (forall d l', lower sbi' !! d = Some l' -> exists l, lower sbi !! d = Some l /\ l_size l' = l_size l)
  /\ (ms si = MS_CUTOVER_IN_PROGRESS -> woken si sbi sbi').
Proof.
  intros He Hk Hi Hf Hne. apply (finish_cases _ _ _ si) in Hf; [|done..].
  rewrite <- (Hk _ _ Hi). inversion Hf; subst; [| |done].
  - split; [done|]. split; [|done]. exists s. split; [done|]. by destruct H1 as [->|[-> _]].
  - split; [done|]. split; [|split; [eauto|done]]. exists (ms si). split; [|done].
    rewrite (Hk _ _ Hi), insert_id; [done|]. rewrite Hi. by destruct si.
Qed.

(** ** The protocol over time *)

(** The pool and the inodes whose cutover has dropped the lock.  [resident]
    restricts the commands to objects found in the live OID map.  An inode whose
    cutover is running is not evicted here: the code relies on that, although it
    holds no reference ([evicted_under_a_cutover] at the end of the file). *)
Definition names_resident (resident : bool) (w : mworld) (o : list Z) : Prop :=
  resident = true -> is_Some (smoothfs_lookup_oid (mw_sb w) o).

(** The steps of a run, with the arguments of the commands. *)
Inductive mv_label :=
| L_plan (o : list Z) (t seq : Z)
| L_begin (o : list Z) (seq : Z)
| L_finish (ino : Z)
| L_complete (o : list Z) (seq : Z)
| L_rollback (o : list Z) (seq : Z)
| L_abort (o : list Z) (seq : Z)
| L_revoke (o : list Z)
| L_write (ino : Z)
| L_evict (ino : Z).

(** [mv_act resident l a x y]: step [l], answered with [a]. *)
Inductive mv_act (resident : bool) : mv_label -> Z -> mworld * list Z -> mworld * list Z -> Prop :=
| MV_plan w fl alloc emit now o t seq force a w' : names_resident resident w o ->
    smoothfs_movement_plan alloc emit now w o t seq force = (a, w') ->
    mv_act resident (L_plan o t seq) a (w, fl) (w', fl)
| MV_begin w fl e o seq ino w' : names_resident resident w o ->
    cutover_begin e w o seq = (Ok ino, w') -> mv_act resident (L_begin o seq) 0 (w, fl) (w', ino :: fl)
| MV_refused w fl e o seq er w' : names_resident resident w o ->
    cutover_begin e w o seq = (Err er, w') -> mv_act resident (L_begin o seq) er (w, fl) (w', fl)
| MV_finish rec sbi l1 ino l2 e o seq expected a sbi' : env_ok e ->
    cutover_finish e sbi ino o seq expected = (a, sbi') ->
    mv_act resident (L_finish ino) a (MWorld rec sbi, l1 ++ ino :: l2) (MWorld rec sbi', l1 ++ l2)
| MV_complete w fl alloc emit now o seq a w' : names_resident resident w o ->
    smoothfs_movement_complete alloc emit now w o seq = (a, w') ->
    mv_act resident (L_complete o seq) a (w, fl) (w', fl)
| MV_rollback w fl alloc emit now o seq a w' : names_resident resident w o ->
    smoothfs_movement_rollback alloc emit now w o seq = (a, w') ->
    mv_act resident (L_rollback o seq) a (w, fl) (w', fl)
| MV_abort w fl alloc emit now o seq a w' : names_resident resident w o ->
    smoothfs_movement_abort alloc emit now w o seq = (a, w') ->
    mv_act resident (L_abort o seq) a (w, fl) (w', fl)
| MV_revoke w fl o a w' : names_resident resident w o ->
    smoothfs_revoke_mappings w o = (a, w') -> mv_act resident (L_revoke o) a (w, fl) (w', fl)
| MV_write rec sbi fl ino si : inodes sbi !! ino = Some si -> ms si <> MS_CUTOVER_IN_PROGRESS ->
    mv_act resident (L_write ino) 0 (MWorld rec sbi, fl) (MWorld rec (put_inode sbi (smoothfs_note_data_change si)), fl)
| MV_evict rec sbi fl ino si : inodes sbi !! ino = Some si -> ino ∉ fl ->
    mv_act resident (L_evict ino) 0 (MWorld rec sbi, fl) (MWorld rec (smoothfs_evict_inode sbi si), fl).

Definition mv_step (resident : bool) (x y : mworld * list Z) : Prop := exists l a, mv_act resident l a x y.

Definition sound (w : mworld) : Prop := recovery_wf (mw_rec w) /\ keyed (mw_sb w).

(** What the object lookup does to the cache. *)
Lemma resolve_spec w o r w' : sound w -> smoothfs_lookup_oid_resolve w o = (r, w') ->
  sound w'
  /\ (forall ino si, inodes (mw_sb w') !! ino = Some si -> ms si = MS_CUTOVER_IN_PROGRESS ->
        inodes (mw_sb w) !! ino = Some si)
  /\ (is_Some (smoothfs_lookup_oid (mw_sb w) o) -> w' = w).
Proof.
  intros [Hwf Hk]. unfold smoothfs_lookup_oid_resolve.
  destruct (smoothfs_lookup_oid (mw_sb w) o) as [i|] eqn:El; [intros [= <- <-]; split_and!; auto; by split|].
  destruct (recovery_resolve_oid _ _ _) as [r' [rec sbi]] eqn:Er. intros [= <- <-]. cbn.
  pose proof (recovery_inodes _ _ _ _ _ _ Hwf Hk Er) as Hr. split_and!.
  - split; [by eapply recovery_wf_keeps|]. intros ino si Hi. by apply Hr in Hi as [? _].
  - intros ino si Hi. apply Hr in Hi as [_ ?]. done.
  - by intros [? ?].
Qed.

Lemma on_object_cases {A} (absent : A) w o k a w' : sound w ->
  on_object absent w o k = (a, w') ->
  exists r w1, smoothfs_lookup_oid_resolve w o = (r, w1)
  /\ (a = absent /\ w' = w1
      \/ exists ino si sbi', r = Some ino /\ inodes (mw_sb w1) !! ino = Some si /\ i_ino si = ino
         /\ k (mw_sb w1) si = (a, sbi') /\ w' = MWorld (mw_rec w1) sbi').
Proof.
  intros Hk. unfold on_object. destruct (smoothfs_lookup_oid_resolve w o) as [r w1] eqn:E.
  intros Hx. exists r, w1. split; [done|]. destruct (resolve_spec _ _ _ _ Hk E) as ([_ Hk1] & _).
  destruct r as [i|]; cbn in Hx; [|injection Hx as <- <-; auto].
  destruct (inodes (mw_sb w1) !! i) as [si|] eqn:Ei; [|injection Hx as <- <-; auto].
  destruct (k (mw_sb w1) si) as [a0 sbi0] eqn:Ek. injection Hx as <- <-.
  right. exists i, si, sbi0. split_and!; try done. by apply Hk1.
Qed.

(** Closed gates belong to cutovers that are still running. *)
Definition gate_inv (x : mworld * list Z) : Prop :=
  sound (fst x)
  /\ forall ino si, inodes (mw_sb (fst x)) !! ino = Some si -> ms si = MS_CUTOVER_IN_PROGRESS -> ino ∈ snd x.

Lemma gate_put rec sbi sbi' fl fl' ino si' :
  gate_inv (MWorld rec sbi, fl) -> i_ino si' = ino ->
  inodes sbi' = <[ino := si']> (inodes sbi) ->
  (ms si' = MS_CUTOVER_IN_PROGRESS -> ino ∈ fl') -> (forall i, i ∈ fl -> i <> ino -> i ∈ fl') ->
  gate_inv (MWorld rec sbi', fl').
Proof.
  intros [[Hw Hk] Hg] Hn Hi Hm Hfl. cbn in *. split; cbn.
  - split; [exact Hw|]. intros j sj. cbn. rewrite Hi. intros [[<- <-]|[_ Hj]]%lookup_insert_Some; [done|by apply Hk].
  - intros j sj. rewrite Hi. intros [[<- <-]|[Hne Hj]]%lookup_insert_Some Hms; [auto|]. eauto.
Qed.

Lemma gate_resolve w o r w' fl : gate_inv (w, fl) -> smoothfs_lookup_oid_resolve w o = (r, w') ->
  gate_inv (w', fl).
Proof.
  intros [Hk Hg] Hr. destruct (resolve_spec _ _ _ _ Hk Hr) as (Hk' & Hc & _). split; [done|].
  intros ino si Hi Hm. cbn in *. eapply Hg; [|exact Hm]. by apply Hc.
Qed.

(** A command that does not close the gate keeps the invariant. *)
Lemma gate_object {A} (absent : A) w o k fl :
  (forall sbi si a sbi', k sbi si = (a, sbi') ->
     local (fun si' => ms si' = MS_CUTOVER_IN_PROGRESS -> ms si = MS_CUTOVER_IN_PROGRESS) sbi si sbi') ->
  gate_inv (w, fl) -> forall a w', on_object absent w o k = (a, w') -> gate_inv (w', fl).
Proof.
  intros Hloc Hg a w' E.
  apply on_object_cases in E as (r & w1 & Hr & Hc); [|apply Hg].
  pose proof (gate_resolve _ _ _ _ _ Hg Hr) as Hg1.
  destruct Hc as [[-> ->]|(ino & si & sbi' & -> & Hi & Hn & Hk & ->)]; [done|].
  destruct (Hloc _ _ _ _ Hk) as [Hs|(si' & Hn' & Hq & Hs)].
  - destruct w1. destruct Hg1 as [[G0 G1] G2]. split; [split; [exact G0|]|]; cbn in *; unfold keyed; by rewrite Hs.
  - destruct w1 as [rec sbi1]. cbn in *. eapply gate_put; [exact Hg1| |exact Hs| |auto]; [congruence|].
    intros Hm. destruct Hg1 as [_ G2]. rewrite Hn. eapply G2; [exact Hi|auto].
Qed.

Lemma local_weaken (Q Q' : inode_info -> Prop) sbi si sbi' :
  (forall si', Q si' -> Q' si') -> local Q sbi si sbi' -> local Q' sbi si sbi'.
Proof. intros HQ [Hs|(si' & H1 & H2 & H3)]; [by left|]. right. eauto. Qed.

Lemma evict_inodes sbi si : inodes (smoothfs_evict_inode sbi si) = delete (i_ino si) (inodes sbi).
Proof.
  unfold smoothfs_evict_inode.
  destruct (smoothfs_clear_write_reservation sbi si) as [s1 si1] eqn:E1.
  apply clear_reservation_frame in E1 as (_ & _ & _ & _ & F1 & _ & N1 & _).
  assert (inodes (smoothfs_oid_map_remove s1 si1) = inodes s1) as F2
    by (unfold smoothfs_oid_map_remove; repeat case_goal; done).
  destruct (smoothfs_path_map_del _ si1) as [s3 si3] eqn:E3.
  assert (inodes s3 = inodes s1 /\ i_ino si3 = i_ino si1) as [F3 N3].
  { revert E3. unfold smoothfs_path_map_del. repeat case_goal; intros [= <- <-]; by rewrite <- F2. }
  cbn. rewrite N3, N1. f_equal. rewrite <- F1, <- F3.
  destruct (lower_path si3); [|done]. case_goal; [|done]. case_goal; [|done].
  apply lower_ino_remove_frame.
Qed.

Lemma gate_begin w fl e o seq ino w' :
  gate_inv (w, fl) -> cutover_begin e w o seq = (Ok ino, w') -> gate_inv (w', ino :: fl).
Proof.
  intros Hg E. unfold cutover_begin in E. case_hyp E; [done|].
  apply on_object_cases in E as (r & w1 & Hr & Hc); [|apply Hg].
  pose proof (gate_resolve _ _ _ _ _ Hg Hr) as Hg1.
  destruct Hc as [[? _]|(i & si & sbi' & -> & Hi & Hn & Hk & ->)]; [done|].
  apply begin_local in Hk as [(? & ? & _)|(H1 & _ & _ & _ & _ & Hx & _)]; [done|]. injection H1 as ->.
  destruct w1. eapply gate_put; [exact Hg1| |exact Hx| |]; [done|intros _; left|intros ???; by right].
Qed.

Lemma gate_refused w fl e o seq er w' :
  gate_inv (w, fl) -> cutover_begin e w o seq = (Err er, w') -> gate_inv (w', fl).
Proof.
  intros Hg E. unfold cutover_begin in E. case_hyp E; [by injection E as _ <-|].
  apply on_object_cases in E as (r & w1 & Hr & Hc); [|apply Hg].
  pose proof (gate_resolve _ _ _ _ _ Hg Hr) as Hg1.
  destruct Hc as [[? ->]|(i & si & sbi' & -> & Hi & Hn & Hk & ->)]; [done|].
  apply begin_local in Hk as [(? & ? & ->)|(? & _)]; [|done]. by destruct w1.
Qed.

Lemma in_flight_remove (l1 l2 : list Z) ino j : j ∈ l1 ++ ino :: l2 -> j <> ino -> j ∈ l1 ++ l2.
Proof.
  intros [?|[->|?]%elem_of_cons]%elem_of_app Hne; [apply elem_of_app; auto|done|apply elem_of_app; auto].
Qed.

Lemma finish_absent e sbi ino o seq ex : inodes sbi !! ino = None ->
  snd (cutover_finish e sbi ino o seq ex) = sbi.
Proof. intros Hi. unfold cutover_finish. by rewrite Hi. Qed.

Lemma gate_finish rec sbi l1 ino l2 e o seq ex :
  gate_inv (MWorld rec sbi, l1 ++ ino :: l2) -> env_ok e ->
  forall a sbi', cutover_finish e sbi ino o seq ex = (a, sbi') -> gate_inv (MWorld rec sbi', l1 ++ l2).
Proof.
  intros Hg He err sbi' Ef. pose proof Hg as [[Hwf Hkd] Hgt]. cbn in Hwf, Hkd, Hgt. pose proof (in_flight_remove l1 l2 ino) as Hrm.
  destruct (inodes sbi !! ino) as [si|] eqn:Hi.
  2: { pose proof (finish_absent e sbi ino o seq ex Hi) as Hs. rewrite Ef in Hs. cbn in Hs. subst sbi'.
       split; [done|]. cbn. intros j sj Hj Hm. apply Hrm; [by eapply Hgt|congruence]. }
  pose proof (Hkd _ _ Hi) as Hn. apply (finish_cases _ _ _ si) in Ef; [|done..].
  inversion Ef as [? st ? H1 H2 H3|? H1 H2|? si' ???? H1 ? H2 ???? ? Hrp H3 ? ?]; subst.
  - eapply gate_put; [exact Hg| |exact H3| |exact Hrm]; [done|]. by destruct H2 as [->|[-> _]].
  - split; [done|]. cbn. intros j sj Hj Hm. apply Hrm; [by eapply Hgt|]. intros ->. congruence.
  - destruct Hrp as [R1 _ _ _ _ _ _ (_ & _ & R2) _ _ _].
    eapply gate_put; [exact Hg| |exact H3| |exact Hrm]; [done|]. by rewrite R1.
Qed.

Lemma gate_step resident x y : gate_inv x -> mv_step resident x y -> gate_inv y.
Proof.
  intros Hg (l & an & Hs). destruct Hs as [w fl alloc emit now o t seq force an w' _ E|w fl e o seq ino w' _ E
    |w fl e o seq er w' _ E|rec sbi l1 ino l2 e o seq ex an sbi' He E|w fl alloc emit now o seq an w' _ E
    |w fl alloc emit now o seq an w' _ E|w fl alloc emit now o seq an w' _ E|w fl o an w' _ E|rec sbi fl ino si Hi Hm
    |rec sbi fl ino si Hi Hf].
  - unfold smoothfs_movement_plan in E. repeat (case_hyp E; [by injection E as _ <-|]).
    eapply gate_object; [|exact Hg|exact E].
    intros sbi si a sbi' Hk%plan_local. eapply local_weaken; [|exact Hk]. by intros ? (_ & _ & ->).
  - by eapply gate_begin.
  - by eapply gate_refused.
  - by eapply gate_finish.
  - eapply gate_object; [|exact Hg|exact E]. intros sbi si a sbi' Hk%complete_local.
    eapply local_weaken; [|exact Hk]. by intros ? (_ & _ & _ & ->).
  - eapply gate_object; [|exact Hg|exact E]. intros sbi si a sbi' Hk%rollback_local.
    eapply local_weaken; [|exact Hk]. by intros ? (_ & _ & _ & ->).
  - eapply gate_object; [|exact Hg|exact E]. intros sbi si a sbi' Hk%abort_local.
    eapply local_weaken; [|exact Hk]. by intros ? (_ & _ & _ & ->).
  - eapply gate_object; [|exact Hg|exact E]. intros sbi si a sbi' [= <- <-]. right.
    exists (si <| mappings_quiesced := true |>). done.
  - eapply gate_put; [exact Hg| |reflexivity| |auto]; done.
  - destruct Hg as [[Hwf Hkd] Hgt]. cbn in Hwf, Hkd, Hgt. pose proof (evict_inodes sbi si) as Hd.
    split; [split; [exact Hwf|]|]; cbn; intros j sj; cbn; rewrite Hd; intros [_ Hj]%lookup_delete_Some; eauto.
Qed.

(** C8. In every state reachable by movement commands, recovery of objects by id
    included, an inode that stalls its writers (CUTOVER_IN_PROGRESS) belongs to
    a cutover that has not finished; with no cutover running, no writer waits. *)
Theorem closed_gate_has_a_running_cutover resident x y :
  gate_inv x -> rtc (mv_step resident) x y ->
  forall ino si, inodes (mw_sb (fst y)) !! ino = Some si ->
    ms si = MS_CUTOVER_IN_PROGRESS -> ino ∈ snd y.
Proof. intros Hx Hr. apply (rtc_invariant _ gate_inv x y (gate_step resident) Hx Hr). Qed.

(** ** Refinement of the movement protocol *)













(** The running cutovers are exactly the inodes with a closed gate. *)
Definition gate_exact (x : mworld * list Z) : Prop :=
  gate_inv x /\ NoDup (snd x)
  /\ forall ino, ino ∈ snd x -> exists si, inodes (mw_sb (fst x)) !! ino = Some si /\ ms si = MS_CUTOVER_IN_PROGRESS.














(** ** A move, end to end *)

Lemma plan_spec alloc emit now w o t seq force ino si :
  keyed (mw_sb w) -> smoothfs_lookup_oid (mw_sb w) o = Some ino -> inodes (mw_sb w) !! ino = Some si ->
  let '(err, w') := smoothfs_movement_plan alloc emit now w o t seq force in
  (err = 0 <-> quiesced (mw_sb w) = false /\ t < ntiers (mw_sb w)
     /\ (cache_mode (mw_sb w) = true -> t = ntiers (mw_sb w) - 1)
     /\ ms si = MS_PLACED /\ t <> current_tier si
     /\ (pin si = PIN_NONE \/ force = true /\ pin si = PIN_LEASE)
     /\ nlink_observed si <= 1 /\ writably_mapped (mw_sb w) si = false /\ i_type si = FT_REG)
  /\ inodes (mw_sb w') = if err =? 0
       then <[ino := si <| mappings_quiesced := false |> <| intended_tier := t |>
                        <| ms := MS_PLAN_ACCEPTED |> <| transaction_seq := seq |>]> (inodes (mw_sb w))
       else inodes (mw_sb w).
Proof.
  intros Hk Hl Hi. pose proof (Hk _ _ Hi) as Hn. unfold smoothfs_movement_plan.
  destruct (quiesced (mw_sb w)); [split; [split; [done|by intros [? _]]|done]|].
  destruct (Z.leb_spec (ntiers (mw_sb w)) t); [split; [split; [done|intros (_ & ? & _); lia]|done]|].
  destruct (cache_mode (mw_sb w) && negb (t =? ntiers (mw_sb w) - 1)) eqn:Ec.
  { to_prop. split; [split; [done|]|done]. intros (_ & _ & Hc & _). by apply Hc in H1. }
  unfold on_object, smoothfs_lookup_oid_resolve. rewrite Hl. cbn [mbind option_bind mw_sb]. rewrite Hi.
  unfold plan_locked, ms_eqb, smoothfs_can_move, pin_eqb, S_ISREG.
  case_bool_decide as Hms; cbn [negb]; [|split; [split; [done|by intros (_ & _ & _ & ? & _)]|done]].
  destruct (Z.eqb_spec t (current_tier si)); [split; [split; [done|by intros (_ & _ & _ & _ & ? & _)]|done]|].
  set (pinned := negb _ && negb _).
  assert (pinned = false <-> pin si = PIN_NONE \/ force = true /\ pin si = PIN_LEASE) as Hp.
  { subst pinned. case_bool_decide as P1; [split; auto|].
    destruct force; case_bool_decide as P2; cbn; split; try done; auto; intros [?|[? ?]]; done. }
  destruct pinned; [split; [split; [done|]|done]; intros (_ & _ & _ & _ & _ & Hx & _); by apply Hp in Hx|].
  destruct (Z.ltb_spec 1 (nlink_observed si)); [split; [split; [done|intros; lia]|done]|].
  destruct (writably_mapped _ _); [split; [split; [done|by intros (_&_&_&_&_&_&_&?&_)]|done]|].
  case_bool_decide as Hr; cbn [negb]; [|split; [split; [done|by intros (_&_&_&_&_&_&_&_&?)]|done]].
  logged. cbn [mw_sb Z.eqb]. split.
  - split; [intros _|done]. split_and!; try done; [|by apply Hp].
    intros Hc. rewrite Hc in Ec. by apply negb_false_iff, Z.eqb_eq in Ec.
  - rewrite (proj1 (emit_frame _ _ _ _ _)), <- Hn. etransitivity; [eassumption|reflexivity].
Qed.

(** A plan for a cached object is accepted exactly when the pool is not
    quiesced, the destination is a tier of the pool (the base tier in cache
    mode) other than the current one, the object is PLACED, unpinned (or
    lease-pinned with force), has a single link and no writable mapping, and is
    a regular file; it then enters PLAN_ACCEPTED with the given transaction, and
    otherwise nothing changes. *)
Theorem plan_accepts_exactly alloc emit now w o t seq force ino si :
  keyed (mw_sb w) -> smoothfs_lookup_oid (mw_sb w) o = Some ino -> inodes (mw_sb w) !! ino = Some si ->
  let '(err, w') := smoothfs_movement_plan alloc emit now w o t seq force in
  (err = 0 <-> quiesced (mw_sb w) = false /\ t < ntiers (mw_sb w)
     /\ (cache_mode (mw_sb w) = true -> t = ntiers (mw_sb w) - 1)
     /\ ms si = MS_PLACED /\ t <> current_tier si
     /\ (pin si = PIN_NONE \/ force = true /\ pin si = PIN_LEASE)
     /\ nlink_observed si <= 1 /\ writably_mapped (mw_sb w) si = false /\ i_type si = FT_REG)
  /\ inodes (mw_sb w') = if err =? 0
       then <[ino := si <| mappings_quiesced := false |> <| intended_tier := t |>
                        <| ms := MS_PLAN_ACCEPTED |> <| transaction_seq := seq |>]> (inodes (mw_sb w))
       else inodes (mw_sb w).
Proof. apply plan_spec. Qed.

Definition skeleton (sbi : sb_info) := (oid_map_ready sbi, oid_map sbi, quiesced sbi, ntiers sbi, tiers sbi, lower sbi).

Lemma record_skeleton alloc now sbi o s c i sync :
  skeleton (snd (fst (smoothfs_placement_record alloc now sbi o s c i sync))) = skeleton sbi.
Proof. unfold smoothfs_placement_record. repeat case_goal; done. Qed.

Lemma emit_skeleton ok sbi o s seq : skeleton (emit_move_state ok sbi o s seq) = skeleton sbi.
Proof. by destruct ok. Qed.

Lemma switch_skeleton e sbi si o seq src dest dl rel :
  skeleton (cutover_switch e sbi si o seq src dest dl rel) = skeleton sbi.
Proof.
  unfold cutover_switch, smoothfs_swap_lower_path.
  assert (skeleton (smoothfs_lower_ino_map_remove sbi (current_tier si) src) = skeleton sbi) as H1
    by (unfold smoothfs_lower_ino_map_remove; repeat case_goal; done).
  rewrite <- H1. set (s1 := smoothfs_lower_ino_map_remove _ _ _). clearbody s1. clear H1. cbn iota zeta.
  set (r2 := smoothfs_lower_ino_map_insert _ _ _ _ _).
  assert (skeleton (snd r2) = skeleton s1) as H2
    by (subst r2; unfold smoothfs_lower_ino_map_insert; repeat case_goal; done).
  rewrite <- H2. clearbody r2. clear H2. set (r3 := match rel with Some r => _ | None => _ end).
  assert (skeleton (fst r3) = skeleton (snd r2)) as H3.
  { subst r3. destruct rel; [|done]. unfold replace_rel_path, smoothfs_path_map_del, smoothfs_path_map_add.
    repeat case_goal; done. }
  rewrite <- H3. clearbody r3. clear H3. destruct r3 as [s3 si3]. cbn [fst].
  set (r4 := if pin_eqb _ _ then _ else _).
  assert (skeleton (fst r4) = skeleton s3) as H4 by (subst r4; case_goal; done).
  rewrite <- H4. clearbody r4. destruct r4 as [s4 si4]. cbn [fst].
  set (r5 := smoothfs_placement_record _ _ _ _ _ _ _ _).
  assert (skeleton (snd (fst r5)) = skeleton s4) as H5 by (subst r5; by rewrite record_skeleton).
  clearbody r5. destruct r5 as [[? s5] ?]. rewrite emit_skeleton. exact H5.
Qed.

Lemma plan_skeleton alloc emit now w o t seq force i : smoothfs_lookup_oid (mw_sb w) o = Some i ->
  skeleton (mw_sb (snd (smoothfs_movement_plan alloc emit now w o t seq force))) = skeleton (mw_sb w).
Proof.
  intros Hl. unfold smoothfs_movement_plan. repeat (case_goal; [done|]).
  unfold on_object, smoothfs_lookup_oid_resolve. rewrite Hl. cbn [mbind option_bind].
  destruct (inodes (mw_sb w) !! i) as [si|]; [|done]. unfold plan_locked.
  repeat (case_goal; [done|]).
  match goal with |- context [smoothfs_placement_record ?a ?n ?x ?o ?st ?c ?i ?y] =>
    pose proof (record_skeleton a n x o st c i y) as Hr;
    destruct (smoothfs_placement_record a n x o st c i y) as [[? ?] ?] end.
  cbn [snd fst mw_sb] in *. rewrite emit_skeleton, Hr. done.
Qed.

Lemma skeleton_eq a b : skeleton a = skeleton b ->
  (forall o, smoothfs_lookup_oid a o = smoothfs_lookup_oid b o) /\ quiesced a = quiesced b
  /\ ntiers a = ntiers b /\ tiers a = tiers b /\ lower a = lower b.
Proof. unfold skeleton, smoothfs_lookup_oid. intros [= -> -> -> -> -> ->]. done. Qed.

Lemma begin_ok e w o seq ino si :
  keyed (mw_sb w) -> smoothfs_lookup_oid (mw_sb w) o = Some ino -> inodes (mw_sb w) !! ino = Some si ->
  quiesced (mw_sb w) = false -> intended_tier si < ntiers (mw_sb w) -> pre_cutover (ms si) = true ->
  transaction_seq si = seq -> writably_mapped (mw_sb w) si = false ->
  exists w', cutover_begin e w o seq = (Ok ino, w')
  /\ inodes (mw_sb w') = <[ino := si <| ms := MS_CUTOVER_IN_PROGRESS |>]> (inodes (mw_sb w))
  /\ skeleton (mw_sb w') = skeleton (mw_sb w).
Proof.
  intros Hk Hl Hi Hq Ht Hp Hs Hw. unfold cutover_begin. rewrite Hq.
  unfold on_object, smoothfs_lookup_oid_resolve. rewrite Hl. cbn [mbind option_bind]. rewrite Hi.
  unfold begin_locked. destruct (Z.leb_spec (ntiers (mw_sb w)) (intended_tier si)); [lia|].
  rewrite Hp, Hs, Z.eqb_refl, Hw. cbn [negb].
  match goal with |- context [smoothfs_placement_record ?a ?n ?x ?o ?st ?c ?i ?y] =>
    pose proof (record_skeleton a n x o st c i y) as Hr end.
  logged. cbn [snd fst] in Hr. pose proof (Hk _ _ Hi) as Hn.
  eexists. split; [rewrite <- Hn; reflexivity|]. cbn [mw_sb]. split; [|by rewrite Hr].
  rewrite <- Hn. etransitivity; [eassumption|reflexivity].
Qed.

Lemma finish_ok e sbi ino si o seq expected src sl dest dl dl' :
  keyed sbi -> inodes sbi !! ino = Some si -> ms si = MS_CUTOVER_IN_PROGRESS -> ce_drain e = 0 ->
  match expected with Some x => write_seq si = x | None => True end ->
  smoothfs_resolve_cutover_dest (ce_alloc e 3%nat) (ce_dir_lookup e) (ce_child_lookup e) sbi
    (intended_tier si) (ce_src_name e) (smoothfs_current_rel_path (ce_alias_path e) si) = Ok dest ->
  lower_path si = Some src -> lower sbi !! p_dentry src = Some sl -> lower sbi !! p_dentry dest = Some dl ->
  l_size sl <= l_size dl -> stamp_identity e si dl = (0, dl') ->
  exists sbi' si', cutover_finish e sbi ino o seq expected = (0, sbi')
  /\ inodes sbi' = <[ino := si']> (inodes sbi) /\ repointed si si' dest dl'
  /\ skeleton sbi' = skeleton (sbi <| lower := <[p_dentry dest := dl']> (lower sbi) |>).
Proof.
  intros Hk Hi Hm Hd He Hr Hsrc Hsl Hdl Hsz Hst. unfold cutover_finish. rewrite Hi, Hd, Hm.
  cbn [negb Z.eqb]. unfold ms_eqb. rewrite bool_decide_true by done. cbn [negb].
  assert (match expected with Some w => negb (write_seq si =? w) | None => false end = false) as ->.
  { destruct expected; [|done]. by apply negb_false_iff, Z.eqb_eq. }
  rewrite Hr, Hdl, Hsrc. cbn [mbind option_bind]. rewrite Hsl.
  destruct (Z.ltb_spec (l_size dl) (l_size sl)); [lia|]. rewrite Hst. cbn [negb Z.eqb].
  set (sbi1 := sbi <| lower := _ |>). set (rel := smoothfs_current_rel_path _ _).
  destruct (switch_spec e sbi1 si o seq (l_ino sl) dest dl' rel) as (si' & W1 & W2 & _).
  eexists _, si'. split; [reflexivity|]. rewrite W1, (Hk _ _ Hi), switch_skeleton. done.
Qed.

Lemma complete_ok alloc emit now w o seq ino si :
  smoothfs_lookup_oid (mw_sb w) o = Some ino -> inodes (mw_sb w) !! ino = Some si -> i_ino si = ino ->
  ms si = MS_SWITCHED -> transaction_seq si = seq ->
  exists w', smoothfs_movement_complete alloc emit now w o seq = (0, w')
  /\ inodes (mw_sb w') !! ino = Some (si <| ms := MS_PLACED |> <| intended_tier := current_tier si |>).
Proof.
  intros Hl Hi Hn Hm Hs. unfold smoothfs_movement_complete, on_object, smoothfs_lookup_oid_resolve.
  rewrite Hl. cbn [mbind option_bind]. rewrite Hi. unfold complete_locked, ms_eqb.
  rewrite Hs, Hm, Z.eqb_refl. cbn [negb]. rewrite bool_decide_false, bool_decide_true by done. cbn [negb].
  destruct (settle _ _ _ _ _ _ _) as [a sbi3] eqn:Es. apply settle_local in Es as [-> Hin3].
  eexists. split; [reflexivity|]. cbn [mw_sb]. rewrite Hin3, Hn. apply lookup_insert_eq.
Qed.

(** C9. A plan that was accepted, followed by a cutover whose writers drain and
    whose destination is complete and can be stamped, and by COMPLETE, all
    return 0 and leave the object PLACED on the destination tier with the
    destination as its backing and every alias pointing there. *)
Theorem a_move_runs_to_completion alloc emit now e w w1 o t seq force expected ino si src sl dest dl dl' :
  keyed (mw_sb w) -> smoothfs_lookup_oid (mw_sb w) o = Some ino -> inodes (mw_sb w) !! ino = Some si ->
  smoothfs_movement_plan alloc emit now w o t seq force = (0, w1) ->
  ce_drain e = 0 -> match expected with Some x => write_seq si = x | None => True end ->
  smoothfs_resolve_cutover_dest (ce_alloc e 3%nat) (ce_dir_lookup e) (ce_child_lookup e) (mw_sb w)
    t (ce_src_name e) (smoothfs_current_rel_path (ce_alias_path e) si) = Ok dest ->
  lower_path si = Some src -> lower (mw_sb w) !! p_dentry src = Some sl ->
  lower (mw_sb w) !! p_dentry dest = Some dl -> l_size sl <= l_size dl ->
  stamp_identity e si dl = (0, dl') ->
  exists w2 w3 si', smoothfs_movement_cutover e id w1 o seq expected = (0, w2)
  /\ smoothfs_movement_complete alloc emit now w2 o seq = (0, w3)
  /\ inodes (mw_sb w3) !! ino = Some si' /\ ms si' = MS_PLACED /\ current_tier si' = t
  /\ intended_tier si' = t /\ lower_path si' = Some dest
  /\ aliases si' = replicate (length (aliases si)) (Some (p_dentry dest)) /\ oid si' = oid si.
Proof.
  intros Hk Hl Hi Hplan Hd He Hr Hsrc Hsl Hdl Hsz Hst.
  pose proof (plan_spec alloc emit now w o t seq force ino si Hk Hl Hi) as Hps. rewrite Hplan in Hps.
  destruct Hps as [[Hacc _] Hin1]. cbn [Z.eqb] in Hin1.
  destruct (Hacc eq_refl) as (Hq & Ht & _ & _ & _ & _ & _ & Hmap & _).
  pose proof (plan_skeleton alloc emit now w o t seq force ino Hl) as Hsk. rewrite Hplan in Hsk. cbn [snd] in Hsk.
  apply skeleton_eq in Hsk as (L1 & Q1 & T1 & TT1 & LW1).
  set (si1 := si <| mappings_quiesced := false |> <| intended_tier := t |>
                 <| ms := MS_PLAN_ACCEPTED |> <| transaction_seq := seq |>) in *.
  assert (keyed (mw_sb w1)) as Hk1.
  { intros j sj. rewrite Hin1. intros [[<- <-]|[_ Hj]]%lookup_insert_Some; [apply (Hk _ _ Hi)|by apply Hk]. }
  destruct (begin_ok e w1 o seq ino si1) as (wb & Hb & Hinb & Hskb); try done.
  { by rewrite L1. } { by rewrite Hin1, lookup_insert_eq. } { congruence. } { rewrite T1. done. }
  { unfold writably_mapped. rewrite LW1. exact Hmap. }
  apply skeleton_eq in Hskb as (L2 & Q2 & T2 & TT2 & LW2).
  set (si2 := si1 <| ms := MS_CUTOVER_IN_PROGRESS |>) in *.
  assert (keyed (mw_sb wb)) as Hkb.
  { intros j sj. rewrite Hinb. intros [[<- <-]|[_ Hj]]%lookup_insert_Some; [apply (Hk _ _ Hi)|by apply Hk1]. }
  destruct (finish_ok e (mw_sb wb) ino si2 o seq expected src sl dest dl dl') as (sbi' & si' & Hf & Hin2 & Hrp & Hsk2);
    try done; try (rewrite LW2, LW1; done).
  { by rewrite Hinb, lookup_insert_eq. }
  { rewrite <- Hr. unfold smoothfs_resolve_cutover_dest, tier_at. rewrite T2, T1, TT2, TT1. done. }
  apply skeleton_eq in Hsk2 as (L3 & _). destruct Hrp as [R1 R2 R3 R4 R5 R6 R7 (R8 & _ & R10) _ _ _].
  unfold smoothfs_movement_cutover. rewrite Hb. unfold id. rewrite Hf.
  destruct (complete_ok alloc emit now (MWorld (mw_rec wb) sbi') o seq ino si') as (w3 & Hc & Hi3); try done.
  { cbn. rewrite L3. change (smoothfs_lookup_oid (mw_sb wb) o = Some ino). by rewrite L2, L1. }
  { cbn. by rewrite Hin2, lookup_insert_eq. }
  { rewrite R10. apply (Hk _ _ Hi). }
  eexists (MWorld (mw_rec wb) sbi'), w3, _. split; [done|]. split; [exact Hc|]. split; [exact Hi3|].
  cbn. rewrite R2, R4, R5, R8. done.
Qed.
End Movement.

(** ** A small pool *)

(** A pool with nothing to recover. *)
#[export] Instance no_recovery : Recovery unit.
Proof.
  refine (Build_Recovery unit (fun rec sbi o => (None, (rec, sbi))) (fun _ => True) _ _ _).
  - done.
  - by intros ?????? _ _ [= <- <- <-].
  - intros ?????? _ Hk [= <- <- <-] ino si Hi. split; [by apply Hk|done].
Defined.

Definition mv_oid : list Z := replicate 16 3.
Definition mv_inode (s : movement_state) : inode_info :=
  smoothfs_alloc_inode 0 7 <| oid := mv_oid |> <| lower_path := Some (Path 10 100) |> <| ms := s |>
    <| intended_tier := 1 |> <| rel_path := Some "f"%string |> <| aliases := [Some 100; None] |>
    <| i_size := 5 |> <| transaction_seq := 9 |>.
Definition mv_pool (s : movement_state) : sb_info :=
  sb_zero <| ntiers := 2 |> <| tiers := [Tier 0 0 (Path 10 1) 0 0; Tier 1 0 (Path 20 2) 0 0] |>
    <| oid_map_ready := true |> <| oid_map := [(mv_oid, 7)] |> <| path_map_ready := true |>
    <| lower_ino_map_ready := true |> <| lower_ino_map := [(smoothfs_lower_key 0 1000, 7)] |>
    <| inodes := {[7 := mv_inode s]} |> <| inode_list := [7] |>
    <| lower := {[100 := LNode 1000 FT_REG 420 5 1 (Some mv_oid) None false;
                  200 := LNode 2000 FT_REG 420 5 1 None None false]} |>.
Definition mv_env_drain (drain : Z) : cut_env :=
  CutEnv (fun _ => true) true 1 drain no_alias "f"%string (fun _ _ => Err (- ENOENT))
    (fun p n => if (p_mnt p =? 20) && bool_decide (n = "f"%string) then Ok (Some 200) else Ok None) 0 0 0 0 0 0 0.
Definition mv_env : cut_env := mv_env_drain 0.

Lemma mv_env_ok drain : env_ok (mv_env_drain drain).
Proof. split; [by intros ??? [= <-]|]. intros d n er. cbn. by case_goal. Qed.

Lemma mv_pool_keyed s : keyed (mv_pool s).
Proof. intros ino si H. cbn in H. by apply lookup_singleton_Some in H as [<- <-]. Qed.

Lemma mv_pool_exact : gate_exact (MWorld tt (mv_pool MS_CUTOVER_IN_PROGRESS), [7]).
Proof.
  split_and!; [split; [split; [exact I|apply mv_pool_keyed]|]|apply NoDup_singleton|].
  - intros ino si H _. cbn in H. apply lookup_singleton_Some in H as [<- _]. left.
  - intros ino ->%list_elem_of_singleton. eexists. split; [apply lookup_singleton_eq|done].
Qed.

Lemma cutover_success_switches_witness :
  exists sbi', cutover_finish mv_env (mv_pool MS_CUTOVER_IN_PROGRESS) 7 mv_oid 9 (Some 0) = (0, sbi')
  /\ exists dl si', lower sbi' !! 200 = Some dl /\ l_oid dl = Some mv_oid
     /\ inodes sbi' !! 7 = Some si' /\ current_tier si' = 1.
Proof.
  destruct (cutover_finish mv_env (mv_pool MS_CUTOVER_IN_PROGRESS) 7 mv_oid 9 (Some 0)) as [err sbi'] eqn:E.
  assert (err = 0) as ->
    by (change (fst (err, sbi') = 0); rewrite <- E; vm_compute; reflexivity).
  exists sbi'. split; [reflexivity|].
  destruct (cutover_success_switches mv_env (mv_pool MS_CUTOVER_IN_PROGRESS) 7 (mv_inode MS_CUTOVER_IN_PROGRESS)
              mv_oid 9 (Some 0) sbi' (mv_env_ok 0) (mv_pool_keyed _) ltac:(apply lookup_singleton_eq) E)
    as (_ & _ & si' & src & dest & sl & dl & _ & _ & Hd & _ & Ho & _ & Hi & Hr & _).
  assert (dest = Path 20 200) as ->.
  { pose proof (rp_lower _ _ _ _ Hr) as Hl.
    assert (lower_path <$> inodes sbi' !! 7 = Some (Some (Path 20 200))) as Hx.
    { replace sbi' with (snd (0, sbi')) by reflexivity. rewrite <- E. vm_compute. reflexivity. }
    rewrite Hi, lookup_insert_eq in Hx. cbn [fmap option_fmap option_map] in Hx. congruence. }
  exists dl, si'. split; [exact Hd|]. split; [exact Ho|]. rewrite Hi, lookup_insert_eq.
  split; [reflexivity|]. exact (rp_tier _ _ _ _ Hr).
Defined.

Lemma cutover_failure_keeps_source_witness :
  let r := cutover_finish (mv_env_drain (- EBUSY)) (mv_pool MS_CUTOVER_IN_PROGRESS) 7 mv_oid 9 None in
  fst r = - EBUSY /\ exists s, inodes (snd r) = <[7 := mv_inode s]> (inodes (mv_pool MS_CUTOVER_IN_PROGRESS)).
Proof.
  cbv zeta. destruct (cutover_finish _ _ _ _ _ _) as [err sbi'] eqn:E.
  assert (err = - EBUSY) as -> by (change (fst (err, sbi') = - EBUSY); rewrite <- E; vm_compute; reflexivity).
  split; [reflexivity|].
  destruct (cutover_failure_keeps_source _ _ _ (mv_inode MS_CUTOVER_IN_PROGRESS) _ _ _ _ _ (mv_env_ok _)
              (mv_pool_keyed _) ltac:(apply lookup_singleton_eq) E ltac:(discriminate)) as (_ & (s & Hs & _) & _ & _).
  exists s. exact Hs.
Defined.

Lemma mv_pool_gate : gate_inv (MWorld tt (mv_pool MS_CUTOVER_IN_PROGRESS), [7]).
Proof. apply mv_pool_exact. Qed.

Lemma closed_gate_has_a_running_cutover_witness :
  exists si, inodes (snd (cutover_finish mv_env (mv_pool MS_CUTOVER_IN_PROGRESS) 7 mv_oid 9 None)) !! 7 = Some si
    /\ ms si <> MS_CUTOVER_IN_PROGRESS.
Proof.
  destruct (inodes (snd (cutover_finish mv_env (mv_pool MS_CUTOVER_IN_PROGRESS) 7 mv_oid 9 None)) !! 7)
    as [si|] eqn:Hi; [|vm_compute in Hi; discriminate].
  exists si. split; [reflexivity|]. intros Hm. apply (not_elem_of_nil (A := Z) 7).
  refine (closed_gate_has_a_running_cutover false _ (MWorld tt _, []) mv_pool_gate _ 7 si Hi Hm).
  apply rtc_once. eexists _, _.
  exact (MV_finish false tt (mv_pool MS_CUTOVER_IN_PROGRESS) [] 7 [] mv_env mv_oid 9 None _ _ (mv_env_ok 0) (surjective_pairing _)).
Defined.


Lemma plan_accepts_exactly_witness :
  fst (smoothfs_movement_plan true true 1 (MWorld tt (mv_pool MS_PLACED)) mv_oid 1 9 false) = 0
  /\ fst (smoothfs_movement_plan true true 1 (MWorld tt (mv_pool MS_SWITCHED)) mv_oid 1 9 false) <> 0.
Proof.
  split.
  - pose proof (plan_accepts_exactly true true 1 (MWorld tt (mv_pool MS_PLACED)) mv_oid 1 9 false 7 (mv_inode MS_PLACED)
      (mv_pool_keyed _) eq_refl ltac:(apply lookup_singleton_eq)) as Hp.
    destruct (smoothfs_movement_plan _ _ _ _ _ _ _ _) as [err w']. apply Hp. clear Hp.
    split_and!; try reflexivity; try discriminate. left. reflexivity.
  - pose proof (plan_accepts_exactly true true 1 (MWorld tt (mv_pool MS_SWITCHED)) mv_oid 1 9 false 7 (mv_inode MS_SWITCHED)
      (mv_pool_keyed _) eq_refl ltac:(apply lookup_singleton_eq)) as Hp.
    destruct (smoothfs_movement_plan _ _ _ _ _ _ _ _) as [err w']. intros He. cbn [fst] in He.
    apply Hp in He as (_ & _ & _ & Hms & _). discriminate Hms.
Defined.

Lemma a_move_runs_to_completion_witness :
  let w1 := snd (smoothfs_movement_plan true true 1 (MWorld tt (mv_pool MS_PLACED)) mv_oid 1 9 false) in
  exists w2 w3 si', smoothfs_movement_cutover mv_env id w1 mv_oid 9 None = (0, w2)
  /\ smoothfs_movement_complete true true 1 w2 mv_oid 9 = (0, w3)
  /\ inodes (mw_sb w3) !! 7 = Some si' /\ current_tier si' = 1 /\ ms si' = MS_PLACED.
Proof.
  cbv zeta. destruct (a_move_runs_to_completion true true 1 mv_env (MWorld tt (mv_pool MS_PLACED))
    (snd (smoothfs_movement_plan true true 1 (MWorld tt (mv_pool MS_PLACED)) mv_oid 1 9 false))
    mv_oid 1 9 false None 7 (mv_inode MS_PLACED) (Path 10 100) (LNode 1000 FT_REG 420 5 1 (Some mv_oid) None false)
    (Path 20 200) (LNode 2000 FT_REG 420 5 1 None None false)
    (LNode 2000 FT_REG 420 5 1 (Some mv_oid) (Some [0; 0; 0; 0]) false)) as (w2 & w3 & si' & H1 & H2 & H3 & H4 & H5 & _).
  1: apply mv_pool_keyed.
  1: reflexivity.
  1: apply lookup_singleton_eq.
  1: vm_compute; reflexivity.
  1: reflexivity.
  1: exact I.
  1-4: vm_compute; reflexivity.
  1: vm_compute; discriminate.
  1: vm_compute; reflexivity.
  exists w2, w3, si'. split_and!; assumption.
Defined.

(** A command finds its inode in the OID map and takes no reference to it, so an
    inode that nobody has open can be evicted while the cutover waits with the
    lock dropped.  Nothing the first part of the cutover did keeps it: it is
    still unpinned, eviction removes it, and the second part, which in the code goes
    on with its pointer, finds no inode. *)
Example evicted_under_a_cutover :
  let w := MWorld tt (mv_pool MS_PLAN_ACCEPTED) in
  exists w' si, cutover_begin mv_env w mv_oid 9 = (Ok 7, w') /\ inodes (mw_sb w') !! 7 = Some si
  /\ replay_pinned si = replay_pinned (mv_inode MS_PLAN_ACCEPTED) /\ replay_pinned si = false
  /\ let sbi := smoothfs_evict_inode (mw_sb w') si in
     inodes sbi !! 7 = None /\ smoothfs_lookup_oid sbi mv_oid = None
     /\ cutover_finish mv_env sbi 7 mv_oid 9 None = (- ENOENT, sbi).
Proof.
  cbv zeta. destruct (cutover_begin mv_env _ mv_oid 9) as [r w'] eqn:E.
  assert (r = Ok 7) as -> by (apply (f_equal fst) in E; by vm_compute in E).
  destruct (inodes (mw_sb w') !! 7) as [si|] eqn:Hi;
    [|apply (f_equal snd) in E; cbn [snd] in E; rewrite <- E in Hi; by vm_compute in Hi].
  exists w', si. split; [done|]. split; [done|].
  apply (f_equal snd) in E. cbn [snd] in E. rewrite <- E in Hi |- *. vm_compute in Hi. injection Hi as <-. by vm_compute.
Qed.
