(* ===== verification/Gate.v ===== *)
(** * The writers' gate: src/src/smoothfs/movement.c, file.c and smoothfs.h

    How a cutover keeps writers out while it switches the lower file.  A writer
    enters a read-side section of [cutover_srcu], looks at the movement state,
    and either goes on or leaves the section and waits; a cutover closes the
    gate, waits for the writers that are inside with
    [smoothfs_cutover_drain_writers], and switches or gives up.  The sections
    are pool-wide: a drain also waits for writers of other inodes.

    [Movement] takes the result of the drain as an input.  Here threads
    interleave: each event is one atomic step of one thread, and the drain
    object, which the waiting cutover and the SRCU callback share, is a cell of
    a heap with its reference count. *)
From S2P Require Import Prelude Types.

(** Where a writer is: in the section before its check, in the section after it,
    or waiting outside for the gate to open. *)
Inductive wpc := W_entered | W_inside | W_stalled.
(** Where a cutover is after it closed the gate. *)
Inductive cpc := C_closed | C_waiting (d : Z) | C_sync (rs : gset Z) | C_drained.
#[export] Instance wpc_eq_dec : EqDecision wpc.
Proof. solve_decision. Defined.

(** [struct smoothfs_cutover_drain]; its [rcu_head] is an entry of [g_cbs]. *)
Record drain := Drain { dr_ref : Z; dr_done : bool }.

Record gstate := GState {
  g_gate : gset Z;                 (** inodes in CUTOVER_IN_PROGRESS *)
  g_writers : gmap Z (Z * wpc);    (** thread: its inode and place *)
  g_cuts : gmap Z (Z * cpc);       (** running cutovers *)
  g_objs : gmap Z drain;           (** allocated drain objects *)
  g_cbs : gmap Z (gset Z);         (** callbacks not yet run: the sections they wait for *)
  g_next : Z;                      (** the next address *)
  g_bad : bool;                    (** a freed object was used *)
}.
#[export] Instance gstate_eta : Eta gstate := fun r =>
  GState (g_gate r) (g_writers r) (g_cuts r) (g_objs r) (g_cbs r) (g_next r) (g_bad r).

Definition is_reader (x : Z * (Z * wpc)) : Prop := snd (snd x) <> W_stalled.
(** The threads in a read-side section. *)
Definition readers (s : gstate) : gset Z := dom (filter is_reader (g_writers s)).

(** [srcu_read_unlock] by thread [t]: nobody waits for it any more. *)
Definition drop_reader (t : Z) (c : cpc) : cpc := match c with C_sync rs => C_sync (rs ∖ {[t]}) | _ => c end.
Definition srcu_read_unlock (t : Z) (s : gstate) : gstate :=
  s <| g_cbs := (fun rs => rs ∖ {[t]}) <$> g_cbs s |>
    <| g_cuts := (fun x => (fst x, drop_reader t (snd x))) <$> g_cuts s |>.

(** [kref_put]: the last reference frees. *)
Definition kref_put (d : Z) (s : gstate) : gstate :=
  match g_objs s !! d with
  | None => s <| g_bad := true |>
  | Some o => if dr_ref o =? 1 then s <| g_objs := delete d (g_objs s) |>
              else s <| g_objs := <[d := Drain (dr_ref o - 1) (dr_done o)]> (g_objs s) |>
  end.

(** The gate of [ino] opens and cutover [c] is over. *)
Definition open_gate (c ino : Z) (s : gstate) : gstate :=
  s <| g_gate := g_gate s ∖ {[ino]} |> <| g_cuts := delete c (g_cuts s) |>.

Inductive event :=
| E_enter (t ino : Z) | E_check (t : Z) | E_retry (t : Z) | E_interrupt (t : Z) | E_exit (t : Z)
| E_close (c ino : Z) | E_drain (c : Z) (alloc : bool) | E_callback (d : Z) | E_wake (c : Z) | E_timeout (c : Z)
| E_synced (c : Z) | E_switch (c : Z).

(** A writer: [smoothfs_write_iter] and [smoothfs_begin_data_change]. *)
Definition writer_step (ev : event) (s : gstate) : option gstate :=
  match ev with
  | E_enter t ino =>
      match g_writers s !! t with
      | None => Some (s <| g_writers := <[t := (ino, W_entered)]> (g_writers s) |>)
      | Some _ => None
      end
  | E_check t =>
      match g_writers s !! t with
      | Some (ino, W_entered) =>
          if bool_decide (ino ∈ g_gate s)
          then Some (srcu_read_unlock t (s <| g_writers := <[t := (ino, W_stalled)]> (g_writers s) |>))
          else Some (s <| g_writers := <[t := (ino, W_inside)]> (g_writers s) |>)
      | _ => None
      end
  | E_retry t =>
      match g_writers s !! t with
      | Some (ino, W_stalled) =>
          if bool_decide (ino ∈ g_gate s) then None
          else Some (s <| g_writers := <[t := (ino, W_entered)]> (g_writers s) |>)
      | _ => None
      end
  | E_interrupt t =>
      match g_writers s !! t with
      | Some (_, W_stalled) => Some (s <| g_writers := delete t (g_writers s) |>)
      | _ => None
      end
  | E_exit t =>
      match g_writers s !! t with
      | Some (_, W_inside) => Some (srcu_read_unlock t (s <| g_writers := delete t (g_writers s) |>))
      | _ => None
      end
  | _ => None
  end.

(** [smoothfs_cutover_drain_writers]: with memory an object with two references
    and a callback, without it [synchronize_srcu]. *)
Definition drain_begin (c ino : Z) (alloc : bool) (s : gstate) : gstate :=
  if alloc
  then let d := g_next s in
       s <| g_objs := <[d := Drain 2 false]> (g_objs s) |> <| g_cbs := <[d := readers s]> (g_cbs s) |>
         <| g_next := d + 1 |> <| g_cuts := <[c := (ino, C_waiting d)]> (g_cuts s) |>
  else s <| g_cuts := <[c := (ino, C_sync (readers s))]> (g_cuts s) |>.

(** [smoothfs_cutover_drain_cb] *)
Definition drain_cb (d : Z) (s : gstate) : gstate :=
  let s := s <| g_cbs := delete d (g_cbs s) |> in
  match g_objs s !! d with
  | None => s <| g_bad := true |>
  | Some o => kref_put d (s <| g_objs := <[d := Drain (dr_ref o) true]> (g_objs s) |>)
  end.

(** The end of the wait: [done] is set, or the time is over and it is not. *)
Definition drain_end (c ino d : Z) (timeout : bool) (s : gstate) : option gstate :=
  match g_objs s !! d with
  | None => Some (s <| g_bad := true |>)
  | Some o =>
      if timeout
      then if dr_done o then None else Some (open_gate c ino (kref_put d s))
      else if dr_done o then Some (kref_put d (s <| g_cuts := <[c := (ino, C_drained)]> (g_cuts s) |>)) else None
  end.

(** The cutover and the callback.  No other command opens the gate of an inode
    in CUTOVER_IN_PROGRESS ([Movement]), so the code's second look at the state
    after the drain finds it unchanged.  The last event is the switch of the lower
    file or any failure after the drain; both open the gate. *)
Definition cutover_step (ev : event) (s : gstate) : option gstate :=
  match ev with
  | E_close c ino =>
      match g_cuts s !! c with
      | None => if bool_decide (ino ∈ g_gate s) then None
                else Some (s <| g_gate := g_gate s ∪ {[ino]} |> <| g_cuts := <[c := (ino, C_closed)]> (g_cuts s) |>)
      | Some _ => None
      end
  | E_drain c alloc => match g_cuts s !! c with Some (ino, C_closed) => Some (drain_begin c ino alloc s) | _ => None end
  | E_callback d => match g_cbs s !! d with
                    | Some rs => if bool_decide (rs = ∅) then Some (drain_cb d s) else None
                    | None => None
                    end
  | E_wake c => match g_cuts s !! c with Some (ino, C_waiting d) => drain_end c ino d false s | _ => None end
  | E_timeout c => match g_cuts s !! c with Some (ino, C_waiting d) => drain_end c ino d true s | _ => None end
  | E_synced c => match g_cuts s !! c with
                  | Some (ino, C_sync rs) => if bool_decide (rs = ∅) then Some (s <| g_cuts := <[c := (ino, C_drained)]> (g_cuts s) |>) else None
                  | _ => None
                  end
  | E_switch c => match g_cuts s !! c with Some (ino, C_drained) => Some (open_gate c ino s) | _ => None end
  | _ => None
  end.

Definition exec (ev : event) (s : gstate) : option gstate :=
  match writer_step ev s with Some s' => Some s' | None => cutover_step ev s end.
Definition gate_step (s s' : gstate) : Prop := exists ev, exec ev s = Some s'.
Definition gate_init : gstate := GState ∅ ∅ ∅ ∅ ∅ 0 false.

(** Run a list of events; [None] when one is not possible. *)
Definition run_events (l : list event) (s : gstate) : option gstate := foldl (fun o ev => o ≫= exec ev) (Some s) l.

(** ** The invariant *)

(** Every writer past its check on [ino] is in [rs]. *)
Definition covers (s : gstate) (ino : Z) (rs : gset Z) : Prop := forall t, g_writers s !! t = Some (ino, W_inside) -> t ∈ rs.

(** What a cutover of [ino] knows at its place. *)
Definition excludes (s : gstate) (ino : Z) (pc : cpc) : Prop :=
  match pc with
  | C_closed => True
  | C_waiting d => covers s ino (default ∅ (g_cbs s !! d))
  | C_sync rs => covers s ino rs
  | C_drained => covers s ino ∅
  end.

Definition waits (s : gstate) (d : Z) : Prop := exists c ino, g_cuts s !! c = Some (ino, C_waiting d).

Record heap_ok (s : gstate) : Prop := HeapOk {
  hp_bad : g_bad s = false;
  hp_cb : forall d rs, g_cbs s !! d = Some rs ->
    g_objs s !! d = Some (Drain 2 false) /\ waits s d \/ g_objs s !! d = Some (Drain 1 false) /\ ~ waits s d;
  hp_wait : forall d, waits s d -> is_Some (g_cbs s !! d) \/ g_cbs s !! d = None /\ g_objs s !! d = Some (Drain 1 true);
  hp_live : forall d o, g_objs s !! d = Some o -> is_Some (g_cbs s !! d) \/ waits s d;
  hp_own : forall c1 c2 i1 i2 d, g_cuts s !! c1 = Some (i1, C_waiting d) -> g_cuts s !! c2 = Some (i2, C_waiting d) -> c1 = c2;
  hp_next : forall d o, g_objs s !! d = Some o -> d < g_next s;
}.

Record gate_ok (s : gstate) : Prop := GateOk {
  go_heap : heap_ok s;
  go_gate : forall c ino pc, g_cuts s !! c = Some (ino, pc) -> ino ∈ g_gate s;
  go_one : forall c1 c2 ino p1 p2, g_cuts s !! c1 = Some (ino, p1) -> g_cuts s !! c2 = Some (ino, p2) -> c1 = c2;
  go_excludes : forall c ino pc, g_cuts s !! c = Some (ino, pc) -> excludes s ino pc;
}.

Lemma gate_init_ok : gate_ok gate_init.
Proof.
  split; [constructor|..]; cbn; try done; try (by intros ? ? ?%lookup_empty_Some); try (by intros ? ? ? ?%lookup_empty_Some);
    try (by intros ? ? ? ? ? ?%lookup_empty_Some). intros d (c & ino & H). cbn in H. by rewrite lookup_empty in H.
Qed.

Lemma excludes_mono s s' ino pc :
  (forall t, g_writers s' !! t = Some (ino, W_inside) -> g_writers s !! t = Some (ino, W_inside)) -> g_cbs s' = g_cbs s ->
  excludes s ino pc -> excludes s' ino pc.
Proof. intros Hw Hc. unfold excludes, covers. rewrite Hc. destruct pc; auto. Qed.

(** *** Writers *)

Lemma writers_change s ws : gate_ok s ->
  (forall t ino, ws !! t = Some (ino, W_inside) -> g_writers s !! t = Some (ino, W_inside) \/ ino ∉ g_gate s) ->
  gate_ok (s <| g_writers := ws |>).
Proof.
  intros [[H1 H2 H3 H4 H5 H6] G O E] Hw. split; [by constructor|exact G|exact O|]. intros c ino pc Hc. pose proof (G _ _ _ Hc) as Hg. cbn in Hc.
  apply (excludes_mono s); [|done|by eapply E]. intros t Ht. by destruct (Hw _ _ Ht).
Qed.

Lemma unlock_cut t s c ino pc : g_cuts (srcu_read_unlock t s) !! c = Some (ino, pc) ->
  exists pc0, g_cuts s !! c = Some (ino, pc0) /\ pc = drop_reader t pc0.
Proof. cbn. rewrite lookup_fmap. destruct (g_cuts s !! c) as [[i p]|]; cbn; [|done]. intros [= <- <-]. by exists p. Qed.
Lemma unlock_waiting t s c ino d : g_cuts (srcu_read_unlock t s) !! c = Some (ino, C_waiting d) <-> g_cuts s !! c = Some (ino, C_waiting d).
Proof.
  split; [intros (p & Hp & E)%unlock_cut; destruct p; try done; by injection E as <-|]. intros H. cbn. by rewrite lookup_fmap, H.
Qed.
Lemma unlock_waits t s d : waits (srcu_read_unlock t s) d <-> waits s d.
Proof. unfold waits. split; intros (c & ino & H); exists c, ino; by apply unlock_waiting in H || apply unlock_waiting. Qed.
Lemma unlock_cbs t s d : g_cbs (srcu_read_unlock t s) !! d = (fun rs => rs ∖ {[t]}) <$> g_cbs s !! d.
Proof. cbn. by rewrite lookup_fmap. Qed.

Lemma unlock_ok t s : gate_ok s -> (forall ino, g_writers s !! t <> Some (ino, W_inside)) -> gate_ok (srcu_read_unlock t s).
Proof.
  intros [[H1 H2 H3 H4 H5 H6] G O E] Ht. split; [constructor|..].
  - done.
  - intros d rs. rewrite unlock_cbs, unlock_waits. intros (rs0 & H & _)%fmap_Some. by apply (H2 d rs0).
  - intros d. rewrite unlock_waits, unlock_cbs. intros [H|[-> H]]%H3; [left; by apply fmap_is_Some|by right].
  - intros d o H. rewrite unlock_waits, unlock_cbs, fmap_is_Some. by eapply H4.
  - intros c1 c2 i1 i2 d H7%unlock_waiting H8%unlock_waiting. by eapply H5.
  - done.
  - intros c ino pc (p & H & _)%unlock_cut. by eapply G.
  - intros c1 c2 ino p1 p2 (q1 & Hc1 & _)%unlock_cut (q2 & Hc2 & _)%unlock_cut. by eapply O.
  - intros c ino pc (p & H & ->)%unlock_cut. pose proof (E _ _ _ H) as He.
    assert (forall t', g_writers s !! t' = Some (ino, W_inside) -> t' <> t) as Hne by (intros t' H' ->; by apply (Ht ino)).
    destruct p as [|d|rs|]; cbn [drop_reader excludes] in *; [done| |intros t' H'; specialize (He t' H'); specialize (Hne t' H'); set_solver|done].
    rewrite unlock_cbs. intros t' H'. specialize (He t' H'). specialize (Hne t' H'). destruct (g_cbs s !! d); cbn in *; set_solver.
Qed.

Lemma writer_step_ok ev s s' : gate_ok s -> writer_step ev s = Some s' -> gate_ok s'.
Proof.
  intros K. destruct ev; cbn [writer_step]; try done.
  - destruct (g_writers s !! t); [done|]. intros [= <-]. apply writers_change; [done|].
    intros t' i [[_ ?]|[_ ?]]%lookup_insert_Some; [done|by left].
  - destruct (g_writers s !! t) as [[ino []]|] eqn:Et; try done. case_bool_decide as Hg; intros [= <-].
    + apply unlock_ok; [apply writers_change; [done|]|]; cbn.
      * intros t' i [[_ ?]|[_ ?]]%lookup_insert_Some; [done|by left].
      * intros i. rewrite lookup_insert_eq. done.
    + apply writers_change; [done|]. intros t' i [[<- [= <-]]|[_ ?]]%lookup_insert_Some; [by right|by left].
  - destruct (g_writers s !! t) as [[ino []]|]; try done. case_bool_decide; [done|]. intros [= <-]. apply writers_change; [done|].
    intros t' i [[_ ?]|[_ ?]]%lookup_insert_Some; [done|by left].
  - destruct (g_writers s !! t) as [[ino []]|]; try done. intros [= <-]. apply writers_change; [done|].
    intros t' i [_ ?]%lookup_delete_Some. by left.
  - destruct (g_writers s !! t) as [[ino []]|]; try done. intros [= <-]. apply unlock_ok; [apply writers_change; [done|]|]; cbn.
    + intros t' i [_ ?]%lookup_delete_Some. by left.
    + intros i. by rewrite lookup_delete_eq.
Qed.

(** *** Cutovers *)

Definition not_waiting (s : gstate) (c : Z) : Prop := forall ino d, g_cuts s !! c <> Some (ino, C_waiting d).

(** Changing the place of a cutover that does not wait to another such place. *)
Lemma heap_set_cut s c x : heap_ok s -> not_waiting s c -> (forall d, snd x <> C_waiting d) ->
  heap_ok (s <| g_cuts := <[c := x]> (g_cuts s) |>).
Proof.
  intros [H1 H2 H3 H4 H5 H6] Hn Hx.
  assert (forall c' i d, <[c := x]> (g_cuts s) !! c' = Some (i, C_waiting d) <-> g_cuts s !! c' = Some (i, C_waiting d)) as Hc.
  { intros c' i d. rewrite lookup_insert_Some. split; [intros [[_ ->]|[_ ?]]; [by destruct (Hx d)|done]|]. intros H. right. split; [|done]. intros ->. by apply (Hn i d). }
  assert (forall d, waits (s <| g_cuts := <[c := x]> (g_cuts s) |>) d <-> waits s d) as Hw
    by (intros d; unfold waits; split; intros (c' & i & H); exists c', i; by apply Hc).
  constructor; cbn; try done.
  - intros d rs H. rewrite Hw. by apply (H2 d rs).
  - intros d. rewrite Hw. apply H3.
  - intros d o H. rewrite Hw. by eapply H4.
  - intros c1 c2 i1 i2 d ?%Hc ?%Hc. by eapply H5.
Qed.

Lemma heap_drop_cut s c : heap_ok s -> not_waiting s c -> heap_ok (s <| g_cuts := delete c (g_cuts s) |>).
Proof.
  intros [H1 H2 H3 H4 H5 H6] Hn.
  assert (forall c' i d, delete c (g_cuts s) !! c' = Some (i, C_waiting d) <-> g_cuts s !! c' = Some (i, C_waiting d)) as Hc.
  { intros c' i d. rewrite lookup_delete_Some. split; [by intros [_ ?]|]. intros H. split; [|done]. intros ->. by apply (Hn i d). }
  assert (forall d, waits (s <| g_cuts := delete c (g_cuts s) |>) d <-> waits s d) as Hw
    by (intros d; unfold waits; split; intros (c' & i & H); exists c', i; by apply Hc).
  constructor; cbn; try done.
  - intros d rs H. rewrite Hw. by apply (H2 d rs).
  - intros d. rewrite Hw. apply H3.
  - intros d o H. rewrite Hw. by eapply H4.
  - intros c1 c2 i1 i2 d ?%Hc ?%Hc. by eapply H5.
Qed.

(** The parts besides the heap, when cutover [c] of [ino] moves on. *)
Lemma gate_set_cut s c ino pc0 pc : gate_ok s -> g_cuts s !! c = Some (ino, pc0) ->
  let s' := s <| g_cuts := <[c := (ino, pc)]> (g_cuts s) |> in heap_ok s' -> excludes s ino pc -> gate_ok s'.
Proof.
  intros [H G O E] Hc s' H' He. split; [exact H'|..]; cbn.
  - intros c' i p [[<- [= <- <-]]|[_ ?]]%lookup_insert_Some; by eapply G.
  - intros c1 c2 i p1 p2 [[? ?]|[? H1]]%lookup_insert_Some [[? ?]|[? H2]]%lookup_insert_Some; simplify_eq; try done; by eapply O.
  - intros c' i p [[<- [= <- <-]]|[_ H1]]%lookup_insert_Some; [exact He|]. pose proof (E _ _ _ H1) as H2. destruct p; exact H2.
Qed.

Lemma gate_open s c ino pc : gate_ok s -> g_cuts s !! c = Some (ino, pc) -> heap_ok (open_gate c ino s) -> gate_ok (open_gate c ino s).
Proof.
  intros [H G O E] Hc H'. split; [exact H'|..]; cbn.
  - intros c' i p [Hne H1]%lookup_delete_Some. pose proof (G _ _ _ H1). assert (i <> ino) by (intros ->; by destruct Hne; eapply O). set_solver.
  - intros c1 c2 i p1 p2 [_ ?]%lookup_delete_Some [_ ?]%lookup_delete_Some. by eapply O.
  - intros c' i p [_ H1]%lookup_delete_Some. pose proof (E _ _ _ H1) as H2. destruct p; exact H2.
Qed.

Lemma heap_gate s g : heap_ok s -> heap_ok (s <| g_gate := g |>).
Proof. intros [H1 H2 H3 H4 H5 H6]. by constructor. Qed.

Lemma close_ok s c ino : gate_ok s -> g_cuts s !! c = None -> ino ∉ g_gate s ->
  gate_ok (s <| g_gate := g_gate s ∪ {[ino]} |> <| g_cuts := <[c := (ino, C_closed)]> (g_cuts s) |>).
Proof.
  intros [H G O E] Hc Hg. set (s1 := s <| g_gate := g_gate s ∪ {[ino]} |>). split; [|cbn..].
  - apply (heap_set_cut s1); [by apply heap_gate|intros i d; cbn; by rewrite Hc|done].
  - intros c' i p [[<- [= <- <-]]|[_ H1]]%lookup_insert_Some; [set_solver|]. apply G in H1. set_solver.
  - intros c1 c2 i p1 p2 [[? ?]|[? H1]]%lookup_insert_Some [[? ?]|[? H2]]%lookup_insert_Some; simplify_eq; try done;
      try (by destruct Hg; eapply G); by eapply O.
  - intros c' i p [[<- [= <- <-]]|[_ H1]]%lookup_insert_Some; [done|]. pose proof (E _ _ _ H1) as H2. destruct p; exact H2.
Qed.

Lemma inside_reads s ino : covers s ino (readers s).
Proof. intros t Ht. unfold readers. apply elem_of_dom. exists (ino, W_inside). apply map_lookup_filter_Some. by split. Qed.

(** The object and the callback are new. *)
Lemma fresh_drain s : heap_ok s -> g_objs s !! g_next s = None /\ g_cbs s !! g_next s = None /\ ~ waits s (g_next s).
Proof.
  intros [H1 H2 H3 H4 H5 H6]. assert (g_objs s !! g_next s = None) as Ho by (destruct (g_objs s !! g_next s) eqn:Ed; [apply H6 in Ed; lia|done]).
  assert (g_cbs s !! g_next s = None) as Hb by (destruct (g_cbs s !! g_next s) eqn:Ed; [apply H2 in Ed as [[? _]|[? _]]; congruence|done]).
  split; [done|]. split; [done|]. intros [[? ?]|[_ ?]]%H3; congruence.
Qed.

Lemma heap_drain_begin s c ino : heap_ok s -> not_waiting s c -> heap_ok (drain_begin c ino true s).
Proof.
  intros K Hnw. destruct (fresh_drain s K) as (Ho & Hb & Hw). destruct K as [H1 H2 H3 H4 H5 H6]. unfold drain_begin.
  set (d := g_next s) in *. set (s' := _ <| g_cuts := _ |>).
  assert (g_cbs s' = <[d := readers s]> (g_cbs s) /\ g_objs s' = <[d := Drain 2 false]> (g_objs s)) as [Eb Eo] by done.
  assert (forall c' i d', g_cuts s' !! c' = Some (i, C_waiting d') <-> (c' = c /\ i = ino /\ d' = d) \/ g_cuts s !! c' = Some (i, C_waiting d')) as Hcut.
  { intros c' i d'. cbn. rewrite lookup_insert_Some. split; [intros [[<- [= <- <-]]|[_ Hx]]; [by left|by right]|].
    intros [(-> & -> & ->)|Hx]; [by left|]. right. split; [|done]. intros ->. by apply (Hnw i d'). }
  assert (forall d', waits s' d' <-> d' = d \/ waits s d') as Hws.
  { intros d'. unfold waits. split.
    - intros (c' & i & [(_ & _ & ->)|Hx]%Hcut); [by left|right; by exists c', i].
    - intros [->|(c' & i & Hx)]; [exists c, ino; apply Hcut; by left|exists c', i; apply Hcut; by right]. }
  assert (g_next s' = d + 1 /\ g_bad s' = g_bad s) as [En Ebad] by done. clearbody s'.
  constructor; rewrite ?Eb, ?Eo, ?En, ?Ebad.
  - done.
  - intros d' rs. rewrite Hws. intros [[<- _]|[Hn Hx]]%lookup_insert_Some.
    + left. rewrite lookup_insert_eq. split; [done|by left].
    + rewrite lookup_insert_ne by done. destruct (H2 _ _ Hx) as [[A B]|[A B]]; [left; split; [done|by right]|right; split; [done|]]. by intros [->|?].
  - intros d'. rewrite Hws. destruct (decide (d' = d)) as [->|Hn]; [left; by rewrite lookup_insert_eq|].
    intros [->|Hx]; [done|]. rewrite !lookup_insert_ne by done. by apply H3.
  - intros d' o. rewrite Hws. intros [[<- _]|[Hn Hx]]%lookup_insert_Some; [right; by left|]. rewrite lookup_insert_ne by done.
    destruct (H4 _ _ Hx); [by left|right; by right].
  - intros c1 c2 i1 i2 d' [(-> & _ & ->)|X1]%Hcut [(-> & _ & E2)|X2]%Hcut; [done|destruct Hw; by exists c2, i2|subst d'; destruct Hw; by exists c1, i1|by eapply H5].
  - intros d' o [[<- _]|[_ Hx]]%lookup_insert_Some; [lia|]. apply H6 in Hx. unfold d. lia.
Qed.

Lemma drain_begin_ok s c ino alloc : gate_ok s -> g_cuts s !! c = Some (ino, C_closed) -> gate_ok (drain_begin c ino alloc s).
Proof.
  intros K Hc. pose proof K as [H G O E]. assert (not_waiting s c) as Hnw by (intros i d; by rewrite Hc).
  destruct alloc.
  2:{ eapply gate_set_cut; [done|exact Hc| |apply inside_reads]. by apply heap_set_cut. }
  destruct (fresh_drain s H) as (_ & _ & Hw). split; [by apply heap_drain_begin|..]; cbn.
  - intros c' i p [[<- [= <- <-]]|[_ Hx]]%lookup_insert_Some; by eapply G.
  - intros c1 c2 i p1 p2 [[? ?]|[? X1]]%lookup_insert_Some [[? ?]|[? X2]]%lookup_insert_Some; simplify_eq; try done; by eapply O.
  - intros c' i p [[<- [= <- <-]]|[_ Hx]]%lookup_insert_Some; cbn.
    + rewrite lookup_insert_eq. apply inside_reads.
    + pose proof (E _ _ _ Hx) as He. destruct p as [|d'|rs|]; try exact He. cbn in *.
      rewrite lookup_insert_ne; [exact He|]. intros <-. apply Hw. by exists c', i.
Qed.

(** The callback: the object goes to the waiting cutover or is freed. *)
Lemma drain_cb_shape s d rs : heap_ok s -> g_cbs s !! d = Some rs ->
  waits s d /\ drain_cb d s = s <| g_cbs := delete d (g_cbs s) |> <| g_objs := <[d := Drain 1 true]> (g_objs s) |>
  \/ ~ waits s d /\ drain_cb d s = s <| g_cbs := delete d (g_cbs s) |> <| g_objs := delete d (g_objs s) |>.
Proof.
  intros H Hb. unfold drain_cb, kref_put. cbn. destruct (hp_cb _ H _ _ Hb) as [[-> Hw]|[-> Hw]]; cbn; rewrite lookup_insert_eq; cbn.
  - left. split; [done|]. by rewrite insert_insert_eq.
  - right. split; [done|]. by rewrite delete_insert_eq.
Qed.

Lemma callback_ok s d : gate_ok s -> g_cbs s !! d = Some ∅ -> gate_ok (drain_cb d s).
Proof.
  intros [H G O E] Hb. pose proof H as [H1 H2 H3 H4 H5 H6].
  assert (forall c i p, g_cuts s !! c = Some (i, p) -> forall objs,
    excludes (s <| g_cbs := delete d (g_cbs s) |> <| g_objs := objs |>) i p) as He.
  { intros c i p Hc objs. pose proof (E _ _ _ Hc) as He. destruct p as [|d'|rs|]; try exact He. cbn in *.
    destruct (decide (d' = d)) as [->|]; [by rewrite lookup_delete_eq; rewrite Hb in He|by rewrite lookup_delete_ne]. }
  destruct (drain_cb_shape s d ∅ H Hb) as [[Hw ->]|[Hw ->]]; (split; [constructor|..]); try done; cbn; try (by intros; eapply He).
  - intros d' rs [Hn Hx]%lookup_delete_Some. rewrite lookup_insert_ne by done. by apply (H2 d' rs).
  - intros d' Hx. destruct (decide (d' = d)) as [->|Hn]; [right; by rewrite lookup_delete_eq, lookup_insert_eq|].
    rewrite lookup_delete_ne, lookup_insert_ne by done. by apply H3.
  - intros d' o [[<- _]|[Hn Hx]]%lookup_insert_Some; [by right|]. rewrite lookup_delete_ne by done. by eapply H4.
  - intros d' o [[<- _]|[Hn Hx]]%lookup_insert_Some; [|by eapply H6]. destruct (H2 _ _ Hb) as [[Hx _]|[Hx _]]; by eapply H6.
  - intros d' rs [Hn Hx]%lookup_delete_Some. rewrite lookup_delete_ne by done. by apply (H2 d' rs).
  - intros d' Hx. assert (d' <> d) by (intros ->; by apply Hw). rewrite !lookup_delete_ne by done. by apply H3.
  - intros d' o [Hn Hx]%lookup_delete_Some. rewrite lookup_delete_ne by done. by eapply H4.
  - intros d' o [Hn Hx]%lookup_delete_Some. by eapply H6.
Qed.

(** A waiting cutover has its object, marked done exactly when the callback has
    run. *)
Lemma waiting_object s c ino d : heap_ok s -> g_cuts s !! c = Some (ino, C_waiting d) ->
  is_Some (g_cbs s !! d) /\ g_objs s !! d = Some (Drain 2 false) \/ g_cbs s !! d = None /\ g_objs s !! d = Some (Drain 1 true).
Proof.
  intros H Hc. assert (waits s d) as Hw by (by exists c, ino). destruct (hp_wait _ H _ Hw) as [[rs Hb]|[Hb Ho]]; [left|by right].
  split; [by rewrite Hb|]. by destruct (hp_cb _ H _ _ Hb) as [[? _]|[_ ?]].
Qed.

(** Cutover [c] stops waiting for [d]; the others wait for what they waited for. *)
Lemma heap_unwait s s' c ino d : heap_ok s -> g_cuts s !! c = Some (ino, C_waiting d) ->
  (forall c' i d', g_cuts s' !! c' = Some (i, C_waiting d') <-> c' <> c /\ g_cuts s !! c' = Some (i, C_waiting d')) ->
  g_cbs s' = g_cbs s -> g_next s' = g_next s -> g_bad s' = false ->
  g_objs s' = match g_cbs s !! d with Some _ => <[d := Drain 1 false]> (g_objs s) | None => delete d (g_objs s) end ->
  heap_ok s'.
Proof.
  intros H Hc Hcut Eb En Ebad Eo. pose proof H as [H1 H2 H3 H4 H5 H6].
  assert (forall d', waits s' d' <-> d' <> d /\ waits s d') as Hws.
  { intros d'. unfold waits. split.
    - intros (c' & i & [Hn Hx]%Hcut). split; [|by exists c', i]. intros ->. by destruct Hn; eapply H5.
    - intros [Hn (c' & i & Hx)]. exists c', i. apply Hcut. split; [|done]. intros ->. rewrite Hc in Hx. by injection Hx as _ <-. }
  assert (forall d', d' <> d -> g_objs s' !! d' = g_objs s !! d') as Ho
    by (intros d' Hn; rewrite Eo; destruct (g_cbs s !! d); by rewrite ?lookup_insert_ne, ?lookup_delete_ne by done).
  assert (g_objs s' !! d = match g_cbs s !! d with Some _ => Some (Drain 1 false) | None => None end) as Hod
    by (rewrite Eo; destruct (g_cbs s !! d); by rewrite ?lookup_insert_eq, ?lookup_delete_eq).
  constructor; rewrite ?Eb, ?En.
  - done.
  - intros d' rs Hx. rewrite Hws. destruct (decide (d' = d)) as [->|Hn]; [right; rewrite Hod, Hx; split; [done|by intros [? _]]|].
    rewrite Ho by done. destruct (H2 _ _ Hx) as [[A B]|[A B]]; [left|right]; [by split|]. split; [done|]. by intros [_ ?].
  - intros d'. rewrite Hws. intros [Hn Hx]. rewrite Ho by done. by apply H3.
  - intros d' o Hx. rewrite Hws. destruct (decide (d' = d)) as [->|Hn]; [rewrite Hod in Hx; left; by destruct (g_cbs s !! d)|].
    rewrite Ho in Hx by done. destruct (H4 _ _ Hx); [by left|by right].
  - intros c1 c2 i1 i2 d' [_ X1]%Hcut [_ X2]%Hcut. by eapply H5.
  - intros d' o Hx. destruct (decide (d' = d)) as [->|Hn]; [|rewrite Ho in Hx by done; by eapply H6].
    destruct (waiting_object s c ino d H Hc) as [[_ Hy]|[_ Hy]]; by eapply H6.
Qed.

Lemma drain_end_ok s c ino d timeout s' : gate_ok s -> g_cuts s !! c = Some (ino, C_waiting d) ->
  drain_end c ino d timeout s = Some s' -> gate_ok s'.
Proof.
  intros K Hc. pose proof K as [H G O E]. pose proof (E _ _ _ Hc) as He. cbn in He.
  destruct (waiting_object s c ino d H Hc) as [[[rs Hb] Ho]|[Hb Ho]]; unfold drain_end; rewrite Ho; cbn [dr_done]; destruct timeout; try done; intros <-%(inj Some).
  - assert (kref_put d s = s <| g_objs := <[d := Drain 1 false]> (g_objs s) |>) as -> by (unfold kref_put; by rewrite Ho).
    set (s1 := s <| g_objs := _ |>).
    assert (heap_ok (open_gate c ino s1)) as H'.
    { apply (heap_unwait s _ c ino d); [done|done| |done|done|apply H|by rewrite Hb]. intros c' i d'. cbn. rewrite lookup_delete_Some.
      split; (intros [Hn ?]; split; [by intros ->|done]). }
    split; [exact H'|..]; cbn.
    + intros c' i p [Hne H1]%lookup_delete_Some. pose proof (G _ _ _ H1). assert (i <> ino) by (intros ->; by destruct Hne; eapply O).
      apply elem_of_difference. split; [done|]. by rewrite elem_of_singleton.
    + intros c1 c2 i p1 p2 [_ ?]%lookup_delete_Some [_ ?]%lookup_delete_Some. by eapply O.
    + intros c' i p [_ H1]%lookup_delete_Some. pose proof (E _ _ _ H1) as H2. destruct p; exact H2.
  - set (s1 := s <| g_cuts := _ |>).
    assert (kref_put d s1 = s1 <| g_objs := delete d (g_objs s) |>) as -> by (unfold kref_put; change (g_objs s1) with (g_objs s); by rewrite Ho).
    assert (heap_ok (s1 <| g_objs := delete d (g_objs s) |>)) as H'.
    { apply (heap_unwait s _ c ino d); [done|done| |done|done|apply H|by rewrite Hb]. intros c' i d'. cbn. rewrite lookup_insert_Some.
      split; [intros [[_ ?]|[? ?]]; [done|by split]|intros [? ?]; by right]. }
    rewrite Hb in He. split; [exact H'|..]; cbn.
    + intros c' i p [[<- [= <- <-]]|[_ Hx]]%lookup_insert_Some; by eapply G.
    + intros c1 c2 i p1 p2 [[? ?]|[? X1]]%lookup_insert_Some [[? ?]|[? X2]]%lookup_insert_Some; simplify_eq; try done; by eapply O.
    + intros c' i p [[<- [= <- <-]]|[_ Hx]]%lookup_insert_Some; [exact He|]. pose proof (E _ _ _ Hx) as H2. destruct p; exact H2.
Qed.

Lemma cutover_step_ok ev s s' : gate_ok s -> cutover_step ev s = Some s' -> gate_ok s'.
Proof.
  intros K. destruct ev; cbn [cutover_step]; try done.
  - destruct (g_cuts s !! c) eqn:Ec; [done|]. case_bool_decide; [done|]. intros [= <-]. by apply close_ok.
  - destruct (g_cuts s !! c) as [[ino []]|] eqn:Ec; try done. intros [= <-]. by apply drain_begin_ok.
  - destruct (g_cbs s !! d) as [rs|] eqn:Ed; [|done]. case_bool_decide; [|done]. subst. intros [= <-]. by apply callback_ok.
  - destruct (g_cuts s !! c) as [[ino []]|] eqn:Ec; try done. by apply drain_end_ok.
  - destruct (g_cuts s !! c) as [[ino []]|] eqn:Ec; try done. by apply drain_end_ok.
  - destruct (g_cuts s !! c) as [[ino []]|] eqn:Ec; try done. case_bool_decide; [|done]. subst. intros [= <-].
    apply (gate_set_cut s c ino (C_sync ∅)); [done|done| |exact (go_excludes _ K _ _ _ Ec)].
    apply heap_set_cut; [apply K|intros i d; by rewrite Ec|done].
  - destruct (g_cuts s !! c) as [[ino []]|] eqn:Ec; try done. intros [= <-]. apply (gate_open s c ino C_drained); [done|done|].
    unfold open_gate. set (s1 := s <| g_gate := _ |>). apply (heap_drop_cut s1); [by apply heap_gate, K|]. intros i d. cbn. by rewrite Ec.
Qed.

Lemma reachable_ok s : rtc gate_step gate_init s -> gate_ok s.
Proof.
  intros Hr. eapply rtc_invariant; [|exact gate_init_ok|exact Hr]. intros a b K (ev & H). unfold exec in H.
  destruct (writer_step ev a) eqn:Ew; [injection H as <-; by eapply writer_step_ok|by eapply cutover_step_ok].
Qed.

(** C40. For every interleaving of writers, cutovers, timeouts and SRCU
    callbacks: a cutover whose drain succeeded has its gate closed and no writer
    of the inode is past its check, so the lower file is never switched under a
    writer; the drain object that the cutover and the callback share is never
    used after it was freed and is allocated exactly as long as one of them
    needs it; and a waiting cutover is never stuck, since it is woken or may
    time out. *)
Theorem cutover_drain_is_sound s : rtc gate_step gate_init s ->
  (forall c ino, g_cuts s !! c = Some (ino, C_drained) -> ino ∈ g_gate s /\ forall t, g_writers s !! t <> Some (ino, W_inside))
  /\ g_bad s = false
  /\ (forall d, is_Some (g_objs s !! d) <-> is_Some (g_cbs s !! d) \/ waits s d)
  /\ (forall c ino d, g_cuts s !! c = Some (ino, C_waiting d) -> is_Some (exec (E_wake c) s) \/ is_Some (exec (E_timeout c) s)).
Proof.
  intros Hr. pose proof (reachable_ok _ Hr) as K. pose proof (go_heap _ K) as H. split; [|split; [apply H|split]].
  - intros c ino Hc. split; [by eapply (go_gate _ K)|]. intros t Ht. by apply (go_excludes _ K _ _ _ Hc), elem_of_empty in Ht.
  - intros d. split; [intros [o Ho]; by eapply (hp_live _ H)|]. intros [[rs Hb]|(c & ino & Hc)].
    + destruct (hp_cb _ H _ _ Hb) as [[-> _]|[-> _]]; done.
    + destruct (waiting_object s c ino d H Hc) as [[_ ->]|[_ ->]]; done.
  - intros c ino d Hc. unfold exec. cbn. rewrite Hc. unfold drain_end.
    destruct (waiting_object s c ino d H Hc) as [[_ ->]|[_ ->]]; [right|left]; done.
Qed.

(** A run is a sequence of steps. *)
Lemma run_reaches l s s' : run_events l s = Some s' -> rtc gate_step s s'.
Proof.
  unfold run_events. revert s. induction l as [|ev l IH]; intros s; cbn; [by intros [= <-]|].
  destruct (exec ev s) as [s1|] eqn:E; cbn.
  - intros H. eapply rtc_l; [by exists ev|by apply IH].
  - intros H. exfalso. clear IH. induction l as [|ev' l IH]; cbn in H; done.
Qed.

(** Thread 1 writes to inode 7 while cutover 5 of the same inode starts; thread 2
    comes too late.  The first writer leaves, the callback runs, the cutover is
    woken. *)
Definition gt_events : list event :=
  [E_enter 1 7; E_check 1; E_enter 2 7; E_close 5 7; E_drain 5 true; E_check 2; E_exit 1; E_callback 0; E_wake 5].

Lemma cutover_drain_is_sound_witness : exists s, run_events gt_events gate_init = Some s
  /\ g_cuts s !! 5 = Some (7, C_drained) /\ g_writers s !! 2 = Some (7, W_stalled) /\ forall t, g_writers s !! t <> Some (7, W_inside).
Proof.
  destruct (run_events gt_events gate_init) as [s|] eqn:E; [|vm_compute in E; discriminate E].
  assert (g_cuts s !! 5 = Some (7, C_drained)) as Hc by (revert E; vm_compute; by intros [= <-]).
  assert (g_writers s !! 2 = Some (7, W_stalled)) as Hw by (revert E; vm_compute; by intros [= <-]).
  exists s. split; [reflexivity|]. split; [exact Hc|]. split; [exact Hw|].
  exact (proj2 (proj1 (cutover_drain_is_sound s (run_reaches _ _ _ E)) 5 7 Hc)).
Defined.

(** A drain that timed out leaves its callback behind: no writer and no cutover
    is left, but the callback has yet to run when the pool is unmounted. *)
Example timed_out_drain_leaves_a_callback :
  (fun s => (dom (g_writers s), dom (g_cuts s), dom (g_cbs s), dom (g_objs s))) <$>
  run_events [E_enter 1 7; E_check 1; E_close 5 8; E_drain 5 true; E_timeout 5; E_exit 1] gate_init
  = Some (∅, ∅, {[0]}, {[0]}).
Proof. vm_compute. reflexivity. Qed.
