(* ===== verification/Xattr.v ===== *)
(** * Extended attributes: src/src/smoothfs/xattr.c

    user.*, trusted.* and security.* attributes are kept by the lower object;
    the names trusted.smoothfs.* are smoothfs' own: the identity attributes are
    answered from the cached inode, and lease and lun are the pins that keep an
    object from being moved.

    The lower object keeps its two identity attributes in [l_oid] and [l_gen]
    of [lnode] and all others in [xw_attr]; [fault] is an error of the lower
    filesystem (0 for none).  Capability checks of the VFS for trusted.* are
    outside the module; [capable] is the module's own check. *)
From S2P Require Import Prelude Types Oid PlacementLog InodeMaps Movement.

Record xworld := XWorld { xw_sb : sb_info; xw_attr : gmap Z (gmap string (list Z)) }.

(** ** The lower object's attributes *)

Definition XATTR_NAME_MAX : Z := 255.
Definition SMOOTHFS_OID_XATTR : string := "trusted.smoothfs.oid".
Definition SMOOTHFS_GEN_XATTR : string := "trusted.smoothfs.gen".

Definition lower_attr (w : xworld) (d : Z) (full : string) : option (list Z) :=
  match lower (xw_sb w) !! d with
  | None => None
  | Some l =>
      if bool_decide (full = SMOOTHFS_OID_XATTR) then l_oid l
      else if bool_decide (full = SMOOTHFS_GEN_XATTR) then l_gen l
      else xw_attr w !! d ≫= lookup full
  end.

(** [v = None] removes the attribute. *)
Definition put_lower_attr (w : xworld) (d : Z) (full : string) (v : option (list Z)) : xworld :=
  match lower (xw_sb w) !! d with
  | None => w
  | Some l =>
      let put l := XWorld (xw_sb w <| lower := <[d := l]> (lower (xw_sb w)) |>) (xw_attr w) in
      if bool_decide (full = SMOOTHFS_OID_XATTR) then put (l <| l_oid := v |>)
      else if bool_decide (full = SMOOTHFS_GEN_XATTR) then put (l <| l_gen := v |>)
      else XWorld (xw_sb w) (<[d := partial_alter (fun _ => v) full (default ∅ (xw_attr w !! d))]> (xw_attr w))
  end.

(** A value into a buffer of [room] bytes; [None]: how long is it? *)
Definition give (room : option Z) (v : list Z) : result (Z * list Z) :=
  match room with
  | None => Ok (Z.of_nat (length v), [])
  | Some n => if n <? Z.of_nat (length v) then Err (- ERANGE) else Ok (Z.of_nat (length v), v)
  end.

Definition lower_getxattr (fault : Z) (w : xworld) (d : Z) (full : string) (room : option Z) : result (Z * list Z) :=
  if fault <? 0 then Err fault
  else match lower_attr w d full with None => Err (- ENODATA) | Some v => give room v end.

Definition lower_removexattr (fault : Z) (w : xworld) (d : Z) (full : string) : Z * xworld :=
  if fault <? 0 then (fault, w)
  else match lower_attr w d full with None => (- ENODATA, w) | Some _ => (0, put_lower_attr w d full None) end.

(** [flags]: XATTR_CREATE refuses to replace, XATTR_REPLACE to create. *)
Definition XATTR_CREATE : Z := 1.
Definition XATTR_REPLACE : Z := 2.
Definition lower_setxattr (fault : Z) (w : xworld) (d : Z) (full : string) (v : list Z) (flags : Z) : Z * xworld :=
  if fault <? 0 then (fault, w)
  else match lower_attr w d full with
       | Some _ => if flags =? XATTR_CREATE then (- EEXIST, w) else (0, put_lower_attr w d full (Some v))
       | None => if flags =? XATTR_REPLACE then (- ENODATA, w) else (0, put_lower_attr w d full (Some v))
       end.

(** ** The handlers *)

(** The lower dentry, or the one of the inode when the name was unlinked. *)
Definition xattr_lower (w : xworld) (fsdata : option Z) (ino : Z) : option Z :=
  match fsdata with
  | Some d => Some d
  | None => match inodes (xw_sb w) !! ino ≫= lower_path with Some p => Some (p_dentry p) | None => None end
  end.

Definition full_name (prefix name : string) : result string :=
  if XATTR_NAME_MAX + 1 <=? Z.of_nat (String.length (prefix ++ name)) then Err (- ENAMETOOLONG)
  else Ok (prefix ++ name)%string.

(** The code follows the lower dentry without a check; an object without one
    gets [-ESTALE] here. *)
Definition generic_xattr_get (fault : Z) (prefix : string) (w : xworld) (fsdata : option Z) (ino : Z)
    (name : string) (room : option Z) : result (Z * list Z) :=
  match full_name prefix name with
  | Err err => Err err
  | Ok full => match xattr_lower w fsdata ino with
               | None => Err (- ESTALE)
               | Some d => lower_getxattr fault w d full room
               end
  end.

Definition generic_xattr_set (fault : Z) (prefix : string) (w : xworld) (fsdata : option Z) (ino : Z)
    (name : string) (value : option (list Z)) (flags : Z) : Z * xworld :=
  match full_name prefix name with
  | Err err => (err, w)
  | Ok full => match xattr_lower w fsdata ino with
               | None => (- ESTALE, w)
               | Some d => match value with
                           | None => lower_removexattr fault w d full
                           | Some v => lower_setxattr fault w d full v flags
                           end
               end
  end.

Definition pin_flag (mine : pin_state) (si : inode_info) : list Z := [if pin_eqb (pin si) mine then 1 else 0].

Definition trusted_xattr_get (fault : Z) (w : xworld) (fsdata : option Z) (ino : Z) (name : string)
    (room : option Z) : result (Z * list Z) :=
  match inodes (xw_sb w) !! ino with
  | Some si =>
      if bool_decide (name = "smoothfs.oid"%string) && negb (bytes_eqb (oid si) zero_oid) then give room (oid si)
      else if bool_decide (name = "smoothfs.gen"%string) then give room (le_split 4 (gen si))
      else if bool_decide (name = "smoothfs.fileid"%string) then
        give room (le_split 8 (i_ino si) ++ le_split 4 (gen si))
      else if bool_decide (name = "smoothfs.lease"%string) then give room (pin_flag PIN_LEASE si)
      else if bool_decide (name = "smoothfs.lun"%string) then give room (pin_flag PIN_LUN si)
      else generic_xattr_get fault "trusted." w fsdata ino name room
  | None => generic_xattr_get fault "trusted." w fsdata ino name room
  end.

(** The value of lease and lun: one byte, 0 or 1; removal is 0. *)
Definition wanted (value : option (list Z)) : result bool :=
  match value with
  | None => Ok false
  | Some [b] => if negb (b =? 0) && negb (b =? 1) then Err (- EINVAL) else Ok (b =? 1)
  | Some _ => Err (- EINVAL)
  end.

(** Take or release the pin [mine]; other pins are left alone. *)
Definition toggle_pin (mine : pin_state) (value : option (list Z)) (w : xworld) (si : inode_info) : Z * xworld :=
  let put p := XWorld (put_inode (xw_sb w) (si <| pin := p |>)) (xw_attr w) in
  match wanted value with
  | Err err => (err, w)
  | Ok true =>
      if pin_eqb (pin si) PIN_NONE then (0, put mine)
      else if negb (pin_eqb (pin si) mine) then (- EBUSY, w)
      else (0, w)
  | Ok false => if pin_eqb (pin si) mine then (0, put PIN_NONE) else (0, w)
  end.

(** [strncmp(name, "smoothfs.", 9) == 0] *)
Definition reserved (name : string) : bool := String.prefix "smoothfs." name.

Definition trusted_xattr_set (fault : Z) (capable : bool) (w : xworld) (fsdata : option Z) (ino : Z)
    (name : string) (value : option (list Z)) (flags : Z) : Z * xworld :=
  if reserved name then
    if negb capable then (- EPERM, w)
    else if bool_decide (name = "smoothfs.fileid"%string) then (- EPERM, w)
    else match inodes (xw_sb w) !! ino with
         | Some si =>
             if bool_decide (name = "smoothfs.lease"%string) then toggle_pin PIN_LEASE value w si
             else if bool_decide (name = "smoothfs.lun"%string) then toggle_pin PIN_LUN value w si
             else generic_xattr_set fault "trusted." w fsdata ino name value flags
         | None => generic_xattr_set fault "trusted." w fsdata ino name value flags
         end
  else generic_xattr_set fault "trusted." w fsdata ino name value flags.

(** The handler table. *)
Inductive xhandler := X_user | X_trusted | X_security.
Definition xprefix (h : xhandler) : string :=
  match h with X_user => "user." | X_trusted => "trusted." | X_security => "security." end.
Definition smoothfs_xattr_handlers : list xhandler := [X_user; X_trusted; X_security].

Definition xattr_get (fault : Z) (h : xhandler) (w : xworld) (fsdata : option Z) (ino : Z) (name : string)
    (room : option Z) : result (Z * list Z) :=
  match h with
  | X_trusted => trusted_xattr_get fault w fsdata ino name room
  | _ => generic_xattr_get fault (xprefix h) w fsdata ino name room
  end.

Definition xattr_set (fault : Z) (capable : bool) (h : xhandler) (w : xworld) (fsdata : option Z) (ino : Z)
    (name : string) (value : option (list Z)) (flags : Z) : Z * xworld :=
  match h with
  | X_trusted => trusted_xattr_set fault capable w fsdata ino name value flags
  | _ => generic_xattr_set fault (xprefix h) w fsdata ino name value flags
  end.

(** The names of the lower object's attributes, each ended by a zero byte. *)
Definition name_bytes (n : string) : list Z :=
  map (fun c => Z.of_nat (Ascii.nat_of_ascii c)) (String.list_ascii_of_string n) ++ [0].

Definition lower_names (w : xworld) (d : Z) : list string :=
  List.filter (fun n => bool_decide (is_Some (lower_attr w d n)))
    (SMOOTHFS_OID_XATTR :: SMOOTHFS_GEN_XATTR :: map fst (map_to_list (default ∅ (xw_attr w !! d)))).

Definition smoothfs_listxattr (fault : Z) (w : xworld) (fsdata : option Z) (ino : Z) (room : option Z)
  : result (Z * list Z) :=
  match xattr_lower w fsdata ino with
  | None => Err (- EINVAL)
  | Some d => if fault <? 0 then Err fault else give room (concat (map name_bytes (lower_names w d)))
  end.

(** ** Setting one attribute *)

Record xset := XSet {
  xs_fault : Z; xs_capable : bool; xs_handler : xhandler; xs_fsdata : option Z; xs_ino : Z;
  xs_name : string; xs_value : option (list Z); xs_flags : Z;
}.
Definition do_set (w : xworld) (x : xset) : Z * xworld :=
  xattr_set (xs_fault x) (xs_capable x) (xs_handler x) w (xs_fsdata x) (xs_ino x) (xs_name x) (xs_value x) (xs_flags x).
Definition run_sets (w : xworld) (l : list xset) : xworld := foldl (fun w x => snd (do_set w x)) w l.

(** A request that releases the pin [p] of inode [ino]. *)
Definition releases (ino : Z) (p : pin_state) (x : xset) : Prop :=
  xs_handler x = X_trusted /\ xs_capable x = true /\ xs_ino x = ino /\ wanted (xs_value x) = Ok false
  /\ (p = PIN_LEASE /\ xs_name x = "smoothfs.lease"%string \/ p = PIN_LUN /\ xs_name x = "smoothfs.lun"%string).

(** The members a set call leaves alone. *)
Definition pool_frame (sbi : sb_info) :=
  (oid_map sbi, oid_map_ready sbi, quiesced sbi, ntiers sbi, cache_mode sbi).

(** Inode [ino] keeps everything but its pin, which changes only by taking a
    free one or by a release of its owner. *)
Definition pin_step (x : xset) (w w' : xworld) : Prop :=
  pool_frame (xw_sb w') = pool_frame (xw_sb w) /\ keyed (xw_sb w')
  /\ forall ino si, inodes (xw_sb w) !! ino = Some si ->
     exists si', inodes (xw_sb w') !! ino = Some si' /\ si' = si <| pin := pin si' |>
     /\ (pin si' = pin si \/ pin si = PIN_NONE \/ releases ino (pin si) x).

Lemma pin_same (si : inode_info) : si = si <| pin := pin si |>.
Proof. by destruct si. Qed.

Lemma pin_step_refl x w : keyed (xw_sb w) -> pin_step x w w.
Proof. intros K. split; [done|]. split; [done|]. intros ino si H. exists si. split; [done|]. split; [apply pin_same|by left]. Qed.

Lemma put_attr_inodes w d full v : inodes (xw_sb (put_lower_attr w d full v)) = inodes (xw_sb w)
  /\ pool_frame (xw_sb (put_lower_attr w d full v)) = pool_frame (xw_sb w).
Proof. unfold put_lower_attr. destruct (lower (xw_sb w) !! d); [|done]. repeat case_goal; done. Qed.

(** What passes through touches only the lower object. *)
Lemma generic_set_cases fault prefix w fsd ino name v flags err w' :
  generic_xattr_set fault prefix w fsd ino name v flags = (err, w') ->
  w' = w /\ err <> 0
  \/ exists d full, full_name prefix name = Ok full /\ xattr_lower w fsd ino = Some d /\ w' = put_lower_attr w d full v /\ err = 0.
Proof.
  unfold generic_xattr_set, full_name. destruct (_ <=? _); [by intros [= <- <-]; left|].
  destruct (xattr_lower w fsd ino) as [d|]; [|by intros [= <- <-]; left].
  unfold lower_removexattr, lower_setxattr. destruct v as [v|]; (destruct (Z.ltb_spec fault 0); [intros [= <- <-]; left; split; [done|lia]|]);
    destruct (lower_attr w d _); repeat case_goal; intros [= <- <-]; first [by left|right; by exists d, (prefix ++ name)%string].
Qed.

Lemma generic_set_step fault prefix w fsd ino name v flags x : keyed (xw_sb w) ->
  pin_step x w (snd (generic_xattr_set fault prefix w fsd ino name v flags)).
Proof.
  intros K. destruct (generic_xattr_set _ _ _ _ _ _ _ _) as [err w'] eqn:E.
  apply generic_set_cases in E as [[-> _]|(d & full & _ & _ & -> & _)]; [by apply pin_step_refl|]. cbn [snd].
  destruct (put_attr_inodes w d full v) as [E1 E2]. split; [done|]. unfold keyed in *. rewrite E1. split; [done|].
  intros i si H. exists si. split; [done|]. split; [apply pin_same|by left].
Qed.

Lemma toggle_step mine value w ino si x : keyed (xw_sb w) -> inodes (xw_sb w) !! ino = Some si ->
  (wanted value = Ok false -> releases ino mine x) ->
  pin_step x w (snd (toggle_pin mine value w si)).
Proof.
  intros K Hsi Hr. pose proof (K _ _ Hsi) as Hi. unfold toggle_pin.
  assert (forall p, pin si = PIN_NONE \/ releases ino (pin si) x ->
    pin_step x w (XWorld (put_inode (xw_sb w) (si <| pin := p |>)) (xw_attr w))) as Hput.
  { intros p Hp. split; [done|]. split.
    - intros i s Hs. cbn in Hs. apply lookup_insert_Some in Hs as [[<- <-]|[_ Hs]]; [done|by apply K].
    - intros i s Hs. cbn. destruct (decide (i = ino)) as [->|Hne].
      + rewrite Hsi in Hs. injection Hs as <-. rewrite Hi, lookup_insert_eq. eexists. by split_and!; [..|right].
      + rewrite lookup_insert_ne by congruence. exists s. split; [done|]. split; [apply pin_same|by left]. }
  destruct (wanted value) as [err|[]]; [by apply pin_step_refl| |].
  - unfold pin_eqb. destruct (bool_decide_reflect (pin si = PIN_NONE)); [by apply Hput; left|].
    case_goal; by apply pin_step_refl.
  - unfold pin_eqb. destruct (bool_decide_reflect (pin si = mine)) as [E|E]; [|by apply pin_step_refl].
    apply Hput. right. rewrite E. by apply Hr.
Qed.

Lemma set_step w x : keyed (xw_sb w) -> pin_step x w (snd (do_set w x)).
Proof.
  intros K. unfold do_set, xattr_set. destruct (xs_handler x) eqn:Eh; [by apply generic_set_step| |by apply generic_set_step].
  unfold trusted_xattr_set. destruct (reserved (xs_name x)); [|by apply generic_set_step].
  destruct (xs_capable x) eqn:Ec; cbn [negb]; [|by apply pin_step_refl].
  case_goal; [by apply pin_step_refl|]. destruct (inodes (xw_sb w) !! xs_ino x) as [si|] eqn:Ei; [|by apply generic_set_step].
  destruct (bool_decide_reflect (xs_name x = "smoothfs.lease"%string)) as [En|_].
  { eapply toggle_step; [done|exact Ei|]. intros Hw. split_and!; [done..|by left]. }
  destruct (bool_decide_reflect (xs_name x = "smoothfs.lun"%string)) as [En|_]; [|by apply generic_set_step].
  eapply toggle_step; [done|exact Ei|]. intros Hw. split_and!; [done..|by right].
Qed.

(** ** Pins *)

Lemma run_sets_spec l : forall w ino si, keyed (xw_sb w) -> inodes (xw_sb w) !! ino = Some si ->
  keyed (xw_sb (run_sets w l)) /\ pool_frame (xw_sb (run_sets w l)) = pool_frame (xw_sb w)
  /\ exists si', inodes (xw_sb (run_sets w l)) !! ino = Some si' /\ si' = si <| pin := pin si' |>
  /\ (pin si <> PIN_NONE -> pin si' = pin si \/ Exists (releases ino (pin si)) l).
Proof.
  induction l as [|x l IH]; intros w ino si K Hi.
  { split; [done|]. split; [done|]. exists si. split; [done|]. split; [apply pin_same|by left]. }
  destruct (set_step w x K) as (F & K1 & Hs). destruct (Hs _ _ Hi) as (s1 & H1 & E1 & P1).
  destruct (IH _ _ _ K1 H1) as (K2 & F2 & s2 & H2 & E2 & P2). split; [exact K2|]. split; [by rewrite <- F|].
  exists s2. split; [exact H2|]. split; [rewrite E2, E1; done|]. intros Hne.
  destruct P1 as [P1|[P1|P1]]; [|done|right; by left].
  rewrite P1 in P2. destruct (P2 Hne) as [->|He]; [by left|right; by right].
Qed.

(** C31. Whatever extended attributes are set or removed on whatever objects, by
    whom and with whatever faults, an object's pin stays as it is until an
    attribute call that names the pin itself releases it, and while a pin other
    than a lease is held every plan to move the object is refused and changes no
    inode. *)
Theorem pins_hold_until_released `{Recovery R} (rec : R) w l ino si :
  keyed (xw_sb w) -> inodes (xw_sb w) !! ino = Some si -> smoothfs_lookup_oid (xw_sb w) (oid si) = Some ino ->
  pin si <> PIN_NONE -> ~ Exists (releases ino (pin si)) l ->
  let w' := run_sets w l in
  inodes (xw_sb w') !! ino = Some si
  /\ (pin si <> PIN_LEASE -> forall alloc emit now t seq force,
       let '(err, m) := smoothfs_movement_plan alloc emit now (MWorld rec (xw_sb w')) (oid si) t seq force in
       err <> 0 /\ inodes (mw_sb m) = inodes (xw_sb w')).
Proof.
  intros K Hi Hl Hp Hn w'. destruct (run_sets_spec l w ino si K Hi) as (K' & F & si' & Hi' & E & P).
  fold w' in K', F, Hi'. assert (inodes (xw_sb w') !! ino = Some si) as Hsi.
  { destruct (P Hp) as [Hq|Hq]; [|done]. rewrite E, Hq in Hi'. by rewrite <- pin_same in Hi'. }
  split; [exact Hsi|]. intros Hne alloc emit now t seq force.
  assert (smoothfs_lookup_oid (xw_sb w') (oid si) = Some ino) as Hl'.
  { unfold smoothfs_lookup_oid in *. unfold pool_frame in F. injection F as E1 E2 _ _ _. by rewrite E1, E2. }
  pose proof (plan_spec alloc emit now (MWorld rec (xw_sb w')) (oid si) t seq force ino si K' Hl' Hsi) as Hs.
  destruct (smoothfs_movement_plan _ _ _ _ _ _ _ _) as [err m]. destruct Hs as [H1 H2].
  assert (err <> 0) as He by (intros E0; apply H1 in E0 as (_ & _ & _ & _ & _ & [?|[_ ?]] & _); done).
  split; [exact He|]. destruct (Z.eqb_spec err 0); [done|exact H2].
Qed.

(** ** Values *)

Lemma full_name_inj h1 n1 h2 n2 full : full_name (xprefix h1) n1 = Ok full -> full_name (xprefix h2) n2 = Ok full ->
  h1 = h2 /\ n1 = n2.
Proof.
  unfold full_name. repeat case_goal; [done..|]. intros [= <-] [= Hx]. destruct h1, h2; cbn in Hx; try discriminate Hx;
    injection Hx as Hx; cbn in Hx; by subst.
Qed.

Lemma lower_attr_put_eq w d full v : is_Some (lower (xw_sb w) !! d) -> lower_attr (put_lower_attr w d full v) d full = v.
Proof.
  intros [l Hl]. unfold put_lower_attr. rewrite Hl.
  destruct (bool_decide (full = SMOOTHFS_OID_XATTR)) eqn:E1; unfold lower_attr; cbn; rewrite ?E1;
    [rewrite lookup_insert_eq; done|].
  destruct (bool_decide (full = SMOOTHFS_GEN_XATTR)) eqn:E2; cbn; rewrite ?E1, ?E2; [rewrite lookup_insert_eq; done|].
  by rewrite Hl, lookup_insert_eq; cbn; rewrite lookup_partial_alter_eq.
Qed.

Lemma lower_attr_put_ne w d full v d2 full2 : full2 <> full ->
  lower_attr (put_lower_attr w d full v) d2 full2 = lower_attr w d2 full2.
Proof.
  intros Hne. unfold put_lower_attr. destruct (lower (xw_sb w) !! d) as [l|] eqn:Hl; [|done].
  destruct (bool_decide_reflect (full = SMOOTHFS_OID_XATTR)) as [E1|E1];
    [|destruct (bool_decide_reflect (full = SMOOTHFS_GEN_XATTR)) as [E2|E2]]; unfold lower_attr; cbn.
  - destruct (decide (d2 = d)) as [->|]; [|by rewrite lookup_insert_ne]. rewrite lookup_insert_eq, Hl. cbn.
    rewrite (bool_decide_eq_false_2 (full2 = SMOOTHFS_OID_XATTR)) by congruence. done.
  - destruct (decide (d2 = d)) as [->|]; [|by rewrite lookup_insert_ne]. rewrite lookup_insert_eq, Hl. cbn.
    rewrite (bool_decide_eq_false_2 (full2 = SMOOTHFS_GEN_XATTR)) by congruence. done.
  - destruct (decide (d2 = d)) as [->|]; [|by rewrite lookup_insert_ne]. rewrite Hl, lookup_insert_eq. cbn.
    rewrite lookup_partial_alter_ne by congruence. by destruct (xw_attr w !! d).
Qed.

(** Reading one attribute depends on the inode without its pin, the pin flags
    and the lower attribute of that name. *)
Lemma get_same fault h w w' fsd ino name room :
  (forall i, option_map (fun si => si <| pin := PIN_NONE |>) (inodes (xw_sb w') !! i)
             = option_map (fun si => si <| pin := PIN_NONE |>) (inodes (xw_sb w) !! i)) ->
  (h = X_trusted -> forall mine, name = "smoothfs.lease"%string /\ mine = PIN_LEASE \/ name = "smoothfs.lun"%string /\ mine = PIN_LUN ->
     option_map (pin_flag mine) (inodes (xw_sb w') !! ino) = option_map (pin_flag mine) (inodes (xw_sb w) !! ino)) ->
  (forall d full, full_name (xprefix h) name = Ok full -> lower_attr w' d full = lower_attr w d full) ->
  xattr_get fault h w' fsd ino name room = xattr_get fault h w fsd ino name room.
Proof.
  intros Hi Hp Ha.
  assert (xattr_lower w' fsd ino = xattr_lower w fsd ino) as El.
  { unfold xattr_lower. destruct fsd; [done|]. specialize (Hi ino).
    destruct (inodes (xw_sb w') !! ino) as [s'|], (inodes (xw_sb w) !! ino) as [s|]; try done.
    apply (inj Some), (f_equal lower_path) in Hi. cbn in Hi |- *. by rewrite Hi. }
  assert (forall p, p = xprefix h -> generic_xattr_get fault p w' fsd ino name room = generic_xattr_get fault p w fsd ino name room) as Hg.
  { intros p ->. unfold generic_xattr_get, lower_getxattr. rewrite El. destruct (full_name _ _) as [|full] eqn:Ef; [done|].
    destruct (xattr_lower w fsd ino); [|done]. by rewrite (Ha _ _ eq_refl). }
  destruct h; cbn [xattr_get]; [by apply Hg| |by apply Hg]. unfold trusted_xattr_get.
  specialize (Hp eq_refl). pose proof (Hp PIN_LEASE) as Hl. pose proof (Hp PIN_LUN) as Hu. specialize (Hi ino).
  destruct (inodes (xw_sb w') !! ino) as [s'|], (inodes (xw_sb w) !! ino) as [s|]; try done; [|by apply Hg].
  apply (inj Some) in Hi. pose proof (f_equal i_ino Hi) as E1. pose proof (f_equal oid Hi) as E2.
  pose proof (f_equal gen Hi) as E3. cbn in E1, E2, E3, Hl, Hu. rewrite E1, E2, E3.
  do 3 (case_goal; [done|]).
  destruct (bool_decide_reflect (name = "smoothfs.lease"%string)) as [En|_].
  { specialize (Hl (or_introl (conj En eq_refl))). apply (inj Some) in Hl. by rewrite Hl. }
  destruct (bool_decide_reflect (name = "smoothfs.lun"%string)) as [En|_]; [|by apply Hg].
  specialize (Hu (or_intror (conj En eq_refl))). apply (inj Some) in Hu. by rewrite Hu.
Qed.

(** The inodes and lower attributes after a successful set. *)
Lemma set_effect fault capable h w fsd ino name v flags w' : keyed (xw_sb w) ->
  xattr_set fault capable h w fsd ino name v flags = (0, w') ->
  (exists d full, full_name (xprefix h) name = Ok full /\ xattr_lower w fsd ino = Some d /\ w' = put_lower_attr w d full v)
  \/ exists si p, h = X_trusted /\ reserved name = true /\ inodes (xw_sb w) !! ino = Some si
     /\ w' = XWorld (put_inode (xw_sb w) (si <| pin := p |>)) (xw_attr w)
     /\ (name = "smoothfs.lease"%string /\ (pin si = PIN_NONE \/ pin si = PIN_LEASE \/ p = pin si) /\ (p = PIN_NONE \/ p = PIN_LEASE \/ p = pin si)
         \/ name = "smoothfs.lun"%string /\ (pin si = PIN_NONE \/ pin si = PIN_LUN \/ p = pin si) /\ (p = PIN_NONE \/ p = PIN_LUN \/ p = pin si)).
Proof.
  intros K.
  assert (forall p, generic_xattr_set fault p w fsd ino name v flags = (0, w') ->
    exists d full, full_name p name = Ok full /\ xattr_lower w fsd ino = Some d /\ w' = put_lower_attr w d full v) as Hg.
  { intros p [[_ ?]|(d & full & A & B & D & _)]%generic_set_cases; [done|by exists d, full]. }
  destruct h; cbn [xattr_set]; [intros H; left; by apply Hg| |intros H; left; by apply Hg].
  unfold trusted_xattr_set. destruct (reserved name); [|intros H; left; by apply Hg].
  destruct capable; cbn [negb]; [|done]. case_goal; [done|].
  destruct (inodes (xw_sb w) !! ino) as [si|] eqn:Ei; [|intros H; left; by apply Hg].
  assert (forall mine, toggle_pin mine v w si = (0, w') -> exists p, w' = XWorld (put_inode (xw_sb w) (si <| pin := p |>)) (xw_attr w)
    /\ (pin si = PIN_NONE \/ pin si = mine \/ p = pin si) /\ (p = PIN_NONE \/ p = mine \/ p = pin si)) as Ht.
  { assert (w = XWorld (put_inode (xw_sb w) (si <| pin := pin si |>)) (xw_attr w)) as Hw.
    { rewrite <- pin_same. unfold put_inode. rewrite (K _ _ Ei), insert_id by done. by destruct w as [[] ?]. }
    intros mine. unfold toggle_pin. destruct (wanted v) as [err|[]]; [|unfold pin_eqb..].
    - intros [= _ <-]. exists (pin si). split; [exact Hw|]. by split; right; right.
    - destruct (bool_decide_reflect (pin si = PIN_NONE)); [intros [= <-]; exists mine; split; [done|]; by split; [left|right; left]|].
      case_goal; [done|]. intros [= <-]. exists (pin si). split; [exact Hw|]. by split; right; right.
    - destruct (bool_decide_reflect (pin si = mine)); intros [= <-]; [exists PIN_NONE; split; [done|]; by split; [right; left|left]|].
      exists (pin si). split; [exact Hw|]. by split; right; right. }
  destruct (bool_decide_reflect (name = "smoothfs.lease"%string)) as [En|_];
    [|destruct (bool_decide_reflect (name = "smoothfs.lun"%string)) as [En|_]; [|intros H; left; by apply Hg]];
    intros (p & -> & A & B)%Ht; right; exists si, p; split_and!; try done; [by left|by right].
Qed.

(** A name outside trusted.smoothfs.* is answered by the lower object. *)
Lemma get_plain fault h w fsd ino name room : (h = X_trusted -> reserved name = false) ->
  xattr_get fault h w fsd ino name room = generic_xattr_get fault (xprefix h) w fsd ino name room.
Proof.
  intros Hr. destruct h; [done| |done]. specialize (Hr eq_refl). cbn [xattr_get]. unfold trusted_xattr_get.
  destruct (inodes (xw_sb w) !! ino) as [si|]; [|done].
  do 5 (rewrite bool_decide_eq_false_2 by (intros ->; discriminate Hr)). done.
Qed.

Lemma xattr_lower_put w d full v fsd ino : xattr_lower (put_lower_attr w d full v) fsd ino = xattr_lower w fsd ino.
Proof. unfold xattr_lower. by destruct (put_attr_inodes w d full v) as [-> _]. Qed.

(** An attribute outside trusted.smoothfs.* that was set reads back with the
    value it was set to, for every buffer size, and one that was removed as
    absent; setting an attribute, a pin included, changes what no other
    attribute of any object reads as. *)
Theorem attributes_roundtrip fault capable h w fsd ino name v flags w' :
  keyed (xw_sb w) -> (forall d, xattr_lower w fsd ino = Some d -> is_Some (lower (xw_sb w) !! d)) ->
  xattr_set fault capable h w fsd ino name v flags = (0, w') ->
  ((h = X_trusted -> reserved name = false) -> forall f room, 0 <= f ->
     xattr_get f h w' fsd ino name room = match v with None => Err (- ENODATA) | Some b => give room b end)
  /\ (forall f h2 fsd2 ino2 name2 room, h2 <> h \/ name2 <> name ->
       xattr_get f h2 w' fsd2 ino2 name2 room = xattr_get f h2 w fsd2 ino2 name2 room).
Proof.
  intros K Hd H. destruct (set_effect _ _ _ _ _ _ _ _ _ _ K H) as [(d & full & Hf & Hl & ->)|(si & p & -> & Hr & Hi & -> & Hn)]; clear H.
  - split.
    + intros Hr f room Hf0. rewrite get_plain by done. unfold generic_xattr_get, lower_getxattr.
      rewrite Hf, xattr_lower_put, Hl, lower_attr_put_eq by by apply Hd. destruct (Z.ltb_spec f 0); [lia|done].
    + intros f h2 fsd2 ino2 name2 room Hne. destruct (put_attr_inodes w d full v) as [E _]. apply get_same; rewrite ?E; [done..|].
      intros d2 full2 Hf2. apply lower_attr_put_ne. intros ->. destruct (full_name_inj _ _ _ _ _ Hf Hf2). by destruct Hne.
  - split; [intros H; specialize (H eq_refl); congruence|]. intros f h2 fsd2 ino2 name2 room Hne. apply get_same; [| |done].
    + intros i. cbn. rewrite (K _ _ Hi). destruct (decide (i = ino)) as [->|]; [|by rewrite lookup_insert_ne].
      rewrite lookup_insert_eq, Hi. cbn. by rewrite (K _ _ Hi).
    + intros -> mine Hm. cbn. rewrite (K _ _ Hi). destruct (decide (ino2 = ino)) as [->|]; [|by rewrite lookup_insert_ne].
      rewrite lookup_insert_eq, Hi. cbn. unfold pin_flag. cbn. do 2 f_equal.
      destruct Hne as [?|Hne]; [done|]. unfold pin_eqb.
      destruct Hn as [(-> & A & B)|(-> & A & B)], Hm as [(-> & ->)|(-> & ->)]; try done;
        repeat case_bool_decide; try done; intuition congruence.
Qed.

(** ** Examples *)

(** The pool of [Movement]'s examples: inode 7 with backing object 100. *)
Definition xa_world : xworld := XWorld (mv_pool MS_PLACED) ∅.

Definition set_lun (v : Z) : xset := XSet 0 true X_trusted None 7 "smoothfs.lun" (Some [v]) 0.
Definition set_lease (v : Z) : xset := XSet 0 true X_trusted None 7 "smoothfs.lease" (Some [v]) 0.
Definition lun_world : xworld := run_sets xa_world [set_lun 1].
Definition lun_inode : inode_info := default (mv_inode MS_PLACED) (inodes (xw_sb lun_world) !! 7).

Lemma put_keyed sbi si : keyed sbi -> keyed (put_inode sbi si).
Proof. intros K ino s H. cbn in H. apply lookup_insert_Some in H as [[<- <-]|[_ H]]; [done|by apply K]. Qed.

(** With the LUN pin taken, requests for the lease do not help a forced plan. *)
Lemma pins_hold_until_released_witness :
  pin lun_inode = PIN_LUN
  /\ fst (smoothfs_movement_plan true true 1 (MWorld tt (xw_sb (run_sets lun_world [set_lease 1; set_lease 0]))) (oid lun_inode) 1 9 true) <> 0.
Proof.
  assert (pin lun_inode = PIN_LUN) as Hp by (vm_compute; reflexivity). split; [exact Hp|].
  assert (lun_world = XWorld (put_inode (mv_pool MS_PLACED) (mv_inode MS_PLACED <| pin := PIN_LUN |>)) ∅) as Hw
    by (vm_compute; reflexivity).
  destruct (pins_hold_until_released tt lun_world [set_lease 1; set_lease 0] 7 lun_inode) as [_ H].
  - rewrite Hw. apply put_keyed, mv_pool_keyed.
  - vm_compute. reflexivity.
  - vm_compute. reflexivity.
  - rewrite Hp. discriminate.
  - rewrite Hp. intros He. inversion He as [? ? Hx|? ? He2]; subst; [|inversion He2 as [? ? Hx|? ? He3]; subst; [|inversion He3]];
      destruct Hx as (_ & _ & _ & _ & [[Hx _]|[_ Hx]]); discriminate Hx.
  - rewrite Hp in H. specialize (H ltac:(discriminate) true true 1 1 9 true).
    destruct (smoothfs_movement_plan _ _ _ _ _ _ _ _) as [err m]. by destruct H.
Defined.

Lemma attributes_roundtrip_witness :
  exists w', xattr_set 0 false X_user xa_world None 7 "color" (Some [1; 2; 3]) 0 = (0, w')
  /\ xattr_get 0 X_user w' None 7 "color" (Some 8) = Ok (3, [1; 2; 3]).
Proof.
  destruct (xattr_set 0 false X_user xa_world None 7 "color" (Some [1; 2; 3]) 0) as [err w'] eqn:E.
  assert (err = 0) as -> by (revert E; vm_compute; by intros [= <- _]).
  exists w'. split; [reflexivity|].
  destruct (attributes_roundtrip 0 false X_user xa_world None 7 "color" (Some [1; 2; 3]) 0 w') as [H _].
  - apply mv_pool_keyed.
  - intros d Hd. assert (d = 100) as -> by (revert Hd; vm_compute; by intros [= <-]). vm_compute. by eexists.
  - exact E.
  - rewrite (H ltac:(discriminate) 0 (Some 8) ltac:(lia)). reflexivity.
Defined.

(** A new value of trusted.smoothfs.oid reaches the lower object, but reads are
    answered from the cached inode, which keeps the old one. *)
Example written_oid_is_not_read_back :
  let r := xattr_set 0 true X_trusted xa_world None 7 "smoothfs.oid" (Some (replicate 16 9)) 0 in
  fst r = 0 /\ lower_attr (snd r) 100 SMOOTHFS_OID_XATTR = Some (replicate 16 9)
  /\ xattr_get 0 X_trusted (snd r) None 7 "smoothfs.oid" (Some 16) = Ok (16, oid (mv_inode MS_PLACED)).
Proof. vm_compute. done. Qed.
