(* ===== verification/Export.v ===== *)
(** * NFS file handles: src/src/smoothfs/export.c

    A handle names an object by pool and object id, with the parent's id in the
    connectable form; a server keeps handles across eviction and remount.
    Resolving one looks the id up in memory, then in the recovery index, and
    hands out a dentry of the inode whose lower dentry is set. *)
From S2P Require Import Prelude Types Oid KernelIO PlacementLog InodeMaps Movement.

Definition SMOOTHFS_FH_DWORDS : Z := 6.
Definition SMOOTHFS_FH_CONNECTABLE_DWORDS : Z := 10.
Definition FILEID_INVALID : Z := 0xff.
Definition FILEID_SMOOTHFS_OID : Z := 0x53.
Definition FILEID_SMOOTHFS_OID_CONNECTABLE : Z := 0x54.

(** Returns the handle type, [*max_len] in 32-bit words, and the bytes written
    (nothing with [FILEID_INVALID]). *)
Definition smoothfs_encode_fh (sbi : sb_info) (si : inode_info) (max_len : Z) (parent : option inode_info)
  : Z * Z * list Z :=
  let gen := 0 in
  match parent with
  | Some psi =>
      if max_len <? SMOOTHFS_FH_CONNECTABLE_DWORDS
      then (FILEID_INVALID, SMOOTHFS_FH_CONNECTABLE_DWORDS, [])
      else (FILEID_SMOOTHFS_OID_CONNECTABLE, SMOOTHFS_FH_CONNECTABLE_DWORDS,
            le_split 4 (fsid sbi) ++ oid si ++ le_split 4 gen ++ oid psi)
  | None =>
      if max_len <? SMOOTHFS_FH_DWORDS then (FILEID_INVALID, SMOOTHFS_FH_DWORDS, [])
      else (FILEID_SMOOTHFS_OID, SMOOTHFS_FH_DWORDS, le_split 4 (fsid sbi) ++ oid si ++ le_split 4 gen)
  end.

(** [n] bytes of the handle from 32-bit word [i] on. *)
Definition fid_bytes (fid : list Z) (i n : nat) : list Z := take n (drop (4 * i) fid).

(** Give the inode's first dentry (a fresh one when it has none) its lower
    dentry; [alloc]: there is memory for a new dentry. *)
Definition d_obtain_alias (alloc : bool) (si : inode_info) : result inode_info :=
  match aliases si with
  | _ :: _ => Ok si
  | [] => if alloc then Ok (si <| aliases := [None] |>) else Err (- ENOMEM)
  end.

Definition fill_alias (si : inode_info) : inode_info :=
  match aliases si, lower_path si with
  | None :: l, Some p => si <| aliases := Some (p_dentry p) :: l |>
  | _, _ => si
  end.

(** Hand out a dentry of inode [ino]. *)
Definition obtain_dentry (alloc : bool) (sbi : sb_info) (ino : Z) : result Z * sb_info :=
  match inodes sbi !! ino with
  | None => (Err (- ESTALE), sbi)
  | Some si =>
      match d_obtain_alias alloc si with
      | Err e => (Err e, sbi)
      | Ok si => (Ok ino, put_inode sbi (fill_alias si))
      end
  end.

Section Handles.
Context {R : Type} `{Recovery R}.

(** [grab]: inodes that are not being freed; [s_root]: the root inode, once it
    exists.  The result is the inode of the dentry. *)
Definition smoothfs_resolve_oid (grab : Z -> bool) (alloc : bool) (s_root : option Z) (w : @mworld R) (o : list Z)
  : result Z * mworld :=
  if bytes_eqb o zero_oid then
    match s_root with
    | None => (Err (- ESTALE), w)
    | Some root => (Ok root, w)
    end
  else
    let igrab r := match r with Some i => if grab i then Some i else None | None => None end in
    let (inode, w) :=
      match igrab (smoothfs_lookup_oid (mw_sb w) o) with
      | Some i => (Some i, w)
      | None =>
          let '(r, (rec, sbi)) := recovery_resolve_oid (mw_rec w) (mw_sb w) o in (igrab r, MWorld rec sbi)
      end in
    match inode with
    | None => (Err (- ESTALE), w)
    | Some i => let (r, sbi) := obtain_dentry alloc (mw_sb w) i in (r, MWorld (mw_rec w) sbi)
    end.

Definition smoothfs_fh_to_dentry (grab : Z -> bool) (alloc : bool) (s_root : option Z) (w : mworld)
    (fid : list Z) (fh_len fh_type : Z) : result Z * mworld :=
  let required := if fh_type =? FILEID_SMOOTHFS_OID then Some SMOOTHFS_FH_DWORDS
                  else if fh_type =? FILEID_SMOOTHFS_OID_CONNECTABLE then Some SMOOTHFS_FH_CONNECTABLE_DWORDS
                  else None in
  match required with
  | None => (Err (- EINVAL), w)
  | Some required =>
      if fh_len <? required then (Err (- ESTALE), w)
      else if negb (le_combine (fid_bytes fid 0 4) =? fsid (mw_sb w)) then (Err (- ESTALE), w)
      else smoothfs_resolve_oid grab alloc s_root w (fid_bytes fid 1 SMOOTHFS_OID_LEN)
  end.

Definition smoothfs_fh_to_parent (grab : Z -> bool) (alloc : bool) (s_root : option Z) (w : mworld)
    (fid : list Z) (fh_len fh_type : Z) : result Z * mworld :=
  if negb (fh_type =? FILEID_SMOOTHFS_OID_CONNECTABLE) then (Err (- EINVAL), w)
  else if fh_len <? SMOOTHFS_FH_CONNECTABLE_DWORDS then (Err (- ESTALE), w)
  else if negb (le_combine (fid_bytes fid 0 4) =? fsid (mw_sb w)) then (Err (- ESTALE), w)
  else smoothfs_resolve_oid grab alloc s_root w (fid_bytes fid 6 SMOOTHFS_OID_LEN).

(** ** Handles *)

Definition oid16 (o : list Z) : Prop := length o = SMOOTHFS_OID_LEN.

Lemma fid_bytes_at pre b post i n : length pre = (4 * i)%nat -> length b = n -> fid_bytes (pre ++ b ++ post) i n = b.
Proof. intros Hi Hn. unfold fid_bytes. rewrite <- Hi, drop_app_length, <- Hn, take_app_length. done. Qed.

Lemma fsid_bytes f rest : 0 <= f < 2 ^ 32 -> le_combine (fid_bytes (le_split 4 f ++ rest) 0 4) = f.
Proof.
  intros Hf. change (le_split 4 f ++ rest) with ([] ++ le_split 4 f ++ rest).
  rewrite fid_bytes_at by done. apply le_combine_split_id. exact Hf.
Qed.

(** The object, when it is in memory, alive and has or can get a dentry. *)
Definition servable (grab : Z -> bool) (alloc : bool) (s_root : option Z) (w : @mworld R) (si : inode_info) : Prop :=
  oid si = zero_oid /\ s_root = Some (i_ino si)
  \/ oid si <> zero_oid /\ smoothfs_lookup_oid (mw_sb w) (oid si) = Some (i_ino si) /\ grab (i_ino si) = true
     /\ inodes (mw_sb w) !! i_ino si = Some si /\ (alloc = true \/ aliases si <> []).

(** Only dentries of the resolved object change. *)
Definition only_dentries (ino : Z) (w w' : @mworld R) : Prop :=
  mw_rec w' = mw_rec w
  /\ forall i, i <> ino -> inodes (mw_sb w') !! i = inodes (mw_sb w) !! i.

Lemma bytes_eqb_ne a b : a <> b -> bytes_eqb a b = false.
Proof. intros Hne. unfold bytes_eqb. by rewrite bool_decide_false. Qed.

Lemma fill_alias_ino si : i_ino (fill_alias si) = i_ino si.
Proof. unfold fill_alias. destruct (aliases si) as [|[d|] l]; try done. by destruct (lower_path si). Qed.

Lemma obtain_dentry_spec alloc sbi ino r sbi' : obtain_dentry alloc sbi ino = (r, sbi') ->
  (forall i, i <> ino -> keyed sbi -> inodes sbi' !! i = inodes sbi !! i)
  /\ (forall i, r = Ok i -> i = ino /\ exists si, inodes sbi !! ino = Some si).
Proof.
  unfold obtain_dentry, d_obtain_alias. destruct (inodes sbi !! ino) as [si|] eqn:E; [|by intros [= <- <-]].
  assert (forall si1, i_ino si1 = i_ino si -> (Ok ino, put_inode sbi (fill_alias si1)) = (r, sbi') ->
    (forall i, i <> ino -> keyed sbi -> inodes sbi' !! i = inodes sbi !! i)
    /\ (forall i, r = Ok i -> i = ino /\ exists si0, Some si = Some si0)) as Hok.
  { intros si1 H1 [= <- <-]. split; [|intros i [= <-]; eauto]. intros i Hi Hk. unfold put_inode. cbn.
    rewrite fill_alias_ino, H1, (Hk _ _ E). by rewrite lookup_insert_ne. }
  destruct (aliases si); [destruct alloc; [by apply Hok|by intros [= <- <-]]|by apply Hok].
Qed.

Lemma resolve_servable grab alloc s_root w si : servable grab alloc s_root w si -> keyed (mw_sb w) ->
  exists w', smoothfs_resolve_oid grab alloc s_root w (oid si) = (Ok (i_ino si), w') /\ only_dentries (i_ino si) w w'.
Proof.
  intros Hs Hk. unfold smoothfs_resolve_oid. destruct Hs as [[-> ->]|(Hne & Hl & Hg & Hi & Ha)].
  - unfold bytes_eqb. rewrite bool_decide_true by done. exists w. by split.
  - rewrite (bytes_eqb_ne _ _ Hne), Hl, Hg.
    destruct (obtain_dentry alloc (mw_sb w) (i_ino si)) as [r sbi] eqn:Eo.
    destruct (obtain_dentry_spec _ _ _ _ _ Eo) as [A B].
    assert (r = Ok (i_ino si)) as ->.
    { revert Eo. unfold obtain_dentry, d_obtain_alias. rewrite Hi.
      destruct (aliases si); [destruct Ha as [->|Ha]; [by intros [= <- _]|done]|by intros [= <- _]]. }
    eexists. split; [reflexivity|]. split; [done|]. intros i Hi'. by apply A.
Qed.

(** Where a resolved inode comes from. *)
Lemma resolve_origin grab alloc s_root w o ino w' : o <> zero_oid ->
  smoothfs_resolve_oid grab alloc s_root w o = (Ok ino, w') ->
  smoothfs_lookup_oid (mw_sb w) o = Some ino \/ fst (recovery_resolve_oid (mw_rec w) (mw_sb w) o) = Some ino.
Proof.
  intros Hz. unfold smoothfs_resolve_oid. rewrite (bytes_eqb_ne _ _ Hz).
  assert (forall i (w1 : @mworld R) r w2, (let (r0, sbi) := obtain_dentry alloc (mw_sb w1) i in (r0, MWorld (mw_rec w1) sbi)) = (r, w2) ->
    r = Ok ino -> i = ino) as Hob.
  { intros i w1 r w2. destruct (obtain_dentry alloc (mw_sb w1) i) as [r0 sbi] eqn:Eo. intros [= <- _] ->.
    destruct (obtain_dentry_spec _ _ _ _ _ Eo) as [_ B]. by destruct (B _ eq_refl). }
  destruct (smoothfs_lookup_oid (mw_sb w) o) as [i|] eqn:El.
  - destruct (grab i) eqn:Eg; [intros Hr; left; f_equal; by eapply (Hob i w)|].
    destruct (recovery_resolve_oid (mw_rec w) (mw_sb w) o) as [[j|] [rec sbi]]; [|done].
    destruct (grab j); [|done]. intros Hr. right. cbn. f_equal. by eapply (Hob j (MWorld rec sbi)).
  - destruct (recovery_resolve_oid (mw_rec w) (mw_sb w) o) as [[j|] [rec sbi]]; [|done].
    destruct (grab j); [|done]. intros Hr. right. cbn. f_equal. by eapply (Hob j (MWorld rec sbi)).
Qed.

(** C21. An NFS handle that was encoded for an inode, with or without its
    parent, fits the room given and decodes to the resolution of the same object
    id; for an object that is cached and has a dentry to give it yields that
    inode and changes no other inode and nothing of the recovery state; the
    parent part likewise. *)
Theorem handle_roundtrip grab alloc s_root sbi si max_len parent ty len fid w :
  0 <= fsid sbi < 2 ^ 32 -> fsid (mw_sb w) = fsid sbi -> oid16 (oid si) -> (forall psi, parent = Some psi -> oid16 (oid psi)) ->
  smoothfs_encode_fh sbi si max_len parent = (ty, len, fid) -> ty <> FILEID_INVALID ->
  Z.of_nat (length fid) = 4 * len /\ len <= max_len
  /\ smoothfs_fh_to_dentry grab alloc s_root w fid len ty = smoothfs_resolve_oid grab alloc s_root w (oid si)
  /\ (servable grab alloc s_root w si -> keyed (mw_sb w) ->
      exists w', smoothfs_fh_to_dentry grab alloc s_root w fid len ty = (Ok (i_ino si), w') /\ only_dentries (i_ino si) w w')
  /\ (forall psi, parent = Some psi ->
      smoothfs_fh_to_parent grab alloc s_root w fid len ty = smoothfs_resolve_oid grab alloc s_root w (oid psi)
      /\ (servable grab alloc s_root w psi -> keyed (mw_sb w) ->
          exists w', smoothfs_fh_to_parent grab alloc s_root w fid len ty = (Ok (i_ino psi), w') /\ only_dentries (i_ino psi) w w')).
Proof.
  intros Hf Hw Ho Hp He Hty.
  assert (exists post, fid = le_split 4 (fsid sbi) ++ oid si ++ le_split 4 0 ++ post
    /\ match parent with
       | Some psi => post = oid psi /\ ty = FILEID_SMOOTHFS_OID_CONNECTABLE /\ len = SMOOTHFS_FH_CONNECTABLE_DWORDS
       | None => post = [] /\ ty = FILEID_SMOOTHFS_OID /\ len = SMOOTHFS_FH_DWORDS
       end /\ len <= max_len) as (post & -> & Hc & Hlen).
  { unfold smoothfs_encode_fh in He. destruct parent as [psi|].
    - destruct (Z.ltb_spec max_len SMOOTHFS_FH_CONNECTABLE_DWORDS); injection He as <- <- <-; [done|by eexists].
    - destruct (Z.ltb_spec max_len SMOOTHFS_FH_DWORDS); injection He as <- <- <-; [done|]. exists []. by rewrite app_nil_r. }
  clear He. assert (smoothfs_fh_to_dentry grab alloc s_root w (le_split 4 (fsid sbi) ++ oid si ++ le_split 4 0 ++ post) len ty
    = smoothfs_resolve_oid grab alloc s_root w (oid si)) as Hd.
  { unfold smoothfs_fh_to_dentry. rewrite fsid_bytes, Hw, (Z.eqb_refl (fsid sbi)), fid_bytes_at by done.
    destruct parent as [psi|]; destruct Hc as (_ & -> & ->); done. }
  split; [|split; [exact Hlen|split; [exact Hd|split; [rewrite Hd; apply resolve_servable|]]]].
  - rewrite !length_app, !length_le_split, Ho. destruct parent as [psi|]; destruct Hc as (-> & _ & ->); [|done].
    by rewrite (Hp psi eq_refl).
  - intros psi ->. destruct Hc as (-> & -> & ->).
    assert (smoothfs_fh_to_parent grab alloc s_root w (le_split 4 (fsid sbi) ++ oid si ++ le_split 4 0 ++ oid psi)
      SMOOTHFS_FH_CONNECTABLE_DWORDS FILEID_SMOOTHFS_OID_CONNECTABLE = smoothfs_resolve_oid grab alloc s_root w (oid psi)) as Hpar.
    { unfold smoothfs_fh_to_parent. rewrite fsid_bytes, Hw, (Z.eqb_refl (fsid sbi)) by done.
      rewrite (app_assoc (oid si)), (app_assoc (le_split 4 (fsid sbi))).
      pose proof (fid_bytes_at (le_split 4 (fsid sbi) ++ oid si ++ le_split 4 0) (oid psi) [] 6 SMOOTHFS_OID_LEN) as Hb.
      rewrite app_nil_r in Hb. rewrite Hb; [done| |by apply Hp]. by rewrite !length_app, !length_le_split, Ho. }
    split; [exact Hpar|]. rewrite Hpar. apply resolve_servable.
Qed.

(** A handle this pool may have issued. *)
Definition well_formed_handle (sbi : sb_info) (fid : list Z) (fh_len fh_type : Z) : bool :=
  ((fh_type =? FILEID_SMOOTHFS_OID) && (SMOOTHFS_FH_DWORDS <=? fh_len)
   || (fh_type =? FILEID_SMOOTHFS_OID_CONNECTABLE) && (SMOOTHFS_FH_CONNECTABLE_DWORDS <=? fh_len))
  && (le_combine (fid_bytes fid 0 4) =? fsid sbi).

(** A handle of another pool, of an unknown type or too short is refused without
    any effect; a well-formed one resolves the id in it, and an inode that is
    returned is the one that the object map or the recovery gives for that id. *)
Theorem bad_handle_is_refused grab alloc s_root w fid fh_len fh_type r w' :
  smoothfs_fh_to_dentry grab alloc s_root w fid fh_len fh_type = (r, w') ->
  if well_formed_handle (mw_sb w) fid fh_len fh_type then
    (r, w') = smoothfs_resolve_oid grab alloc s_root w (fid_bytes fid 1 SMOOTHFS_OID_LEN)
    /\ (forall ino, r = Ok ino -> fid_bytes fid 1 SMOOTHFS_OID_LEN <> zero_oid ->
        smoothfs_lookup_oid (mw_sb w) (fid_bytes fid 1 SMOOTHFS_OID_LEN) = Some ino
        \/ fst (recovery_resolve_oid (mw_rec w) (mw_sb w) (fid_bytes fid 1 SMOOTHFS_OID_LEN)) = Some ino)
  else w' = w /\ (r = Err (- EINVAL) \/ r = Err (- ESTALE)).
Proof.
  unfold smoothfs_fh_to_dentry, well_formed_handle. rewrite !Z.leb_antisym.
  destruct (fh_type =? FILEID_SMOOTHFS_OID) eqn:E1; destruct (fh_type =? FILEID_SMOOTHFS_OID_CONNECTABLE) eqn:E2;
    cbn [andb orb negb]; try (apply Z.eqb_eq in E1; apply Z.eqb_eq in E2; subst; discriminate);
    try (intros [= <- <-]; by auto);
    (destruct (fh_len <? _); cbn [andb orb negb]; [intros [= <- <-]; by auto|]);
    (destruct (_ =? fsid (mw_sb w)); cbn [negb]; [|intros [= <- <-]; by auto]);
    (intros Hr; split; [by symmetry|intros ino -> Hz; revert Hr; apply resolve_origin; exact Hz]).
Qed.

End Handles.

(** ** The parent of a dentry *)

(** [child_lower] is the child's lower dentry, [dget_parent] the lower dentry
    tree (a negative parent as [None]). *)
Definition smoothfs_get_parent (e : iget_env) (alloc : bool) (dget_parent : Z -> option Z) (root child : inode_info)
    (child_lower : option Z) (pl : pool) : result Z * pool :=
  match child_lower with
  | None => (Err (- ESTALE), pl)
  | Some d =>
      match dget_parent d with
      | None => (Err (- ESTALE), pl)
      | Some lower_parent =>
          if bool_decide (p_dentry <$> lower_path root = Some lower_parent) then (Ok (i_ino root), pl)
          else
            let p := Path (match lower_path child with Some q => p_mnt q | None => 0 end) lower_parent in
            match lower (p_sbi pl) !! lower_parent with
            | None => (Err (- ESTALE), pl)
            | Some l =>
                match smoothfs_iget e false false p l pl with
                | (pl, Err err) => (Err err, pl)
                | (pl, Ok ino) =>
                    let (r, sbi) := obtain_dentry alloc (p_sbi pl) ino in (r, pl <| p_sbi := sbi |>)
                end
            end
      end
  end.

(** ** Concrete handles *)

Definition ex_world : @mworld unit := MWorld tt (mv_pool MS_PLACED).
Definition ex_handle : list Z := snd (smoothfs_encode_fh (mv_pool MS_PLACED) (mv_inode MS_PLACED) 10 None).

Lemma handle_roundtrip_witness :
  length ex_handle = 24%nat
  /\ exists w', smoothfs_fh_to_dentry (fun _ => true) true None ex_world ex_handle 6 FILEID_SMOOTHFS_OID = (Ok 7, w').
Proof.
  destruct (handle_roundtrip (fun _ => true) true None (mv_pool MS_PLACED) (mv_inode MS_PLACED) 10 None
    FILEID_SMOOTHFS_OID 6 ex_handle ex_world) as (_ & _ & _ & H & _).
  - cbn. lia.
  - reflexivity.
  - reflexivity.
  - discriminate.
  - reflexivity.
  - discriminate.
  - split; [reflexivity|]. destruct H as (w' & H & _).
    + right. split; [discriminate|]. split; [reflexivity|]. split; [reflexivity|]. split; [reflexivity|]. by left.
    + apply mv_pool_keyed.
    + exists w'. exact H.
Defined.

Lemma bad_handle_is_refused_witness :
  let r := smoothfs_fh_to_dentry (fun _ => true) true None ex_world (9 :: tail ex_handle) 6 FILEID_SMOOTHFS_OID in
  snd r = ex_world /\ (fst r = Err (- EINVAL) \/ fst r = Err (- ESTALE)).
Proof.
  intros r. pose proof (bad_handle_is_refused (fun _ => true) true None ex_world (9 :: tail ex_handle) 6 FILEID_SMOOTHFS_OID
    (fst r) (snd r) ltac:(unfold r; by destruct (smoothfs_fh_to_dentry _ _ _ _ _ _ _))) as H.
  assert (well_formed_handle (mw_sb ex_world) (9 :: tail ex_handle) 6 FILEID_SMOOTHFS_OID = false) as E by (vm_compute; reflexivity).
  rewrite E in H. exact H.
Defined.

(** The root of another tier is not recognised as the root: the parent of a
    top-level file that lives there is a new inode. *)
Example parent_of_a_spilled_file_is_not_the_root :
  let root := smoothfs_alloc_inode 0 1 <| oid := zero_oid |> <| lower_path := Some (Path 10 1) |> in
  let child := mv_inode MS_PLACED <| lower_path := Some (Path 20 200) |> in
  let sbi := mv_pool MS_PLACED <| inodes := {[1 := root; 7 := child]} |>
               <| lower := {[1 := LNode 128 FT_DIR 493 0 2 None None false; 2 := LNode 128 FT_DIR 493 0 2 None None false;
                             200 := LNode 2000 FT_REG 420 5 1 (Some mv_oid) None false]} |> in
  match fst (smoothfs_get_parent calm_env true (fun d => if d =? 200 then Some 2 else None) root child (Some 200) (Pool sbi true [])) with
  | Ok ino => ino <> i_ino root
  | Err _ => False
  end.
Proof. vm_compute. discriminate. Qed.
