(* ===== verification/Netlink.v ===== *)
(** * The control channel: src/src/smoothfs/netlink.c

    A registry of mounted pools, the handlers of the generic netlink family and
    the messages the module sends.  A command names its pool by UUID; the
    handlers decode their attributes and call the movement code.

    The kernel checks attribute types, the lengths given in the policy and the
    capability of the sender before a handler runs; how a message is laid out
    is reduced to its attributes and their sizes. *)
From S2P Require Import Prelude Types Oid KernelIO Heat PlacementLog InodeMaps Movement.

(** ** The registry *)

Section Netlink.
Context {R : Type} `{Recovery R}.

(** A mounted pool with its heat work item. *)
Record npool := NPool { np_w : @mworld R; np_heat : heat_work }.

(** [smoothfs_sb_list] (pools by address, newest first) and the pools. *)
Record nl_world := NlWorld { nl_list : list Z; nl_pools : gmap Z npool }.

Definition smoothfs_sb_register (alloc : bool) (sbi : Z) (w : nl_world) : Z * nl_world :=
  if negb alloc then (- ENOMEM, w) else (0, NlWorld (sbi :: nl_list w) (nl_pools w)).

(** The first entry of this pool goes. *)
Fixpoint list_del_first (sbi : Z) (l : list Z) : list Z :=
  match l with
  | [] => []
  | e :: l => if e =? sbi then l else e :: list_del_first sbi l
  end.
Definition smoothfs_sb_unregister (sbi : Z) (w : nl_world) : nl_world :=
  NlWorld (list_del_first sbi (nl_list w)) (nl_pools w).

Definition has_uuid (w : nl_world) (uuid : list Z) (sbi : Z) : bool :=
  match nl_pools w !! sbi with Some p => bytes_eqb (pool_uuid (mw_sb (np_w p))) uuid | None => false end.
Fixpoint find_pool (ok : Z -> bool) (l : list Z) : option Z :=
  match l with
  | [] => None
  | e :: l => if ok e then Some e else find_pool ok l
  end.
Definition smoothfs_sb_find (w : nl_world) (uuid : list Z) : option Z := find_pool (has_uuid w uuid) (nl_list w).

(** ** Commands *)

(** The attributes of a request that handlers read, as far as present. *)
Record genl_info := GenlInfo {
  at_uuid : option (list Z);
  at_oid : option (list Z);
  at_intended_tier : option Z;
  at_seq : option Z;
  at_force : option Z;
  at_write_seq : option Z;
  at_tail : list Z;               (** the memory after the object id attribute *)
}.

(** What the policy lets through. *)
Definition smoothfs_genl_policy (i : genl_info) : bool :=
  match at_uuid i with Some u => (length u <=? 16)%nat | None => true end
  && match at_oid i with Some o => (length o <=? SMOOTHFS_OID_LEN)%nat | None => true end.

(** [nla_data(...)] read as an object id: 16 bytes from its start. *)
Definition oid_attr (i : genl_info) (o : list Z) : list Z := take SMOOTHFS_OID_LEN (o ++ at_tail i).

Definition resolve_pool (w : nl_world) (i : genl_info) : result Z :=
  match at_uuid i with
  | None => Err (- EINVAL)
  | Some u =>
      if negb (length u =? 16)%nat then Err (- EINVAL)
      else match smoothfs_sb_find w u with Some sbi => Ok sbi | None => Err (- ENODEV) end
  end.

(** What the kernel decides while a handler runs. *)
Record nl_env := NlEnv {
  ne_alloc : bool; ne_emit : bool; ne_now : Z;
  ne_cut : cut_env;
  ne_between : @mworld R -> @mworld R;    (** while a cutover has dropped the inode lock *)
  ne_staged : Z -> bool;                  (** [range_staged] of an inode *)
  ne_alias : option (result string);      (** the inode's first alias, rendered *)
  ne_tier_path : Z -> option string;      (** [smoothfs_path_string] of a tier *)
  ne_goodsize : Z;
}.

(** Run [k] on the pool the request names. *)
Definition on_pool (w : nl_world) (i : genl_info) (k : npool -> Z * npool) : Z * nl_world :=
  match resolve_pool w i with
  | Err e => (e, w)
  | Ok sbi =>
      match nl_pools w !! sbi with
      | None => (- ENODEV, w)
      | Some p => let (r, p) := k p in (r, NlWorld (nl_list w) (<[sbi := p]> (nl_pools w)))
      end
  end.

(** Run a movement function on the pool. *)
Definition move (p : npool) (r : Z * @mworld R) : Z * npool := (fst r, NPool (snd r) (np_heat p)).

Definition doit_register_pool (i : genl_info) (w : nl_world) : Z * nl_world := (0, w).

Definition doit_move_plan (e : nl_env) (i : genl_info) (w : nl_world) : Z * nl_world :=
  on_pool w i (fun p =>
    match at_oid i, at_intended_tier i, at_seq i with
    | Some o, Some dest_tier, Some seq =>
        let force := match at_force i with Some f => negb (f =? 0) | None => false end in
        move p (smoothfs_movement_plan (ne_alloc e) (ne_emit e) (ne_now e) (np_w p) (oid_attr i o) dest_tier seq force)
    | _, _, _ => (- EINVAL, p)
    end).

Definition doit_move_cutover (e : nl_env) (i : genl_info) (w : nl_world) : Z * nl_world :=
  on_pool w i (fun p =>
    match at_oid i, at_seq i with
    | Some o, Some seq =>
        move p (smoothfs_movement_cutover (ne_cut e) (ne_between e) (np_w p) (oid_attr i o) seq (at_write_seq i))
    | _, _ => (- EINVAL, p)
    end).

Definition doit_move_complete (e : nl_env) (i : genl_info) (w : nl_world) : Z * nl_world :=
  on_pool w i (fun p =>
    match at_oid i, at_seq i with
    | Some o, Some seq => move p (smoothfs_movement_complete (ne_alloc e) (ne_emit e) (ne_now e) (np_w p) (oid_attr i o) seq)
    | _, _ => (- EINVAL, p)
    end).

Definition doit_move_rollback (e : nl_env) (i : genl_info) (w : nl_world) : Z * nl_world :=
  on_pool w i (fun p =>
    match at_oid i, at_seq i with
    | Some o, Some seq => move p (smoothfs_movement_rollback (ne_alloc e) (ne_emit e) (ne_now e) (np_w p) (oid_attr i o) seq)
    | _, _ => (- EINVAL, p)
    end).

Definition set_quiesced (b : bool) (p : npool) : npool :=
  NPool (MWorld (mw_rec (np_w p)) (mw_sb (np_w p) <| quiesced := b |>)) (np_heat p).

Definition doit_quiesce (i : genl_info) (w : nl_world) : Z * nl_world :=
  on_pool w i (fun p => (0, set_quiesced true p)).

Definition doit_reconcile (i : genl_info) (w : nl_world) : Z * nl_world :=
  on_pool w i (fun p =>
    let p := set_quiesced false p in
    (0, NPool (MWorld (mw_rec (np_w p)) (smoothfs_clear_pool_mapping_quiesce (mw_sb (np_w p))))
          (smoothfs_heat_kick_drain (np_heat p)))).

Definition doit_tier_down (i : genl_info) (w : nl_world) : Z * nl_world := (0, w).

Definition doit_revoke_mappings (i : genl_info) (w : nl_world) : Z * nl_world :=
  on_pool w i (fun p =>
    match at_oid i with
    | Some o => move p (smoothfs_revoke_mappings (np_w p) (oid_attr i o))
    | None => (- EINVAL, p)
    end).

Definition doit_unimpl (w : nl_world) : Z * nl_world := (- ENOSYS, w).

(** *** INSPECT *)

(** Strip the leading slash of an alias' path; without an alias, the recorded
    path. *)
Definition smoothfs_inode_rel_path (alias : option (result string)) (si : inode_info) : option string :=
  match alias with
  | None => rel_path si
  | Some (Err _) => None
  | Some (Ok (String c s)) => if Ascii.eqb c (Ascii.ascii_of_nat 47) then Some s else Some (String c s)
  | Some (Ok EmptyString) => Some EmptyString
  end.

(** An attribute of a message: its number and its bytes. *)
Definition attr := (Z * list Z)%type.
Definition str_bytes (s : string) : list Z :=
  map (fun c => Z.of_nat (Ascii.nat_of_ascii c)) (String.list_ascii_of_string s) ++ [0].

Definition attrs_size (l : list attr) : Z := 20 + foldr (fun a n => nla_total_size (fsize (snd a)) + n) 0 l.

(** The attributes fit into a buffer of [room] bytes, or [-EMSGSIZE]. *)
Definition build_message (room : Z) (l : list attr) : result (list attr) :=
  if attrs_size l <=? room then Ok l else Err (- EMSGSIZE).

Definition inspect_attrs (staged : bool) (si : inode_info) (rel tier_path : option string) : list attr :=
  [(8, oid si); (11, le_split 1 (current_tier si)); (12, le_split 1 (intended_tier si));
   (10, le_split 1 (ms_code (ms si))); (14, le_split 1 (pin_code (pin si))); (9, le_split 4 (cutover_gen si));
   (13, le_split 8 (transaction_seq si)); (23, le_split 8 (write_seq si)); (24, [if staged then 1 else 0])]
  ++ match rel with Some s => [(19, str_bytes s)] | None => [] end
  ++ match tier_path with Some s => [(6, str_bytes s)] | None => [] end.

(** The return value, the reply and the world after recovery of the object. *)
Definition doit_inspect (e : nl_env) (i : genl_info) (w : nl_world) : Z * option (list attr) * nl_world :=
  match resolve_pool w i with
  | Err err => (err, None, w)
  | Ok sbi =>
      match nl_pools w !! sbi with
      | None => (- ENODEV, None, w)
      | Some p =>
          match at_oid i with
          | None => (- EINVAL, None, w)
          | Some o =>
              let (r, mw) := smoothfs_lookup_oid_resolve (np_w p) (oid_attr i o) in
              let w := NlWorld (nl_list w) (<[sbi := NPool mw (np_heat p)]> (nl_pools w)) in
              match (ino ← r; inodes (mw_sb mw) !! ino) with
              | None => (- ENOENT, None, w)
              | Some si =>
                  if negb (ne_alloc e) then (- ENOMEM, None, w)
                  else match build_message (ne_goodsize e)
                               (inspect_attrs (ne_staged e (i_ino si)) si (smoothfs_inode_rel_path (ne_alias e) si)
                                  (ne_tier_path e (current_tier si))) with
                       | Err err => (err, None, w)
                       | Ok l => (0, Some l, w)
                       end
              end
          end
      end
  end.

(** *** The family *)

(** The operations table; [true]: the sender needs [CAP_NET_ADMIN]. *)
Inductive nl_op := OP_rollback | OP_complete | OP_register | OP_unimpl | OP_plan | OP_tier_down | OP_reconcile | OP_quiesce
  | OP_inspect | OP_cutover | OP_revoke.

Definition smoothfs_genl_ops : list (Z * bool * nl_op) :=
  [(17, true, OP_rollback); (16, true, OP_complete); (1, true, OP_register); (2, true, OP_unimpl); (3, true, OP_plan);
   (4, true, OP_tier_down); (5, true, OP_reconcile); (6, true, OP_quiesce); (7, false, OP_inspect); (8, true, OP_unimpl);
   (13, true, OP_cutover); (14, true, OP_revoke)].

Definition run_op (e : nl_env) (op : nl_op) (i : genl_info) (w : nl_world) : Z * nl_world :=
  match op with
  | OP_rollback => doit_move_rollback e i w
  | OP_complete => doit_move_complete e i w
  | OP_register => doit_register_pool i w
  | OP_unimpl => doit_unimpl w
  | OP_plan => doit_move_plan e i w
  | OP_tier_down => doit_tier_down i w
  | OP_reconcile => doit_reconcile i w
  | OP_quiesce => doit_quiesce i w
  | OP_inspect => let '(r, _, w) := doit_inspect e i w in (r, w)
  | OP_cutover => doit_move_cutover e i w
  | OP_revoke => doit_revoke_mappings i w
  end.

(** The kernel's dispatch over the table: an unknown command, a sender without
    the capability, a message the policy rejects. *)
Definition dispatch (e : nl_env) (admin : bool) (cmd : Z) (i : genl_info) (w : nl_world) : Z * nl_world :=
  match List.find (fun x => fst (fst x) =? cmd) smoothfs_genl_ops with
  | None => (- EOPNOTSUPP, w)
  | Some (_, needs, op) =>
      if needs && negb admin then (- EPERM, w)
      else if negb (smoothfs_genl_policy i) then (- EINVAL, w)
      else run_op e op i w
  end.

(** ** The registry *)

Lemma find_pool_Some ok l sbi : find_pool ok l = Some sbi -> sbi ∈ l /\ ok sbi = true.
Proof.
  induction l as [|e l IH]; cbn; [done|]. destruct (ok e) eqn:E; [intros [= <-]; split; [by left|done]|].
  intros H1. destruct (IH H1). split; [by right|done].
Qed.

(** A registered pool is found by its uuid, no other lookup changes, and
    unregistering it undoes the registration. *)
Theorem registry_finds_the_mounted_pool alloc sbi p w w' :
  sbi ∉ nl_list w -> nl_pools w !! sbi = Some p -> smoothfs_sb_register alloc sbi w = (0, w') ->
  smoothfs_sb_find w' (pool_uuid (mw_sb (np_w p))) = Some sbi
  /\ (forall u, u <> pool_uuid (mw_sb (np_w p)) -> smoothfs_sb_find w' u = smoothfs_sb_find w u)
  /\ smoothfs_sb_unregister sbi w' = w
  /\ (forall u, smoothfs_sb_find (smoothfs_sb_unregister sbi w') u <> Some sbi).
Proof.
  intros Hn Hp. unfold smoothfs_sb_register. destruct alloc; cbn [negb]; [|done]. intros [= <-].
  assert (forall u, has_uuid (NlWorld (sbi :: nl_list w) (nl_pools w)) u = has_uuid w u) as Hu by done.
  assert (smoothfs_sb_unregister sbi (NlWorld (sbi :: nl_list w) (nl_pools w)) = w) as Hun.
  { unfold smoothfs_sb_unregister. cbn. rewrite Z.eqb_refl. by destruct w. }
  split_and!; [| |exact Hun|].
  - unfold smoothfs_sb_find. cbn. rewrite Hu. unfold has_uuid. rewrite Hp. unfold bytes_eqb. by rewrite bool_decide_true.
  - intros u Hne. unfold smoothfs_sb_find. cbn. rewrite Hu. unfold has_uuid at 1. rewrite Hp. unfold bytes_eqb.
    by rewrite bool_decide_false.
  - intros u. rewrite Hun. intros [Hin _]%find_pool_Some. done.
Qed.

(** ** Isolation *)

(** The request names [sbi]: its uuid attribute has 16 bytes, they are the uuid of
    this registered pool, and no pool registered after it has the same uuid. *)
Definition named_pool (i : genl_info) (w : nl_world) (sbi : Z) : Prop :=
  exists u p newer older, at_uuid i = Some u /\ length u = 16%nat
    /\ nl_list w = newer ++ sbi :: older /\ nl_pools w !! sbi = Some p /\ pool_uuid (mw_sb (np_w p)) = u
    /\ (forall s q, s ∈ newer -> nl_pools w !! s = Some q -> pool_uuid (mw_sb (np_w q)) <> u).

(** [w'] differs from [w] at most in the pool the request names. *)
Definition confined (i : genl_info) (w w' : nl_world) : Prop :=
  nl_list w' = nl_list w
  /\ (w' = w \/ exists sbi, named_pool i w sbi /\ forall s, s <> sbi -> nl_pools w' !! s = nl_pools w !! s).

Lemma find_pool_first ok l sbi : find_pool ok l = Some sbi ->
  exists newer older, l = newer ++ sbi :: older /\ ok sbi = true /\ forall s, s ∈ newer -> ok s = false.
Proof.
  induction l as [|x l IH]; cbn; [done|]. destruct (ok x) eqn:Ex.
  - intros [= ->]. exists [], l. split_and!; [done|done|]. by intros s Hs%elem_of_nil.
  - intros Hf. destruct (IH Hf) as (a & b & -> & Hb & Ha). exists (x :: a), b. split_and!; [done|done|].
    intros s [->|Hs]%elem_of_cons; auto.
Qed.

Lemma resolve_pool_names w i sbi : resolve_pool w i = Ok sbi -> named_pool i w sbi.
Proof.
  unfold resolve_pool. destruct (at_uuid i) as [u|] eqn:Eu; [|done]. destruct (Nat.eqb_spec (length u) 16); cbn [negb]; [|done].
  unfold smoothfs_sb_find. destruct (find_pool (has_uuid w u) (nl_list w)) as [s|] eqn:Ef; [|done]. intros [= <-].
  apply find_pool_first in Ef as (a & b & El & Hs & Ha). unfold has_uuid in *.
  destruct (nl_pools w !! s) as [p|] eqn:Ep; [|done]. exists u, p, a, b. apply bool_decide_eq_true in Hs.
  split_and!; try done. intros t q Ht Eq. specialize (Ha t Ht). rewrite Eq in Ha. by apply bool_decide_eq_false in Ha.
Qed.

Lemma confined_refl i w : confined i w w.
Proof. split; [done|by left]. Qed.

(** A handler changes the pool that was resolved. *)
Lemma confined_update i w sbi p : resolve_pool w i = Ok sbi -> confined i w (NlWorld (nl_list w) (<[sbi := p]> (nl_pools w))).
Proof.
  intros Hr. split; [done|]. right. exists sbi. split; [by apply resolve_pool_names|].
  intros s Hs. cbn. by apply lookup_insert_ne.
Qed.

Lemma on_pool_confined w i k r w' : on_pool w i k = (r, w') -> confined i w w'.
Proof.
  unfold on_pool. destruct (resolve_pool w i) as [e|sbi] eqn:Er; [intros [= _ <-]; apply confined_refl|].
  destruct (nl_pools w !! sbi) as [p|]; [|intros [= _ <-]; apply confined_refl].
  destruct (k p) as [r0 p']. intros [= _ <-]. by apply confined_update.
Qed.

(** A handler that finds an attribute missing changes nothing. *)
Lemma on_pool_same w i (k : npool -> Z * npool) err r w' : (forall p, k p = (err, p)) -> on_pool w i k = (r, w') -> w' = w /\ r < 0 \/ w' = w /\ r = err.
Proof.
  intros Hk. unfold on_pool. destruct (resolve_pool w i) as [e|sbi] eqn:Er.
  - intros [= <- <-]. left. split; [done|]. revert Er. unfold resolve_pool. destruct (at_uuid i); [|by intros [= <-]].
    case_goal; [by intros [= <-]|]. destruct (smoothfs_sb_find w l); by intros [= <-].
  - destruct (nl_pools w !! sbi) as [p|] eqn:Hp; [|by intros [= <- <-]; left]. rewrite Hk. intros [= <- <-]. right.
    split; [|done]. destruct w as [l ps]. cbn in *. by rewrite insert_id.
Qed.

Lemma inspect_confined e i w r m w' : doit_inspect e i w = (r, m, w') -> confined i w w'.
Proof.
  unfold doit_inspect. destruct (resolve_pool w i) as [err|sbi] eqn:Er; [intros [= _ _ <-]; apply confined_refl|].
  destruct (nl_pools w !! sbi) as [p|]; [|intros [= _ _ <-]; apply confined_refl].
  destruct (at_oid i) as [o|]; [|intros [= _ _ <-]; apply confined_refl].
  destruct (smoothfs_lookup_oid_resolve (np_w p) (oid_attr i o)) as [ro mw]. intros H1.
  assert (w' = NlWorld (nl_list w) (<[sbi := NPool mw (np_heat p)]> (nl_pools w))) as ->.
  { revert H1. destruct (ino ← ro; inodes (mw_sb mw) !! ino) as [si|]; [|by intros [= _ _ <-]].
    case_goal; [by intros [= _ _ <-]|]. by destruct (build_message _ _); intros [= _ _ <-]. }
  by apply confined_update.
Qed.

Lemma run_op_confined e op i w r w' : run_op e op i w = (r, w') -> confined i w w'.
Proof.
  destruct op; cbn; try apply on_pool_confined; try (intros [= _ <-]; apply confined_refl).
  destruct (doit_inspect e i w) as [[r0 m] w0] eqn:E. intros [= _ <-]. by eapply inspect_confined.
Qed.

(** The commands that act on one object. *)
Definition names_object (op : nl_op) : bool :=
  match op with OP_rollback | OP_complete | OP_plan | OP_inspect | OP_cutover | OP_revoke => true | _ => false end.
Definition names_transaction (op : nl_op) : bool :=
  match op with OP_rollback | OP_complete | OP_plan | OP_cutover => true | _ => false end.

Lemma run_op_incomplete e op i w r w' :
  names_object op = true -> at_oid i = None \/ names_transaction op = true /\ at_seq i = None ->
  run_op e op i w = (r, w') -> w' = w /\ r < 0.
Proof.
  intros Ho Hm H1. assert (forall k, (forall p, k p = (- EINVAL, p)) -> on_pool w i k = (r, w') -> w' = w /\ r < 0) as Hk.
  { intros k Hk Hr. destruct (on_pool_same w i k (- EINVAL) r w' Hk Hr) as [?|[-> ->]]; [done|by split]. }
  destruct op; try discriminate Ho; cbn in H1.
  - refine (Hk _ _ H1); intros p; destruct Hm as [->|[_ ->]]; [done|by destruct (at_oid i)].
  - refine (Hk _ _ H1); intros p; destruct Hm as [->|[_ ->]]; [done|by destruct (at_oid i)].
  - refine (Hk _ _ H1); intros p; destruct Hm as [->|[_ ->]]; [done|by destruct (at_oid i), (at_intended_tier i)].
  - destruct Hm as [Hm|[Hm _]]; [|discriminate Hm]. revert H1. unfold doit_inspect. rewrite Hm.
    destruct (resolve_pool w i) as [err|sbi] eqn:Er.
    + intros [= <- <-]. split; [done|]. revert Er. unfold resolve_pool. destruct (at_uuid i); [|by intros [= <-]].
      case_goal; [by intros [= <-]|]. destruct (smoothfs_sb_find w l); by intros [= <-].
    + destruct (nl_pools w !! sbi); by intros [= <- <-].
  - refine (Hk _ _ H1); intros p; destruct Hm as [->|[_ ->]]; [done|by destruct (at_oid i)].
  - refine (Hk _ _ H1); intros p; destruct Hm as [->|[Hm _]]; [done|discriminate Hm].
Qed.

(** C22. A netlink command never changes the registry, and no pool but the one
    its uuid attribute names: the latest registered pool whose uuid is these 16
    bytes (so none when no pool has them); without CAP_NET_ADMIN every command
    but INSPECT is refused without effect; a command on an object that lacks the
    object id, or the transaction where one is needed, is refused without
    effect. *)
Theorem commands_are_confined e admin cmd i w r w' : dispatch e admin cmd i w = (r, w') ->
  confined i w w'
  /\ (admin = false -> cmd <> 7 -> w' = w /\ (r = - EPERM \/ r = - EOPNOTSUPP))
  /\ (forall needs op, List.find (fun x => fst (fst x) =? cmd) smoothfs_genl_ops = Some (cmd, needs, op) ->
      names_object op = true -> at_oid i = None \/ names_transaction op = true /\ at_seq i = None -> w' = w /\ r < 0).
Proof.
  unfold dispatch. destruct (List.find (fun x => fst (fst x) =? cmd) smoothfs_genl_ops) as [[[c needs] op]|] eqn:Ef.
  2: { intros [= <- <-]. split; [apply confined_refl|]. split; [auto|done]. }
  assert (c = cmd /\ (needs = true \/ c = 7)) as [-> Hn].
  { apply List.find_some in Ef as [Hin Hc]. cbn in Hc. apply Z.eqb_eq in Hc. split; [done|].
    cbn in Hin. repeat (destruct Hin as [[= <- <- <-]|Hin]; [by auto|]). done. }
  destruct (needs && negb admin) eqn:Ep.
  { intros [= <- <-]. split; [apply confined_refl|]. split; [auto|]. by intros. }
  destruct (negb (smoothfs_genl_policy i)).
  { intros [= <- <-]. split; [apply confined_refl|]. split; [|by intros].
    intros -> Hc. destruct Hn as [->|]; [discriminate Ep|done]. }
  intros H1. split; [by eapply run_op_confined|]. split.
  - intros -> Hc. destruct Hn as [->|]; [discriminate Ep|done].
  - intros needs' op' [= <- <-] Ho Hm. by eapply run_op_incomplete.
Qed.

End Netlink.
Arguments npool : clear implicits.
Arguments nl_world : clear implicits.

(** ** Messages the module sends *)

(** [genlmsg_new], the attributes, [multicast_send]: what the listeners get. *)
Definition emit_message (alloc : bool) (goodsize mcast : Z) (l : list attr) : Z * option (list attr) :=
  if negb alloc then (- ENOMEM, None)
  else match build_message goodsize l with
       | Err e => (e, None)
       | Ok l => (multicast_send mcast, if mcast =? 0 then Some l else None)
       end.

(** The bytes of a nested attribute: each entry with its header, padded. *)
Definition nested (l : list attr) : list Z :=
  concat (map (fun a => le_split 2 (4 + fsize (snd a)) ++ le_split 2 (fst a) ++ snd a
                        ++ replicate (Z.to_nat (nla_total_size (fsize (snd a)) - 4 - fsize (snd a))) 0) l).

(** [tier_path] is [smoothfs_path_string] of a tier; a path that cannot be
    rendered cancels the message. *)
Fixpoint tier_entries (i : Z) (tier_path : Z -> option string) (l : list tier) : option (list attr) :=
  match l with
  | [] => Some []
  | t :: l =>
      match tier_path i, tier_entries (i + 1) tier_path l with
      | Some s, Some rest =>
          Some ((i + 1, nested [(4, le_split 1 (t_rank t)); (5, le_split 4 (t_caps t)); (6, str_bytes s)]) :: rest)
      | _, _ => None
      end
  end.

Definition SMOOTHFS_EVENT_MOUNT_READY : Z := 9.
Definition SMOOTHFS_EVENT_TIER_FAULT : Z := 12.

Definition emit_pool_event (alloc : bool) (goodsize mcast : Z) (pool_name : string) (tier_path : Z -> option string)
    (sbi : sb_info) (cmd : Z) (fault_tier : option Z) : Z * option (list attr) :=
  if negb alloc then (- ENOMEM, None)
  else
    let head := [(1, pool_uuid sbi); (2, str_bytes pool_name); (3, le_split 4 (fsid sbi));
                 (22, [if any_spill_since_mount sbi then 1 else 0])] in
    let tail := match fault_tier with Some t => [(4, le_split 1 t)] | None => [] end in
    if cmd =? SMOOTHFS_EVENT_MOUNT_READY then
      match tier_entries 0 tier_path (take (Z.to_nat (ntiers sbi)) (tiers sbi)) with
      | None => (- EMSGSIZE, None)
      | Some entries => emit_message alloc goodsize mcast (head ++ [(18, nested entries)] ++ tail)
      end
    else emit_message alloc goodsize mcast (head ++ tail).

Definition smoothfs_netlink_emit_mount_ready (alloc : bool) (goodsize mcast : Z) (pool_name : string)
    (tier_path : Z -> option string) (sbi : sb_info) : Z * option (list attr) :=
  emit_pool_event alloc goodsize mcast pool_name tier_path sbi SMOOTHFS_EVENT_MOUNT_READY None.

Definition smoothfs_netlink_emit_tier_fault (alloc : bool) (goodsize mcast : Z) (pool_name : string)
    (sbi : sb_info) (tier : Z) : Z * option (list attr) :=
  emit_pool_event alloc goodsize mcast pool_name (fun _ => None) sbi SMOOTHFS_EVENT_TIER_FAULT (Some tier).

Definition smoothfs_netlink_emit_move_state (alloc : bool) (goodsize mcast : Z) (sbi : sb_info) (o : list Z)
    (new_state transaction_seq : Z) : Z * option (list attr) :=
  emit_message alloc goodsize mcast
    [(1, pool_uuid sbi); (8, o); (10, le_split 1 new_state); (13, le_split 8 transaction_seq)].

Definition smoothfs_netlink_emit_spill (alloc : bool) (goodsize mcast : Z) (sbi : sb_info) (o : list Z)
    (source_tier dest_tier size_bytes : Z) : Z * option (list attr) :=
  emit_message alloc goodsize mcast
    [(1, pool_uuid sbi); (22, [1]); (8, o); (11, le_split 1 source_tier); (12, le_split 1 dest_tier);
     (21, le_split 8 size_bytes)].

(** ** Sizes *)

(** Events about one object always fit. *)
Theorem object_events_fit goodsize sbi o state seq src dst size :
  length (pool_uuid sbi) = 16%nat -> length o = SMOOTHFS_OID_LEN -> 128 <= goodsize ->
  smoothfs_netlink_emit_move_state true goodsize 0 sbi o state seq
    = (0, Some [(1, pool_uuid sbi); (8, o); (10, le_split 1 state); (13, le_split 8 seq)])
  /\ smoothfs_netlink_emit_spill true goodsize 0 sbi o src dst size
    = (0, Some [(1, pool_uuid sbi); (22, [1]); (8, o); (11, le_split 1 src); (12, le_split 1 dst); (21, le_split 8 size)]).
Proof.
  intros Hu Ho Hg. unfold smoothfs_netlink_emit_move_state, smoothfs_netlink_emit_spill, emit_message, build_message, attrs_size.
  cbn [negb foldr snd]. unfold fsize. rewrite !length_le_split, Hu, Ho.
  split; match goal with |- context [?x <=? goodsize] => rewrite (proj2 (Z.leb_le x goodsize)) end; try reflexivity;
    (transitivity 128; [vm_compute; discriminate|exact Hg]).
Qed.

(** ** Concrete requests *)

Definition nl_two : nl_world unit :=
  NlWorld [1; 2] {[1 := NPool (MWorld tt (mv_pool MS_PLACED <| pool_uuid := replicate 16 1 |>)) (HeatWork true None);
                   2 := NPool (MWorld tt (mv_pool MS_PLACED <| pool_uuid := replicate 16 2 |>)) (HeatWork true None)]}.

Definition nl_calm : @nl_env unit :=
  NlEnv true true 1 mv_env (fun w => w) (fun _ => false) None (fun _ => Some "/t"%string) 3776.

Definition plan_request (uuid o tail : list Z) : genl_info := GenlInfo (Some uuid) (Some o) (Some 1) (Some 12) None None tail.

Lemma commands_are_confined_witness :
  let '(r, w') := dispatch nl_calm true 3 (plan_request (replicate 16 2) mv_oid []) nl_two in
  r = 0 /\ nl_pools w' !! 1 = nl_pools nl_two !! 1.
Proof.
  assert (fst (dispatch nl_calm true 3 (plan_request (replicate 16 2) mv_oid []) nl_two) = 0) as Hr by (vm_compute; reflexivity).
  destruct (dispatch nl_calm true 3 (plan_request (replicate 16 2) mv_oid []) nl_two) as [r w'] eqn:E. cbn [fst] in Hr.
  destruct (commands_are_confined nl_calm true 3 (plan_request (replicate 16 2) mv_oid []) nl_two r w' E) as ((_ & H) & _).
  split; [exact Hr|]. destruct H as [->|(sbi & (u & p & a & b & Hu & _ & _ & Hp & Hq & _) & H)]; [reflexivity|]. apply H.
  intros <-. injection Hu as <-. vm_compute in Hp. injection Hp as <-. discriminate Hq.
Defined.

Lemma registry_finds_the_mounted_pool_witness :
  let w := NlWorld [2] (nl_pools nl_two) in
  smoothfs_sb_find (snd (smoothfs_sb_register true 1 w)) (replicate 16 1) = Some 1
  /\ smoothfs_sb_unregister 1 (snd (smoothfs_sb_register true 1 w)) = w.
Proof.
  intros w. destruct (registry_finds_the_mounted_pool true 1
    (NPool (MWorld tt (mv_pool MS_PLACED <| pool_uuid := replicate 16 1 |>)) (HeatWork true None)) w
    (snd (smoothfs_sb_register true 1 w))) as (A & _ & B & _).
  - cbn. intros [H|H]%elem_of_cons; [discriminate H|by apply elem_of_nil in H].
  - reflexivity.
  - reflexivity.
  - split; [exact A|exact B].
Defined.

Lemma object_events_fit_witness :
  fst (smoothfs_netlink_emit_move_state true 3776 0 (mv_pool MS_PLACED <| pool_uuid := replicate 16 1 |>) mv_oid 5 12) = 0.
Proof.
  destruct (object_events_fit 3776 (mv_pool MS_PLACED <| pool_uuid := replicate 16 1 |>) mv_oid 5 12 0 1 9) as [H _];
    [reflexivity|reflexivity|lia|]. rewrite H. reflexivity.
Defined.

(** An object id attribute that is too short passes the policy; the handler
    reads on into the memory behind it. *)
Example short_object_id_reads_past_the_attribute :
  smoothfs_genl_policy (plan_request (replicate 16 2) (replicate 4 3) (replicate 12 3)) = true
  /\ fst (dispatch nl_calm true 3 (plan_request (replicate 16 2) (replicate 4 3) (replicate 12 3)) nl_two) = 0
  /\ fst (dispatch nl_calm true 3 (plan_request (replicate 16 2) (replicate 4 3) (replicate 12 0)) nl_two) = - ENOENT.
Proof. vm_compute. by repeat split. Qed.

(** An object with a long path cannot be inspected: the reply buffer is one
    page, a path may be as long. *)
Example long_path_cannot_be_inspected :
  let long := Nat.iter 3700 (String (Ascii.ascii_of_nat 97)) EmptyString in
  let e := NlEnv true true 1 mv_env (fun w => w) (fun _ => false) (Some (Ok long)) (fun _ => Some "/t"%string) 3776 in
  fst (fst (doit_inspect e (plan_request (replicate 16 2) mv_oid []) nl_two)) = - EMSGSIZE
  /\ fst (fst (doit_inspect nl_calm (plan_request (replicate 16 2) mv_oid []) nl_two)) = 0.
Proof. vm_compute. by split. Qed.
