(* ===== verification/PathIndex.v ===== *)
(** * The path index: src/src/smoothfs/placement.c

    A full scan of the tiers is saved as a file of (object id, tier, relative
    path) entries, so that the next mount can find objects without walking the
    tiers.  The file is a 48-byte header with the entry count, the entries, and
    an 8-byte commit footer whose absence marks a write that a crash cut short.

    Paths are C strings; on disk they are their bytes and a NUL. *)
From S2P Require Import Prelude Types KernelIO PlacementLog.

Definition SMOOTHFS_PATH_INDEX_MAGIC : Z := 0x534D46504944580A.
Definition SMOOTHFS_PATH_INDEX_HDR_SZ : Z := 48.
Definition SMOOTHFS_PATH_INDEX_ENTRY_HDR : Z := 20.
Definition PATH_MAX : Z := 4096.

(** ** C strings *)

Definition char_byte (c : Ascii.ascii) : Z := Z.of_N (Ascii.N_of_ascii c).
Definition byte_char (b : Z) : Ascii.ascii := Ascii.ascii_of_N (Z.to_N b).

Definition string_bytes (s : string) : list Z := map char_byte (String.list_ascii_of_string s).

(** The string that starts at a buffer: up to the first NUL. *)
Fixpoint cstring (bs : list Z) : string :=
  match bs with
  | [] => EmptyString
  | b :: bs => if b =? 0 then EmptyString else String (byte_char b) (cstring bs)
  end.

(** ** Writing *)

Definition pix_write (ora : oracle) (k : nat) (f : list Z) (pos : Z) (buf : list Z) : Z * list Z :=
  let (n, f) := kernel_write ora k f pos buf in
  if n <? 0 then (n, f) else (if n =? Z.of_nat (length buf) then 0 else - EIO, f).

Definition pix_read (ora : oracle) (k : nat) (f : list Z) (pos len : Z) : result (list Z) :=
  match kernel_read ora k f pos len with
  | Err e => Err e
  | Ok bs => if fsize bs =? len then Ok bs else Err (if fsize bs =? 0 then - ENODATA else - EIO)
  end.

Definition index_header (sbi : sb_info) (count : Z) : list Z :=
  le_split 8 SMOOTHFS_PATH_INDEX_MAGIC ++ pool_uuid sbi ++ le_split 8 count ++ le_split 8 (ntiers sbi)
  ++ replicate 8 0.

Definition entry_header (rec : replay_record) (path_len : Z) : list Z :=
  rr_oid rec ++ [chosen_tier rec; 0] ++ le_split 2 path_len.

(** The records with a chosen path, those with an overlong path skipped. *)
Fixpoint write_index_entries (ora : oracle) (k : nat) (f : list Z) (pos : Z) (records : list replay_record)
  : Z * nat * list Z * Z :=
  match records with
  | [] => (0, k, f, pos)
  | rec :: records =>
      match chosen_rel_path rec with
      | None => write_index_entries ora k f pos records
      | Some p =>
          let bytes := string_bytes p ++ [0] in
          let path_len := fsize bytes in
          if U16_MAX <? path_len then write_index_entries ora k f pos records
          else
            let ehdr := entry_header rec path_len in
            let (err, f) := pix_write ora k f pos ehdr in
            if negb (err =? 0) then (err, S k, f, pos)
            else
              let pos := pos + fsize ehdr in
              let (err, f) := pix_write ora (S k) f pos bytes in
              if negb (err =? 0) then (err, S (S k), f, pos)
              else write_index_entries ora (S (S k)) f (pos + path_len) records
      end
  end.

Definition count_chosen (records : list replay_record) : Z :=
  Z.of_nat (length (filter (fun r => is_Some (chosen_rel_path r)) records)).

(** The index file after the call; it is truncated when it is opened. *)
Definition smoothfs_path_index_write (ora : oracle) (k : nat) (old : option (list Z)) (sbi : sb_info)
    (records : list replay_record) : Z * nat * option (list Z) :=
  if ora k <? 0 then (ora k, S k, old)
  else
    let hdr := index_header sbi (count_chosen records) in
    let (err, f) := pix_write ora (S k) [] 0 hdr in
    if negb (err =? 0) then (err, S (S k), Some f)
    else
      let '(err, k, f, pos) := write_index_entries ora (S (S k)) f (fsize hdr) records in
      if negb (err =? 0) then (err, k, Some f)
      else
        let (err, f) := pix_write ora k f pos (le_split 8 SMOOTHFS_PATH_INDEX_MAGIC) in
        if negb (err =? 0) then (err, S k, Some f)
        else (call ora (S k), S (S k), Some f).

(** ** Reading *)

(** What an entry says about its object: the authoritative tier of the log
    wins; an object the log does not know is where the index says. *)
Definition index_chooses (tier : Z) (rec : replay_record) : bool :=
  match chosen_rel_path rec with
  | None => (authoritative_tier rec =? U8_MAX) || (tier =? authoritative_tier rec)
  | Some _ => false
  end.

Definition index_place (tier : Z) (p : string) (rec : replay_record) : replay_record :=
  let rec := if index_chooses tier rec
             then rec <| chosen_rel_path := Some p |> <| chosen_tier := tier |>
             else rec in
  match fallback_rel_path rec with
  | None => rec <| fallback_rel_path := Some p |> <| fallback_tier := tier |>
  | Some _ => rec
  end.

(** Allocations: the path, the record, the copy of the path. *)
Fixpoint read_index_entries (count : nat) (ora : oracle) (k : nat) (sbi : sb_info) (f : list Z) (pos : Z)
    (records : list replay_record) : Z * nat * Z * list replay_record :=
  match count with
  | O => (0, k, pos, records)
  | S count =>
      match pix_read ora k f pos SMOOTHFS_PATH_INDEX_ENTRY_HDR with
      | Err e => (e, S k, pos, records)
      | Ok ehdr =>
          let pos := pos + SMOOTHFS_PATH_INDEX_ENTRY_HDR in
          let tier := default 0 (ehdr !! 16%nat) in
          let path_len := le_combine (slice 18 2 ehdr) in
          if (path_len =? 0) || (PATH_MAX <? path_len) then (- EINVAL, S k, pos, records)
          else if ora (k + 1)%nat <? 0 then (- ENOMEM, (k + 2)%nat, pos, records)
          else match pix_read ora (k + 2)%nat f pos path_len with
               | Err e => (e, (k + 3)%nat, pos, records)
               | Ok bytes =>
                   let pos := pos + path_len in
                   let p := cstring (take (Z.to_nat path_len - 1) bytes) in
                   if ntiers sbi <=? tier then read_index_entries count ora (k + 3)%nat sbi f pos records
                   else match smoothfs_replay_get_or_create (0 <=? ora (k + 3)%nat) records (slice 0 16 ehdr) with
                        | None => (- ENOMEM, (k + 4)%nat, pos, records)
                        | Some (rec, records) =>
                            if index_chooses tier rec && (ora (k + 4)%nat <? 0) then (- ENOMEM, (k + 5)%nat, pos, records)
                            else read_index_entries count ora (k + 5)%nat sbi f pos
                                   (update_record (index_place tier p rec) records)
                        end
               end
      end
  end.

Definition smoothfs_path_index_read (ora : oracle) (k : nat) (sbi : sb_info) (file : option (list Z))
    (records : list replay_record) : Z * list replay_record :=
  if ora k <? 0 then (ora k, records)
  else match file with
  | None => (- ENOENT, records)
  | Some f =>
      match pix_read ora (S k) f 0 SMOOTHFS_PATH_INDEX_HDR_SZ with
      | Err e => (e, records)
      | Ok hdr =>
          let count := le_combine (slice 24 8 hdr) in
          if negb (le_combine (slice 0 8 hdr) =? SMOOTHFS_PATH_INDEX_MAGIC)
             || negb (bytes_eqb (slice 8 16 hdr) (pool_uuid sbi))
             || negb (le_combine (slice 32 8 hdr) =? ntiers sbi) || (50000000 <? count)
          then (- EINVAL, records)
          else
            let '(err, k, pos, records) :=
              read_index_entries (Z.to_nat count) ora (S (S k)) sbi f SMOOTHFS_PATH_INDEX_HDR_SZ records in
            if negb (err =? 0) then (err, records)
            else match pix_read ora k f pos 8 with
                 | Err _ => (- EINVAL, records)
                 | Ok footer => if le_combine footer =? SMOOTHFS_PATH_INDEX_MAGIC then (0, records)
                                else (- EINVAL, records)
                 end
      end
  end.

(** ** The image of a table *)

Definition path_of (r : replay_record) : string := default EmptyString (chosen_rel_path r).
Definition path_bytes (r : replay_record) : list Z := string_bytes (path_of r) ++ [0].

Definition entry_image (r : replay_record) : list Z := entry_header r (fsize (path_bytes r)) ++ path_bytes r.

Definition chosen (records : list replay_record) : list replay_record :=
  filter (fun r => is_Some (chosen_rel_path r)) records.

Definition index_image (sbi : sb_info) (records : list replay_record) : list Z :=
  index_header sbi (count_chosen records) ++ concat (map entry_image (chosen records))
  ++ le_split 8 SMOOTHFS_PATH_INDEX_MAGIC.

(** A record the index can carry: a 16-byte id, a tier of the pool, and a path
    without NUL that the reader accepts. *)
Definition indexable (sbi : sb_info) (r : replay_record) : Prop :=
  length (rr_oid r) = SMOOTHFS_OID_LEN /\ 0 <= chosen_tier r < ntiers sbi
  /\ ~ 0 ∈ string_bytes (path_of r) /\ fsize (path_bytes r) <= PATH_MAX.

Definition pool_indexable (sbi : sb_info) : Prop :=
  length (pool_uuid sbi) = 16%nat /\ 0 <= ntiers sbi < 2 ^ 64.

(** ** Strings *)

Lemma char_byte_char c : byte_char (char_byte c) = c.
Proof. unfold byte_char, char_byte. rewrite N2Z.id. apply Ascii.ascii_N_embedding. Qed.

Lemma cstring_string s rest : ~ 0 ∈ string_bytes s -> cstring (string_bytes s ++ 0 :: rest) = s.
Proof.
  unfold string_bytes. induction s as [|c s IH]; simpl; [done|]. intros Hn.
  destruct (Z.eqb_spec (char_byte c) 0) as [E|_].
  { exfalso. apply Hn. rewrite E. left. }
  rewrite char_byte_char, IH; [done|]. intros Hi. apply Hn. by right.
Qed.

Lemma cstring_all s : ~ 0 ∈ string_bytes s -> cstring (string_bytes s) = s.
Proof.
  unfold string_bytes. induction s as [|c s IH]; simpl; [done|]. intros Hn.
  destruct (Z.eqb_spec (char_byte c) 0) as [E|_].
  { exfalso. apply Hn. rewrite E. left. }
  rewrite char_byte_char, IH; [done|]. intros Hi. apply Hn. by right.
Qed.

(** ** The writer produces the image *)

Lemma pix_write_ok ora k f buf f' : pix_write ora k f (fsize f) buf = (0, f') -> f' = f ++ buf.
Proof.
  unfold pix_write, kernel_write. destruct (Z.ltb_spec (ora k) 0).
  { destruct (Z.ltb_spec (ora k) 0); intros [= ? _]; lia. }
  set (n := Z.min _ _). destruct (Z.ltb_spec n 0); [intros [= ? _]; lia|].
  destruct (Z.eqb_spec n (Z.of_nat (length buf))) as [->|_]; [|done]. intros [= <-].
  rewrite Nat2Z.id, firstn_all. apply pwrite_end.
Qed.

Lemma pix_write_smooth ora k f buf : fsize buf <= ora k -> pix_write ora k f (fsize f) buf = (0, f ++ buf).
Proof.
  intros Ho. pose proof (fsize_nonneg buf). unfold pix_write, kernel_write, fsize in *.
  destruct (Z.ltb_spec (ora k) 0); [lia|]. rewrite Z.min_r by lia.
  destruct (Z.ltb_spec (Z.of_nat (length buf)) 0); [lia|]. rewrite Z.eqb_refl, Nat2Z.id, firstn_all.
  f_equal. apply pwrite_end.
Qed.

Lemma chosen_cons r rs :
  chosen (r :: rs) = match chosen_rel_path r with Some _ => r :: chosen rs | None => chosen rs end.
Proof.
  unfold chosen. rewrite filter_cons. destruct (chosen_rel_path r) eqn:E.
  - rewrite decide_True; [done|by eexists].
  - rewrite decide_False; [done|by intros [? ?]].
Qed.

Lemma write_entries_ok ora sbi : forall rs k f k' f' pos',
  Forall (indexable sbi) (chosen rs) ->
  write_index_entries ora k f (fsize f) rs = (0, k', f', pos') ->
  f' = f ++ concat (map entry_image (chosen rs)) /\ pos' = fsize f'.
Proof.
  induction rs as [|r rs IH]; intros k f k' f' pos' Hok; cbn [write_index_entries].
  { intros [= <- <- <-]. by rewrite app_nil_r. }
  rewrite chosen_cons in *. destruct (chosen_rel_path r) as [p|] eqn:Ep; [|by apply IH].
  apply Forall_cons in Hok as [Hr Hok]. destruct Hr as (H1 & H2 & H3 & H4).
  assert (string_bytes p ++ [0] = path_bytes r) as -> by (unfold path_bytes, path_of; by rewrite Ep).
  destruct (Z.ltb_spec U16_MAX (fsize (path_bytes r))); [unfold U16_MAX, PATH_MAX in *; lia|].
  destruct (pix_write _ _ f _ _) as [e1 f1] eqn:E1. destruct (Z.eqb_spec e1 0) as [->|?]; [|by intros [= ? _]].
  apply pix_write_ok in E1 as ->. cbn [negb]. rewrite <- fsize_app.
  destruct (pix_write _ _ (f ++ _) _ _) as [e2 f2] eqn:E2. destruct (Z.eqb_spec e2 0) as [->|?]; [|by intros [= ? _]].
  apply pix_write_ok in E2 as ->. cbn [negb]. rewrite <- fsize_app. intros Hw.
  apply IH in Hw as [-> ->]; [|done]. cbn [map concat]. unfold entry_image.
  by rewrite <- !app_assoc.
Qed.

Lemma index_write_image ora k old sbi rs k' f :
  Forall (indexable sbi) (chosen rs) ->
  smoothfs_path_index_write ora k old sbi rs = (0, k', f) -> f = Some (index_image sbi rs).
Proof.
  intros Hok. unfold smoothfs_path_index_write. destruct (Z.ltb_spec (ora k) 0); [intros [= ? _]; lia|].
  destruct (pix_write _ _ [] _ _) as [e1 f1] eqn:E1. destruct (Z.eqb_spec e1 0) as [->|?]; [|by intros [= ? _]].
  apply (pix_write_ok _ _ []) in E1 as ->. cbn [negb app].
  destruct (write_index_entries _ _ _ _ _) as [[[e2 k2] f2] pos2] eqn:E2.
  destruct (Z.eqb_spec e2 0) as [->|?]; [|by intros [= ? _]]. cbn [negb].
  apply (write_entries_ok ora sbi) in E2 as [-> ->]; [|done].
  destruct (pix_write _ _ _ _ _) as [e3 f3] eqn:E3. destruct (Z.eqb_spec e3 0) as [->|?]; [|by intros [= ? _]].
  apply pix_write_ok in E3 as ->. cbn [negb]. intros [= _ _ <-]. unfold index_image. by rewrite <- app_assoc.
Qed.

(** ** The reader on a prefix of an image *)

Lemma pread_mid a b c : pread (a ++ b ++ c) (fsize a) (fsize b) = b.
Proof.
  unfold pread, slice, fsize. rewrite !Nat2Z.id, drop_app_length. apply take_app_length.
Qed.

Lemma pix_read_prefix ora k n f pos len bs :
  0 <= pos -> 0 < len -> pix_read ora k (take n f) pos len = Ok bs ->
  bs = pread f pos len /\ pos + len <= Z.of_nat n.
Proof.
  intros Hp Hl. unfold pix_read, kernel_read. destruct (Z.ltb_spec (ora k) 0); [done|].
  set (m := Z.min (ora k) len). destruct (Z.eqb_spec (fsize (pread (take n f) pos m)) len) as [E|_]; [|done].
  intros [= <-]. rewrite length_pread in E by (subst m; lia).
  unfold fsize in E at 1. rewrite length_take in E. assert (m = len) as -> by (subst m; lia).
  split; [|lia]. unfold pread, slice. rewrite take_drop_commute, take_take, Nat.min_l by lia.
  by rewrite <- take_drop_commute.
Qed.

Lemma pix_read_smooth ora k f pos len :
  0 <= pos -> 0 <= len -> pos + len <= fsize f -> len <= ora k -> pix_read ora k f pos len = Ok (pread f pos len).
Proof.
  intros. unfold pix_read, kernel_read. destruct (Z.ltb_spec (ora k) 0); [lia|]. rewrite Z.min_r by lia.
  destruct (Z.eqb_spec (fsize (pread f pos len)) len) as [|E]; [done|]. exfalso. apply E.
  rewrite length_pread by lia. lia.
Qed.

Lemma entry_header_fields sbi r : indexable sbi r ->
  let h := entry_header r (fsize (path_bytes r)) in
  fsize h = 20 /\ h !! 16%nat = Some (chosen_tier r) /\ slice 0 16 h = rr_oid r
  /\ le_combine (slice 18 2 h) = fsize (path_bytes r).
Proof.
  intros (H1 & H2 & H3 & H4). unfold entry_header. pose proof (fsize_nonneg (path_bytes r)) as Hf.
  set (n := fsize (path_bytes r)) in *. clearbody n. unfold SMOOTHFS_OID_LEN, PATH_MAX in *. cbv zeta.
  split_and!.
  - unfold fsize. rewrite !length_app, length_le_split, H1. done.
  - rewrite lookup_app_r by lia. by rewrite H1.
  - unfold slice. rewrite drop_0, <- H1. apply take_app_length.
  - unfold slice. rewrite app_assoc, (drop_app_length' _ _ 18) by (rewrite length_app, H1; done).
    rewrite take_ge by (rewrite length_le_split; lia). apply le_combine_split_id. lia.
Qed.

(** One entry applied to the table. *)
Definition index_apply (records : list replay_record) (r : replay_record) : list replay_record :=
  match smoothfs_replay_get_or_create true records (rr_oid r) with
  | Some (rec, records) => update_record (index_place (chosen_tier r) (path_of r) rec) records
  | None => records
  end.

Lemma path_bytes_string sbi r : indexable sbi r ->
  cstring (take (Z.to_nat (fsize (path_bytes r)) - 1) (path_bytes r)) = path_of r.
Proof.
  intros (_ & _ & H3 & _). unfold path_bytes, fsize. rewrite Nat2Z.id, length_app. cbn [length].
  replace (length (string_bytes (path_of r)) + 1 - 1)%nat with (length (string_bytes (path_of r))) by lia.
  rewrite take_app_length. by apply cstring_all.
Qed.

Lemma get_or_create_any alloc rs o x :
  smoothfs_replay_get_or_create alloc rs o = Some x -> smoothfs_replay_get_or_create true rs o = Some x.
Proof. unfold smoothfs_replay_get_or_create. destruct (smoothfs_replay_find rs o); [done|]. by destruct alloc. Qed.

Lemma pix_read_neg ora k f pos len e : pix_read ora k f pos len = Err e -> e < 0.
Proof.
  unfold pix_read, kernel_read. destruct (Z.ltb_spec (ora k) 0); [by intros [= <-]|].
  repeat case_goal; intros [= <-]; done.
Qed.

(** A failed read means a fault or a missing byte. *)
Lemma pix_read_fails ora k n f pos len e :
  0 <= pos -> 0 <= len <= PATH_MAX -> pos + len <= fsize f ->
  pix_read ora k (take n f) pos len = Err e -> ~ (smooth_run ora PATH_MAX /\ fsize f <= Z.of_nat n).
Proof.
  intros Hp Hl Hs E [Hr Hn]. rewrite take_ge in E by (unfold fsize in Hn; lia).
  rewrite pix_read_smooth in E; [done|lia|lia|lia|]. specialize (Hr k). lia.
Qed.

Lemma read_entry_step ora sbi n r done_ rest k t c :
  indexable sbi r ->
  let f0 := done_ ++ entry_image r ++ rest in
  (exists err k' pos' t', read_index_entries (S c) ora k sbi (take n f0) (fsize done_) t = (err, k', pos', t')
     /\ err < 0 /\ ~ (smooth_run ora PATH_MAX /\ fsize f0 <= Z.of_nat n))
  \/ exists k', read_index_entries (S c) ora k sbi (take n f0) (fsize done_) t
       = read_index_entries c ora k' sbi (take n f0) (fsize (done_ ++ entry_image r)) (index_apply t r).
Proof.
  intros Hr f0. destruct (entry_header_fields sbi r Hr) as (F1 & F2 & F3 & F4).
  pose proof (fsize_nonneg done_) as Hd. pose proof (fsize_nonneg rest) as Hre. pose proof Hr as (_ & Ht & _ & Hlen).
  assert (1 <= fsize (path_bytes r)) as Hpos.
  { unfold path_bytes. rewrite fsize_app. pose proof (fsize_nonneg (string_bytes (path_of r))).
    change (fsize [0]) with 1. lia. }
  pose proof (path_bytes_string sbi r Hr) as Hstr. unfold entry_image in *.
  set (h := entry_header r (fsize (path_bytes r))) in *. set (b := path_bytes r) in *.
  assert (fsize f0 = fsize done_ + 20 + fsize b + fsize rest) as Hsz by (subst f0; rewrite !fsize_app; lia).
  assert (forall ka, smooth_run ora PATH_MAX -> (ora ka <? 0) = false) as Hsm
    by (intros ka Hs; specialize (Hs ka); unfold PATH_MAX in Hs; lia).
  cbn [read_index_entries]. change SMOOTHFS_PATH_INDEX_ENTRY_HDR with 20.
  destruct (pix_read ora k (take n f0) (fsize done_) 20) as [e|bs] eqn:E1.
  { left. eexists _, _, _, _. split; [reflexivity|]. split; [by eapply pix_read_neg|].
    eapply pix_read_fails; [| | |exact E1]; unfold PATH_MAX; lia. }
  apply pix_read_prefix in E1 as [-> _]; [|lia..].
  assert (pread f0 (fsize done_) 20 = h) as -> by (rewrite <- F1; subst f0; rewrite <- app_assoc; apply pread_mid).
  rewrite F2, F4. change (default 0 (Some (chosen_tier r))) with (chosen_tier r).
  destruct (Z.eqb_spec (fsize b) 0); [lia|]. destruct (Z.ltb_spec PATH_MAX (fsize b)); [lia|]. cbn [orb].
  destruct (ora (k + 1)%nat <? 0) eqn:Ea.
  { left. eexists _, _, _, _. split; [reflexivity|]. split; [done|]. intros [Hs _]. by rewrite (Hsm _ Hs) in Ea. }
  destruct (pix_read ora (k + 2)%nat (take n f0) (fsize done_ + 20) (fsize b)) as [e|bs] eqn:E2.
  { left. eexists _, _, _, _. split; [reflexivity|]. split; [by eapply pix_read_neg|].
    eapply pix_read_fails; [| | |exact E2]; lia. }
  apply pix_read_prefix in E2 as [-> _]; [|lia..].
  assert (pread f0 (fsize done_ + 20) (fsize b) = b) as ->.
  { rewrite <- F1, <- fsize_app. subst f0. rewrite <- (app_assoc h), app_assoc. apply pread_mid. }
  rewrite Hstr. destruct (Z.leb_spec (ntiers sbi) (chosen_tier r)); [lia|]. rewrite F3.
  destruct (smoothfs_replay_get_or_create _ t (rr_oid r)) as [[rec t1]|] eqn:Eg.
  2: { left. eexists _, _, _, _. split; [reflexivity|]. split; [done|]. intros [Hs _].
       specialize (Hsm (k + 3)%nat Hs). apply Z.ltb_ge in Hsm.
       unfold smoothfs_replay_get_or_create in Eg. rewrite (proj2 (Z.leb_le _ _) Hsm) in Eg.
       by destruct (smoothfs_replay_find t (rr_oid r)). }
  destruct (index_chooses _ _ && _) eqn:Ec.
  { left. eexists _, _, _, _. split; [reflexivity|]. split; [done|]. intros [Hs _].
    apply andb_true_iff in Ec as [_ Ec]. by rewrite (Hsm _ Hs) in Ec. }
  right. eexists. unfold index_apply. rewrite (get_or_create_any _ _ _ _ Eg).
  rewrite !fsize_app, F1, Z.add_assoc. reflexivity.
Qed.

Lemma read_entries_prefix ora sbi n rs : Forall (indexable sbi) rs -> forall done_ tail k t,
  let f0 := done_ ++ concat (map entry_image rs) ++ tail in
  exists err k' pos' t',
    read_index_entries (length rs) ora k sbi (take n f0) (fsize done_) t = (err, k', pos', t')
  /\ (err = 0 -> pos' = fsize (done_ ++ concat (map entry_image rs)) /\ t' = foldl index_apply t rs)
  /\ (smooth_run ora PATH_MAX -> fsize f0 <= Z.of_nat n -> err = 0).
Proof.
  induction 1 as [|r rs Hr Hok IH]; intros done_ tail k t f0.
  { eexists _, _, _, _. split; [reflexivity|]. cbn [map concat]. by rewrite app_nil_r. }
  cbn [length]. assert (f0 = done_ ++ entry_image r ++ (concat (map entry_image rs) ++ tail)) as Hf0
    by (subst f0; cbn [map concat]; by rewrite <- app_assoc).
  destruct (read_entry_step ora sbi n r done_ (concat (map entry_image rs) ++ tail) k t (length rs) Hr)
    as [(err & k' & pos' & t' & E & Hneg & Hno)|[k' E]]; rewrite <- Hf0 in *.
  - exists err, k', pos', t'. split; [exact E|]. split; [lia|]. intros Hs Hn. exfalso. by apply Hno.
  - rewrite E. specialize (IH (done_ ++ entry_image r) tail k' (index_apply t r)). cbv zeta in IH.
    rewrite <- app_assoc, <- Hf0 in IH. destruct IH as (err & k2 & pos' & t' & E' & H1 & H2).
    exists err, k2, pos', t'. split; [exact E'|]. split; [|done]. intros He. destruct (H1 He) as [-> ->].
    cbn [map concat foldl]. by rewrite !app_assoc.
Qed.

Lemma index_header_fields sbi c : pool_indexable sbi -> 0 <= c < 2 ^ 64 ->
  let h := index_header sbi c in
  fsize h = 48 /\ le_combine (slice 0 8 h) = SMOOTHFS_PATH_INDEX_MAGIC /\ slice 8 16 h = pool_uuid sbi
  /\ le_combine (slice 24 8 h) = c /\ le_combine (slice 32 8 h) = ntiers sbi.
Proof.
  intros [H1 H2] Hc. unfold index_header. cbv zeta. split_and!.
  - unfold fsize. rewrite !length_app, !length_le_split, H1. done.
  - unfold slice. rewrite drop_0, take_app_length' by (by rewrite length_le_split). by apply le_combine_split_id.
  - rewrite slice_app_r by apply length_le_split. by apply take_app_length'.
  - rewrite app_assoc, slice_app_r by (rewrite length_app, length_le_split, H1; done).
    rewrite take_app_length' by (by rewrite length_le_split). apply le_combine_split_id. lia.
  - rewrite (app_assoc (pool_uuid sbi)), app_assoc,
      slice_app_r by (rewrite !length_app, !length_le_split, H1; done).
    rewrite take_app_length' by (by rewrite length_le_split). apply le_combine_split_id. lia.
Qed.

Lemma index_read_prefix ora k sbi rs n t :
  Forall (indexable sbi) (chosen rs) -> pool_indexable sbi -> count_chosen rs <= 50000000 ->
  let f0 := index_image sbi rs in
  let r := smoothfs_path_index_read ora k sbi (Some (take n f0)) t in
  (fst r = 0 -> fsize f0 <= Z.of_nat n /\ snd r = foldl index_apply t (chosen rs))
  /\ (smooth_run ora PATH_MAX -> fsize f0 <= Z.of_nat n -> fst r = 0).
Proof.
  intros Hok Hp Hc f0. cbv zeta. unfold smoothfs_path_index_read.
  assert (0 <= count_chosen rs) as Hc0 by (unfold count_chosen; lia).
  destruct (index_header_fields sbi (count_chosen rs) Hp ltac:(lia)) as (F1 & F2 & F3 & F4 & F5).
  set (h := index_header sbi (count_chosen rs)) in *. set (body := concat (map entry_image (chosen rs))).
  set (foot := le_split 8 SMOOTHFS_PATH_INDEX_MAGIC).
  assert (f0 = h ++ body ++ foot) as Hf0 by reflexivity. clearbody f0.
  assert (fsize foot = 8) as Hfoot by reflexivity. pose proof (fsize_nonneg body) as Hb.
  assert (fsize f0 = 48 + fsize body + 8) as Hsz by (rewrite Hf0, !fsize_app; lia).
  assert (forall ka, smooth_run ora PATH_MAX -> (ora ka <? 0) = false) as Hsm
    by (intros ka Hs; specialize (Hs ka); unfold PATH_MAX in Hs; lia).
  destruct (ora k <? 0) eqn:Eo.
  { to_prop. cbn. split; [lia|]. intros Hs _. specialize (Hsm k Hs). to_prop. lia. }
  change SMOOTHFS_PATH_INDEX_HDR_SZ with 48.
  destruct (pix_read ora (S k) (take n f0) 0 48) as [e|bs] eqn:E1.
  { cbn [fst snd]. pose proof (pix_read_neg _ _ _ _ _ _ E1). split; [lia|]. intros Hs Hn. exfalso.
    eapply pix_read_fails; [| | |exact E1|done]; unfold PATH_MAX; lia. }
  apply pix_read_prefix in E1 as [-> _]; [|lia..].
  assert (pread f0 0 48 = h) as -> by (rewrite <- F1, Hf0; apply (pread_mid [])).
  rewrite F2, F3, F4, F5, Z.eqb_refl, bytes_eqb_refl, Z.eqb_refl. cbn [negb orb].
  destruct (Z.ltb_spec 50000000 (count_chosen rs)); [lia|].
  replace (Z.to_nat (count_chosen rs)) with (length (chosen rs)) by (unfold count_chosen, chosen; lia).
  destruct (read_entries_prefix ora sbi n (chosen rs) Hok h foot (S (S k)) t) as (err & k' & pos' & t' & E2 & H1 & H2).
  fold body in E2, H1, H2. rewrite <- Hf0, F1 in E2. rewrite <- Hf0 in H2. rewrite E2.
  destruct (Z.eqb_spec err 0) as [->|He]; cbn [negb].
  2: { cbn [fst]. split; [done|]. intros Hs Hn. by apply H2. }
  destruct (H1 eq_refl) as [-> ->]. clear E2 H1 H2.
  destruct (pix_read ora k' (take n f0) (fsize (h ++ body)) 8) as [e|bs] eqn:E3.
  { cbn [fst]. split; [done|]. intros Hs Hn. exfalso.
    eapply pix_read_fails; [| | |exact E3|done]; unfold PATH_MAX; rewrite ?fsize_app; lia. }
  apply pix_read_prefix in E3 as [-> Hn]; [|rewrite fsize_app; lia|lia].
  assert (pread f0 (fsize (h ++ body)) 8 = foot) as ->.
  { rewrite <- Hfoot, Hf0, app_assoc, <- (app_nil_r foot) at 1. apply pread_mid. }
  change (le_combine foot) with SMOOTHFS_PATH_INDEX_MAGIC. rewrite Z.eqb_refl. cbn [fst snd].
  rewrite fsize_app in Hn. split; [|done]. intros _. split; [lia|done].
Qed.

Lemma find_index_apply t r o :
  smoothfs_replay_find (index_apply t r) o
  = if bytes_eqb (rr_oid r) o
    then Some (index_place (chosen_tier r) (path_of r) (default (new_record o) (smoothfs_replay_find t o)))
    else smoothfs_replay_find t o.
Proof.
  assert (forall tier p rec, rr_oid (index_place tier p rec) = rr_oid rec) as Hoid.
  { intros. unfold index_place. repeat case_goal; done. }
  unfold index_apply, smoothfs_replay_get_or_create.
  destruct (smoothfs_replay_find t (rr_oid r)) as [rec|] eqn:E; cbn [negb].
  - pose proof (find_Some_oid _ _ _ E) as Ho. rewrite find_update, Hoid, Ho.
    destruct (bytes_eqb (rr_oid r) o) eqn:Eb; [|done]. apply bytes_eqb_eq in Eb as <-. by rewrite E.
  - rewrite find_update, Hoid. change (rr_oid (new_record (rr_oid r))) with (rr_oid r). rewrite find_snoc.
    change (rr_oid (new_record (rr_oid r))) with (rr_oid r).
    destruct (bytes_eqb (rr_oid r) o) eqn:Eb.
    + apply bytes_eqb_eq in Eb as <-. rewrite E. done.
    + by destruct (smoothfs_replay_find t o).
Qed.

Lemma find_index_fold rs : NoDup (rr_oid <$> rs) -> forall t o,
  smoothfs_replay_find (foldl index_apply t rs) o
  = match list_find (fun r => rr_oid r = o) rs with
    | Some (_, r) => Some (index_place (chosen_tier r) (path_of r) (default (new_record o) (smoothfs_replay_find t o)))
    | None => smoothfs_replay_find t o
    end.
Proof.
  induction rs as [|r rs IH]; [done|]. cbn [fmap list_fmap]. intros [Hr Hnd]%NoDup_cons t o. cbn [foldl list_find].
  rewrite IH, find_index_apply by done. unfold bytes_eqb. destruct (decide (rr_oid r = o)) as [<-|Hne].
  - rewrite bool_decide_true by done. destruct (list_find (fun r0 => rr_oid r0 = rr_oid r) rs) as [[i r']|] eqn:E; [|done].
    exfalso. apply list_find_Some in E as (E1 & E2 & _). apply Hr. rewrite <- E2.
    apply list_elem_of_fmap_2. by eapply list_elem_of_lookup_2.
  - rewrite bool_decide_false by done. by destruct (list_find _ rs) as [[i r']|].
Qed.

(** C11. For a table with one record per 16-byte id, whose paths are on tiers of
    the pool, hold no NUL, number at most 50 million and are each at most
    PATH_MAX bytes with their NUL: an index file that was written successfully
    and is read without faults gives every recorded object its path back: the
    record of its id is the one the log left, completed with the index's tier
    and path by the precedence rule, and no other record changes. (The bounds
    are needed: the writer also accepts longer paths and more of them, and the
    reader rejects such an index as a whole.) *)
Theorem path_index_roundtrip ora ora' k k' j old sbi rs f t :
  pool_indexable sbi -> Forall (indexable sbi) (chosen rs) -> NoDup (rr_oid <$> chosen rs) ->
  count_chosen rs <= 50000000 -> smooth_run ora' PATH_MAX ->
  smoothfs_path_index_write ora k old sbi rs = (0, k', f) ->
  exists t', smoothfs_path_index_read ora' j sbi f t = (0, t')
  /\ (forall r p, r ∈ rs -> chosen_rel_path r = Some p ->
        smoothfs_replay_find t' (rr_oid r)
        = Some (index_place (chosen_tier r) p (default (new_record (rr_oid r)) (smoothfs_replay_find t (rr_oid r)))))
  /\ (forall o, ~ o ∈ rr_oid <$> chosen rs -> smoothfs_replay_find t' o = smoothfs_replay_find t o).
Proof.
  intros Hp Hok Hnd Hc Hs Hw. apply index_write_image in Hw as ->; [|done].
  pose proof (index_read_prefix ora' j sbi rs (length (index_image sbi rs)) t Hok Hp Hc) as H. cbv zeta in H.
  rewrite firstn_all in H. destruct (smoothfs_path_index_read ora' j sbi _ t) as [err t']. cbn [fst snd] in H.
  destruct H as [H1 H2]. specialize (H2 Hs ltac:(unfold fsize; lia)) as ->. destruct (H1 eq_refl) as [_ ->].
  eexists. split; [reflexivity|]. split.
  - intros r p Hr Hcp. rewrite find_index_fold by done.
    assert (r ∈ chosen rs) as Hin by (apply list_elem_of_filter; split; [by eexists|done]).
    destruct (list_find (fun r0 => rr_oid r0 = rr_oid r) (chosen rs)) as [[i r']|] eqn:E.
    + apply list_find_Some in E as (E1 & E2 & _).
      assert (r' = r) as ->; [|by unfold path_of; rewrite Hcp].
      apply list_elem_of_lookup in Hin as [i' Hi'].
      assert (i = i') as <-; [|congruence].
      eapply (NoDup_lookup _ i i' (rr_oid r)); [exact Hnd| |]; rewrite list_lookup_fmap.
      * rewrite E1. cbn. by rewrite E2.
      * by rewrite Hi'.
    + apply list_find_None in E. rewrite Forall_forall in E. by apply E in Hin.
  - intros o Ho. rewrite find_index_fold by done.
    destruct (list_find (fun r0 => rr_oid r0 = o) (chosen rs)) as [[i r']|] eqn:E; [|done].
    exfalso. apply list_find_Some in E as (E1 & <- & _). apply Ho, list_elem_of_fmap_2. by eapply list_elem_of_lookup_2.
Qed.

(** Every proper prefix of a written index file, as a crash in the middle of
    writing leaves it, is rejected by the reader, whatever the reads return. *)
Theorem torn_path_index_is_rejected ora ora' k k' j old sbi rs f n t :
  pool_indexable sbi -> Forall (indexable sbi) (chosen rs) -> count_chosen rs <= 50000000 ->
  smoothfs_path_index_write ora k old sbi rs = (0, k', Some f) -> (n < length f)%nat ->
  fst (smoothfs_path_index_read ora' j sbi (Some (take n f)) t) <> 0.
Proof.
  intros Hp Hok Hc Hw Hn Hz. apply index_write_image in Hw as [= ->]; [|done].
  apply (index_read_prefix ora' j sbi rs n t Hok Hp Hc) in Hz as [Hge _]. unfold fsize in Hge. lia.
Qed.

(** ** A concrete index *)

Definition idx_pool : sb_info := sb_zero <| pool_uuid := replicate 16 5 |> <| ntiers := 2 |>.
Definition idx_records : list replay_record :=
  [new_record (replicate 16 1) <| chosen_rel_path := Some "a/b"%string |> <| chosen_tier := 1 |>;
   new_record (replicate 16 2);
   new_record (replicate 16 3) <| chosen_rel_path := Some "c"%string |> <| chosen_tier := 0 |>].

Lemma idx_pool_ok : pool_indexable idx_pool.
Proof. split; [reflexivity|]. cbn. lia. Qed.

Lemma idx_records_ok : Forall (indexable idx_pool) (chosen idx_records).
Proof.
  change (chosen idx_records) with
    [new_record (replicate 16 1) <| chosen_rel_path := Some "a/b"%string |> <| chosen_tier := 1 |>;
     new_record (replicate 16 3) <| chosen_rel_path := Some "c"%string |> <| chosen_tier := 0 |>].
  apply Forall_cons; split; [|apply Forall_cons; split; [|constructor]].
  all: split; [reflexivity|split; [cbn; lia|split; [|vm_compute; discriminate]]].
  all: apply (bool_decide_unpack _); vm_compute; exact I.
Qed.

Lemma never_fails_paths : smooth_run never_fails PATH_MAX.
Proof. intros k. unfold never_fails, PATH_MAX. lia. Qed.

Lemma path_index_roundtrip_witness :
  exists t', smoothfs_path_index_read never_fails 0 idx_pool
               (snd (smoothfs_path_index_write never_fails 0 None idx_pool idx_records)) [] = (0, t')
  /\ (chosen_rel_path <$> smoothfs_replay_find t' (replicate 16 1)) = Some (Some "a/b"%string).
Proof.
  destruct (smoothfs_path_index_write never_fails 0 None idx_pool idx_records) as [[err k'] f] eqn:E.
  assert (err = 0) as -> by (change (fst (fst (err, k', f)) = 0); rewrite <- E; vm_compute; reflexivity).
  destruct (path_index_roundtrip never_fails never_fails 0 k' 0 None idx_pool idx_records f [] idx_pool_ok idx_records_ok)
    as (t' & H1 & H2 & _).
  - apply (bool_decide_unpack _). vm_compute. exact I.
  - vm_compute. discriminate.
  - apply never_fails_paths.
  - exact E.
  - exists t'. split; [exact H1|].
    pose proof (H2 (new_record (replicate 16 1) <| chosen_rel_path := Some "a/b"%string |> <| chosen_tier := 1 |>)
      "a/b"%string ltac:(left) eq_refl) as H3.
    change (smoothfs_replay_find t' (replicate 16 1) = Some (index_place 1 "a/b"%string (new_record (replicate 16 1)))) in H3.
    rewrite H3. reflexivity.
Defined.

Lemma torn_path_index_is_rejected_witness :
  fst (smoothfs_path_index_read never_fails 0 idx_pool (Some (take 60 (index_image idx_pool idx_records))) []) <> 0.
Proof.
  apply (torn_path_index_is_rejected never_fails never_fails 0 8 0 None idx_pool idx_records (index_image idx_pool idx_records)
           60 [] idx_pool_ok idx_records_ok).
  - vm_compute. discriminate.
  - vm_compute. reflexivity.
  - apply Nat.ltb_lt. vm_compute. reflexivity.
Defined.
