(* ===== verification/Replay.v ===== *)
(** * Mount-time replay and lazy recovery: src/src/smoothfs/placement.c

    At mount the placement log and the path index fill a table of records; an
    object is instantiated from its record when something asks for its id.
    Without a usable index a background pass walks the tiers ([scan_tree]) and
    writes a new one.

    A tier's directory tree is an input ([ltree]); each answer of the kernel on
    the way (opening a directory, looking up a child, allocating) comes from
    the oracle.  This file also discharges the two interfaces other components
    use: [Recovery] for movement and [OidService] for range-staging replay. *)
From S2P Require Import Prelude Types Oid KernelIO RangeList RangeMeta PlacementLog InodeMaps Movement PathIndex.

Definition SMOOTHFS_PLACEMENT_DIR : string := ".smoothfs".

(** A lower tree: the object behind a name and, for a directory, its listing.
    [LGone] is a name that was listed and is negative when it is looked up. *)
Inductive ltree :=
| LGone
| LLeaf (d : Z)
| LDir (d : Z) (entries : lforest)
with lforest :=
| LNil
| LCons (n : string) (c : ltree) (rest : lforest).

Scheme ltree_mut := Induction for ltree Sort Prop
with lforest_mut := Induction for lforest Sort Prop.
Combined Scheme ltree_lforest_ind from ltree_mut, lforest_mut.

Record scan_env := ScanEnv {
  se_ora : oracle;
  se_stop : nat -> bool;               (* path_index_stop, as read at each point *)
  se_le : bool; se_now : nat -> Z; se_rand : nat -> Z;
}.

(** Progress of a scan: calls made so far, the pool, the table. *)
Record scan_st := ScanSt { ss_k : nat; ss_sbi : sb_info; ss_records : list replay_record }.
#[export] Instance scan_st_eta : Eta scan_st := fun r => ScanSt (ss_k r) (ss_sbi r) (ss_records r).

(** ** One object *)

(** Its id, minted and written when it has none.  [Ok None]: the xattr cannot
    be read and the object is skipped. *)
Definition scan_identity (e : scan_env) (s : scan_st) (d : Z) (l : lnode) : result (option (list Z)) * scan_st :=
  let k := ss_k s in
  match smoothfs_read_oid_xattr (se_ora e k) l with
  | Ok o => (Ok (Some o), s <| ss_k := S k |>)
  | Err err =>
      if negb (err =? - ENODATA) then (Ok None, s <| ss_k := S k |>)
      else
        let (sbi, o) := smoothfs_alloc_oid (se_le e) (se_now e k) (se_rand e k) (ss_sbi s) in
        let (err, l) := smoothfs_write_oid_xattr (se_ora e (k + 1)%nat) l o in
        let s := ScanSt (k + 3)%nat (sbi <| lower := <[d := l]> (lower sbi) |>) (ss_records s) in
        if err =? - EEXIST
        then match smoothfs_read_oid_xattr (se_ora e (k + 2)%nat) l with
             | Ok o => (Ok (Some o), s)
             | Err err => (Err err, s)
             end
        else if negb (err =? 0) then (Err err, s)
        else (Ok (Some o), s)
  end.

(** A record met for the first time, with no log entry, is placed here. *)
Definition scan_adopt (tier_rank gen : Z) (rec : replay_record) : replay_record :=
  match chosen_rel_path rec with
  | None =>
      if rr_seq rec =? 0
      then smoothfs_replay_normalize
             (rec <| rr_movement_state := ms_code MS_PLACED |> <| rr_current_tier := tier_rank |>
                  <| rr_intended_tier := tier_rank |> <| rr_pin_state := pin_code PIN_NONE |> <| rr_gen := gen |>)
      else rec
  | Some _ => rec
  end.

Definition scan_fallback (tier_rank gen : Z) (p : string) (rec : replay_record) : replay_record :=
  match fallback_rel_path rec with
  | None => rec <| fallback_rel_path := Some p |> <| fallback_tier := tier_rank |> <| fallback_gen := gen |>
  | Some _ => rec
  end.

Definition scan_choose (tier_rank gen : Z) (p : string) (rec : replay_record) : replay_record :=
  if (tier_rank =? authoritative_tier rec) && bool_decide (chosen_rel_path rec = None)
  then rec <| chosen_rel_path := Some p |> <| chosen_tier := tier_rank |> <| chosen_gen := gen |>
  else rec.

Definition smoothfs_scan_node (e : scan_env) (tier_rank : Z) (rel_path : string) (d : Z) (s : scan_st)
  : Z * scan_st :=
  match lower (ss_sbi s) !! d with
  | None => (0, s)
  | Some l =>
      if negb (S_ISREG (l_type l)) && negb (S_ISDIR (l_type l)) then (0, s)
      else
        match scan_identity e s d l with
        | (Err err, s) => (err, s)
        | (Ok None, s) => (0, s)
        | (Ok (Some o), s) =>
            let k := ss_k s in
            let gen := snd (smoothfs_read_gen_xattr (se_ora e k) l 0) in
            match smoothfs_replay_get_or_create (0 <=? se_ora e (k + 1)%nat) (ss_records s) o with
            | None => (- ENOMEM, s <| ss_k := (k + 2)%nat |>)
            | Some (rec, records) =>
                let s := s <| ss_k := (k + 4)%nat |> in
                let rec := scan_adopt tier_rank gen rec in
                let store rec := s <| ss_records := update_record rec records |> in
                if bool_decide (fallback_rel_path rec = None) && (se_ora e (k + 2)%nat <? 0)
                then (- ENOMEM, store rec)
                else
                  let rec := scan_fallback tier_rank gen rel_path rec in
                  if (tier_rank =? authoritative_tier rec) && bool_decide (chosen_rel_path rec = None)
                     && (se_ora e (k + 3)%nat <? 0)
                  then (- ENOMEM, store rec)
                  else (0, store (scan_choose tier_rank gen rel_path rec))
            end
        end
  end.

(** ** A tree *)

Definition is_dot (n : string) : bool := bool_decide (n = "."%string) || bool_decide (n = ".."%string).

Definition join_rel (prefix name : string) : string :=
  if bool_decide (prefix = EmptyString) then name else (prefix ++ "/" ++ name)%string.

(** [smoothfs_scan_dir_entries] (open, iterate, out of memory) and the checks
    before it; [body] works through the names. *)
Definition scan_dir (e : scan_env) (s : scan_st) (body : scan_st -> Z * scan_st) : Z * scan_st :=
  let k := ss_k s in
  if se_stop e k then (- ECANCELED, s)
  else if se_ora e k <? 0 then (se_ora e k, s <| ss_k := S k |>)
  else if se_ora e (k + 1)%nat <? 0 then (se_ora e (k + 1)%nat, s <| ss_k := (k + 2)%nat |>)
  else if se_ora e (k + 2)%nat <? 0 then (- ENOMEM, s <| ss_k := (k + 3)%nat |>)
  else body (s <| ss_k := (k + 3)%nat |>).

(** One listed name: the object, then, for a directory other than the pool's
    own one, what is below it. *)
Fixpoint scan_child (e : scan_env) (tier_rank : Z) (rel : string) (t : ltree) (s : scan_st) {struct t}
  : Z * scan_st :=
  match t with
  | LGone => (0, s)
  | LLeaf d => smoothfs_scan_node e tier_rank rel d s
  | LDir d entries =>
      if bool_decide (rel = SMOOTHFS_PLACEMENT_DIR) then (0, s)
      else
        let (err, s) := smoothfs_scan_node e tier_rank rel d s in
        if negb (err =? 0) then (err, s)
        else scan_dir e s (fun s => scan_entries e tier_rank rel entries s)
  end
with scan_entries (e : scan_env) (tier_rank : Z) (prefix : string) (entries : lforest) (s : scan_st)
    {struct entries} : Z * scan_st :=
  match entries with
  | LNil => (0, s)
  | LCons n c entries =>
      if is_dot n then scan_entries e tier_rank prefix entries s
      else
        let k := ss_k s in
        if se_ora e k <? 0 then (- ENOMEM, s <| ss_k := S k |>)
        else if se_ora e (k + 1)%nat <? 0 then (se_ora e (k + 1)%nat, s <| ss_k := (k + 2)%nat |>)
        else
          let (err, s) := scan_child e tier_rank (join_rel prefix n) c (s <| ss_k := (k + 2)%nat |>) in
          if negb (err =? 0) then (err, s)
          else match c with
               | LGone => scan_entries e tier_rank prefix entries s
               | _ => if se_stop e (ss_k s) then (- ECANCELED, s) else scan_entries e tier_rank prefix entries s
               end
  end.

Definition smoothfs_scan_tree (e : scan_env) (tier_rank : Z) (prefix : string) (entries : lforest) (s : scan_st)
  : Z * scan_st :=
  scan_dir e s (scan_entries e tier_rank prefix entries).

(** ** What a scan visits *)

Fixpoint tree_objects (rel : string) (t : ltree) {struct t} : list (string * Z) :=
  match t with
  | LGone => []
  | LLeaf d => [(rel, d)]
  | LDir d entries => if bool_decide (rel = SMOOTHFS_PLACEMENT_DIR) then []
                      else (rel, d) :: forest_objects rel entries
  end
with forest_objects (prefix : string) (entries : lforest) {struct entries} : list (string * Z) :=
  match entries with
  | LNil => []
  | LCons n c entries => if is_dot n then forest_objects prefix entries
                         else tree_objects (join_rel prefix n) c ++ forest_objects prefix entries
  end.

(** A property of the scan state that every visited object keeps. *)
Section ScanInvariant.
Context (e : scan_env) (tier_rank : Z) (Inv : scan_st -> Prop) (P : string -> Z -> Prop).
Context (Inv_k : forall s k, Inv s -> Inv (s <| ss_k := k |>)).
Context (Inv_node : forall p d s err s', P p d -> Inv s ->
           smoothfs_scan_node e tier_rank p d s = (err, s') -> Inv s').

Lemma scan_dir_inv s body err s' :
  Inv s -> (forall s err s', Inv s -> body s = (err, s') -> Inv s') ->
  scan_dir e s body = (err, s') -> Inv s'.
Proof.
  intros Hs Hb. unfold scan_dir.
  do 4 (case_goal; [intros [= <- <-]; first [exact Hs|by apply Inv_k]|]).
  intros Hx. eapply Hb; [|exact Hx]. by apply Inv_k.
Qed.

Lemma scan_inv :
  (forall t rel s err s', (forall p d, (p, d) ∈ tree_objects rel t -> P p d) -> Inv s ->
     scan_child e tier_rank rel t s = (err, s') -> Inv s')
  /\ (forall es prefix s err s', (forall p d, (p, d) ∈ forest_objects prefix es -> P p d) -> Inv s ->
        scan_entries e tier_rank prefix es s = (err, s') -> Inv s').
Proof.
  apply ltree_lforest_ind; cbn [scan_child scan_entries tree_objects forest_objects].
  - by intros rel s err s' _ Hs [= <- <-].
  - intros d rel s err s' HP Hs Hn. eapply Inv_node; [|exact Hs|exact Hn]. apply HP. left.
  - intros d es IH rel s err s' HP Hs. case_bool_decide; [by intros [= <- <-]|].
    destruct (smoothfs_scan_node _ _ _ _ _) as [e1 s1] eqn:E1.
    assert (Inv s1) as H1 by (eapply Inv_node; [|exact Hs|exact E1]; apply HP; left).
    case_goal; [by intros [= <- <-]|]. intros Hd. eapply scan_dir_inv; [exact H1| |exact Hd].
    intros s2 e2 s3 H2. eapply IH; [|done]. intros p d' Hin. apply HP. by right.
  - by intros prefix s err s' _ Hs [= <- <-].
  - intros n c IHc es IHes prefix s err s' HP Hs. destruct (is_dot n); [by apply IHes|].
    do 2 (case_goal; [intros [= <- <-]; by apply Inv_k|]).
    destruct (scan_child _ _ _ _ _) as [e1 s1] eqn:E1.
    assert (Inv s1) as H1.
    { eapply IHc; [| |exact E1]; [|by apply Inv_k]. intros p d Hin. apply HP, elem_of_app. by left. }
    case_goal; [by intros [= <- <-]|].
    assert (scan_entries e tier_rank prefix es s1 = (err, s') -> Inv s') as Hgo
      by (apply IHes; [intros p d Hin; apply HP, elem_of_app; by right|done]).
    destruct c; [done|..]; (case_goal; [by intros [= <- <-]|done]).
Qed.

Lemma scan_tree_inv prefix es s err s' :
  (forall p d, (p, d) ∈ forest_objects prefix es -> P p d) -> Inv s ->
  smoothfs_scan_tree e tier_rank prefix es s = (err, s') -> Inv s'.
Proof.
  intros HP Hs Hd. eapply scan_dir_inv; [exact Hs| |exact Hd].
  intros s2 e2 s3 H2. by apply (proj2 scan_inv).
Qed.
End ScanInvariant.

(** ** One object, in detail *)

Lemma scan_identity_spec e s d l r s' : lower (ss_sbi s) !! d = Some l ->
  scan_identity e s d l = (r, s') ->
  ss_records s' = ss_records s
  /\ exists l', lower (ss_sbi s') = <[d := l']> (lower (ss_sbi s))
     /\ l_type l' = l_type l /\ (forall o, l_oid l = Some o -> l_oid l' = Some o)
     /\ (forall o, l_oid l' = Some o -> l_oid l = Some o \/ length o = SMOOTHFS_OID_LEN)
     /\ (forall o, r = Ok (Some o) -> l_oid l' = Some o).
Proof.
  intros Hl. assert (lower (ss_sbi s) = <[d := l]> (lower (ss_sbi s))) as Hid by (by rewrite insert_id).
  unfold scan_identity. destruct (smoothfs_read_oid_xattr _ l) as [e1|o1] eqn:E1.
  2: { intros [= <- <-]. split; [done|]. exists l. split_and!; auto. intros o [= ->]. by eapply read_oid_Ok. }
  case_goal; [intros [= <- <-]; split; [done|]; exists l; split_and!; auto; done|].
  destruct (smoothfs_alloc_oid _ _ _ _) as [sbi1 o1] eqn:Ea.
  assert (lower sbi1 = lower (ss_sbi s) /\ length o1 = SMOOTHFS_OID_LEN) as [Hsb Ho1]
    by (unfold smoothfs_alloc_oid in Ea; injection Ea as <- <-; split; [done|apply length_oid_bytes]).
  destruct (smoothfs_write_oid_xattr _ l o1) as [e2 l2] eqn:E2.
  assert (l_type l2 = l_type l /\ (forall o, l_oid l = Some o -> l_oid l2 = Some o)
    /\ (forall o, l_oid l2 = Some o -> l_oid l = Some o \/ length o = SMOOTHFS_OID_LEN)
    /\ (e2 = 0 -> l_oid l2 = Some o1)) as (W1 & W2 & W3 & W4).
  { revert E2. unfold smoothfs_write_oid_xattr. destruct (Z.ltb_spec (se_ora e (ss_k s + 1)%nat) 0).
    - intros [= <- <-]. split_and!; auto. lia.
    - destruct (l_oid l) as [o0|] eqn:El; intros [= <- <-].
      + rewrite El. split_and!; auto. done.
      + cbn. split_and!; [done|done| |done]. intros o [= <-]. by right. }
  assert (forall r0 s0, s0 = ScanSt (ss_k s + 3)%nat (sbi1 <| lower := <[d := l2]> (lower sbi1) |>) (ss_records s) ->
    (forall o, r0 = Ok (Some o) -> l_oid l2 = Some o) -> (r0, s0) = (r, s') ->
    ss_records s' = ss_records s /\ exists l', lower (ss_sbi s') = <[d := l']> (lower (ss_sbi s))
     /\ l_type l' = l_type l /\ (forall o, l_oid l = Some o -> l_oid l' = Some o)
     /\ (forall o, l_oid l' = Some o -> l_oid l = Some o \/ length o = SMOOTHFS_OID_LEN)
     /\ (forall o, r = Ok (Some o) -> l_oid l' = Some o)) as Hfin.
  { intros r0 s0 -> Hr [= <- <-]. split; [done|]. exists l2. cbn. rewrite Hsb. auto. }
  destruct (e2 =? - EEXIST).
  - destruct (smoothfs_read_oid_xattr _ l2) as [e3|o3] eqn:E3; apply Hfin; try done.
    intros o [= <-]. by eapply read_oid_Ok.
  - destruct (Z.eqb_spec e2 0) as [->|]; cbn [negb]; apply Hfin; try done. intros o [= <-]. auto.
Qed.

(** The record of an object after a visit at path [p] of tier [t]; [done_]:
    the visit was not cut short by an allocation. *)
Record visited (t : Z) (p : string) (rec rec' : replay_record) (done_ : bool) : Prop := Visited {
  vi_oid : rr_oid rec' = rr_oid rec;
  vi_seq : rr_seq rec' = rr_seq rec;
  vi_chosen : (chosen_rel_path rec' = chosen_rel_path rec /\ chosen_tier rec' = chosen_tier rec)
              \/ chosen_rel_path rec = None /\ chosen_rel_path rec' = Some p /\ chosen_tier rec' = t;
  vi_fallback : (fallback_rel_path rec' = fallback_rel_path rec /\ fallback_tier rec' = fallback_tier rec)
                \/ fallback_rel_path rec = None /\ fallback_rel_path rec' = Some p /\ fallback_tier rec' = t;
  vi_auth : rr_seq rec <> 0 -> authoritative_tier rec' = authoritative_tier rec;
  vi_done : done_ = true -> fallback_rel_path rec' <> None
            /\ (chosen_rel_path rec' <> None \/ rr_seq rec' <> 0 /\ authoritative_tier rec' <> t);
}.

Lemma adopt_facts t g rec : let rec' := scan_adopt t g rec in
  rr_oid rec' = rr_oid rec /\ rr_seq rec' = rr_seq rec /\ chosen_rel_path rec' = chosen_rel_path rec
  /\ chosen_tier rec' = chosen_tier rec
  /\ (fallback_rel_path rec' = fallback_rel_path rec /\ fallback_tier rec' = fallback_tier rec)
  /\ (rr_seq rec <> 0 -> authoritative_tier rec' = authoritative_tier rec)
  /\ (rr_seq rec = 0 -> chosen_rel_path rec = None -> authoritative_tier rec' = t).
Proof.
  cbv zeta. unfold scan_adopt. destruct (chosen_rel_path rec) eqn:Ec; [by split_and!|].
  destruct (Z.eqb_spec (rr_seq rec) 0) as [E|E]; [|by split_and!].
  cbn. by rewrite Ec.
Qed.

Lemma fallback_facts t g p rec : let rec' := scan_fallback t g p rec in
  rr_oid rec' = rr_oid rec /\ rr_seq rec' = rr_seq rec /\ chosen_rel_path rec' = chosen_rel_path rec
  /\ chosen_tier rec' = chosen_tier rec /\ authoritative_tier rec' = authoritative_tier rec
  /\ fallback_rel_path rec' <> None
  /\ ((fallback_rel_path rec' = fallback_rel_path rec /\ fallback_tier rec' = fallback_tier rec)
      \/ fallback_rel_path rec = None /\ fallback_rel_path rec' = Some p /\ fallback_tier rec' = t).
Proof.
  cbv zeta. unfold scan_fallback. destruct (fallback_rel_path rec) eqn:E; cbn; split_and!; try done.
  - by rewrite E.
  - by left.
  - by right.
Qed.

Lemma adopt_visited t g p rec : visited t p rec (scan_adopt t g rec) false.
Proof.
  destruct (adopt_facts t g rec) as (A1 & A2 & A3 & A4 & A5 & A6 & A7).
  split; try done; by left.
Qed.

Lemma fallback_visited t g p rec : visited t p rec (scan_fallback t g p (scan_adopt t g rec)) false.
Proof.
  destruct (adopt_facts t g rec) as (A1 & A2 & A3 & A4 & A5 & A6 & A7).
  destruct (fallback_facts t g p (scan_adopt t g rec)) as (F1 & F2 & F3 & F4 & F5 & F6 & F7). rewrite (proj1 A5), (proj2 A5) in F7.
  split; [congruence|congruence|left; split; congruence|exact F7| |done].
  intros Hs. rewrite F5. auto.
Qed.

Lemma choose_visited t g p rec :
  visited t p rec (scan_choose t g p (scan_fallback t g p (scan_adopt t g rec))) true.
Proof.
  destruct (adopt_facts t g rec) as (A1 & A2 & A3 & A4 & A5 & A6 & A7).
  destruct (fallback_facts t g p (scan_adopt t g rec)) as (F1 & F2 & F3 & F4 & F5 & F6 & F7). rewrite (proj1 A5), (proj2 A5) in F7.
  set (r := scan_fallback _ _ _ _) in *. clearbody r. unfold scan_choose.
  destruct (Z.eqb_spec t (authoritative_tier r)) as [Et|Et]; cbn [andb]; [case_bool_decide as Ec|].
  - split; cbn; [congruence|congruence|right; split_and!; [congruence|done..]|exact F7| |].
    + intros Hs. rewrite F5. auto.
    + intros _. split; [done|by left].
  - split; [congruence|congruence|left; split; congruence|exact F7| |auto]. intros Hs. rewrite F5. auto.
  - split; [congruence|congruence|left; split; congruence|exact F7| |].
    + intros Hs. rewrite F5. auto.
    + intros _. split; [done|]. destruct (chosen_rel_path r) eqn:Ec; [by left|]. right.
      split; [|done]. intros Hs. apply Et. rewrite F5. symmetry. apply A7; congruence.
Qed.

(** The lower objects after a visit: ids are added, never changed. *)
Definition lower_grows (a b : gmap Z lnode) : Prop :=
  forall d l, a !! d = Some l -> exists l', b !! d = Some l' /\ l_type l' = l_type l
    /\ (forall o, l_oid l = Some o -> l_oid l' = Some o).

Definition oids_ok (m : gmap Z lnode) : Prop :=
  forall d l o, m !! d = Some l -> l_oid l = Some o -> length o = SMOOTHFS_OID_LEN.

Lemma lower_grows_refl a : lower_grows a a.
Proof. intros d l Hl. eauto. Qed.

Lemma lower_grows_trans a b c : lower_grows a b -> lower_grows b c -> lower_grows a c.
Proof.
  intros H1 H2 d l Hl. destruct (H1 _ _ Hl) as (l1 & Hl1 & T1 & O1). destruct (H2 _ _ Hl1) as (l2 & Hl2 & T2 & O2).
  exists l2. split_and!; [done|congruence|auto].
Qed.

(** What a visit does. *)
Inductive node_effect (t : Z) (p : string) (d : Z) (s s' : scan_st) : Prop :=
| NE_none : ss_records s' = ss_records s -> node_effect t p d s s'
| NE_visit l' o rec rs rec' done_ :
    lower (ss_sbi s') !! d = Some l' -> l_oid l' = Some o ->
    smoothfs_replay_get_or_create true (ss_records s) o = Some (rec, rs) ->
    visited t p rec rec' done_ -> ss_records s' = update_record rec' rs -> node_effect t p d s s'.

Lemma scan_node_spec e t p d s err s' : smoothfs_scan_node e t p d s = (err, s') ->
  lower_grows (lower (ss_sbi s)) (lower (ss_sbi s'))
  /\ (oids_ok (lower (ss_sbi s)) -> oids_ok (lower (ss_sbi s')))
  /\ node_effect t p d s s'.
Proof.
  unfold smoothfs_scan_node. destruct (lower (ss_sbi s) !! d) as [l|] eqn:El.
  2: { intros [= <- <-]. split_and!; [apply lower_grows_refl|done|by apply NE_none]. }
  case_goal; [intros [= <- <-]; split_and!; [apply lower_grows_refl|done|by apply NE_none]|].
  destruct (scan_identity e s d l) as [r s1] eqn:Ei.
  apply scan_identity_spec in Ei as (R1 & l1 & L1 & T1 & O1 & O2 & O3); [|done].
  assert (lower_grows (lower (ss_sbi s)) (lower (ss_sbi s1))) as Hg.
  { intros d' l' Hl'. rewrite L1. destruct (decide (d = d')) as [<-|Hne].
    - exists l1. rewrite lookup_insert_eq. rewrite El in Hl'. injection Hl' as <-. auto.
    - exists l'. rewrite lookup_insert_ne by done. auto. }
  assert (oids_ok (lower (ss_sbi s)) -> oids_ok (lower (ss_sbi s1))) as Hok.
  { intros H d' l' o. rewrite L1. intros [[<- <-]|[_ Hl']]%lookup_insert_Some Ho; [|by eapply H].
    destruct (O2 _ Ho) as [?|?]; [by eapply H|done]. }
  assert (lower (ss_sbi s1) !! d = Some l1) as Hd by (rewrite L1; apply lookup_insert_eq).
  destruct r as [er|[o|]]; [intros [= <- <-]; split_and!; [done|done|by apply NE_none]| |
    intros [= <- <-]; split_and!; [done|done|by apply NE_none]].
  specialize (O3 o eq_refl). set (g := snd _).
  destruct (smoothfs_replay_get_or_create _ (ss_records s1) o) as [[rec rs]|] eqn:Eg.
  2: { intros [= <- <-]. split_and!; [done|done|by apply NE_none]. }
  apply get_or_create_any in Eg. rewrite R1 in Eg.
  assert (forall rec' k b, visited t p rec rec' b ->
    (err, s') = (err, s1 <| ss_k := k |> <| ss_records := update_record rec' rs |>) ->
    lower_grows (lower (ss_sbi s)) (lower (ss_sbi s')) /\ (oids_ok (lower (ss_sbi s)) -> oids_ok (lower (ss_sbi s')))
    /\ node_effect t p d s s') as Hfin.
  { intros rec' k b Hv [= ->]. split_and!; [done|done|]. by eapply NE_visit. }
  case_goal; [intros [= <- <-]; exact (Hfin _ _ _ (adopt_visited t g p rec) eq_refl)|].
  case_goal; [intros [= <- <-]; exact (Hfin _ _ _ (fallback_visited t g p rec) eq_refl)|].
  intros [= <- <-]. exact (Hfin _ _ _ (choose_visited t g p rec) eq_refl).
Qed.

Lemma goc_spec rs o rec rs1 : smoothfs_replay_get_or_create true rs o = Some (rec, rs1) ->
  rr_oid rec = o /\ (smoothfs_replay_find rs o = Some rec \/ smoothfs_replay_find rs o = None /\ rec = new_record o)
  /\ forall rec' o', rr_oid rec' = o ->
       smoothfs_replay_find (update_record rec' rs1) o' = if bytes_eqb o o' then Some rec' else smoothfs_replay_find rs o'.
Proof.
  unfold smoothfs_replay_get_or_create. destruct (smoothfs_replay_find rs o) as [r|] eqn:E; cbn [negb].
  - intros [= <- <-]. split; [by eapply find_Some_oid|]. split; [by left|].
    intros rec' o' Ho. rewrite find_update, Ho. destruct (bytes_eqb o o') eqn:Eb; [|done].
    apply bytes_eqb_eq in Eb as <-. by rewrite E.
  - intros [= <- <-]. split; [done|]. split; [by right|].
    intros rec' o' Ho. rewrite find_update, find_snoc, Ho. change (rr_oid (new_record o)) with o.
    destruct (bytes_eqb o o') eqn:Eb; [|by destruct (smoothfs_replay_find rs o')].
    apply bytes_eqb_eq in Eb as <-. by rewrite E.
Qed.

(** At path [p] of tier [t] ([objs] lists the tiers' objects) there is an object
    with id [o]. *)
Definition leads (objs : Z -> list (string * Z)) (s : scan_st) (t : Z) (p : string) (o : list Z) : Prop :=
  exists d l, (p, d) ∈ objs t /\ lower (ss_sbi s) !! d = Some l /\ l_oid l = Some o.

(** The paths of a record lead to objects with the record's id. *)
Definition leads_there objs s (rec : replay_record) (o : list Z) : Prop :=
  (forall p, chosen_rel_path rec = Some p -> leads objs s (chosen_tier rec) p o)
  /\ (forall p, fallback_rel_path rec = Some p -> leads objs s (fallback_tier rec) p o).

Definition paths_sound (objs : Z -> list (string * Z)) (s : scan_st) : Prop :=
  forall o rec, smoothfs_replay_find (ss_records s) o = Some rec -> leads_there objs s rec o.

Lemma leads_grow objs s s' t p o : lower_grows (lower (ss_sbi s)) (lower (ss_sbi s')) -> leads objs s t p o -> leads objs s' t p o.
Proof. intros Hg (d & l & H1 & H2 & H3). destruct (Hg _ _ H2) as (l' & H4 & _ & H5). exists d, l'. auto. Qed.

Lemma leads_there_grow objs s s' rec o : lower_grows (lower (ss_sbi s)) (lower (ss_sbi s')) ->
  leads_there objs s rec o -> leads_there objs s' rec o.
Proof. intros Hg [H1 H2]. split; intros p Hp; eapply leads_grow; eauto. Qed.

Lemma paths_sound_grow objs s s' : ss_records s' = ss_records s ->
  lower_grows (lower (ss_sbi s)) (lower (ss_sbi s')) -> paths_sound objs s -> paths_sound objs s'.
Proof. intros Hr Hg Hs o rec Hf. rewrite Hr in Hf. eapply leads_there_grow; eauto. Qed.

Lemma scan_node_sound e t p d objs s err s' : (p, d) ∈ objs t -> paths_sound objs s ->
  smoothfs_scan_node e t p d s = (err, s') -> paths_sound objs s'.
Proof.
  intros Hp Hs Hn. apply scan_node_spec in Hn as (Hg & _ & [Hr|l' o rec rs rec' b Hl Ho Hgc Hv Hr]).
  { by eapply paths_sound_grow. }
  apply goc_spec in Hgc as (Hoid & Hwas & Hfind). destruct Hv as [V1 V2 V3 V4 V5 V6].
  assert (leads objs s' t p o) as Hhere by (exists d, l'; auto).
  assert (leads_there objs s' rec o) as [Hw1 Hw2].
  { destruct Hwas as [Hw|[_ ->]]; [eapply leads_there_grow; eauto|by split]. }
  intros o1 r1. rewrite Hr, Hfind by congruence. destruct (bytes_eqb o o1) eqn:Eb.
  - apply bytes_eqb_eq in Eb as <-. intros [= <-]. split; intros q Hq.
    + destruct V3 as [[C1 C2]|(C0 & C1 & C2)]; rewrite C2; [apply Hw1; congruence|by simplify_eq].
    + destruct V4 as [[C1 C2]|(C0 & C1 & C2)]; rewrite C2; [apply Hw2; congruence|by simplify_eq].
  - intros Hf. eapply leads_there_grow; eauto.
Qed.

Lemma scan_tree_sound e t es objs s err s' :
  (forall p d, (p, d) ∈ forest_objects EmptyString es -> (p, d) ∈ objs t) ->
  paths_sound objs s -> smoothfs_scan_tree e t EmptyString es s = (err, s') -> paths_sound objs s'.
Proof.
  intros Hsub. apply (scan_tree_inv e t (paths_sound objs) (fun p d => (p, d) ∈ objs t)); [| |done].
  - intros s0 k Hs. exact Hs.
  - intros p d s0 e0 s1 Hp Hs Hn. by eapply scan_node_sound.
Qed.

(** Whatever fails or is cancelled during a scan, every path in the record table
    leads, on the tier the record names, to an object that carries the record's
    id. *)
Theorem scan_records_real_paths e t es objs s err s' :
  (forall p d, (p, d) ∈ forest_objects EmptyString es -> (p, d) ∈ objs t) ->
  paths_sound objs s -> smoothfs_scan_tree e t EmptyString es s = (err, s') -> paths_sound objs s'.
Proof. apply scan_tree_sound. Qed.
(** ** Completeness *)

(** The object at [d], if it is one smoothfs tracks, has an id and a record
    that leads to it. *)
Definition recorded (t : Z) (d : Z) (s : scan_st) : Prop :=
  exists l, lower (ss_sbi s) !! d = Some l
  /\ (S_ISREG (l_type l) || S_ISDIR (l_type l) = true ->
      exists o rec, l_oid l = Some o /\ smoothfs_replay_find (ss_records s) o = Some rec
      /\ fallback_rel_path rec <> None
      /\ (chosen_rel_path rec <> None \/ rr_seq rec <> 0 /\ authoritative_tier rec <> t)).

(** A run without faults or a stop request. *)
Definition calm_scan (e : scan_env) : Prop :=
  (forall k, 0 <= se_ora e k) /\ (forall k, se_stop e k = false).

Record advances (t : Z) (s s' : scan_st) : Prop := Advances {
  av_lower : lower_grows (lower (ss_sbi s)) (lower (ss_sbi s'));
  av_oids : oids_ok (lower (ss_sbi s)) -> oids_ok (lower (ss_sbi s'));
  av_recorded : forall d, recorded t d s -> recorded t d s';
}.

Lemma advances_trans t a b c : advances t a b -> advances t b c -> advances t a c.
Proof. intros [A1 A2 A3] [B1 B2 B3]. split; [by eapply lower_grows_trans|auto|auto]. Qed.

Lemma advances_k t s k : advances t s (s <| ss_k := k |>).
Proof. split; [apply lower_grows_refl|done|done]. Qed.

Lemma scan_node_advances e t p d s err s' : smoothfs_scan_node e t p d s = (err, s') -> advances t s s'.
Proof.
  intros Hn. apply scan_node_spec in Hn as (Hg & Hok & Hne). split; [done|done|].
  intros d0 (l & Hl & Hrec). destruct (Hg _ _ Hl) as (l' & Hl' & Ht & Ho). exists l'. split; [done|].
  rewrite Ht. intros Hty. destruct (Hrec Hty) as (o & rec & H1 & H2 & H3 & H4).
  destruct Hne as [Hr|l1 o1 rec1 rs rec' b Hl1 Ho1 Hgc Hv Hr].
  { rewrite Hr. exists o, rec. auto. }
  apply goc_spec in Hgc as (Hoid & Hwas & Hfind). destruct Hv as [V1 V2 V3 V4 V5 V6].
  rewrite Hr. exists o. rewrite Hfind by congruence. destruct (bytes_eqb o1 o) eqn:Eb; [|exists rec; auto].
  apply bytes_eqb_eq in Eb as ->. exists rec'. split; [auto|]. split; [done|].
  destruct Hwas as [Hw|[Hw _]]; [|congruence]. rewrite H2 in Hw. injection Hw as <-.
  split; [destruct V4 as [[-> _]|(_ & -> & _)]; done|].
  destruct V3 as [[C1 C2]|(C0 & C1 & C2)]; [|left; by rewrite C1].
  rewrite C1. destruct H4 as [?|[S1 S2]]; [by left|]. right. rewrite V2, V5 by done. done.
Qed.

Lemma scan_identity_calm e s d l : calm_scan e -> (forall o, l_oid l = Some o -> length o = SMOOTHFS_OID_LEN) ->
  exists o s1, scan_identity e s d l = (Ok (Some o), s1).
Proof.
  intros [Ho _] Hlen. assert (forall k, (se_ora e k <? 0) = false) as Hf by (intros k; apply Z.ltb_ge, Ho).
  unfold scan_identity, smoothfs_read_oid_xattr, vfs_getxattr, smoothfs_write_oid_xattr. rewrite !Hf.
  destruct (l_oid l) as [b|] eqn:El.
  - pose proof (Hlen b eq_refl) as Hb. unfold SMOOTHFS_OID_LEN in *. rewrite Hb. cbn [Nat.ltb Nat.leb negb]. rewrite Hb. cbn [Nat.eqb negb]. eauto.
  - destruct (smoothfs_alloc_oid _ _ _ _) as [sbi o]. cbn. eauto.
Qed.

Lemma scan_node_complete e t p d s : calm_scan e -> oids_ok (lower (ss_sbi s)) ->
  is_Some (lower (ss_sbi s) !! d) ->
  exists s', smoothfs_scan_node e t p d s = (0, s') /\ recorded t d s'.
Proof.
  intros Hc Hok [l Hl]. unfold smoothfs_scan_node. rewrite Hl.
  assert (forall k, (se_ora e k <? 0) = false) as Hf by (intros k; apply Z.ltb_ge, Hc).
  assert (forall k, (0 <=? se_ora e k) = true) as Ha by (intros k; apply Z.leb_le, Hc).
  destruct (negb (S_ISREG (l_type l)) && negb (S_ISDIR (l_type l))) eqn:Ety.
  { exists s. split; [done|]. exists l. split; [done|]. to_prop.
    intros Hx. apply orb_true_iff in Hx as [?|?]; congruence. }
  destruct (scan_identity_calm e s d l Hc ltac:(intros o Hx; by eapply Hok)) as (o & s1 & Ei).
  rewrite Ei. apply scan_identity_spec in Ei as (R1 & l1 & L1 & T1 & O1 & O2 & O3); [|done].
  specialize (O3 o eq_refl). set (g := snd _). rewrite Ha.
  destruct (smoothfs_replay_get_or_create true (ss_records s1) o) as [[rec rs]|] eqn:Eg.
  2: { exfalso. unfold smoothfs_replay_get_or_create in Eg. by destruct (smoothfs_replay_find _ _). }
  apply goc_spec in Eg as (Hoid & _ & Hfind). rewrite !Hf, !andb_false_r.
  eexists. split; [reflexivity|]. exists l1.
  split; [change (lower (ss_sbi s1) !! d = Some l1); rewrite L1; apply lookup_insert_eq|]. intros _.
  pose proof (choose_visited t g p rec) as [V1 _ _ _ _ V6].
  exists o, (scan_choose t g p (scan_fallback t g p (scan_adopt t g rec))).
  split; [done|]. split; [|by apply V6]. etransitivity; [apply Hfind; congruence|by rewrite bytes_eqb_refl].
Qed.

Lemma scan_complete e t : calm_scan e ->
  (forall c rel s, oids_ok (lower (ss_sbi s)) ->
     (forall p d, (p, d) ∈ tree_objects rel c -> is_Some (lower (ss_sbi s) !! d)) ->
     exists s', scan_child e t rel c s = (0, s') /\ advances t s s'
     /\ forall p d, (p, d) ∈ tree_objects rel c -> recorded t d s')
  /\ (forall es prefix s, oids_ok (lower (ss_sbi s)) ->
     (forall p d, (p, d) ∈ forest_objects prefix es -> is_Some (lower (ss_sbi s) !! d)) ->
     exists s', scan_entries e t prefix es s = (0, s') /\ advances t s s'
     /\ forall p d, (p, d) ∈ forest_objects prefix es -> recorded t d s').
Proof.
  intros Hc. assert (forall k, (se_ora e k <? 0) = false) as Hf by (intros k; apply Z.ltb_ge, Hc).
  assert (forall s, advances t s s) as Hrefl by (intros s; split; [apply lower_grows_refl|done|done]).
  assert (forall s s' d, advances t s s' -> is_Some (lower (ss_sbi s) !! d) -> is_Some (lower (ss_sbi s') !! d)) as Hpres.
  { intros s s' d [A _ _] [l Hl]. destruct (A _ _ Hl) as (l' & -> & _). by eexists. }
  apply ltree_lforest_ind; cbn [scan_child scan_entries tree_objects forest_objects].
  - intros rel s _ _. exists s. split_and!; [done|done|]. intros p d Hin. by apply not_elem_of_nil in Hin.
  - intros d rel s Hok Hin. destruct (scan_node_complete e t rel d s Hc Hok) as (s' & E & Hr); [apply (Hin rel); left|].
    exists s'. split; [done|]. split; [by eapply scan_node_advances|].
    intros p d' [= -> ->]%list_elem_of_singleton. done.
  - intros d es IH rel s Hok Hin. case_bool_decide.
    { exists s. split_and!; [done|done|]. intros p d' Hx. by apply not_elem_of_nil in Hx. }
    destruct (scan_node_complete e t rel d s Hc Hok) as (s1 & E & Hr); [apply (Hin rel); left|].
    rewrite E. cbn [negb Z.eqb]. pose proof (scan_node_advances _ _ _ _ _ _ _ E) as Ha.
    unfold scan_dir. rewrite (proj2 Hc), !Hf. set (s2 := s1 <| ss_k := _ |>).
    destruct (IH rel s2) as (s' & E' & Ha' & Hr').
    { by apply (av_oids _ _ _ Ha). }
    { intros p d' Hp. change (lower (ss_sbi s2)) with (lower (ss_sbi s1)). eapply Hpres; [exact Ha|]. apply (Hin p). by right. }
    exists s'. split; [exact E'|]. split; [exact (advances_trans _ _ _ _ Ha (advances_trans _ _ _ _ (advances_k t s1 _) Ha'))|].
    intros p d' [[= -> ->]|Hx]%elem_of_cons; [|by eapply Hr']. by apply (av_recorded _ _ _ Ha').
  - intros prefix s _ _. exists s. split_and!; [done|done|]. intros p d Hin. by apply not_elem_of_nil in Hin.
  - intros n c IHc es IHes prefix s Hok Hin. destruct (is_dot n); [by apply IHes|]. rewrite !Hf.
    set (s0 := s <| ss_k := _ |>).
    destruct (IHc (join_rel prefix n) s0) as (s1 & E1 & A1 & R1); [done|intros p d Hp; apply (Hin p), elem_of_app; by left|].
    rewrite E1. cbn [negb Z.eqb].
    destruct (IHes prefix s1) as (s' & E' & A' & R').
    { by apply (av_oids _ _ _ A1). }
    { intros p d Hp. eapply Hpres; [exact A1|]. apply (Hin p), elem_of_app. by right. }
    exists s'. rewrite (proj2 Hc). split; [by destruct c|]. split; [exact (advances_trans _ _ _ _ (advances_k t s _) (advances_trans _ _ _ _ A1 A'))|].
    intros p d [Hp|Hp]%elem_of_app; [|by eapply R']. apply (av_recorded _ _ _ A'). by eapply R1.
Qed.

(** C10. A scan of a tier without faults visits the whole tree (the pool's own
    directory and dot names apart): it returns 0, every regular file and
    directory has an object id on disk afterwards, and the id has a record with
    a path at which, on the tier the record names, an object with this id lies:
    the chosen path, or the fallback path when the log says another tier is
    authoritative. (The table's paths are assumed to be right before the scan,
    as they are when it starts empty; two objects with the same id share a
    record.) *)
Theorem scan_finds_every_object e t es objs s :
  calm_scan e -> oids_ok (lower (ss_sbi s)) ->
  (forall p d, (p, d) ∈ forest_objects EmptyString es -> (p, d) ∈ objs t /\ is_Some (lower (ss_sbi s) !! d)) ->
  paths_sound objs s ->
  exists s', smoothfs_scan_tree e t EmptyString es s = (0, s') /\ paths_sound objs s'
  /\ forall p d, (p, d) ∈ forest_objects EmptyString es -> exists l, lower (ss_sbi s') !! d = Some l
     /\ (S_ISREG (l_type l) || S_ISDIR (l_type l) = true ->
         exists o rec q, l_oid l = Some o /\ smoothfs_replay_find (ss_records s') o = Some rec
         /\ (chosen_rel_path rec = Some q /\ leads objs s' (chosen_tier rec) q o
             \/ rr_seq rec <> 0 /\ authoritative_tier rec <> t
                /\ fallback_rel_path rec = Some q /\ leads objs s' (fallback_tier rec) q o)).
Proof.
  intros Hc Hok Hin Hps. unfold smoothfs_scan_tree.
  assert (exists s', scan_dir e s (scan_entries e t EmptyString es) = (0, s')
    /\ forall p d, (p, d) ∈ forest_objects EmptyString es -> recorded t d s') as (s' & E & Hr).
  { unfold scan_dir. rewrite (proj2 Hc).
    assert (forall k, (se_ora e k <? 0) = false) as Hf by (intros k; apply Z.ltb_ge, Hc). rewrite !Hf.
    set (s0 := s <| ss_k := _ |>).
    destruct (proj2 (scan_complete e t Hc) es EmptyString s0) as (s' & E & _ & Hr);
      [exact Hok|intros p d Hp; by apply (Hin p d)|]. exists s'. split; [exact E|exact Hr]. }
  assert (paths_sound objs s') as Hps'.
  { eapply (scan_tree_sound e t es objs s 0 s'); [intros p d Hp; by apply Hin|exact Hps|exact E]. }
  exists s'. split_and!; [exact E|exact Hps'|]. intros p d Hp. destruct (Hr p d Hp) as (l & Hl & Hrec).
  exists l. split; [done|]. intros Hty. destruct (Hrec Hty) as (o & rec & H1 & H2 & H3 & H4).
  destruct (Hps' _ _ H2) as [L1 L2]. exists o, rec. destruct H4 as [H4|[H4 H5]].
  - destruct (chosen_rel_path rec) as [q|] eqn:Eq; [|done]. exists q. split_and!; [done|done|]. left. auto.
  - destruct (fallback_rel_path rec) as [q|] eqn:Eq; [|done]. exists q. split_and!; [done|done|]. right. auto.
Qed.

(** ** Lazy instantiation *)

(** Recovery's state: the identity writeback queue it shares with [iget], the
    record table with its ready flag, the index file, and whether the
    background rebuild is queued. *)
Record rstate := RState {
  rv_wb_ready : bool;
  rv_wb_pending : list (path * list Z);
  rv_records : list replay_record;
  rv_ready : bool;
  rv_index : option (list Z);
  rv_scheduled : bool;
}.
#[export] Instance rstate_eta : Eta rstate := fun r =>
  RState (rv_wb_ready r) (rv_wb_pending r) (rv_records r) (rv_ready r) (rv_index r) (rv_scheduled r).

(** The kernel's part of a lookup by name: the buffer, the copy of the tier's
    root, the full name; [d_path] of a root, and [kern_path] in the mount
    namespace of the task. *)
Record path_env := PathEnv {
  pe_buf : bool;
  pe_root : bool;
  pe_full : bool;
  pe_d_path : path -> result string;
  pe_kern_path : string -> result path;
}.

Definition smoothfs_tier_root_string (pe : path_env) (t : tier) : option string :=
  if negb (pe_buf pe) then None
  else match pe_d_path pe (t_path t) with
       | Err _ => None
       | Ok rendered => if pe_root pe then Some rendered else None
       end.

Definition smoothfs_resolve_rel_path (pe : path_env) (t : tier) (rel : option string) : result path :=
  match smoothfs_tier_root_string pe t with
  | None => Err (- ENOMEM)
  | Some root =>
      let full := match rel with
                  | None | Some EmptyString => root
                  | Some rel => (root +:+ "/" +:+ rel)%string
                  end in
      if negb (pe_full pe) then Err (- ENOMEM) else pe_kern_path pe full
  end.

(** The kernel's part: lookups by name, memory, table insertion. *)
Record recovery_env := RecoveryEnv {
  re_iget : iget_env;
  re_path : path_env;
  re_dup : bool;
  re_log_mem : bool;
  re_now : Z;
  re_path_insert : Z;
}.

(** The lookup on tier [tier] of the pool. *)
Definition re_resolve (env : recovery_env) (sbi : sb_info) (tier : Z) (rel : string) : result path :=
  match tier_at sbi tier with
  | Some t => smoothfs_resolve_rel_path (re_path env) t (Some rel)
  | None => Err (- EINVAL)
  end.

(** An object found only on another tier than its authoritative one is taken
    from there. *)
Definition promote_fallback (rec : replay_record) : replay_record :=
  match chosen_rel_path rec, fallback_rel_path rec with
  | None, Some p => rec <| chosen_rel_path := Some p |> <| fallback_rel_path := None |>
                        <| chosen_tier := fallback_tier rec |> <| chosen_gen := fallback_gen rec |>
  | _, _ => rec
  end.

(** The members a replayed inode gets from its record. *)
Definition place_inode (sbi : sb_info) (rec : replay_record) (tier : Z) (si : inode_info) : inode_info :=
  let si := si <| current_tier := tier |>
               <| intended_tier := if normalized rec || cache_mode sbi then tier else rr_intended_tier rec |>
               <| ms := if cache_mode sbi then MS_PLACED else ms_of_code (normalized_state rec) |>
               <| pin := pin_of_code (rr_pin_state rec) |> <| gen := chosen_gen rec |> in
  let si := if normalized rec then si <| transaction_seq := 0 |> else si in
  si <| replay_pinned := true |>.

Definition smoothfs_replay_instantiate_one (env : recovery_env) (rec : replay_record) (st : rstate) (sbi : sb_info)
  : option Z * (rstate * sb_info) :=
  let rec := promote_fallback rec in
  let st := st <| rv_records := update_record rec (rv_records st) |> in
  match chosen_rel_path rec with
  | None => (None, (st, sbi))
  | Some rel =>
      if ntiers sbi <=? chosen_tier rec then (None, (st, sbi))
      else
        let tier := if cache_mode sbi then ntiers sbi - 1 else chosen_tier rec in
        match re_resolve env sbi tier rel with
        | Err _ => (None, (st, sbi))
        | Ok p =>
            match lower sbi !! p_dentry p with
            | None => (None, (st, sbi))
            | Some l =>
                let (pl, r) := smoothfs_iget (re_iget env) false false p l (Pool sbi (rv_wb_ready st) (rv_wb_pending st)) in
                let st := st <| rv_wb_ready := oid_wb_ready pl |> <| rv_wb_pending := oid_wb_pending pl |> in
                let sbi := p_sbi pl in
                match (match r with Ok ino => (fun si => (ino, si)) <$> inodes sbi !! ino | Err _ => None end) with
                | None => (None, (st, sbi))
                | Some (ino, si) =>
                    if negb (re_dup env) then (None, (st, sbi))
                    else
                      let (sbi, si) := replace_rel_path (re_path_insert env) sbi si (Some rel) in
                      let sbi := put_inode sbi (place_inode sbi rec tier si) in
                      let sbi := if normalized rec
                                 then snd (fst (smoothfs_placement_record (re_log_mem env) (re_now env) sbi (rr_oid rec)
                                                  MS_PLACED tier tier true))
                                 else sbi in
                      (Some ino, (st, sbi))
                end
            end
        end
  end.

Definition smoothfs_recovery_resolve_oid (env : recovery_env) (st : rstate) (sbi : sb_info) (o : list Z)
  : option Z * (rstate * sb_info) :=
  if negb (rv_ready st) then (None, (st, sbi))
  else match smoothfs_lookup_oid sbi o with
       | Some i => (Some i, (st, sbi))
       | None => match smoothfs_replay_find (rv_records st) o with
                 | None => (None, (st, sbi))
                 | Some rec => smoothfs_replay_instantiate_one env rec st sbi
                 end
       end.

Definition smoothfs_recovery_populate (records : list replay_record) (st : rstate) : rstate :=
  st <| rv_records := records |> <| rv_ready := true |>.

Definition smoothfs_recovery_destroy (st : rstate) : rstate :=
  st <| rv_ready := false |> <| rv_records := [] |>.

(** ** Rebuilding the index, and replay at mount *)

(** The tiers from [tier] on, in order. *)
Fixpoint scan_tiers (e : scan_env) (trees : Z -> lforest) (ts : list Z) (s : scan_st) : Z * scan_st :=
  match ts with
  | [] => (0, s)
  | t :: ts =>
      let (err, s) := smoothfs_scan_tree e t EmptyString (trees t) s in
      if negb (err =? 0) then (err, s) else scan_tiers e trees ts s
  end.

Definition smoothfs_path_index_rebuild (e : scan_env) (trees : Z -> lforest) (alloc recover : bool) (st : rstate)
    (sbi : sb_info) : Z * (rstate * sb_info) :=
  match placement_log sbi with
  | None => (- ENODEV, (st, sbi))
  | Some _ =>
      if negb alloc then (- ENOMEM, (st, sbi))
      else
        let (k, sbi) := smoothfs_placement_wb_drain (se_ora e) 0 sbi in
        let log := default [] (placement_log sbi) in
        let (err, records) := smoothfs_replay_load_log (se_ora e) k log [] in
        if negb (err =? 0) then (err, (st, sbi))
        else
          let first := if recover && cache_mode sbi then ntiers sbi - 1 else 0 in
          let (err, s) := scan_tiers e trees (tiers_from first (ntiers sbi)) (ScanSt (k + 2 * length log + 2)%nat sbi records) in
          let sbi := ss_sbi s in
          if negb (err =? 0) then (err, (st, sbi))
          else
            let '(err, _, f) := smoothfs_path_index_write (se_ora e) (ss_k s) (rv_index st) sbi (ss_records s) in
            let st := st <| rv_index := f |> in
            if (err =? 0) && recover
            then (0, (smoothfs_recovery_populate (ss_records s) (smoothfs_recovery_destroy st), sbi))
            else (err, (st, sbi))
  end.

(** The delayed rebuild is cancelled first. *)
Definition smoothfs_recovery_rebuild_for_staging (e : scan_env) (trees : Z -> lforest) (alloc : bool) (st : rstate)
    (sbi : sb_info) : Z * (rstate * sb_info) :=
  smoothfs_path_index_rebuild e trees alloc true (st <| rv_scheduled := false |>) sbi.

(** [async]: the background worker is ready and not being stopped. *)
Definition smoothfs_path_index_async_schedule (async : bool) (st : rstate) : rstate :=
  if negb async then st else st <| rv_scheduled := true |>.

(** The background worker: the index is rebuilt, the recovery table is left to
    the mount that is using it.  Its errors are only reported. *)
Definition smoothfs_path_index_workfn (e : scan_env) (trees : Z -> lforest) (alloc async : bool) (st : rstate)
    (sbi : sb_info) : rstate * sb_info :=
  let st := st <| rv_scheduled := false |> in
  if negb async then (st, sbi) else snd (smoothfs_path_index_rebuild e trees alloc false st sbi).

Definition smoothfs_placement_replay (ora : oracle) (alloc async : bool) (st : rstate) (sbi : sb_info) : Z * rstate :=
  match placement_log sbi with
  | None => (- ENODEV, st)
  | Some log =>
      if negb alloc then (- ENOMEM, st)
      else
        let (err, records) := smoothfs_replay_load_log ora 0 log [] in
        if negb (err =? 0) then (err, st)
        else
          let (idx_err, records) := smoothfs_path_index_read ora (2 * length log + 2)%nat sbi (rv_index st) records in
          let st := smoothfs_recovery_populate records st in
          (0, if negb (idx_err =? 0) then smoothfs_path_index_async_schedule async st else st)
  end.

(** ** The interfaces *)

(** What [iget] does to the cache: at most one new inode, at rest. *)
Lemma iget_inodes e root fresh p l pl pl' r : smoothfs_iget e root fresh p l pl = (pl', r) ->
  inodes (p_sbi pl') = inodes (p_sbi pl)
  \/ exists ino si, inodes (p_sbi pl) !! ino = None /\ inodes (p_sbi pl') = <[ino := si]> (inodes (p_sbi pl))
     /\ i_ino si = ino /\ ms si = MS_PLACED.
Proof.
  assert (forall e root p l o g t ino pl pl' r, iget_locked e root p l o g t ino pl = (pl', r) ->
    inodes (p_sbi pl') = inodes (p_sbi pl)
    \/ exists ino si, inodes (p_sbi pl) !! ino = None /\ inodes (p_sbi pl') = <[ino := si]> (inodes (p_sbi pl))
       /\ i_ino si = ino /\ ms si = MS_PLACED) as Hlocked.
  { clear. intros e root p l o g t ino pl pl' r. unfold iget_locked. case_goal; [intros [= <- _]; by left|].
    destruct (inodes (p_sbi pl) !! ino) eqn:Ei; [intros [= <- _]; by left|]. unfold iget_new.
    set (si := smoothfs_copy_attrs _ _). set (s0 := p_sbi pl <| inode_list := _ |>).
    destruct (smoothfs_oid_map_insert _ s0 si) as [err s1] eqn:E1.
    assert (inodes s1 = inodes (p_sbi pl)) as Hs1
      by (revert E1; unfold smoothfs_oid_map_insert; repeat case_goal; intros [= _ <-]; done).
    case_goal; [intros [= <- _]; left; exact Hs1|]. intros [= <- _]. right. exists ino, si.
    split; [done|]. split; [|done]. cbn [p_sbi]. 
    assert (inodes (put_inode s1 si) = <[ino := si]> (inodes (p_sbi pl))) as Hp by (rewrite <- Hs1; reflexivity).
    rewrite <- Hp. case_goal; [|done]. apply lower_insert_frame. }
  assert (forall pl pl' r t, (match iget_identity e fresh p l pl with
      | (pl, Err err) => (pl, Err err)
      | (pl, Ok (o, g)) => iget_locked e false p l o g t (smoothfs_inode_no_from_oid (ie_xxh64 e) o) pl end) = (pl', r) ->
    inodes (p_sbi pl') = inodes (p_sbi pl)
    \/ exists ino si, inodes (p_sbi pl) !! ino = None /\ inodes (p_sbi pl') = <[ino := si]> (inodes (p_sbi pl))
       /\ i_ino si = ino /\ ms si = MS_PLACED) as Hslow.
  { clear pl pl' r. intros pl pl' r t. destruct (iget_identity e fresh p l pl) as [pl1 [er|[o g]]] eqn:Ei;
      apply identity_frame in Ei as (_ & _ & _ & _ & Hi & _); rewrite <- Hi.
    - intros [= <- _]. by left.
    - apply Hlocked. }
  unfold smoothfs_iget. destruct root; [apply Hlocked|].
  set (c := smoothfs_lower_ino_map_get _ _ _). destruct (if c =? 0 then _ else _) as [si|]; [|apply Hslow].
  case_goal; [intros [= <- _]; by left|].
  set (pl1 := pl <| p_sbi := _ |>). assert (inodes (p_sbi pl1) = inodes (p_sbi pl)) as <-
    by apply lower_ino_remove_frame. apply Hslow.
Qed.

(** The states between a plan and its completion. *)
Definition mid_move (s : movement_state) : bool :=
  match s with
  | MS_PLAN_ACCEPTED | MS_DESTINATION_RESERVED | MS_COPY_IN_PROGRESS | MS_COPY_COMPLETE | MS_COPY_VERIFIED
  | MS_CUTOVER_IN_PROGRESS | MS_SWITCHED | MS_CLEANUP_IN_PROGRESS => true
  | _ => false
  end.

(** No record asks for a state in the middle of a move. *)
Definition settled_record (r : replay_record) : Prop := mid_move (ms_of_code (normalized_state r)) = false.
Definition records_settled (rs : list replay_record) : Prop := Forall settled_record rs.

Lemma update_settled rec rs : settled_record rec -> records_settled rs -> records_settled (update_record rec rs).
Proof.
  intros Hr. induction 1 as [|r rs H Hrs IH]; cbn [update_record]; [constructor|].
  case_goal; constructor; done.
Qed.

Lemma promote_settled rec : settled_record rec -> settled_record (promote_fallback rec).
Proof. unfold promote_fallback. repeat case_goal; done. Qed.

Lemma find_settled rs o rec : records_settled rs -> smoothfs_replay_find rs o = Some rec -> settled_record rec.
Proof.
  unfold smoothfs_replay_find. intros Hrs. destruct (list_find _ rs) as [[i r]|] eqn:E; [|done].
  intros [= <-]. apply list_find_Some in E as (E & _). by eapply Forall_lookup_1.
Qed.

Lemma instantiate_cases env rec st sbi r st' sbi' :
  settled_record rec -> keyed sbi ->
  smoothfs_replay_instantiate_one env rec st sbi = (r, (st', sbi')) ->
  rv_records st' = update_record (promote_fallback rec) (rv_records st)
  /\ exists m, (m = inodes sbi \/ exists ino si, inodes sbi !! ino = None /\ m = <[ino := si]> (inodes sbi)
                                       /\ i_ino si = ino /\ ms si = MS_PLACED)
     /\ (r = None /\ inodes sbi' = m
         \/ exists ino si, r = Some ino /\ i_ino si = ino /\ ms si <> MS_CUTOVER_IN_PROGRESS
            /\ inodes sbi' = <[ino := si]> m).
Proof.
  intros Hset Hk. unfold smoothfs_replay_instantiate_one.
  pose proof (promote_settled rec Hset) as Hset'. set (rec1 := promote_fallback rec) in *. clearbody rec1.
  set (st1 := st <| rv_records := _ |>).
  assert (rv_records st1 = update_record rec1 (rv_records st)) as Hst1 by reflexivity. clearbody st1.
  assert ((@None Z, (st1, sbi)) = (r, (st', sbi')) -> rv_records st' = update_record rec1 (rv_records st)
    /\ exists m, (m = inodes sbi \/ exists ino si, inodes sbi !! ino = None /\ m = <[ino := si]> (inodes sbi)
                                       /\ i_ino si = ino /\ ms si = MS_PLACED)
     /\ (r = None /\ inodes sbi' = m
         \/ exists ino si, r = Some ino /\ i_ino si = ino /\ ms si <> MS_CUTOVER_IN_PROGRESS
            /\ inodes sbi' = <[ino := si]> m)) as Hnone.
  { intros [= <- <- <-]. split; [done|]. exists (inodes sbi). auto. }
  destruct (chosen_rel_path rec1) as [rel|]; [|done]. case_goal; [done|].
  destruct (re_resolve _ _ _ _) as [|p]; [done|]. destruct (lower sbi !! p_dentry p) as [l|]; [|done]. clear Hnone.
  destruct (smoothfs_iget _ _ _ _ _ _) as [pl ri] eqn:Ei. apply iget_inodes in Ei. cbn [p_sbi] in Ei.
  set (st2 := st1 <| rv_wb_ready := _ |> <| rv_wb_pending := _ |>).
  assert (rv_records st2 = update_record rec1 (rv_records st)) as Hst2 by exact Hst1. clearbody st2.
  assert (keyed (p_sbi pl)) as Hkp.
  { intros j sj. destruct Ei as [->|(i & s & _ & -> & Hi & _)]; [apply Hk|].
    intros [[<- <-]|[_ Hj]]%lookup_insert_Some; [done|by apply Hk]. }
  set (found := match ri with Ok ino => _ | Err _ => None end).
  assert (forall ino si, found = Some (ino, si) -> inodes (p_sbi pl) !! ino = Some si) as Hfound.
  { subst found. destruct ri as [|i]; [done|]. destruct (inodes (p_sbi pl) !! i) eqn:Ein; [|done].
    by intros ino si [= <- <-]. }
  destruct found as [[ino si]|]; [|intros [= <- <- <-]; split; [done|]; exists (inodes (p_sbi pl)); auto].
  specialize (Hfound _ _ eq_refl). case_goal; [intros [= <- <- <-]; split; [done|]; exists (inodes (p_sbi pl)); auto|].
  destruct (replace_rel_path _ _ _ _) as [sbi2 si2] eqn:Er. apply rel_path_frame in Er as (F1 & _ & _ & q & h & ->).
  set (tier := if cache_mode sbi then _ else _). set (si3 := place_inode sbi2 rec1 tier _).
  assert (i_ino si3 = ino /\ ms si3 <> MS_CUTOVER_IN_PROGRESS) as [N3 M3].
  { subst si3. unfold place_inode. rewrite <- (Hkp _ _ Hfound). unfold settled_record in Hset'.
    assert (ms_of_code (normalized_state rec1) <> MS_CUTOVER_IN_PROGRESS) by (intros E1; by rewrite E1 in Hset').
    destruct (normalized rec1), (cache_mode sbi2); cbn; split; done. }
  intros [= <- <- <-]. split; [done|]. exists (inodes (p_sbi pl)). split; [exact Ei|]. right. exists ino, si3.
  split_and!; [done|done|done|].
  assert (inodes (put_inode sbi2 si3) = <[ino := si3]> (inodes (p_sbi pl))) as Hp
    by (rewrite <- F1, <- N3; reflexivity).
  rewrite <- Hp. case_goal; [|done].
  destruct (smoothfs_placement_record _ _ _ _ _ _ _ _) as [[? ?] ?] eqn:Erec. by apply record_frame in Erec as (_ & ? & _).
Qed.

Lemma instantiate_records env rec st sbi r st' sbi' :
  smoothfs_replay_instantiate_one env rec st sbi = (r, (st', sbi')) ->
  rv_records st' = update_record (promote_fallback rec) (rv_records st).
Proof.
  unfold smoothfs_replay_instantiate_one. set (rec1 := promote_fallback rec). clearbody rec1.
  destruct (chosen_rel_path rec1) as [rel|]; [|by intros [= _ <- _]]. case_goal; [by intros [= _ <- _]|].
  destruct (re_resolve _ _ _ _) as [|p]; [by intros [= _ <- _]|].
  destruct (lower sbi !! p_dentry p) as [l|]; [|by intros [= _ <- _]].
  destruct (smoothfs_iget _ _ _ _ _ _) as [pl ri]. set (found := match ri with Ok ino => _ | Err _ => None end).
  destruct found as [[ino si]|]; [|by intros [= _ <- _]]. case_goal; [by intros [= _ <- _]|].
  destruct (replace_rel_path _ _ _ _) as [sbi2 si2]. by intros [= _ <- _].
Qed.

Section Interfaces.
Context (env : recovery_env).

Lemma resolve_cases st sbi o r st' sbi' :
  smoothfs_recovery_resolve_oid env st sbi o = (r, (st', sbi')) ->
  (st' = st /\ sbi' = sbi)
  \/ exists rec, smoothfs_replay_find (rv_records st) o = Some rec
     /\ smoothfs_replay_instantiate_one env rec st sbi = (r, (st', sbi')).
Proof.
  unfold smoothfs_recovery_resolve_oid. case_goal; [intros [= _ <- <-]; by left|].
  destruct (smoothfs_lookup_oid sbi o); [intros [= _ <- <-]; by left|].
  destruct (smoothfs_replay_find _ o) as [rec|]; [|intros [= _ <- <-]; by left]. intros Hi. right. eauto.
Qed.

(** placement.c keeps the promises movement.c builds on. *)
Definition placement_recovery : Recovery rstate.
Proof.
  refine (Build_Recovery rstate (smoothfs_recovery_resolve_oid env) (fun st => records_settled (rv_records st)) _ _ _).
  - intros st sbi o r st' sbi' Hwf Hr. apply resolve_cases in Hr as [[-> _]|(rec & Hf & Hi)]; [done|].
    rewrite (instantiate_records _ _ _ _ _ _ _ Hi). apply update_settled; [|done].
    by eapply promote_settled, find_settled.
  - intros st sbi o r st' sbi' Hwf Hk Hr ino si Hne Hino.
    apply resolve_cases in Hr as [[_ ->]|(rec & Hf & Hi)]; [done|].
    apply instantiate_cases in Hi as (_ & m & Hm & Hc); [|by eapply find_settled|done].
    assert (m !! ino = Some si) as Hmi.
    { destruct Hm as [->|(i & s & Hn & -> & _)]; [done|]. rewrite lookup_insert_ne; [done|congruence]. }
    destruct Hc as [[_ ->]|(i & s & -> & _ & _ & ->)]; [done|]. rewrite lookup_insert_ne; [done|congruence].
  - intros st sbi o r st' sbi' Hwf Hk Hr ino si Hino.
    apply resolve_cases in Hr as [[_ ->]|(rec & Hf & Hi)]; [split; [by apply Hk|done]|].
    apply instantiate_cases in Hi as (_ & m & Hm & Hc); [|by eapply find_settled|done].
    assert (forall i s, m !! i = Some s -> i_ino s = i /\ (ms s = MS_CUTOVER_IN_PROGRESS -> inodes sbi !! i = Some s)) as Hmi.
    { intros i s. destruct Hm as [->|(i0 & s0 & Hn & -> & Hi0 & Hms)]; [intros Hx; split; [by apply Hk|done]|].
      intros [[<- <-]|[_ Hx]]%lookup_insert_Some; [split; [done|congruence]|]. split; [by apply Hk|done]. }
    destruct Hc as [[_ Hs]|(i & s & -> & Hi0 & Hms & Hs)]; rewrite Hs in Hino; [by apply Hmi|].
    apply lookup_insert_Some in Hino as [[<- <-]|[_ Hx]]; [split; [done|congruence]|by apply Hmi].
Defined.

Context (se : scan_env) (trees : Z -> lforest) (alloc : bool).

(** The object lookup and the index rebuild that range-staging replay uses. *)
Definition placement_oid_service : OidService (@mworld rstate) := {|
  RangeMeta.lookup_oid_resolve w o := @smoothfs_lookup_oid_resolve rstate placement_recovery w o;
  rebuild_for_staging w :=
    let '(err, (st, sbi)) := smoothfs_recovery_rebuild_for_staging se trees alloc (mw_rec w) (mw_sb w) in
    (err, MWorld st sbi);
|}.
End Interfaces.

(** ** Replay leaves nothing in the middle of a move *)

Lemma normalize_settled rec : settled_record (smoothfs_replay_normalize rec).
Proof.
  unfold settled_record, smoothfs_replay_normalize. cbn.
  destruct (ms_of_code (rr_movement_state rec)) eqn:E; cbn; by rewrite ?E.
Qed.

Lemma new_record_settled o : settled_record (new_record o).
Proof. done. Qed.

Lemma goc_settled alloc rs o rec rs1 : records_settled rs ->
  smoothfs_replay_get_or_create alloc rs o = Some (rec, rs1) -> settled_record rec /\ records_settled rs1.
Proof.
  intros Hrs. unfold smoothfs_replay_get_or_create. destruct (smoothfs_replay_find rs o) as [r|] eqn:E.
  - intros [= <- <-]. split; [by eapply find_settled|done].
  - case_goal; [done|]. intros [= <- <-]. split; [done|]. apply Forall_app. split; [done|]. by constructor.
Qed.

Lemma load_loop_settled ora fuel : forall k log pos rs, records_settled rs ->
  records_settled (snd (load_log_loop fuel ora k log pos rs)).
Proof.
  induction fuel as [|fuel IH]; intros k log pos rs Hrs; cbn [load_log_loop]; [done|].
  destruct (kernel_read _ _ _ _ _) as [|[|b buf]]; [done|done|]. case_goal; [done|]. case_goal; [done|].
  destruct (apply_log_record _ _ rs) as [rs'|] eqn:Ea; [|done]. apply IH. revert Ea. unfold apply_log_record.
  destruct (smoothfs_replay_get_or_create _ rs _) as [[rec rs1]|] eqn:Eg; [|done].
  apply goc_settled in Eg as [Hr Hrs1]; [|done]. case_goal; [by intros [= <-]|].
  intros [= <-]. apply update_settled; [apply normalize_settled|done].
Qed.

Lemma index_entries_settled n ora sbi f : forall k pos rs, records_settled rs ->
  records_settled (snd (read_index_entries n ora k sbi f pos rs)).
Proof.
  induction n as [|n IH]; intros k pos rs Hrs; cbn [read_index_entries]; [done|].
  destruct (pix_read _ _ _ _ _) as [|ehdr]; [done|]. case_goal; [done|]. case_goal; [done|].
  destruct (pix_read _ _ _ _ _) as [|bytes]; [done|]. case_goal; [by apply IH|].
  destruct (smoothfs_replay_get_or_create _ rs _) as [[rec rs1]|] eqn:Eg; [|done].
  apply goc_settled in Eg as [Hr Hrs1]; [|done]. case_goal; [done|]. apply IH, update_settled; [|done].
  unfold settled_record, index_place in *. repeat case_goal; done.
Qed.

Lemma index_read_settled ora k sbi f rs : records_settled rs ->
  records_settled (snd (smoothfs_path_index_read ora k sbi f rs)).
Proof.
  intros Hrs. unfold smoothfs_path_index_read. case_goal; [done|]. destruct f as [f|]; [|done].
  destruct (pix_read _ _ _ _ _) as [|hdr]; [done|]. case_goal; [done|].
  match goal with |- context [read_index_entries ?n ?a ?b ?c ?d ?e ?g] =>
    pose proof (index_entries_settled n a c d b e g Hrs) as Hx;
    destruct (read_index_entries n a b c d e g) as [[[? ?] ?] rs'] end.
  cbn [snd] in Hx. repeat case_goal; exact Hx.
Qed.

Lemma placement_replay_settled ora alloc async st sbi st' :
  smoothfs_placement_replay ora alloc async st sbi = (0, st') ->
  rv_ready st' = true /\ records_settled (rv_records st') /\ rv_wb_ready st' = rv_wb_ready st.
Proof.
  unfold smoothfs_placement_replay. destruct (placement_log sbi) as [log|]; [|done]. case_goal; [done|].
  unfold smoothfs_replay_load_log.
  pose proof (load_loop_settled ora (S (length log)) 0 log 0 [] (Forall_nil_2 _)) as Hl.
  destruct (load_log_loop _ _ _ _ _ _) as [err rs]. cbn [snd] in Hl. case_goal; [by intros [= -> _]|].
  pose proof (index_read_settled ora (2 * length log + 2) sbi (rv_index st) rs Hl) as Hi.
  destruct (smoothfs_path_index_read _ _ _ _ _) as [ierr rs']. cbn [snd] in Hi. intros [= <-].
  unfold smoothfs_path_index_async_schedule. by repeat case_goal.
Qed.

(** The background rebuild of the index runs beside a mounted pool: whatever it
    meets, the recovery table and the id writeback stay as they are, and it does
    not schedule itself again. *)
Lemma index_worker_spares_recovery e trees alloc async st sbi :
  let st' := fst (smoothfs_path_index_workfn e trees alloc async st sbi) in
  rv_records st' = rv_records st /\ rv_ready st' = rv_ready st /\ rv_wb_ready st' = rv_wb_ready st
  /\ rv_wb_pending st' = rv_wb_pending st /\ rv_scheduled st' = false
  /\ (async = false -> rv_index st' = rv_index st).
Proof.
  unfold smoothfs_path_index_workfn, smoothfs_path_index_rebuild. destruct async; cbn [negb]; [|done].
  repeat (case_goal; try done). all: rewrite andb_false_r in *; done.
Qed.

(** Whatever bytes the log and the index hold and whatever reads fail, a
    mount-time replay that succeeds leaves a recovery table in which no object
    is in a state between a plan and its completion. *)
Theorem replay_never_resumes_a_move ora alloc async st sbi st' :
  smoothfs_placement_replay ora alloc async st sbi = (0, st') ->
  rv_ready st' = true
  /\ forall o rec, smoothfs_replay_find (rv_records st') o = Some rec ->
       mid_move (ms_of_code (normalized_state rec)) = false.
Proof.
  intros H. apply placement_replay_settled in H as (Rd & Rs & _). split; [done|]. intros o rec Hf. by eapply (find_settled (rv_records st')).
Qed.

(** ** What an instantiated object looks like *)

Lemma place_inode_fields sbi rec tier si : settled_record rec ->
  let si' := place_inode sbi rec tier si in
  current_tier si' = tier /\ mid_move (ms si') = false /\ replay_pinned si' = true
  /\ rel_path si' = rel_path si /\ oid si' = oid si /\ lower_path si' = lower_path si /\ i_ino si' = i_ino si
  /\ (normalized rec = true -> intended_tier si' = tier /\ transaction_seq si' = 0).
Proof.
  intros Hs. unfold place_inode, settled_record in *.
  destruct (normalized rec), (cache_mode sbi); cbn; split_and!; try done.
Qed.

(** The recovery table of a mounted pool: what a successful replay left, after any
    number of objects were resolved. *)
Definition mounted_table (st : rstate) : Prop := exists ora alloc async st0 sbi0 st1,
  smoothfs_placement_replay ora alloc async st0 sbi0 = (0, st1)
  /\ rtc (fun a b => exists env sbi o r sbi', smoothfs_recovery_resolve_oid env a sbi o = (r, (b, sbi'))) st1 st.

Lemma instantiate_ready env rec st sbi r st' sbi' :
  smoothfs_replay_instantiate_one env rec st sbi = (r, (st', sbi')) -> rv_ready st' = rv_ready st.
Proof.
  unfold smoothfs_replay_instantiate_one. set (rec1 := promote_fallback rec). clearbody rec1.
  destruct (chosen_rel_path rec1) as [rel|]; [|by intros [= _ <- _]]. case_goal; [by intros [= _ <- _]|].
  destruct (re_resolve _ _ _ _) as [|p]; [by intros [= _ <- _]|].
  destruct (lower sbi !! p_dentry p) as [l|]; [|by intros [= _ <- _]].
  destruct (smoothfs_iget _ _ _ _ _ _) as [pl ri]. set (found := match ri with Ok ino => _ | Err _ => None end).
  destruct found as [[ino si]|]; [|by intros [= _ <- _]]. case_goal; [by intros [= _ <- _]|].
  destruct (replace_rel_path _ _ _ _) as [sbi2 si2]. by intros [= _ <- _].
Qed.

Lemma mounted_settled st : mounted_table st -> rv_ready st = true /\ records_settled (rv_records st).
Proof.
  intros (ora & alloc & async & st0 & sbi0 & st1 & Hr & Hs). apply placement_replay_settled in Hr as (R1 & R2 & _).
  apply (rtc_invariant _ (fun st => rv_ready st = true /\ records_settled (rv_records st)) st1 st) in Hs; [done| |done].
  intros a b [A1 A2] (env & sbi & o & r & sbi' & Hres). apply resolve_cases in Hres as [[-> _]|(rec & Hf & Hi)]; [done|].
  rewrite (instantiate_ready _ _ _ _ _ _ _ Hi), (instantiate_records _ _ _ _ _ _ _ Hi). split; [done|].
  apply update_settled; [|done]. by eapply promote_settled, find_settled.
Qed.

(** C12. On a mounted pool, resolving the id of an object that is not in memory,
    has a record with a path, and still lies at that path of the recorded tier
    (the base tier in cache mode) with this id, instantiates it when no
    allocation, lookup or attribute read fails: the result is a new inode with
    the id asked for, backed by the object at that path, with that relative path
    and tier, pinned, in no state in the middle of a move, and with an
    interrupted move cancelled. (Whether the object at the path still carries
    the id is not checked by the code.) *)
Theorem recovery_restores_placement env st sbi o rec rel p l (ino := smoothfs_inode_no_from_oid (ie_xxh64 (re_iget env)) o) :
  mounted_table st -> smoothfs_lookup_oid sbi o = None ->
  smoothfs_replay_find (rv_records st) o = Some rec ->
  chosen_rel_path (promote_fallback rec) = Some rel -> chosen_tier (promote_fallback rec) < ntiers sbi ->
  let tier := if cache_mode sbi then ntiers sbi - 1 else chosen_tier (promote_fallback rec) in
  re_resolve env sbi tier rel = Ok p -> lower sbi !! p_dentry p = Some l ->
  l_oid l = Some o -> length o = SMOOTHFS_OID_LEN ->
  index_ok sbi -> inodes sbi !! ino = None ->
  (forall i si, inodes sbi !! i = Some si -> backing_matches si p = false) ->
  ie_mem (re_iget env) = true -> ie_oid_insert (re_iget env) = 0 -> ie_read1 (re_iget env) = 0 -> re_dup env = true ->
  exists st' sbi' si, smoothfs_recovery_resolve_oid env st sbi o = (Some ino, (st', sbi'))
  /\ inodes sbi' !! ino = Some si /\ oid si = o /\ lower_path si = Some p /\ rel_path si = Some rel
  /\ current_tier si = tier /\ mid_move (ms si) = false /\ replay_pinned si = true
  /\ (normalized rec = true -> intended_tier si = tier /\ transaction_seq si = 0).
Proof.
  intros Hmt Hl Hf Hc Ht tier Hres Hlow Hlo Hlen Hix Hnone Hback Hmem Hins Hrd Hdup.
  apply mounted_settled in Hmt as [Hrdy Hset].
  destruct (iget_new_object (re_iget env) p l (Pool sbi (rv_wb_ready st) (rv_wb_pending st)) o) as (pl & si0 & Hig & Hsi & Hino & Ho0 & Hp0);
    try done. fold ino in Hig, Hsi, Hino.
  unfold smoothfs_recovery_resolve_oid. rewrite Hrdy, Hl, Hf. cbn [negb]. unfold smoothfs_replay_instantiate_one.
  pose proof (promote_settled rec (find_settled _ _ _ Hset Hf)) as Hs1.
  assert (normalized (promote_fallback rec) = normalized rec) as Hnorm
    by (unfold promote_fallback; repeat case_goal; done).
  set (rec1 := promote_fallback rec) in *. clearbody rec1. rewrite Hc.
  destruct (Z.leb_spec (ntiers sbi) (chosen_tier rec1)); [lia|]. fold tier. rewrite Hres, Hlow.
  set (st1 := st <| rv_records := _ |>).
  change (rv_wb_ready st1) with (rv_wb_ready st). change (rv_wb_pending st1) with (rv_wb_pending st).
  rewrite Hig, Hsi, Hdup. cbn [fmap option_fmap option_map negb].
  destruct (replace_rel_path _ _ _ _) as [sbi2 si2] eqn:Er.
  assert (rel_path si2 = Some rel /\ oid si2 = oid si0 /\ lower_path si2 = lower_path si0 /\ i_ino si2 = ino)
    as (P1 & P2 & P3 & P4).
  { pose proof (rel_path_frame _ _ _ _ _ _ Er) as (_ & _ & _ & q & h & ->). cbn. split; [|done].
    revert Er. unfold replace_rel_path, smoothfs_path_map_del, smoothfs_path_map_add.
    repeat case_goal; cbn; intros Hx; injection Hx; intros; congruence. }
  pose proof (place_inode_fields sbi2 rec1 tier si2 Hs1) as (F1 & F2 & F3 & F4 & F5 & F6 & F7 & F8).
  set (si3 := place_inode sbi2 rec1 tier si2) in *. clearbody si3.
  eexists _, _, si3. split; [reflexivity|]. split.
  - assert (inodes (put_inode sbi2 si3) !! ino = Some si3) as Hp
      by (cbn; rewrite F7, P4; apply lookup_insert_eq).
    case_goal; [|exact Hp].
    destruct (smoothfs_placement_record _ _ _ _ _ _ _ _) as [[? ?] ?] eqn:Erec.
    apply record_frame in Erec as (_ & Hi & _). cbn [fst snd]. by rewrite Hi.
  - split_and!; try congruence. rewrite <- Hnorm. apply F8.
Qed.

(** ** A small pool *)

Definition rp_oid (b : Z) : list Z := replicate 16 b.
Definition rp_forest : lforest :=
  LCons "." (LDir 1 LNil)
    (LCons ".smoothfs" (LDir 9 (LCons "placement.log" (LLeaf 8) LNil))
      (LCons "d" (LDir 2 (LCons "f" (LLeaf 3) LNil)) (LCons "g" (LLeaf 4) LNil))).
Definition rp_node (i : Z) (t : ftype) (o : option (list Z)) : lnode := LNode i t 0 5 1 o None false.
Definition rp_pool : sb_info :=
  map_pool <| lower := {[2 := rp_node 20 FT_DIR (Some (rp_oid 2)); 3 := rp_node 30 FT_REG (Some (rp_oid 3));
                         4 := rp_node 40 FT_REG None]} |>
           <| placement_log := Some [] |>.
Definition rp_scan : scan_env := ScanEnv never_fails (fun _ => false) true (fun _ => 7) (fun _ => 3).
Definition rp_start : scan_st := ScanSt 0 rp_pool [].

Lemma rp_calm : calm_scan rp_scan.
Proof. split; intros k; [|done]. unfold rp_scan, never_fails. cbn. lia. Qed.

Lemma rp_objects : forest_objects EmptyString rp_forest = [("d", 2); ("d/f", 3); ("g", 4)]%string.
Proof. vm_compute. reflexivity. Qed.

Lemma rp_oids : oids_ok (lower rp_pool).
Proof.
  intros d l o Hl Ho. cbn in Hl. rewrite !lookup_insert_Some, lookup_singleton_Some in Hl.
  destruct Hl as [[_ <-]|[_ [[_ <-]|[_ [_ <-]]]]]; cbn in Ho; by simplify_eq.
Qed.

Lemma scan_finds_every_object_witness :
  exists s' l o rec, smoothfs_scan_tree rp_scan 0 EmptyString rp_forest rp_start = (0, s')
  /\ lower (ss_sbi s') !! 4 = Some l /\ l_oid l = Some o /\ smoothfs_replay_find (ss_records s') o = Some rec
  /\ chosen_rel_path rec = Some "g"%string.
Proof.
  destruct (scan_finds_every_object rp_scan 0 rp_forest (fun _ => forest_objects EmptyString rp_forest) rp_start rp_calm rp_oids)
    as (s' & H1 & _ & H2).
  - intros p d Hin. split; [exact Hin|]. rewrite rp_objects in Hin. rewrite !elem_of_cons in Hin.
    destruct Hin as [[= _ ->]|[[= _ ->]|[[= _ ->]|Hin]]]; [by eexists..|by apply not_elem_of_nil in Hin].
  - intros o rec Hf. discriminate Hf.
  - exists s'.
    destruct (H2 "g"%string 4) as (l & Hl & Hrec); [rewrite rp_objects; right; right; left|].
    vm_compute in H1. injection H1 as <-. vm_compute in Hl. injection Hl as <-.
    destruct (Hrec eq_refl) as (o & rec & q & Ho & Hf & _). vm_compute in Ho. injection Ho as <-.
    vm_compute in Hf. injection Hf as <-. eexists _, _, _. split; [vm_compute; reflexivity|].
    split; [vm_compute; reflexivity|]. split; [reflexivity|]. split; [vm_compute; reflexivity|]. reflexivity.
Defined.

Lemma scan_records_real_paths_witness :
  paths_sound (fun _ => forest_objects EmptyString rp_forest)
    (snd (smoothfs_scan_tree rp_scan 0 EmptyString rp_forest rp_start)).
Proof.
  destruct (smoothfs_scan_tree rp_scan 0 EmptyString rp_forest rp_start) as [err s'] eqn:E.
  apply (scan_records_real_paths rp_scan 0 rp_forest (fun _ => forest_objects EmptyString rp_forest) rp_start err s').
  - intros p d Hin. exact Hin.
  - intros o rec Hf. discriminate Hf.
  - exact E.
Defined.

(** A record of object [o] at "g", as a path index would leave it. *)
Definition rp_table (o : list Z) : rstate :=
  RState true [] [index_place 0 "g"%string (new_record o)] true None false.
Definition rp_names (kern_path : string -> result path) : path_env := PathEnv true true true (fun _ => Ok "/ssd"%string) kern_path.
Definition rp_kern_path (name : string) : result path :=
  if bool_decide (name = "/ssd/g"%string) then Ok (Path 10 4) else Err (- ENOENT).
Definition rp_env : recovery_env := RecoveryEnv calm_env (rp_names rp_kern_path) true true 5 0.
Definition rp_pool_g (o : list Z) : sb_info := rp_pool <| lower := {[4 := rp_node 40 FT_REG (Some o)]} |>.

Lemma replay_never_resumes_a_move_witness :
  let log := encode_record 1 (rp_oid 3) (ms_code MS_CUTOVER_IN_PROGRESS) 0 1 5 in
  exists st', smoothfs_placement_replay never_fails true true (RState true [] [] false None false)
                (rp_pool <| placement_log := Some log |>) = (0, st')
  /\ forall rec, smoothfs_replay_find (rv_records st') (rp_oid 3) = Some rec ->
       mid_move (ms_of_code (normalized_state rec)) = false.
Proof.
  cbv zeta. destruct (smoothfs_placement_replay _ _ _ _ _) as [err st'] eqn:E.
  assert (err = 0) as -> by (change (fst (err, st') = 0); rewrite <- E; vm_compute; reflexivity).
  exists st'. split; [reflexivity|]. intros rec. apply (replay_never_resumes_a_move _ _ _ _ _ _ E).
Defined.

(** The mount of a pool whose log says that a move of object 6 from tier 0 was
    interrupted, and whose index has the object at "g" of that tier. *)
Definition rp_logged : sb_info :=
  rp_pool <| pool_uuid := replicate 16 3 |>
          <| placement_log := Some (encode_record 1 (rp_oid 6) (ms_code MS_COPY_IN_PROGRESS) 0 1 5) |>.
Definition rp_before : rstate :=
  RState true [] [] false (snd (smoothfs_path_index_write never_fails 0 None rp_logged (rv_records (rp_table (rp_oid 6))))) false.
Local Abbreviation rp_replay := (smoothfs_placement_replay never_fails true true rp_before rp_logged).
Definition rp_record : replay_record :=
  default (new_record []) (smoothfs_replay_find (rv_records (snd rp_replay)) (rp_oid 6)).

Lemma rp_mounted : mounted_table (snd rp_replay).
Proof.
  exists never_fails, true, true, rp_before, rp_logged, (snd rp_replay). split; [|apply rtc_refl].
  vm_compute. reflexivity.
Qed.

Lemma recovery_restores_placement_witness :
  let ino := smoothfs_inode_no_from_oid some_hash (rp_oid 6) in
  exists st' sbi' si, smoothfs_recovery_resolve_oid rp_env (snd rp_replay) (rp_pool_g (rp_oid 6)) (rp_oid 6)
    = (Some ino, (st', sbi'))
  /\ inodes sbi' !! ino = Some si /\ rel_path si = Some "g"%string /\ oid si = rp_oid 6
  /\ intended_tier si = 0 /\ mid_move (ms si) = false.
Proof.
  cbv zeta.
  destruct (recovery_restores_placement rp_env (snd rp_replay) (rp_pool_g (rp_oid 6)) (rp_oid 6) rp_record "g"%string
              (Path 10 4) (rp_node 40 FT_REG (Some (rp_oid 6))) rp_mounted)
    as (st' & sbi' & si & H1 & H2 & H3 & _ & H4 & _ & H5 & _ & H6).
  1-4: vm_compute; reflexivity.
  1: vm_compute; reflexivity.
  1: apply lookup_singleton_eq.
  1-2: reflexivity.
  1: { constructor; try done; try apply NoDup_nil_2.
       - intros o ino H. by apply not_elem_of_nil in H.
       - intros p ino H. by apply not_elem_of_nil in H.
       - intros ino. split; [intros H; by apply not_elem_of_nil in H|by intros [? ?]]. }
  1: reflexivity.
  1: intros i si Hi; discriminate Hi.
  1-4: reflexivity.
  exists st', sbi', si. split; [exact H1|]. split; [exact H2|]. split; [exact H4|]. split; [exact H3|]. split; [|exact H5].
  apply H6. vm_compute. reflexivity.
Defined.

(** The same pool and the same record, asked for by a task whose mount namespace
    does not have the tier: the object is not recovered, although the pool holds
    the tier's root and could have looked it up from there. *)
Example recovery_depends_on_the_mount_namespace :
  let resolve kern_path :=
    fst (smoothfs_recovery_resolve_oid (RecoveryEnv calm_env (rp_names kern_path) true true 5 0)
           (rp_table (rp_oid 6)) (rp_pool_g (rp_oid 6)) (rp_oid 6)) in
  resolve rp_kern_path = Some (smoothfs_inode_no_from_oid some_hash (rp_oid 6))
  /\ resolve (fun _ => Err (- ENOENT)) = None.
Proof. vm_compute. by split. Qed.

(** A record whose path now holds another object yields that other object: the
    id is     not compared with the one asked for. *)
Example stale_record_returns_another_object :
  let '(r, (_, sbi')) :=
    smoothfs_recovery_resolve_oid rp_env (rp_table (rp_oid 6)) (rp_pool_g (rp_oid 7)) (rp_oid 6) in
  (oid <$> (i ← r; inodes sbi' !! i)) = Some (rp_oid 7).
Proof. vm_compute. reflexivity. Qed.
