(* ===== verification/Namespace.v ===== *)
(** * Names: src/src/smoothfs/inode.c, and the per-tier path helpers of super.c

    Lookup across tiers, creation with spill to the next tier, removal, and
    rename.  A smoothfs dentry is its path from the root, the inode it is
    attached to and the lower dentry in [d_fsdata].

    Every handler runs under the mounter's credentials in the code; permission
    checks are not modelled.  Reference counts are not either: an inode leaves
    the cache only through [smoothfs_evict_inode]. *)
From S2P Require Import Prelude Types Oid Tiers KernelIO PlacementLog InodeMaps LowerFs Movement PathIndex.

(** [struct dentry] of smoothfs *)
Record dentry := Dentry { d_path : list string; d_inode : option Z; d_fsdata : option ldentry }.
#[export] Instance dentry_eta : Eta dentry := fun r => Dentry (d_path r) (d_inode r) (d_fsdata r).

Definition d_name (d : dentry) : string := default EmptyString (last (d_path d)).

(** The path string [dentry_path_raw] prints, without its leading slash. *)
Fixpoint join_path (comps : list string) : string :=
  match comps with
  | [] => EmptyString
  | [c] => c
  | c :: comps => (c ++ "/" ++ join_path comps)%string
  end.

Definition smoothfs_set_lower_dentry (d : dentry) (lower : option ldentry) : dentry :=
  d <| d_fsdata := lower |>.

Definition d_really_is_positive (ld : ldentry) : bool := bool_decide (is_Some (ld_node ld)).

Section Namespace.
Context (e : ns_env).

(** [None] when there is no memory or the path does not fit in [PATH_MAX]. *)
Definition smoothfs_rel_path_from_dentry (comps : list string) : M (option string) :=
  let! a := ask e in
  if a <? 0 then ok None
  else if PATH_MAX <? Z.of_nat (String.length (join_path comps)) + 2 then ok None
  else let! b := ask e in ok (if b <? 0 then None else Some (join_path comps)).

Definition set_sb (sbi : sb_info) : M unit := on_sb (fun _ => sbi).

Definition iget (fresh : bool) (p : path) : M Z :=
  fun w => match lower (nw_sb w) !! p_dentry p with
           | None => (Err (- ESTALE), w)
           | Some l =>
               let (pl, r) := smoothfs_iget (ne_iget e (nw_k w)) false fresh p l (nw_pool w) in
               (r, w <| nw_pool := pl |> <| nw_k := S (nw_k w) |>)
           end.

(** ** Placement of an inode *)

Definition smoothfs_ensure_oid_persisted (ino : Z) : M unit :=
  let! si := get_inode ino in
  match lower_path si with
  | None => fail (- ESTALE)
  | Some p =>
      let! l := get_node (p_dentry p) in
      let! a := ask e in
      match smoothfs_read_oid_xattr a l with
      | Ok _ => ok tt
      | Err err =>
          if negb (err =? - ENODATA) then fail err
          else
            let! b := ask e in
            let (err, l) := smoothfs_write_oid_xattr b l (oid si) in
            let! _ := put_node (p_dentry p) l in
            if (err =? - EEXIST) || (err =? 0) then ok tt else fail err
      end
  end.

(** PLACED on tier [t], no transaction. *)
Definition mark_placed (t : Z) (si : inode_info) : inode_info :=
  si <| current_tier := t |> <| intended_tier := t |> <| ms := MS_PLACED |> <| transaction_seq := 0 |>.

Definition smoothfs_set_inode_placement (ino : Z) (rel : option string) (t : Z) : M unit :=
  let! _ := (match rel with Some _ => kalloc e | None => ok tt end) in
  let! a := ask e in
  let! sbi := get_sb in
  let! si := get_inode ino in
  let (sbi, si) := replace_rel_path a sbi si rel in
  set_sb (put_inode sbi (mark_placed t si)).

Definition smoothfs_track_placed (ino : Z) (rel : option string) (t : Z) (pin_lookup_ref record_log : bool)
  : M unit :=
  let! _ := smoothfs_set_inode_placement ino rel t in
  let! _ :=
    (if record_log then
       let! _ := smoothfs_ensure_oid_persisted ino in
       let! si := get_inode ino in
       let! a := ask e in
       let! sbi := get_sb in
       let '(err, sbi, _) := smoothfs_placement_record (0 <=? a) (ne_now e) sbi (oid si) MS_PLACED t t false in
       let! _ := set_sb sbi in
       if negb (err =? 0) then fail err else ok tt
     else ok tt) in
  if pin_lookup_ref
  then update_inode ino (fun si => si <| replay_pinned := true |>)
  else ok tt.

(** ** The directory chain of a parent on another tier *)

Fixpoint materialize_loop (t : Z) (comps : list string) (built : option string) (cur : path) : M path :=
  match comps with
  | [] => ok cur
  | c :: comps =>
      if str_empty c then materialize_loop t comps built cur
      else
        let! _ := kalloc e in
        let built := match built with None => c | Some b => (b ++ "/" ++ c)%string end in
        let! child := lookup_one e (p_dentry cur) c in
        let! (d, created) :=
          (match child with
           | Some d => ok (d, false)
           | None => let! d := vfs_mkdir e (p_dentry cur) c 493 in ok (d, true)
           end) in
        let child_path := Path (p_mnt cur) d in
        let! l := get_node d in
        if negb (S_ISDIR (l_type l)) then fail (- ENOTDIR)
        else
          let! _ :=
            (if created then
               let! ino := iget true child_path in
               smoothfs_track_placed ino (Some built) t true true
             else ok tt) in
          materialize_loop t comps (Some built) child_path
  end.

Definition smoothfs_materialize_parent_on_tier (t : Z) (rel : string) : M path :=
  let! sbi := get_sb in
  match tier_at sbi t with
  | None => fail (- EINVAL)
  | Some tr =>
      if str_empty rel then ok (t_path tr)
      else let! _ := kalloc e in materialize_loop t (rel_comps rel) None (t_path tr)
  end.

(** ** Lookup *)

Fixpoint across_loop (exclude : Z) (rel : string) (ts : list Z) : M (path * ldentry * Z) :=
  match ts with
  | [] => fail (- ENOENT)
  | t :: ts =>
      if t =? exclude then across_loop exclude rel ts
      else if str_empty rel then across_loop exclude rel ts
      else
        let! sbi := get_sb in
        if negb (smoothfs_metadata_tier_active sbi t) then
          let! _ := on_sb smoothfs_note_metadata_tier_skip in across_loop exclude rel ts
        else
          let! r := attempt (smoothfs_resolve_rel_path_on_tier e t rel) in
          match r with
          | Ok (p, ld) => ok (p, ld, t)
          | Err _ => across_loop exclude rel ts
          end
  end.

Definition smoothfs_lookup_rel_across_tiers (exclude : Z) (rel : string) : M (path * ldentry * Z) :=
  let! sbi := get_sb in
  across_loop exclude rel (tiers_from (if cache_mode sbi then ntiers sbi - 1 else 0) (ntiers sbi)).

(** [d_splice_alias] and [d_instantiate]: the dentry joins the inode. *)
Definition attach (d : dentry) (ino : Z) : M dentry :=
  let! _ := update_inode ino (fun si => si <| aliases := (d_fsdata d ≫= ld_node) :: aliases si |>) in
  ok (d <| d_inode := Some ino |>).

(** In cache mode the base tier alone decides. *)
Definition lookup_cache (d : dentry) : M dentry :=
  let! rel := smoothfs_rel_path_from_dentry (d_path d) in
  match rel with
  | None => fail (- ENOMEM)
  | Some rel =>
      let! sbi := get_sb in
      let base := ntiers sbi - 1 in
      let! r := attempt (smoothfs_resolve_rel_path_on_tier e base rel) in
      match r with
      | Ok (p, ld) =>
          let! ino := iget false p in
          let! _ := smoothfs_track_placed ino (Some rel) base false true in
          attach (smoothfs_set_lower_dentry d (Some ld)) ino
      | Err err =>
          if negb (err =? - ENOENT) && negb (err =? - ENOTDIR) then fail err
          else ok (d <| d_inode := None |>)
      end
  end.

(** A cached inode that still has a backing object. *)
Definition replayed_inode (sbi : sb_info) (rel : string) : option (Z * path) :=
  match smoothfs_lookup_rel_path sbi (Some rel) with
  | None => None
  | Some ino =>
      match inodes sbi !! ino ≫= lower_path with
      | None => None
      | Some p =>
          match lower sbi !! p_dentry p with
          | None => None
          | Some l => if l_nlink l =? 0 then None else Some (ino, p)
          end
      end
  end.

(** Reuse of a cached inode: its lower dentry, the replay pin handed over. *)
Definition lookup_replayed (d : dentry) (ino : Z) (p : path) : M dentry :=
  let! a := ask e in
  if a <? 0 then fail (- ESTALE)    (* igrab *)
  else
    let! _ := update_inode ino (fun si => si <| replay_pinned := false |>) in
    let! w := getw in
    attach (smoothfs_set_lower_dentry d (Some (dentry_of (nw_fs w) (p_dentry p)))) ino.

(** A hit of the scan over the tiers. *)
Definition lookup_found (parent_tier : Z) (d : dentry) (rel : string) (p : path) (found_tier : Z) : M dentry :=
  let! _ := on_sb (fun sbi =>
    if found_tier =? parent_tier
    then sbi <| parent_tier_lookup_recoveries := parent_tier_lookup_recoveries sbi + 1 |>
    else sbi) in
  let! ino := iget false p in
  let! _ := smoothfs_track_placed ino (Some rel) found_tier false true in
  let! si := get_inode ino in
  let! w := getw in
  attach (smoothfs_set_lower_dentry d
            (option_map (fun q => dentry_of (nw_fs w) (p_dentry q)) (lower_path si))) ino.

(** The name is not where the parent's lower directory is: [lower] is the
    negative dentry found there. *)
Definition lookup_elsewhere (parent_tier : Z) (lower : ldentry) (d : dentry) : M dentry :=
  let negative := ok (smoothfs_set_lower_dentry d (Some lower) <| d_inode := None |>) in
  let! _ := kalloc e in
  let! rel :=
    (if PATH_MAX <? Z.of_nat (String.length (join_path (d_path d))) + 2 then ok None
     else let! b := ask e in ok (if b <? 0 then None else Some (join_path (d_path d)))) in
  match rel with
  | None => negative
  | Some rel =>
      let! sbi := get_sb in
      match replayed_inode sbi rel with
      | Some (ino, p) => lookup_replayed d ino p
      | None =>
          let! r := attempt (smoothfs_lookup_rel_across_tiers SMOOTHFS_MAX_TIERS rel) in
          match r with
          | Err _ => negative
          | Ok (p, _, found_tier) => lookup_found parent_tier d rel p found_tier
          end
      end
  end.

Definition smoothfs_lookup_inner (dir : Z) (d : dentry) : M dentry :=
  let! sbi := get_sb in
  let! parent := get_inode dir in
  if cache_mode sbi then lookup_cache d
  else
    match lower_path parent with
    | None => fail (- ESTALE)
    | Some pp =>
        let pt := smoothfs_tier_of sbi (p_mnt pp) in
        let! lower := lookup_one e (p_dentry pp) (d_name d) in
        let parent_tier := if ntiers sbi <=? pt then fastest_tier sbi else pt in
        let ld := LDentry (p_dentry pp) (d_name d) lower in
        match lower with
        | Some node =>
            let! ino := iget false (Path (p_mnt pp) node) in
            attach (smoothfs_set_lower_dentry d (Some ld)) ino
        | None => lookup_elsewhere parent_tier ld d
        end
    end.

(** ** Creation *)

(** The directory in which tier [t] holds the children of [dir]. *)
Definition parent_on_tier (dir t parent_tier : Z) (parent_rel : string) : M path :=
  if negb (t =? parent_tier) then smoothfs_materialize_parent_on_tier t parent_rel
  else let! si := get_inode dir in
       match lower_path si with Some p => ok p | None => fail (- ESTALE) end.

(** [smoothfs_copy_attrs(inode, d_inode(lower))] *)
Definition copy_attrs (ino d : Z) : M unit :=
  let! l := get_node d in update_inode ino (fun si => smoothfs_copy_attrs si l).

Definition smoothfs_spill_note_success (ino source_tier dest_tier : Z) : M unit :=
  let! si := get_inode ino in
  let! a := ask e in
  on_sb (fun sbi =>
    let sbi := sbi <| spill_creates_total := spill_creates_total sbi + 1 |> <| any_spill_since_mount := true |> in
    if a <? 0 then sbi
    else sbi <| events := events sbi ++ [EV_SPILL (oid si) source_tier dest_tier (i_size si)] |>).

Definition smoothfs_spill_note_failed_all_tiers (sbi : sb_info) : sb_info :=
  sbi <| spill_creates_failed_all_tiers := spill_creates_failed_all_tiers sbi + 1 |>.

(** Count a creation that ran out of tiers. *)
Definition note_enospc {A} (m : M A) : M A :=
  let! r := attempt m in
  match r with
  | Ok a => ok a
  | Err err =>
      let! _ := (if err =? - ENOSPC then on_sb smoothfs_spill_note_failed_all_tiers else ok tt) in fail err
  end.

(** The new file joins the namespace. *)
Definition create_finish (dir : Z) (d : dentry) (pp : path) (node ino t parent_tier : Z) (spilled : bool)
  : M dentry :=
  let! _ := update_inode ino (fun si => si <| write_reservation := 1 |>) in
  let! _ := on_sb (update_tier t (fun tr => tr <| pending_writes := pending_writes tr + 1 |>)) in
  let! _ := (if spilled then smoothfs_spill_note_success ino parent_tier t else ok tt) in
  let! d := attach (smoothfs_set_lower_dentry d (Some (LDentry (p_dentry pp) (d_name d) (Some node)))) ino in
  let! _ := copy_attrs dir (p_dentry pp) in
  ok d.

(** The tiers in the order they are tried; [err] is the error so far. *)
Fixpoint create_loop (dir : Z) (d : dentry) (mode : Z) (rel parent_rel : string) (parent_tier start_tier : Z)
    (ts : list Z) (fallback : bool) (err : Z) : M dentry :=
  match ts with
  | [] => fail err
  | t :: ts =>
      let go_on err := create_loop dir d mode rel parent_rel parent_tier start_tier ts true err in
      let! sbi := get_sb in
      if negb (t =? ntiers sbi - 1) && smoothfs_tier_near_enospc (ne_statfs e) sbi t then go_on err
      else
        let! r := attempt (parent_on_tier dir t parent_tier parent_rel) in
        match r with
        | Err er => if negb (t =? parent_tier) && (er =? - ENOSPC) then go_on er else fail er
        | Ok pp =>
            let! _ := lookup_one e (p_dentry pp) (d_name d) in
            let! r := attempt (vfs_create e (p_dentry pp) (d_name d) mode) in
            match r with
            | Err er => if er =? - ENOSPC then go_on er else fail er
            | Ok node =>
                let! ino := iget true (Path (p_mnt pp) node) in
                let! _ := smoothfs_track_placed ino (Some rel) t false false in
                create_finish dir d pp node ino t parent_tier (fallback && negb (t =? start_tier))
            end
        end
  end.

(** [start_tier], then the others cyclically; only the first in cache mode. *)
Definition create_order (sbi : sb_info) (start_tier : Z) : list Z :=
  map (fun a => (start_tier + a) mod ntiers sbi) (seqZ 0 (if cache_mode sbi then 1 else ntiers sbi)).

Definition parent_tier_of (sbi : sb_info) (si : inode_info) : Z :=
  let pt := match lower_path si with Some p => smoothfs_tier_of sbi (p_mnt p) | None => SMOOTHFS_MAX_TIERS end in
  if ntiers sbi <=? pt then fastest_tier sbi else pt.

Definition smoothfs_create_inner (dir : Z) (d : dentry) (mode : Z) : M dentry :=
  note_enospc (
    let! sbi := get_sb in
    let! si := get_inode dir in
    let parent_tier := parent_tier_of sbi si in
    let start_tier := smoothfs_select_create_tier (ne_statfs e) (ne_oom e) sbi in
    let! rel := smoothfs_rel_path_from_dentry (d_path d) in
    let! parent_rel := smoothfs_rel_path_from_dentry (removelast (d_path d)) in
    match rel, parent_rel with
    | Some rel, Some parent_rel =>
        create_loop dir d mode rel parent_rel parent_tier start_tier (create_order sbi start_tier) false (- ENOSPC)
    | _, _ => fail (- ENOMEM)
    end).

(** mkdir tries the fastest tier and then the slower ones. *)
Fixpoint mkdir_loop (dir : Z) (d : dentry) (mode : Z) (rel parent_rel : string) (parent_tier : Z)
    (ts : list Z) (err : Z) : M dentry :=
  match ts with
  | [] => fail err
  | t :: ts =>
      let go_on err := mkdir_loop dir d mode rel parent_rel parent_tier ts err in
      let! sbi := get_sb in
      if negb (t =? ntiers sbi - 1) && smoothfs_tier_near_enospc (ne_statfs e) sbi t then go_on err
      else
        let! r := attempt (parent_on_tier dir t parent_tier parent_rel) in
        match r with
        | Err er => if negb (t =? parent_tier) && (er =? - ENOSPC) then go_on er else fail er
        | Ok pp =>
            let! _ := lookup_one e (p_dentry pp) (d_name d) in
            let! r := attempt (vfs_mkdir e (p_dentry pp) (d_name d) mode) in
            match r with
            | Err er => if er =? - ENOSPC then go_on er else fail er
            | Ok node =>
                let! ino := iget true (Path (p_mnt pp) node) in
                let! _ := smoothfs_track_placed ino (Some rel) t false false in
                let! _ := (if negb (t =? fastest_tier sbi)
                           then smoothfs_spill_note_success ino parent_tier t else ok tt) in
                let! d := attach (smoothfs_set_lower_dentry d
                                    (Some (LDentry (p_dentry pp) (d_name d) (Some node)))) ino in
                let! _ := copy_attrs dir (p_dentry pp) in
                ok d
            end
        end
  end.

Definition smoothfs_mkdir_inner (dir : Z) (d : dentry) (mode : Z) : M dentry :=
  note_enospc (
    let! sbi := get_sb in
    let! si := get_inode dir in
    let! rel := smoothfs_rel_path_from_dentry (d_path d) in
    let! parent_rel := smoothfs_rel_path_from_dentry (removelast (d_path d)) in
    match rel, parent_rel with
    | Some rel, Some parent_rel =>
        mkdir_loop dir d mode rel parent_rel (parent_tier_of sbi si)
          (tiers_from (if cache_mode sbi then ntiers sbi - 1 else fastest_tier sbi) (ntiers sbi)) (- ENOSPC)
    | _, _ => fail (- ENOMEM)
    end).

(** mknod and symlink stay on the tier of the parent's dentry [pd]. *)
Definition make_beside (make : Z -> string -> M Z) (dir : Z) (pd d : dentry) : M dentry :=
  match d_fsdata pd ≫= ld_node with
  | None => fail (- ESTALE)
  | Some lower_parent =>
      let! _ := lookup_one e lower_parent (d_name d) in
      let! node := make lower_parent (d_name d) in
      let! si := get_inode dir in
      match lower_path si with
      | None => fail (- ESTALE)
      | Some p =>
          let! ino := iget true (Path (p_mnt p) node) in
          let! d := attach (smoothfs_set_lower_dentry d (Some (LDentry lower_parent (d_name d) (Some node)))) ino in
          let! _ := copy_attrs dir lower_parent in
          ok d
      end
  end.

Definition smoothfs_mknod_inner (dir : Z) (pd d : dentry) (mode : Z) : M dentry :=
  make_beside (fun p n => vfs_mknod e p n mode) dir pd d.
Definition smoothfs_symlink_inner (dir : Z) (pd d : dentry) (target : bool * list string) : M dentry :=
  make_beside (vfs_symlink e target) dir pd d.

(** The superblock a lower dentry belongs to. *)
Definition d_sb (fs : lfs) (ld : ldentry) : Z := default 0 (lf_sb fs !! ld_parent ld).

Definition smoothfs_link_inner (old_d : dentry) (dir : Z) (pd d : dentry) : M dentry :=
  match d_fsdata old_d, d_fsdata pd, d_inode old_d with
  | Some lower_old, Some lower_parent, Some ino =>
      let! w := getw in
      if negb (d_sb (nw_fs w) lower_old =? d_sb (nw_fs w) lower_parent) then fail (- EXDEV)
      else
        match ld_node lower_old, ld_node lower_parent with
        | Some node, Some parent =>
            let! _ := lookup_one e parent (d_name d) in
            let! _ := vfs_link e node parent (d_name d) in
            let! _ := update_inode ino (fun si =>
              let n := nlink_observed si + 1 in
              si <| nlink_observed := n |>
                 <| pin := if (1 <? n) && pin_eqb (pin si) PIN_NONE then PIN_HARDLINK else pin si |>) in
            let! d := attach (smoothfs_set_lower_dentry d (Some (LDentry parent (d_name d) (Some node)))) ino in
            let! _ := copy_attrs ino node in
            let! _ := copy_attrs dir parent in
            ok d
        | _, _ => fail (- ENOENT)
        end
  | _, _, _ => fail (- ENOENT)
  end.

(** ** Removal *)

(** [smoothfs_compat_start_removing] (compat.h) with the child's own parent:
    the name is looked up again under the lock. *)
Definition smoothfs_compat_start_removing (child : ldentry) : M Z :=
  let! fresh := lookup_one e (ld_parent child) (ld_name child) in
  match fresh with
  | Some d => if bool_decide (ld_node child = Some d) then ok d else fail (- ENOENT)
  | None => fail (- ENOENT)
  end.

(** The parent path and the last component of a relative path. *)
Definition split_rel (rel : string) : string * string :=
  match split_last_slash rel with Some (p, n) => (p, n) | None => (EmptyString, rel) end.

Definition smoothfs_unlink_rel_path_on_tier (t : Z) (rel : string) : M unit :=
  if str_empty rel then fail (- EINVAL)
  else
    let! _ := kalloc e in
    let (parent_rel, name) := split_rel rel in
    if str_empty name then fail (- EINVAL)
    else
      let! (pp, _) := smoothfs_resolve_rel_path_on_tier e t parent_rel in
      let! lower := lookup_one e (p_dentry pp) name in
      match lower with
      | None => ok tt
      | Some d =>
          let! l := get_node d in
          if negb (S_ISREG (l_type l)) then fail (- EISDIR) else vfs_unlink e (p_dentry pp) name
      end.

Definition smoothfs_rmdir_rel_path_on_tier (t : Z) (rel : string) : M unit :=
  if str_empty rel then fail (- EINVAL)
  else
    let! _ := kalloc e in
    let (parent_rel, name) := split_rel rel in
    if str_empty name then fail (- EINVAL)
    else
      let! r := attempt (smoothfs_resolve_rel_path_on_tier e t parent_rel) in
      match r with
      | Err err => if err =? - ENOENT then ok tt else fail err
      | Ok (pp, _) =>
          let! lower := lookup_one e (p_dentry pp) name in
          match lower with
          | None => ok tt
          | Some d =>
              let! l := get_node d in
              if negb (S_ISDIR (l_type l)) then fail (- ENOTDIR) else vfs_rmdir e (p_dentry pp) name
          end
      end.

(** Best effort on every active tier; errors are dropped. *)
Fixpoint each_active_tier (op : Z -> M unit) (ts : list Z) : M unit :=
  match ts with
  | [] => ok tt
  | t :: ts =>
      let! sbi := get_sb in
      let! _ := (if smoothfs_metadata_tier_active sbi t
                 then let! _ := attempt (op t) in ok tt else ok tt) in
      each_active_tier op ts
  end.

(** The inode leaves the path index; returns the path it had. *)
Definition forget_path (ino : Z) : M (option string) :=
  let! si := get_inode ino in
  let! sbi := get_sb in
  match rel_path si with
  | None => ok None
  | Some rel =>
      let (sbi, si) := smoothfs_path_map_del sbi si in
      let! _ := set_sb (put_inode sbi (si <| rel_path := None |>)) in
      ok (Some rel)
  end.

Definition smoothfs_forget_placement (ino : Z) (purge_dir_tiers : bool) : M unit :=
  let! rel := forget_path ino in
  let! sbi := get_sb in
  let! _ := (match rel with
             | Some r => if purge_dir_tiers
                         then each_active_tier (fun t => smoothfs_rmdir_rel_path_on_tier t r)
                                (tiers_from 0 (ntiers sbi))
                         else ok tt
             | None => ok tt
             end) in
  update_inode ino (fun si => si <| replay_pinned := false |>).

(** The dentry leaves the inode: its [d_fsdata] is dropped and it is unhashed. *)
Fixpoint clear_alias (node : option Z) (l : list (option Z)) : list (option Z) :=
  match l with
  | [] => []
  | a :: l => if bool_decide (a = node) then None :: l else a :: clear_alias node l
  end.

Definition smoothfs_unlink_inner (dir : Z) (d : dentry) : M dentry :=
  match d_fsdata d, d_inode d with
  | Some lower, Some ino =>
      let! r := attempt (smoothfs_compat_start_removing lower) in
      let! _ :=
        (match r with
         | Err err => if negb (err =? - ENOENT) then fail err else ok tt
         | Ok node =>
             let! l := get_node node in
             if l_nlink l =? 0 then ok tt else vfs_unlink e (ld_parent lower) (ld_name lower)
         end) in
      let! _ := (fun w => (Ok tt, w <| nw_pool := smoothfs_oid_wb_forget (nw_pool w) (ld_node lower) |>)) in
      let! _ := update_inode ino (fun si =>
        let n := nlink_observed si - 1 in
        si <| nlink_observed := n |>
           <| pin := if (n <=? 1) && pin_eqb (pin si) PIN_HARDLINK then PIN_NONE else pin si |>
           <| i_nlink := i_nlink si - 1 |>
           <| aliases := clear_alias (ld_node lower) (aliases si) |>) in
      let! _ := copy_attrs dir (ld_parent lower) in
      let! si := get_inode ino in
      let! _ := (if i_nlink si =? 0 then smoothfs_forget_placement ino false else ok tt) in
      ok (smoothfs_set_lower_dentry d None)
  | _, _ => fail (- ENOENT)
  end.

Definition smoothfs_rmdir_inner (dir : Z) (d : dentry) : M dentry :=
  match d_fsdata d, d_inode d with
  | Some lower, Some ino =>
      let! r := attempt (smoothfs_compat_start_removing lower) in
      let! _ :=
        (match r with
         | Err err => if negb (err =? - ENOENT) then fail err else ok tt
         | Ok _ => vfs_rmdir e (ld_parent lower) (ld_name lower)
         end) in
      let! si := get_inode ino in
      let! rel := (match rel_path si with
                   | Some _ => ok None
                   | None => smoothfs_rel_path_from_dentry (d_path d)
                   end) in
      let! _ := update_inode ino (fun si =>
        si <| rel_path := match rel_path si with Some p => Some p | None => rel end |>
           <| i_nlink := 0 |>
           <| aliases := clear_alias (ld_node lower) (aliases si) |>) in
      let! _ := copy_attrs dir (ld_parent lower) in
      let! _ := smoothfs_forget_placement ino true in
      ok (smoothfs_set_lower_dentry d None)
  | _, _ => fail (- ENOENT)
  end.

(** ** Rename *)

Definition smoothfs_compat_rename (op : Z) (oname : string) (np : Z) (nname : string) : M unit :=
  let! old_d := lookup_one e op oname in
  match old_d with
  | None => ok tt
  | Some d =>
      let! new_d := lookup_one e np nname in
      let! w := getw in
      if is_below (nw_fs w) d np || match new_d with Some t => is_below (nw_fs w) t op | None => false end
      then fail (- EINVAL)
      else vfs_rename e op oname np nname
  end.

Definition smoothfs_rename_rel_path_on_tier (t : Z) (old_rel new_rel : string) : M unit :=
  if str_empty old_rel || str_empty new_rel then fail (- EINVAL)
  else
    let! _ := kalloc e in
    let! _ := kalloc e in
    let (oparent, oname) := split_rel old_rel in
    let (nparent, nname) := split_rel new_rel in
    if str_empty oname || str_empty nname then fail (- EINVAL)
    else
      let! r := attempt (smoothfs_resolve_rel_path_on_tier e t oparent) in
      match r with
      | Err err => if err =? - ENOENT then ok tt else fail err
      | Ok (op, _) =>
          let! r := attempt (smoothfs_resolve_rel_path_on_tier e t nparent) in
          match r with
          | Err err => if err =? - ENOENT then ok tt else fail err
          | Ok (np, _) => smoothfs_compat_rename (p_dentry op) oname (p_dentry np) nname
          end
      end.

Definition smoothfs_rename_spill_tiers (old_rel new_rel : string) : M unit :=
  let! sbi := get_sb in
  each_active_tier (fun t => smoothfs_rename_rel_path_on_tier t old_rel new_rel) (tiers_from 0 (ntiers sbi)).

Definition smoothfs_drop_stale_rename_target (stale_lower : ldentry) (stale_inode : option Z) : M unit :=
  let! r := attempt (smoothfs_compat_start_removing stale_lower) in
  let! _ := (match r with
             | Ok node =>
                 let! l := get_node node in
                 if l_nlink l =? 0 then ok tt
                 else let! _ := attempt (vfs_unlink e (ld_parent stale_lower) (ld_name stale_lower)) in ok tt
             | Err _ => ok tt
             end) in
  match stale_inode with Some i => smoothfs_forget_placement i false | None => ok tt end.

(** [flags]: RENAME_NOREPLACE, RENAME_EXCHANGE, RENAME_WHITEOUT. *)
Record rename_flags := RenameFlags { rf_noreplace : bool; rf_exchange : bool; rf_whiteout : bool }.

(** [smoothfs_compat_start_rename] (compat.h): the target, looked up when it is
    not already known; neither dentry may have gone stale, and neither may be
    an ancestor of the other. *)
Definition smoothfs_compat_start_rename (old_parent new_parent : Z) (f : rename_flags) (old : ldentry)
    (new : option ldentry) (name : string) : M ldentry :=
  let! new := (match new with
               | Some ld => ok ld
               | None => let! x := lookup_one e new_parent name in ok (LDentry new_parent name x)
               end) in
  let! w := getw in
  let fs := nw_fs w in
  let hashed ld := match ld_node ld with
                   | Some d => bool_decide (lf_ent fs !! (ld_parent ld, ld_name ld) = Some d)
                   | None => true
                   end in
  if negb (hashed old) || negb (old_parent =? ld_parent old) then fail (- EINVAL)
  else if negb (hashed new) || negb (new_parent =? ld_parent new) then fail (- EINVAL)
  else if match ld_node old with Some d => is_below fs d new_parent | None => false end then fail (- EINVAL)
  else if match ld_node new with Some d => is_below fs d old_parent | None => false end
  then fail (if rf_exchange f then - EINVAL else - ENOTEMPTY)
  else if d_really_is_positive new && rf_noreplace f then fail (- EEXIST)
  else ok new.

(** [vfs_rename(&rd)] *)
Definition rename_lower (f : rename_flags) (old new : ldentry) : M unit :=
  if rf_exchange f then vfs_exchange e (ld_parent old) (ld_name old) (ld_parent new) (ld_name new)
  else
    let! _ := vfs_rename e (ld_parent old) (ld_name old) (ld_parent new) (ld_name new) in
    if rf_whiteout f
    then let! _ := new_node e (ld_parent old) (ld_name old) FT_SPECIAL 0 1 in ok tt
    else ok tt.

(** The tier whose root is on the superblock of a dentry. *)
Fixpoint tier_of_sb (fs : lfs) (sb : Z) (i : Z) (ts : list tier) : Z :=
  match ts with
  | [] => i
  | t :: ts => if default 0 (lf_sb fs !! p_dentry (t_path t)) =? sb then i else tier_of_sb fs sb (i + 1) ts
  end.

(** Where the rename takes place: the lower parents, the lower target if it
    is to be replaced in place, and a target on another tier that goes stale. *)
Record rename_plan := RenamePlan { rp_new_parent : Z; rp_lower_new : option ldentry; rp_stale : option ldentry }.

(** Same directory: complete it on the source's own tier. *)
Definition plan_same_dir (fs : lfs) (is_dir : Z -> bool) (f : rename_flags) (actual_old : Z) (lower_new : option ldentry)
  : result rename_plan :=
  match lower_new with
  | Some ln =>
      if negb (d_sb fs ln =? default 0 (lf_sb fs !! actual_old)) then
        match ld_node ln with
        | Some t =>
            if is_dir t || rf_exchange f || rf_whiteout f then Err (- EXDEV)
            else if rf_noreplace f then Err (- EEXIST)
            else Ok (RenamePlan actual_old None (Some ln))
        | None => Ok (RenamePlan actual_old None None)
        end
      else Ok (RenamePlan actual_old (Some ln) None)
  | None => Ok (RenamePlan actual_old None None)
  end.

(** Another directory, on another tier: the new parent's chain is made on the
    source's tier, for a directory on every other active tier too. *)
Definition plan_cross_dir (f : rename_flags) (is_dir : bool) (src_sb : Z) (new_parent_path : list string)
    (lower_new : option ldentry) : M rename_plan :=
  let! w := getw in
  let sbi := nw_sb w in
  let src_tier := tier_of_sb (nw_fs w) src_sb 0 (take (Z.to_nat (ntiers sbi)) (tiers sbi)) in
  if rf_exchange f || rf_whiteout f then fail (- EXDEV)
  else if ntiers sbi <=? src_tier then fail (- EXDEV)
  else
    let! stale :=
      (match lower_new with
       | Some ln =>
           match ld_node ln with
           | Some t =>
               let! l := get_node t in
               if S_ISDIR (l_type l) then fail (- EXDEV)
               else if rf_noreplace f then fail (- EEXIST)
               else ok (Some ln)
           | None => ok None
           end
       | None => ok None
       end) in
    let! rel := smoothfs_rel_path_from_dentry new_parent_path in
    match rel with
    | None => fail (- ENOMEM)
    | Some rel =>
        let! mat := smoothfs_materialize_parent_on_tier src_tier rel in
        let! _ := (if is_dir
                   then each_active_tier
                          (fun t => if t =? src_tier then ok tt
                                    else let! _ := smoothfs_materialize_parent_on_tier t rel in ok tt)
                          (tiers_from 0 (ntiers sbi))
                   else ok tt) in
        ok (RenamePlan (p_dentry mat) None stale)
    end.

(** Which of the three cases applies. *)
Definition choose_plan (fs : lfs) (is_dir_node : Z -> bool) (f : rename_flags) (is_dir : bool) (lower_old : ldentry)
    (lower_new_parent : Z) (old_pd new_pd new_d : dentry) : M rename_plan :=
  let old_parent := ld_parent lower_old in
  let src_sb := default 0 (lf_sb fs !! old_parent) in
  if bool_decide (d_path old_pd = d_path new_pd) then
    match plan_same_dir fs is_dir_node f old_parent (d_fsdata new_d) with
    | Ok plan => ok plan
    | Err err => fail err
    end
  else if negb (src_sb =? default 0 (lf_sb fs !! lower_new_parent)) then
    plan_cross_dir f is_dir src_sb (d_path new_pd) (d_fsdata new_d)
  else match d_fsdata new_d with
       | Some ln => if negb (d_sb fs lower_old =? d_sb fs ln) then fail (- EXDEV)
                    else ok (RenamePlan lower_new_parent (Some ln) None)
       | None => ok (RenamePlan lower_new_parent None None)
       end.

(** The moved inode gets the path of its new name. *)
Definition rekey_moved (ino : Z) (new_path : list string) : M unit :=
  let! rel := smoothfs_rel_path_from_dentry new_path in
  match rel with
  | None => ok tt
  | Some r =>
      let! a := ask e in
      let! sbi := get_sb in
      let! si := get_inode ino in
      let (sbi, si) := replace_rel_path a sbi si (Some r) in
      set_sb (put_inode sbi si)
  end.

(** The dentry that is thrown away loses its lower dentry. *)
Definition drop_new_dentry (new_d : dentry) : M unit :=
  match d_inode new_d with
  | None => ok tt
  | Some t =>
      update_inode t (fun ti => ti <| aliases := clear_alias (d_fsdata new_d ≫= ld_node) (aliases ti) |>)
  end.

(** After the lower rename: attributes, path index, stale target, spill copies. *)
Definition rename_finish (old_dir new_dir ino : Z) (old_d new_d : dentry) (is_dir : bool)
    (old_parent : Z) (plan : rename_plan) (old_rel : option string) : M unit :=
  let! _ := drop_new_dentry new_d in
  let! _ := copy_attrs old_dir old_parent in
  let! _ := copy_attrs new_dir (rp_new_parent plan) in
  let! _ := rekey_moved ino (d_path new_d) in
  let! _ := (match rp_stale plan with
             | Some ln => smoothfs_drop_stale_rename_target ln (d_inode new_d)
             | None => ok tt
             end) in
  match is_dir, old_rel with
  | true, Some orel =>
      let! nrel := smoothfs_rel_path_from_dentry (d_path new_d) in
      match nrel with
      | Some nrel => smoothfs_rename_spill_tiers orel nrel
      | None => ok tt
      end
  | _, _ => ok tt
  end.

(** [old_d] moves to the name of [new_d]; [old_pd], [new_pd] are their parents'
    dentries.  Returns the surviving dentry at its new position. *)
Definition smoothfs_rename_inner (old_dir : Z) (old_pd old_d : dentry) (new_dir : Z) (new_pd new_d : dentry)
    (f : rename_flags) : M dentry :=
  match d_fsdata old_d, d_fsdata new_pd ≫= ld_node, d_inode old_d with
  | Some lower_old, Some lower_new_parent, Some ino =>
      let! w := getw in
      let fs := nw_fs w in
      let is_dir_node d := match lower (nw_sb w) !! d with Some l => S_ISDIR (l_type l) | None => false end in
      let is_dir := match ld_node lower_old with Some d => is_dir_node d | None => false end in
      let old_parent := ld_parent lower_old in
      let! plan := choose_plan fs is_dir_node f is_dir lower_old lower_new_parent old_pd new_pd new_d in
      let! new := smoothfs_compat_start_rename old_parent (rp_new_parent plan) f lower_old
                    (rp_lower_new plan) (d_name new_d) in
      let! old_rel := (if is_dir then smoothfs_rel_path_from_dentry (d_path old_d) else ok None) in
      let! _ := rename_lower f lower_old new in
      let! _ := rename_finish old_dir new_dir ino old_d new_d is_dir old_parent plan old_rel in
      ok (Dentry (d_path new_d) (Some ino)
                 (Some (LDentry (rp_new_parent plan) (d_name new_d) (ld_node lower_old))))
  | _, _, _ => fail (- ESTALE)
  end.

(** ** Attributes and revalidation *)

(** [vfs_getattr_nosec] of the lower object (or the cached attributes when the
    tier is inactive), with the identity of the smoothfs inode.  [staged] is
    [si->range_staged]. *)
Record kstat := KStat { st_ino : Z; st_perm : Z; st_type : ftype; st_size : Z; st_nlink : Z }.

Definition smoothfs_getattr (ino : Z) (staged : bool) : M kstat :=
  let! sbi := get_sb in
  let! si := get_inode ino in
  if negb (smoothfs_metadata_tier_active sbi (current_tier si)) then
    let! _ := on_sb smoothfs_note_metadata_tier_skip in
    ok (KStat (i_ino si) (i_perm si) (i_type si) (i_size si) (i_nlink si))
  else
    match lower_path si with
    | None => fail (- ESTALE)
    | Some p =>
        let! _ := fallible e in
        let! l := get_node (p_dentry p) in
        ok (KStat (i_ino si) (l_perm l) (l_type l)
                  (if cache_mode sbi && staged then i_size si else l_size l) (l_nlink l))
    end.

(** 1: valid, 0: look it up again.  [lower_op] is the lower [d_revalidate], if
    it has one; [rcu] is [LOOKUP_RCU]. *)
Definition smoothfs_d_revalidate (sbi : sb_info) (d : dentry) (lower_op : option Z) (rcu : bool) : Z :=
  match d_inode d with
  | None => 0
  | Some _ =>
      if negb (any_lower_revalidates sbi) then 1
      else match d_fsdata d with
           | None => 0
           | Some _ =>
               match lower_op with
               | None => 1
               | Some r => if rcu then - ECHILD else r
               end
           end
  end.

End Namespace.
