(* ===== verification/Lookup.v ===== *)
(** * Lookups without faults: lemmas for src/src/smoothfs/inode.c

    When no kernel call fails, attaching an inode, recording its placement and
    joining a dentry to it succeed.  [Dir] builds on this to show that a name a
    directory lists can be looked up. *)
From S2P Require Import Prelude Types Oid Tiers KernelIO PlacementLog InodeMaps LowerFs Movement PathIndex Namespace.

(** ** Lookups that meet no fault *)

(** Ids on disk and in the queue have their length; cached inodes are filed
    under their number and have a backing object. *)
Record pool_ok (pl : pool) : Prop := PoolOk {
  po_nodes : forall d l o, lower (p_sbi pl) !! d = Some l -> l_oid l = Some o -> length o = SMOOTHFS_OID_LEN;
  po_pending : Forall (fun x => length x.2 = SMOOTHFS_OID_LEN) (oid_wb_pending pl);
  po_keyed : keyed (p_sbi pl);
  po_backed : forall ino si, inodes (p_sbi pl) !! ino = Some si ->
    length (oid si) = SMOOTHFS_OID_LEN
    /\ exists p, lower_path si = Some p /\ is_Some (lower (p_sbi pl) !! p_dentry p);
}.

Record calm_iget (ie : iget_env) : Prop := CalmIget {
  ci_read1 : ie_read1 ie = 0; ci_read2 : ie_read2 ie = 0; ci_queue : ie_queue ie = 0;
  ci_queue_mem : ie_queue_mem ie = true; ci_mem : ie_mem ie = true; ci_oid : ie_oid_insert ie = 0;
}.

(** The pool changed in nothing that [pool_ok] reads but the lower objects,
    which kept their names and valid ids. *)
Lemma pool_ok_lower pl pl' :
  inodes (p_sbi pl') = inodes (p_sbi pl) -> oid_wb_pending pl' = oid_wb_pending pl ->
  (forall d, is_Some (lower (p_sbi pl) !! d) -> is_Some (lower (p_sbi pl') !! d)) ->
  (forall d l o, lower (p_sbi pl') !! d = Some l -> l_oid l = Some o -> length o = SMOOTHFS_OID_LEN) ->
  pool_ok pl -> pool_ok pl'.
Proof.
  intros E1 E2 Hd Hn [P1 P2 P3 P4]. constructor; [done|by rewrite E2| |].
  - intros ino si. rewrite E1. apply P3.
  - intros ino si Hi. rewrite E1 in Hi. destruct (P4 _ _ Hi) as (Ho & p & Hp & Hs). split; [done|]. exists p. auto.
Qed.

Lemma write_oid_cases fault l o err l' : smoothfs_write_oid_xattr fault l o = (err, l') ->
  l' = l \/ (l_oid l = None /\ err = 0 /\ l' = l <| l_oid := Some o |>).
Proof.
  unfold smoothfs_write_oid_xattr. case_goal; [intros [= <- <-]; by left|].
  destruct (l_oid l); intros [= <- <-]; [by left|by right].
Qed.

Lemma oid_wb_write_ok faults batch : forall i low,
  Forall (fun x : path * list Z => length x.2 = SMOOTHFS_OID_LEN) batch ->
  (forall d l o, low !! d = Some l -> l_oid l = Some o -> length o = SMOOTHFS_OID_LEN) ->
  (forall d, is_Some (low !! d) -> is_Some (oid_wb_write faults i low batch !! d))
  /\ (forall d l o, oid_wb_write faults i low batch !! d = Some l -> l_oid l = Some o -> length o = SMOOTHFS_OID_LEN).
Proof.
  induction batch as [|[p o] batch IH]; intros i low Hb Hn; [done|]. cbn [oid_wb_write].
  apply Forall_cons in Hb as [Ho Hb]. destruct (low !! p_dentry p) as [l|] eqn:El; [|by apply IH].
  destruct (smoothfs_write_oid_xattr (faults i) l o) as [err l'] eqn:Ew. cbn [snd].
  destruct (IH (S i) (<[p_dentry p := l']> low) Hb) as [I1 I2].
  - intros d l0 o0 [[<- <-]|[_ Hd]]%lookup_insert_Some H0; [|by eapply Hn].
    apply write_oid_cases in Ew as [->|(_ & _ & ->)]; [by eapply Hn|]. by injection H0 as <-.
  - split; [|done]. intros d Hd. apply I1. destruct (decide (d = p_dentry p)) as [->|];
      [rewrite lookup_insert_eq; by eexists|by rewrite lookup_insert_ne].
Qed.

Lemma read_oid_calm l : (forall o, l_oid l = Some o -> length o = SMOOTHFS_OID_LEN) ->
  smoothfs_read_oid_xattr 0 l = match l_oid l with Some o => Ok o | None => Err (- ENODATA) end.
Proof.
  intros H. destruct (l_oid l) as [o|] eqn:E; [by apply read_oid_present, H|by apply read_oid_absent].
Qed.

(** The write-back pass that runs inside a lookup of an object without an id. *)
Lemma oid_drain_ok faults pl : pool_ok pl ->
  let pl' := smoothfs_oid_wb_drain faults pl in
  pool_ok pl' /\ inodes (p_sbi pl') = inodes (p_sbi pl) /\ oid_wb_ready pl' = oid_wb_ready pl
  /\ (forall d, is_Some (lower (p_sbi pl) !! d) -> is_Some (lower (p_sbi pl') !! d)).
Proof.
  intros Hok. cbv zeta. unfold smoothfs_oid_wb_drain. destruct (oid_wb_ready pl) eqn:Er; cbn [negb]; [|done].
  destruct (oid_wb_write_ok faults (oid_wb_pending pl) 0 (lower (p_sbi pl))) as [D1 D2];
    [apply Hok|by apply (po_nodes pl)|].
  split_and!; [|done|done|done]. constructor; [done|constructor|apply Hok|].
  intros ino si Hi. destruct (po_backed pl Hok ino si Hi) as (Ho & p & Hp & Hs). split; [done|].
  exists p. split; [done|]. by apply D1.
Qed.

Lemma peek_length pl p o : pool_ok pl -> smoothfs_oid_wb_peek pl p = Some o -> length o = SMOOTHFS_OID_LEN.
Proof.
  intros Hok. unfold smoothfs_oid_wb_peek. destruct (negb _); [done|]. destruct (lower _ !! _); [|done].
  destruct (list_find _ _) as [[i [q o']]|] eqn:E; [|done]. intros [= <-].
  apply list_find_Some in E as (Hi & _). pose proof (po_pending pl Hok) as Hp. rewrite Forall_forall in Hp.
  apply (Hp (q, o')). by eapply list_elem_of_lookup_2.
Qed.

Lemma identity_calm ie p l pl : calm_iget ie -> pool_ok pl -> lower (p_sbi pl) !! p_dentry p = Some l ->
  exists o g pl', iget_identity ie false p l pl = (pl', Ok (o, g)) /\ length o = SMOOTHFS_OID_LEN /\ pool_ok pl'
  /\ inodes (p_sbi pl') = inodes (p_sbi pl)
  /\ (forall d, is_Some (lower (p_sbi pl) !! d) -> is_Some (lower (p_sbi pl') !! d)).
Proof.
  intros [R1 R2 Q1 Q2 _ _] Hok Hl. unfold iget_identity. rewrite R1, R2.
  rewrite read_oid_calm by (intros o; by apply (po_nodes pl Hok _ _ _ Hl)).
  destruct (l_oid l) as [o|] eqn:Eo.
  { eexists _, _, _. split; [reflexivity|]. split; [by eapply (po_nodes pl Hok)|]. done. }
  rewrite Z.eqb_refl. destruct (smoothfs_oid_wb_peek pl p) as [o|] eqn:Epk.
  { eexists _, _, _. split; [reflexivity|]. split; [by eapply peek_length|]. done. }
  destruct (oid_drain_ok (ie_wb ie) pl Hok) as (D1 & D2 & D3 & D4).
  set (pl1 := smoothfs_oid_wb_drain (ie_wb ie) pl) in *. 
  assert (oid_wb_ready pl1 = false -> pl1 = pl) as Hnr.
  { intros Hr. unfold pl1, smoothfs_oid_wb_drain. rewrite D3 in Hr. by rewrite Hr. }
  clearbody pl1. destruct (D4 (p_dentry p)) as [l1 Hl1]; [by rewrite Hl|]. rewrite Hl1. cbn [default].
  change (id l1) with l1.
  rewrite read_oid_calm by (intros o; by apply (po_nodes pl1 D1 _ _ _ Hl1)).
  destruct (l_oid l1) as [o|] eqn:Eo1; [eexists _, _, _; split; [reflexivity|]; split_and!; try done; by eapply (po_nodes pl1 D1)|]. rewrite Z.eqb_refl.
  destruct (smoothfs_alloc_oid _ _ _ _) as [sbi o] eqn:Ea.
  assert (length o = SMOOTHFS_OID_LEN) as Hlen by (injection Ea as _ <-; apply length_oid_bytes).
  injection Ea as <- _. unfold smoothfs_oid_wb_queue. cbn [oid_wb_ready p_sbi set_field].
  destruct (oid_wb_ready pl1) eqn:Er; cbn [negb].
  - rewrite Q2. cbn [negb Z.eqb]. eexists _, _, _. split; [done|]. split_and!; [done| |done|done].
    destruct D1 as [P1 P2 P3 P4]. constructor; try done. cbn. apply Forall_app. split; [done|]. by constructor.
  - cbn. rewrite Hl1. unfold smoothfs_write_oid_xattr. rewrite Q1, Eo1. cbn.
    eexists _, _, _. split; [done|].
    assert (forall d, is_Some (lower (p_sbi pl1) !! d) ->
      is_Some (<[p_dentry p := l1 <| l_oid := Some o |>]> (lower (p_sbi pl1)) !! d)) as Hm.
    { intros d Hd. destruct (decide (d = p_dentry p)) as [->|];
        [rewrite lookup_insert_eq; by eexists|by rewrite lookup_insert_ne]. }
    split_and!; [done| |done|intros d Hd; by apply Hm, D4].
    eapply (pool_ok_lower pl1); [done|done|exact Hm| |done].
    intros d l0 o0 Hd H0. cbn in Hd. apply lookup_insert_Some in Hd as [[<- <-]|[_ Hd]];
      [by injection H0 as <-|by eapply (po_nodes pl1)].
Qed.

Lemma pool_ok_put pl si :
  pool_ok pl -> length (oid si) = SMOOTHFS_OID_LEN -> (exists p, lower_path si = Some p /\ is_Some (lower (p_sbi pl) !! p_dentry p)) ->
  pool_ok (pl <| p_sbi := put_inode (p_sbi pl) si |>).
Proof.
  intros [P1 P2 P3 P4] Ho Hb. constructor; try done.
  - intros ino s Hs. cbn in Hs. apply lookup_insert_Some in Hs as [[<- <-]|[_ Hs]]; [done|by apply P3].
  - intros ino s Hs. cbn in Hs. apply lookup_insert_Some in Hs as [[<- <-]|[_ Hs]]; [done|by eapply P4].
Qed.

(** [pool_ok] reads four members of the pool. *)
Lemma pool_ok_frame pl pl' :
  inodes (p_sbi pl') = inodes (p_sbi pl) -> lower (p_sbi pl') = lower (p_sbi pl) ->
  oid_wb_pending pl' = oid_wb_pending pl -> pool_ok pl -> pool_ok pl'.
Proof.
  intros E1 E2 E3 Hok. apply (pool_ok_lower pl); [done|done|by rewrite E2|rewrite E2; apply Hok|done].
Qed.

Lemma iget_locked_calm ie p l o g t ino pl : calm_iget ie -> pool_ok pl -> length o = SMOOTHFS_OID_LEN ->
  is_Some (lower (p_sbi pl) !! p_dentry p) ->
  exists pl', iget_locked ie false p l o g t ino pl = (pl', Ok ino) /\ pool_ok pl'
  /\ is_Some (inodes (p_sbi pl') !! ino)
  /\ lower (p_sbi pl') = lower (p_sbi pl).
Proof.
  intros [_ _ _ _ M O] Hok Ho Hl. unfold iget_locked. rewrite M. cbn [negb].
  destruct (inodes (p_sbi pl) !! ino) as [si|] eqn:Ei; [by exists pl|].
  unfold iget_new, smoothfs_oid_map_insert. rewrite O. cbv zeta.
  set (si := smoothfs_copy_attrs _ _). set (sbi1 := p_sbi pl <| inode_list := _ |>).
  assert (forall s2, inodes s2 = inodes (p_sbi pl) -> lower s2 = lower (p_sbi pl) ->
    let s3 := put_inode s2 si in
    let s4 := if negb false && (t <? SMOOTHFS_MAX_TIERS)
              then snd (smoothfs_lower_ino_map_insert (ie_lower_insert ie) s3 t (l_ino l) ino) else s3 in
    pool_ok (pl <| p_sbi := s4 |>) /\ is_Some (inodes s4 !! ino) /\ lower s4 = lower (p_sbi pl)) as Hfin.
  { intros s2 E1 E2 s3 s4.
    assert (inodes s4 = inodes s3 /\ lower s4 = lower s3) as [F1 F2].
    { unfold s4, smoothfs_lower_ino_map_insert. repeat case_goal; done. }
    assert (inodes s3 = <[ino := si]> (inodes (p_sbi pl))) as E3 by (unfold s3; cbn; by rewrite E1).
    split_and!; [|rewrite F1, E3, lookup_insert_eq; by eexists|by rewrite F2].
    eapply (pool_ok_frame (pl <| p_sbi := put_inode (p_sbi pl) si |>)); [cbn; by rewrite F1, E3|cbn; by rewrite F2|done|].
    apply pool_ok_put; [done|done|]. by exists p. }
  destruct (bytes_eqb (oid si) zero_oid); cbn [Z.ltb Z.compare Z.eqb negb andb];
    [destruct (Hfin sbi1) as (H1 & H2 & H3)|
     destruct (Hfin (sbi1 <| oid_map := (oid si, i_ino si) :: oid_map sbi1 |>)) as (H1 & H2 & H3)]; try done;
    (eexists; split; [reflexivity|]; split_and!; [exact H1|exact H2|exact H3]).
Qed.

Lemma iget_calm ie p l pl : calm_iget ie -> pool_ok pl -> lower (p_sbi pl) !! p_dentry p = Some l ->
  exists ino pl', smoothfs_iget ie false false p l pl = (pl', Ok ino) /\ pool_ok pl'
  /\ is_Some (inodes (p_sbi pl') !! ino).
Proof.
  intros Hie Hok Hl. unfold smoothfs_iget. cbv zeta.
  assert (forall pl0, pool_ok pl0 -> lower (p_sbi pl0) !! p_dentry p = Some l -> forall t,
    exists ino pl', (match iget_identity ie false p l pl0 with
       | (pl1, Err err) => (pl1, Err err)
       | (pl1, Ok (o, g)) => iget_locked ie false p l o g t (smoothfs_inode_no_from_oid (ie_xxh64 ie) o) pl1
       end) = (pl', Ok ino) /\ pool_ok pl' /\ is_Some (inodes (p_sbi pl') !! ino)) as Hslow.
  { intros pl0 H0 L0 t. destruct (identity_calm ie p l pl0 Hie H0 L0) as (o & g & pl1 & -> & Ho & H1 & _ & D1).
    destruct (D1 (p_dentry p)) as [l1 L1]; [by rewrite L0|].
    destruct (iget_locked_calm ie p l o g t (smoothfs_inode_no_from_oid (ie_xxh64 ie) o) pl1 Hie H1 Ho)
      as (pl2 & -> & H2 & H3 & _); [by rewrite L1|]. by eexists _, pl2. }
  destruct (if _ =? 0 then _ else _) as [si|] eqn:Ehit; [|by apply Hslow].
  destruct (backing_matches si p).
  - eexists _, pl. split; [reflexivity|]. split; [done|]. case_hyp Ehit; [done|]. by rewrite Ehit.
  - match goal with |- context [smoothfs_lower_ino_map_remove ?a ?b ?c] =>
      destruct (lower_ino_remove_frame a b c) as (_&_&_&_&F5&_&F7&_) end.
    apply Hslow; [|cbn; by rewrite F7]. eapply pool_ok_frame; [cbn; exact F5|cbn; exact F7|done|done].
Qed.

(** ** The steps of a lookup *)

Section CalmWorld.
Context (e : ns_env) (Hc : calm e) (Hi : forall k, calm_iget (ne_iget e k)).

(** [m] succeeds and leaves a good pool and the same trees, with inode [ino]
    still cached. *)
Definition settles {A} (m : M A) (w : nworld) (ino : Z) : Prop :=
  exists a w', m w = (Ok a, w') /\ pool_ok (nw_pool w') /\ nw_fs w' = nw_fs w
  /\ is_Some (inodes (nw_sb w') !! ino).

Lemma iget_settles p w l : pool_ok (nw_pool w) -> lower (nw_sb w) !! p_dentry p = Some l ->
  exists ino w', iget e false p w = (Ok ino, w') /\ pool_ok (nw_pool w') /\ nw_fs w' = nw_fs w
  /\ is_Some (inodes (nw_sb w') !! ino).
Proof.
  intros Hok Hl. unfold iget. rewrite Hl.
  destruct (iget_calm (ne_iget e (nw_k w)) p l (nw_pool w) (Hi _) Hok Hl) as (ino & pl' & -> & H1 & H2).
  by eexists ino, _.
Qed.

Lemma replace_rel_path_frame fault sbi si q sbi' si' : replace_rel_path fault sbi si q = (sbi', si') ->
  inodes sbi' = inodes sbi /\ lower sbi' = lower sbi /\ i_ino si' = i_ino si /\ oid si' = oid si
  /\ lower_path si' = lower_path si /\ rel_path si' = q.
Proof.
  unfold replace_rel_path, smoothfs_path_map_del, smoothfs_path_map_add. intros H.
  destruct (path_hashed si), q as [q|], (path_map_ready sbi), (rel_path si), (fault <? 0); cbn in H;
    (injection H as <- <-; done) || (case_hyp H; injection H as <- <-; done).
Qed.

Lemma set_placement_settles ino rel t w : pool_ok (nw_pool w) -> is_Some (inodes (nw_sb w) !! ino) ->
  settles (smoothfs_set_inode_placement e ino rel t) w ino.
Proof.
  intros Hok [si Hsi]. unfold settles, smoothfs_set_inode_placement, mbind_ns.
  assert (exists k, match rel with Some _ => kalloc e | None => ok tt end w = (Ok tt, w <| nw_k := k |>)) as [k ->].
  { destruct rel; [rewrite kalloc_calm by done; by eexists|]. exists (nw_k w). by destruct w. }
  set (w1 := w <| nw_k := k |>). unfold ask, get_sb, get_inode, nw_sb in *. set (w2 := w1 <| nw_k := S (nw_k w1) |>).
  change (nw_pool w2) with (nw_pool w). rewrite Hsi.
  destruct (replace_rel_path _ _ _ _) as [sbi' si'] eqn:Er. apply replace_rel_path_frame in Er as (F1&F2&F3&F4&F5&_).
  pose proof (po_keyed _ Hok _ _ Hsi) as Hk.
  set (si2 := mark_placed t si').
  assert (i_ino si2 = ino) as Hk2 by (cbn; congruence).
  assert (oid si2 = oid si /\ lower_path si2 = lower_path si) as [E1 E2] by done.
  clearbody si2. exists tt, (w2 <| nw_pool := nw_pool w <| p_sbi := put_inode sbi' si2 |> |>).
  split; [reflexivity|]. split_and!; [|done|cbn; rewrite Hk2, lookup_insert_eq; by eexists].
  apply (pool_ok_frame (nw_pool w <| p_sbi := put_inode (p_sbi (nw_pool w)) si2 |>));
    [cbn; by rewrite F1|exact F2|done|].
  apply pool_ok_put; [done|..]; rewrite ?E1, ?E2; apply (po_backed _ Hok _ _ Hsi).
Qed.

Lemma ensure_oid_settles ino w : pool_ok (nw_pool w) -> is_Some (inodes (nw_sb w) !! ino) ->
  settles (smoothfs_ensure_oid_persisted e ino) w ino.
Proof.
  intros Hok [si Hsi]. destruct (po_backed _ Hok _ _ Hsi) as (Ho & p & Hp & l & Hl).
  unfold settles, smoothfs_ensure_oid_persisted, mbind_ns, get_inode, get_node, nw_sb in *. rewrite Hsi, Hp, Hl. cbn [ask].
  assert (forall a, 0 <= a -> smoothfs_read_oid_xattr a l = smoothfs_read_oid_xattr 0 l) as Hread.
  { intros a Ha. unfold smoothfs_read_oid_xattr, vfs_getxattr. by destruct (Z.ltb_spec a 0); [lia|]. }
  rewrite Hread by apply Hc. rewrite read_oid_calm by (intros o; by apply (po_nodes _ Hok _ _ _ Hl)).
  destruct (l_oid l) as [o|] eqn:Eo; [eexists tt, _; split; [reflexivity|]; split_and!; [done|done|exists si; exact Hsi]|].
  rewrite Z.eqb_refl. cbn [negb ask]. unfold smoothfs_write_oid_xattr.
  destruct (Z.ltb_spec (ne_ora e (nw_k (w <| nw_k := S (nw_k w) |>))) 0) as [Hlt|_];
    [specialize (Hc (nw_k (w <| nw_k := S (nw_k w) |>))); lia|].
  rewrite Eo. cbn. eexists tt, _. split; [reflexivity|]. split_and!; [|done|exists si; exact Hsi].
  eapply (pool_ok_lower (nw_pool w)); [done|done| | |done].
  - intros d Hd. cbn. destruct (decide (d = p_dentry p)) as [->|];
      [rewrite lookup_insert_eq; by eexists|by rewrite lookup_insert_ne].
  - intros d l0 o0 Hd H0. cbn in Hd. apply lookup_insert_Some in Hd as [[<- <-]|[_ Hd]];
      [by injection H0 as <-|by eapply (po_nodes _ Hok)].
Qed.

Lemma settles_bind {A B} (m : M A) (k : A -> M B) w ino :
  settles m w ino ->
  (forall a w', pool_ok (nw_pool w') -> is_Some (inodes (nw_sb w') !! ino) -> settles (k a) w' ino) ->
  settles (mbind_ns m k) w ino.
Proof.
  intros (a & w1 & E1 & P1 & F1 & I1) Hk. destruct (Hk a w1 P1 I1) as (b & w2 & E2 & P2 & F2 & I2).
  exists b, w2. unfold mbind_ns. rewrite E1. split_and!; [done|done|congruence|done].
Qed.

Lemma settles_ok {A} (a : A) w ino : pool_ok (nw_pool w) -> is_Some (inodes (nw_sb w) !! ino) -> settles (ok a) w ino.
Proof. intros. by exists a, w. Qed.

Lemma settles_get_inode w ino : pool_ok (nw_pool w) -> is_Some (inodes (nw_sb w) !! ino) -> settles (get_inode ino) w ino.
Proof. intros H [si Hs]. exists si, w. unfold get_inode. rewrite Hs. split_and!; try done. Qed.

Lemma track_settles ino rel t w : pool_ok (nw_pool w) -> is_Some (inodes (nw_sb w) !! ino) ->
  settles (smoothfs_track_placed e ino rel t false true) w ino.
Proof.
  intros Hok Hin. unfold smoothfs_track_placed. apply settles_bind; [by apply set_placement_settles|].
  intros _ w1 H1 I1. apply settles_bind; [|intros _ w2 H2 I2; by apply settles_ok].
  apply settles_bind; [by apply ensure_oid_settles|]. intros _ w2 H2 I2.
  apply settles_bind; [by apply settles_get_inode|]. intros si w3 H3 I3.
  unfold settles, mbind_ns, ask, get_sb, set_sb, on_sb. cbn [nw_k set_field].
  destruct (smoothfs_placement_record _ _ _ _ _ _ _ _) as [[err sbi] b] eqn:Er.
  apply record_frame in Er as (-> & F1 & F2 & _ & _). cbn [Z.eqb negb].
  eexists tt, _. split; [reflexivity|]. cbn. unfold nw_sb. cbn. rewrite F1. split_and!; [|done|done].
  eapply (pool_ok_frame (nw_pool w3)); [exact F1|exact F2|done|done].
Qed.

(** Joining a dentry to a cached inode cannot fail. *)
Lemma attach_calm d w ino : pool_ok (nw_pool w) -> is_Some (inodes (nw_sb w) !! ino) ->
  exists w', attach d ino w = (Ok (d <| d_inode := Some ino |>), w').
Proof. intros _ [si Hs]. unfold attach, update_inode, mbind_ns, get_inode. rewrite Hs. cbn. by eexists. Qed.

End CalmWorld.
