(* ===== verification/NsWorld.v ===== *)
(** * A small pool for concrete runs of the namespace operations

    Two tiers of one directory each, the root inode, and an environment in
    which nothing fails, with the first tier full on demand.  The later files
    evaluate the operations on it; here it shows two behaviours of rmdir and
    rename on a pool whose directories span tiers. *)
From S2P Require Import Prelude Types Oid Tiers KernelIO PlacementLog InodeMaps LowerFs Movement PathIndex Namespace Lookup.

Definition ns_iget_env : iget_env :=
  IgetEnv (fun o => le_combine o mod 2 ^ 60) true 0 0 0 0 0 (fun _ => 0) 0 true true 0 0 0.
Definition ns_statfs (full0 : bool) : statfs_fn := fun t =>
  if (t =? 0) && full0 then Ok (KStatfs 100 1 1 4096 10 5) else Ok (KStatfs 1000 900 900 4096 10 5).
Definition ns_env0 (full0 : bool) : ns_env :=
  NsEnv (fun _ => 0) (fun _ => ns_iget_env) (ns_statfs full0) false (fun k => 1000 + Z.of_nat k) 7.

Definition ns_root : inode_info :=
  smoothfs_alloc_inode 0 1 <| i_type := FT_DIR |> <| lower_path := Some (Path 10 1) |>.
Definition ns_pool : sb_info :=
  sb_zero <| ntiers := 2 |> <| tiers := [Tier 0 0 (Path 10 1) 0 0; Tier 1 0 (Path 20 2) 0 0] |>
    <| oid_map_ready := true |> <| path_map_ready := true |> <| lower_ino_map_ready := true |>
    <| inodes := {[1 := ns_root]} |> <| inode_list := [1] |> <| metadata_active_tier_mask := 3 |>
    <| lower := {[1 := LNode 500 FT_DIR 493 0 2 None None false; 2 := LNode 500 FT_DIR 493 0 2 None None false]} |>.
Definition ns_world : nworld :=
  NWorld (Pool ns_pool true []) (Lfs ∅ {[1 := 10; 2 := 20]} ∅ ∅ 100) 0.
Definition root_d : dentry := Dentry [] (Some 1) (Some (LDentry 1 EmptyString (Some 1))).
Definition neg (p : list string) : dentry := Dentry p None None.

(** The result of a run, and the world it leaves. *)
Definition value {A} (m : M A) (w : nworld) : option A := match fst (m w) with Ok a => Some a | Err _ => None end.

(** Directory d on the first tier; then, with that tier full, file d/f on the
    second. *)
Definition make_spilled : M (dentry * dentry) :=
  let! d := smoothfs_mkdir_inner (ns_env0 false) 1 (neg ["d"%string]) 493 in
  let! f := smoothfs_create_inner (ns_env0 true) (default 0 (d_inode d)) (neg ["d"%string; "f"%string]) 420 in
  ok (d, f).
Definition spilled_world : nworld := snd (make_spilled ns_world).

(** The inode of directory d in [spilled_world]. *)
Definition spilled_dir : Z := default 0 ((value make_spilled ns_world) ≫= (fun x => d_inode (fst x))).

(** A check of every entry of a finite map, by evaluation. *)
Definition all_entries `{Countable K} {A} (f : K -> A -> bool) (m : gmap K A) : bool :=
  forallb (fun x => f x.1 x.2) (map_to_list m).
Lemma all_entries_true `{Countable K} {A} (f : K -> A -> bool) (m : gmap K A) k a :
  all_entries f m = true -> m !! k = Some a -> f k a = true.
Proof.
  intros Hf Hk. unfold all_entries in Hf. rewrite forallb_forall in Hf.
  apply (Hf (k, a)). by apply list_elem_of_In, elem_of_map_to_list.
Qed.

Definition present (w : nworld) (d : Z) : bool := bool_decide (is_Some (lower (nw_sb w) !! d)).

Lemma spilled_pool_ok : pool_ok (nw_pool spilled_world).
Proof.
  constructor.
  - intros d l o Hl Ho.
    assert (match l_oid l with Some o => Nat.eqb (length o) SMOOTHFS_OID_LEN | None => true end = true) as H.
    { revert Hl. apply (all_entries_true (fun _ l => match l_oid l with Some o => _ | None => _ end)).
      by vm_compute. }
    rewrite Ho in H. by apply Nat.eqb_eq.
  - vm_compute. repeat constructor.
  - intros ino si Hi. apply Z.eqb_eq. revert Hi. apply (all_entries_true (fun ino si => i_ino si =? ino)). by vm_compute.
  - intros ino si Hi.
    assert (Nat.eqb (length (oid si)) SMOOTHFS_OID_LEN
            && match lower_path si with Some p => present spilled_world (p_dentry p) | None => false end = true) as H.
    { revert Hi. apply (all_entries_true (fun _ si => Nat.eqb (length (oid si)) _
        && match lower_path si with Some p => _ | None => _ end)). by vm_compute. }
    apply andb_true_iff in H as [H1%Nat.eqb_eq H2]. split; [done|]. destruct (lower_path si) as [p|]; [|done].
    exists p. split; [done|]. by apply bool_decide_eq_true in H2.
Qed.

(** A directory whose own lower directory is empty but which has a file on
    another tier can be removed: rmdir reports success, and the directory and
    its file are still there. *)
Example rmdir_of_a_directory_with_spilled_files :
  value (let! (d, f) := make_spilled in
         let! _ := smoothfs_rmdir_inner (ns_env0 false) 1 d in
         let! d2 := smoothfs_lookup_inner (ns_env0 false) 1 (neg ["d"%string]) in
         let! f2 := smoothfs_lookup_inner (ns_env0 false) (default 0 (d_inode d2)) (neg ["d"%string; "f"%string]) in
         ok (bool_decide (is_Some (d_inode d2)), bool_decide (is_Some (d_inode f2)))) ns_world
  = Some (true, true).
Proof. vm_compute. reflexivity. Qed.

(** Renaming directory a to b leaves the path of a cached file a/f in the path
    index: after a new directory a is made, looking up a/f finds the file that
    is now b/f. *)
Example lookup_finds_a_file_under_its_old_directory :
  value (let! a := smoothfs_mkdir_inner (ns_env0 false) 1 (neg ["a"%string]) 493 in
         let! f := smoothfs_create_inner (ns_env0 false) (default 0 (d_inode a)) (neg ["a"%string; "f"%string]) 420 in
         let! _ := smoothfs_rename_inner (ns_env0 false) 1 root_d a 1 root_d (neg ["b"%string])
                     (RenameFlags false false false) in
         let! a2 := smoothfs_mkdir_inner (ns_env0 false) 1 (neg ["a"%string]) 493 in
         let! f2 := smoothfs_lookup_inner (ns_env0 false) (default 0 (d_inode a2)) (neg ["a"%string; "f"%string]) in
         ok (bool_decide (is_Some (d_inode f2) /\ d_inode f2 = d_inode f))) ns_world
  = Some true.
Proof. vm_compute. reflexivity. Qed.
