(* ===== verification/Dir.v ===== *)
(** * Merged directories: src/src/smoothfs/dir.c

    Reading a directory lists the lower directory of its inode and then the
    directories at the same path on the other active tiers; a name that was
    already collected hides later ones.  The merged list is kept in the open
    file, and [f_pos] counts entries of it. *)
From S2P Require Import Prelude Types Oid Tiers KernelIO PlacementLog InodeMaps LowerFs Movement PathIndex Namespace Lookup NsWorld.

(** [struct smoothfs_dir_entry] and [struct smoothfs_dir_cache] *)
Record dir_entry := DirEntry { de_name : string; de_ino : Z; de_dtype : ftype }.
Record dir_cache := DirCache { dc_entries : list dir_entry; dc_cap : Z }.

Definition smoothfs_dir_cache_has (c : dir_cache) (name : string) : bool :=
  existsb (fun x => bool_decide (de_name x = name)) (dc_entries c).

(** An open directory: its inode and path, [private_data->dir_cache], and the
    file position. *)
Record dfile := DFile { df_fi : bool; df_dir : Z; df_comps : list string; df_cache : option dir_cache; df_pos : Z }.
#[export] Instance dfile_eta : Eta dfile := fun r =>
  DFile (df_fi r) (df_dir r) (df_comps r) (df_cache r) (df_pos r).

Definition is_dots (name : string) : bool :=
  bool_decide (name = "."%string) || bool_decide (name = ".."%string).

Section Dir.
Context (e : ns_env).

Definition smoothfs_dir_cache_add (c : dir_cache) (x : dir_entry) : M dir_cache :=
  if is_dots (de_name x) then ok c
  else if smoothfs_dir_cache_has c (de_name x) then ok c
  else
    let! cap :=
      (if Z.of_nat (length (dc_entries c)) =? dc_cap c
       then let! _ := kalloc e in ok (if dc_cap c =? 0 then 64 else dc_cap c * 2)
       else ok (dc_cap c)) in
    let! _ := kalloc e in
    ok (DirCache (dc_entries c ++ [x]) cap).

(** [iterate_dir] with [smoothfs_collect_actor]: stops at the first error. *)
Fixpoint collect_entries (c : dir_cache) (l : list dir_entry) : M dir_cache :=
  match l with
  | [] => ok c
  | x :: l => let! c := smoothfs_dir_cache_add c x in collect_entries c l
  end.

(** What a lower directory lists: the dots and its entries. *)
Definition lower_listing (w : nworld) (d : Z) : list dir_entry :=
  DirEntry "." d FT_DIR :: DirEntry ".." (ld_parent (dentry_of (nw_fs w) d)) FT_DIR ::
  map (fun x : string * Z =>
         let l := lower (nw_sb w) !! x.2 in
         DirEntry x.1 (match l with Some l => l_ino l | None => 0 end)
                  (match l with Some l => l_type l | None => FT_REG end))
      (dir_entries (nw_fs w) d).

Definition smoothfs_collect_one_dir (c : dir_cache) (p : path) : M dir_cache :=
  let! _ := fallible e in
  let! l := get_node (p_dentry p) in
  if negb (S_ISDIR (l_type l)) then fail (- ENOTDIR)
  else
    let! _ := fallible e in
    let! w := getw in
    collect_entries c (lower_listing w (p_dentry p)).

(** The tiers other than the canonical one. *)
Fixpoint collect_tiers (canonical : Z) (rel : string) (ts : list Z) (c : dir_cache) : M dir_cache :=
  match ts with
  | [] => ok c
  | t :: ts =>
      if t =? canonical then collect_tiers canonical rel ts c
      else
        let! sbi := get_sb in
        if negb (smoothfs_metadata_tier_active sbi t) then
          let! _ := on_sb smoothfs_note_metadata_tier_skip in collect_tiers canonical rel ts c
        else
          let! r := attempt (smoothfs_resolve_rel_path_on_tier e t rel) in
          match r with
          | Err err =>
              if (err =? - ENOENT) || (err =? - ENOTDIR) then collect_tiers canonical rel ts c
              else fail err
          | Ok (p, _) =>
              let! l := get_node (p_dentry p) in
              let! c := (if S_ISDIR (l_type l) then smoothfs_collect_one_dir c p else ok c) in
              collect_tiers canonical rel ts c
          end
  end.

Definition smoothfs_build_dir_cache_inner (dir : Z) (comps : list string) : M dir_cache :=
  let! _ := kalloc e in
  let! rel := smoothfs_rel_path_from_dentry e comps in
  match rel with
  | None => fail (- ENOMEM)
  | Some rel =>
      let! si := get_inode dir in
      let! sbi := get_sb in
      let canonical := if ntiers sbi <=? current_tier si then fastest_tier sbi else current_tier si in
      match lower_path si with
      | None => fail (- ESTALE)
      | Some p =>
          let! c := smoothfs_collect_one_dir (DirCache [] 0) p in
          collect_tiers canonical rel (if cache_mode sbi then [] else tiers_from 0 (ntiers sbi)) c
      end
  end.

(** [dir_emit] into a buffer that takes [room] more entries. *)
Definition emit_dots (pos : Z) (room : nat) : list string * Z * nat * bool :=
  let '(out, pos, room, full) :=
    if pos =? 0 then match room with O => ([], pos, room, true) | S r => (["."%string], 1, r, false) end
    else ([], pos, room, false) in
  if full then (out, pos, room, false)
  else if pos =? 1 then match room with
                        | O => (out, pos, room, false)
                        | S r => (out ++ [".."%string], 2, r, true)
                        end
  else (out, pos, room, true).

(** One call: the names emitted and the file afterwards. *)
Definition smoothfs_iterate_shared (f : dfile) (room : nat) : M (list string * dfile) :=
  if negb (df_fi f) then fail (- EBADF)
  else
    let '(dots, pos, room, go) := emit_dots (df_pos f) room in
    if negb go then ok (dots, f <| df_pos := pos |>)
    else
      let! c := (match df_cache f with
                 | Some c => ok c
                 | None => smoothfs_build_dir_cache_inner (df_dir f) (df_comps f)
                 end) in
      let out := take room (drop (Z.to_nat (pos - 2)) (map de_name (dc_entries c))) in
      ok (dots ++ out, f <| df_cache := Some c |> <| df_pos := pos + Z.of_nat (length out) |>).

(** [generic_file_llseek] returned [ret]: the new position or an error. *)
Definition smoothfs_dir_llseek (f : dfile) (ret : Z) : Z * dfile :=
  let f := if ret <? 0 then f else f <| df_pos := ret |> in
  (ret, if ret =? 0 then f <| df_cache := None |> else f).

End Dir.

(** ** What the merged list is *)

(** Reference merge: keep the first entry of each name, drop the dots. *)
Definition merge_one (acc : list dir_entry) (x : dir_entry) : list dir_entry :=
  if is_dots (de_name x) || bool_decide (de_name x ∈ de_name <$> acc) then acc else acc ++ [x].
Definition merged (acc l : list dir_entry) : list dir_entry := foldl merge_one acc l.

(** What tier [t] contributes to the directory at [rel]. *)
Definition tier_listing (w : nworld) (rel : string) (t : Z) : list dir_entry :=
  if negb (smoothfs_metadata_tier_active (nw_sb w) t) then []
  else match resolved w t rel with
       | Ok (p, _) =>
           match lower (nw_sb w) !! p_dentry p with
           | Some l => if S_ISDIR (l_type l) then lower_listing w (p_dentry p) else []
           | None => []
           end
       | Err _ => []
       end.

(** Reading changes nothing but the call counter and a statistic. *)
Definition looks (w w' : nworld) : Prop :=
  nw_fs w' = nw_fs w
  /\ exists n, nw_pool w' = nw_pool w <| p_sbi := nw_sb w <| metadata_tier_skips := n |> |>.

Lemma looks_ticked w w' : ticked w w' -> looks w w'.
Proof. intros [k ->]. split; [done|]. exists (metadata_tier_skips (nw_sb w)). destruct w as [[s ? ?] ? ?]. by destruct s. Qed.
Lemma looks_trans w1 w2 w3 : looks w1 w2 -> looks w2 w3 -> looks w1 w3.
Proof.
  intros [F1 [n1 P1]] [F2 [n2 P2]]. split; [congruence|]. exists n2. rewrite P2. unfold nw_sb. by rewrite P1.
Qed.
Lemma looks_refl w : looks w w.
Proof. apply looks_ticked, ticked_refl. Qed.

Lemma looks_resolved w w' t rel : looks w w' -> resolved w' t rel = resolved w t rel.
Proof. intros [F [n P]]. unfold resolved, nw_sb in *. rewrite F, P. done. Qed.
Lemma looks_listing w w' d : looks w w' -> lower_listing w' d = lower_listing w d.
Proof. intros [F [n P]]. unfold lower_listing, nw_sb in *. rewrite F, P. done. Qed.
Lemma looks_tier_listing w w' rel t : looks w w' -> tier_listing w' rel t = tier_listing w rel t.
Proof.
  intros H. unfold tier_listing. rewrite (looks_resolved w w') by done.
  destruct H as [F [n P]]. unfold nw_sb in *. rewrite P. cbn. destruct (negb _); [done|].
  destruct (resolved w t rel) as [?|[p ?]]; [done|]. destruct (lower _ !! _); [|done].
  case_goal; [|done]. apply looks_listing. split; [done|by exists n].
Qed.

Section DirProps.
Context (e : ns_env).

Lemma cache_has_spec c n : smoothfs_dir_cache_has c n = bool_decide (n ∈ de_name <$> dc_entries c).
Proof.
  unfold smoothfs_dir_cache_has. symmetry. destruct (existsb _ _) eqn:E.
  - apply bool_decide_eq_true. apply existsb_exists in E as (x & Hx & Hn).
    apply bool_decide_eq_true in Hn as <-. apply list_elem_of_fmap_2. by apply list_elem_of_In.
  - apply bool_decide_eq_false. intros (x & -> & Hx)%list_elem_of_fmap.
    assert (existsb (fun y => bool_decide (de_name y = de_name x)) (dc_entries c) = true) as H; [|congruence].
    apply existsb_exists. exists x. split; [by apply list_elem_of_In|by apply bool_decide_eq_true].
Qed.

Lemma cache_add_spec c x w c' w' : smoothfs_dir_cache_add e c x w = (Ok c', w') ->
  ticked w w' /\ dc_entries c' = merge_one (dc_entries c) x.
Proof.
  unfold smoothfs_dir_cache_add, merge_one. rewrite cache_has_spec. intros H.
  destruct (is_dots (de_name x)); cbn [orb]; [run_ok H; split; [apply ticked_refl|done]|].
  destruct (bool_decide (de_name x ∈ _)); [run_ok H; split; [apply ticked_refl|done]|].
  run_ok H. cbn. split; [|done]. eapply ticked_trans; [|by eapply kalloc_ticks].
  destruct (_ =? _); run_ok Hs; [by eapply kalloc_ticks|apply ticked_refl].
Qed.

Lemma collect_entries_spec l : forall c w c' w', collect_entries e c l w = (Ok c', w') ->
  ticked w w' /\ dc_entries c' = merged (dc_entries c) l.
Proof.
  induction l as [|x l IH]; cbn [collect_entries merged foldl]; intros c w c' w' H; run_ok H.
  - split; [apply ticked_refl|done].
  - apply cache_add_spec in Hs as [T1 E1]. apply IH in H as [T2 E2]. split; [by eapply ticked_trans|].
    unfold merged in E2. by rewrite E2, E1.
Qed.

Lemma get_node_ok d w l w' : get_node d w = (Ok l, w') -> w' = w /\ lower (nw_sb w) !! d = Some l.
Proof. unfold get_node. destruct (lower _ !! d); intros [= <- <-]; done. Qed.

Lemma get_inode_ok i w si w' : get_inode i w = (Ok si, w') -> w' = w /\ inodes (nw_sb w) !! i = Some si.
Proof. unfold get_inode. destruct (inodes _ !! i); intros [= <- <-]; done. Qed.

Lemma collect_one_spec c p w c' w' : smoothfs_collect_one_dir e c p w = (Ok c', w') ->
  ticked w w' /\ dc_entries c' = merged (dc_entries c) (lower_listing w (p_dentry p))
  /\ exists l, lower (nw_sb w) !! p_dentry p = Some l /\ S_ISDIR (l_type l) = true.
Proof.
  unfold smoothfs_collect_one_dir. intros H. apply bind_ok in H as (? & w1 & H1 & H). apply fallible_ticks in H1.
  apply bind_ok in H as (l & w2 & H2 & H). apply get_node_ok in H2 as [-> H2].
  destruct (S_ISDIR (l_type l)) eqn:Ed; cbn [negb] in H; [|discriminate H].
  apply bind_ok in H as (? & w3 & H3 & H). apply fallible_ticks in H3.
  pose proof (ticked_trans _ _ _ H1 H3) as H13.
  apply bind_ok in H as (? & ? & [= <- <-] & H). apply collect_entries_spec in H as [T E].
  rewrite (looks_listing w w3) in E by by apply looks_ticked. destruct H1 as [k ->].
  split_and!; [by eapply ticked_trans|done|by exists l].
Qed.

(** Faults other than the absence of the directory. *)
Definition honest (e : ns_env) : Prop := forall k, ne_ora e k <> - ENOENT /\ ne_ora e k <> - ENOTDIR.

Lemma collect_tiers_spec canonical rel : honest e -> forall ts c w c' w',
  collect_tiers e canonical rel ts c w = (Ok c', w') ->
  looks w w'
  /\ dc_entries c' = merged (dc_entries c)
       (concat (map (tier_listing w rel) (filter (fun t => t <> canonical) ts))).
Proof.
  intros Hh. induction ts as [|t ts IH]; cbn [collect_tiers]; intros c w c' w' H.
  { run_ok H. split; [apply looks_refl|done]. }
  destruct (Z.eqb_spec t canonical) as [->|Hne]; [rewrite filter_cons_False by tauto; by apply IH|].
  rewrite filter_cons_True by done. cbn [map concat]. unfold merged. rewrite foldl_app. fold (merged).
  assert (forall w1 c1, looks w w1 -> dc_entries c1 = foldl merge_one (dc_entries c) (tier_listing w rel t) ->
    collect_tiers e canonical rel ts c1 w1 = (Ok c', w') ->
    looks w w' /\ dc_entries c' = foldl merge_one (foldl merge_one (dc_entries c) (tier_listing w rel t))
      (concat (map (tier_listing w rel) (filter (fun t => t <> canonical) ts)))) as Hgo.
  { intros w1 c1 L1 E1 H1. apply IH in H1 as [L2 E2]. split; [by eapply looks_trans|].
    rewrite E2. unfold merged. rewrite E1. do 2 f_equal. apply map_ext. intros. by apply looks_tier_listing. }
  apply bind_ok in H as (sbi & w1 & [= <- <-] & H). pose proof (eq_refl (tier_listing w rel t)) as Hl. unfold tier_listing in Hl at 2.
  destruct (smoothfs_metadata_tier_active (nw_sb w) t) eqn:Ea; cbn [negb] in H, Hl.
  2:{ apply bind_ok in H as (? & w1 & [= <- <-] & H). eapply Hgo; [|by rewrite Hl|exact H].
      split; [done|]. by eexists. }
  apply bind_ok in H as (r & w1 & Hr & H). unfold attempt in Hr.
  destruct (smoothfs_resolve_rel_path_on_tier e t rel w) as [r' w1'] eqn:Er. injection Hr as <- <-.
  apply tier_resolve_spec in Er as [Ht Hr]. pose proof (looks_ticked _ _ Ht) as L1.
  destruct r' as [err|[p ld]].
  - destruct ((err =? - ENOENT) || (err =? - ENOTDIR)) eqn:Ee; [|discriminate H].
    destruct Hr as [Hr|(k & [= ->] & _)]; [rewrite <- Hr in Hl; eapply Hgo; [exact L1|by rewrite Hl|exact H]|].
    destruct (Hh k). apply orb_true_iff in Ee as [E|E]; to_prop; done.
  - destruct Hr as [Hr|(k & [=] & _)]. rewrite <- Hr in Hl.
    apply bind_ok in H as (l & w2 & H2 & H). apply get_node_ok in H2 as [-> H2].
    destruct Ht as [k ->]. change (nw_sb (w <| nw_k := k |>)) with (nw_sb w) in H2. rewrite H2 in Hl.
    apply bind_ok in H as (c1 & w2 & H1 & H).
    destruct (S_ISDIR (l_type l)).
    + apply collect_one_spec in H1 as (T1 & E1 & _). eapply Hgo; [|by rewrite Hl|exact H].
      eapply looks_trans; [exact L1|by apply looks_ticked].
    + injection H1 as <- <-. eapply Hgo; [exact L1|by rewrite Hl|exact H].
Qed.

End DirProps.

Lemma merged_snoc acc l x : merged acc (l ++ [x]) = merge_one (merged acc l) x.
Proof. unfold merged. by rewrite foldl_app. Qed.

Lemma merged_names l n :
  n ∈ de_name <$> merged [] l <-> is_dots n = false /\ n ∈ de_name <$> l.
Proof.
  revert n. induction l as [|x l IH] using rev_ind; intros n.
  { cbn. split; [by intros ?%elem_of_nil|by intros [_ ?%elem_of_nil]]. }
  rewrite merged_snoc, fmap_app, elem_of_app. cbn [fmap list_fmap]. rewrite list_elem_of_singleton. unfold merge_one.
  destruct (is_dots (de_name x)) eqn:Ed; cbn [orb].
  { rewrite IH. split; [tauto|]. intros [H1 [H2| ->]]; [tauto|congruence]. }
  case_bool_decide as Hin.
  - rewrite IH. apply IH in Hin as [_ Hin]. split; [tauto|]. intros [H1 [H2| ->]]; tauto.
  - rewrite fmap_app, elem_of_app, IH. cbn [fmap list_fmap]. rewrite list_elem_of_singleton.
    split; [|tauto]. intros [H| ->]; tauto.
Qed.

Lemma merged_first l x :
  x ∈ merged [] l <-> exists l1 l2, l = l1 ++ x :: l2 /\ is_dots (de_name x) = false /\ de_name x ∉ de_name <$> l1.
Proof.
  induction l as [|y l IH] using rev_ind.
  { cbn. split; [by intros ?%elem_of_nil|]. intros ([|? ?] & ? & [=] & _). }
  assert ((exists l1 l2, l ++ [y] = l1 ++ x :: l2 /\ is_dots (de_name x) = false /\ de_name x ∉ de_name <$> l1)
    <-> (exists l1 l2, l = l1 ++ x :: l2 /\ is_dots (de_name x) = false /\ de_name x ∉ de_name <$> l1)
        \/ (y = x /\ is_dots (de_name x) = false /\ de_name x ∉ de_name <$> l)) as ->.
  { split.
    - intros (l1 & l2 & Heq & H). destruct l2 as [|z l2 _] using rev_ind.
      + apply app_inj_tail in Heq as [-> ->]. by right.
      + rewrite app_comm_cons, app_assoc in Heq. apply app_inj_tail in Heq as [-> _]. left. by exists l1, l2.
    - intros [(l1 & l2 & -> & H)|(-> & H)]; [exists l1, (l2 ++ [y])|exists l, []]; (split; [|done]); [|done].
      by rewrite <- app_assoc. }
  rewrite merged_snoc. unfold merge_one. destruct (is_dots (de_name y)) eqn:Ed; cbn [orb].
  { rewrite IH. split; [by left|]. intros [H|(-> & ? & _)]; [done|congruence]. }
  case_bool_decide as Hin.
  - rewrite IH. split; [by left|]. intros [H|(-> & _ & Hn)]; [done|]. apply merged_names in Hin as [_ Hin]. done.
  - rewrite elem_of_app, IH, list_elem_of_singleton. rewrite merged_names in Hin.
    split; (intros [H|H]; [by left|right]); [subst; tauto|destruct H as (-> & _); done].
Qed.

Lemma merged_NoDup l : NoDup (de_name <$> merged [] l).
Proof.
  induction l as [|x l IH] using rev_ind; [constructor|]. rewrite merged_snoc. unfold merge_one.
  destruct (is_dots _ || _) eqn:E; [done|]. apply orb_false_iff in E as [_ E%bool_decide_eq_false].
  rewrite fmap_app. apply NoDup_app. split_and!; [done| |apply NoDup_singleton].
  intros n Hn. cbn [fmap list_fmap]. by intros ->%list_elem_of_singleton.
Qed.

(** Everything a directory lists before merging: its own lower directory, then
    the other tiers in rank order. *)
Definition raw_listing (w : nworld) (si : inode_info) (p : path) (comps : list string) : list dir_entry :=
  let sbi := nw_sb w in
  let canonical := if ntiers sbi <=? current_tier si then fastest_tier sbi else current_tier si in
  lower_listing w (p_dentry p) ++
  (if cache_mode sbi then []
   else concat (map (tier_listing w (join_path comps))
                    (filter (fun t => t <> canonical) (tiers_from 0 (ntiers sbi))))).

Lemma rel_path_ok e comps w rel w' : smoothfs_rel_path_from_dentry e comps w = (Ok (Some rel), w') ->
  rel = join_path comps /\ ticked w w'.
Proof.
  unfold smoothfs_rel_path_from_dentry. intros H. run_ok H. apply ask_ticks in Hs as [_ T1].
  case_hyp H; [discriminate|]. case_hyp H; [discriminate|]. run_ok H.
  apply ask_ticks in Hs as [_ T2]. unfold ok in H. destruct (a0 <? 0); [discriminate|]. injection H as <- <-.
  split; [done|by eapply ticked_trans].
Qed.

Lemma build_spec e dir comps w c w' : honest e ->
  smoothfs_build_dir_cache_inner e dir comps w = (Ok c, w') ->
  looks w w' /\ exists si p l, inodes (nw_sb w) !! dir = Some si /\ lower_path si = Some p
  /\ lower (nw_sb w) !! p_dentry p = Some l /\ S_ISDIR (l_type l) = true
  /\ dc_entries c = merged [] (raw_listing w si p comps).
Proof.
  intros Hh H. unfold smoothfs_build_dir_cache_inner in H.
  apply bind_ok in H as (? & w1 & H1 & H). apply kalloc_ticks in H1.
  apply bind_ok in H as ([rel|] & w2 & H2 & H); [|discriminate H]. apply rel_path_ok in H2 as [-> H2].
  pose proof (ticked_trans _ _ _ H1 H2) as [k ->]. clear H1 H2 w1.
  apply bind_ok in H as (si & ? & Hsi & H). apply get_inode_ok in Hsi as [-> Hsi].
  change (nw_sb (w <| nw_k := k |>)) with (nw_sb w) in Hsi.
  apply bind_ok in H as (? & ? & [= <- <-] & H).
  change (nw_sb (w <| nw_k := k |>)) with (nw_sb w) in H.
  destruct (lower_path si) as [p|] eqn:Ep; [|discriminate H].
  apply bind_ok in H as (c0 & w3 & H1 & H). apply collect_one_spec in H1 as (T1 & E1 & l & Hl & Hd).
  assert (looks w w3) as L3 by (eapply (looks_trans w (w <| nw_k := k |>)); apply looks_ticked; [by exists k|done]).
  apply (collect_tiers_spec e _ _ Hh) in H as [L2 E2].
  split; [by eapply looks_trans|]. exists si, p, l. split_and!; try done.
  rewrite E2. unfold merged, raw_listing. rewrite E1, foldl_app.
  change (lower_listing (w <| nw_k := k |>) (p_dentry p)) with (lower_listing w (p_dentry p)). f_equal.
  change (nw_sb {| nw_pool := nw_pool w; nw_fs := nw_fs w; nw_k := k |}) with (nw_sb w). destruct (cache_mode (nw_sb w)); [done|]. f_equal. apply map_ext. intros. by apply looks_tier_listing.
Qed.

(** C13. Building the listing of a directory, when it succeeds, changes nothing
    but a statistic and yields exactly the reference merge: no name twice, and
    every name but the dots that one of the listed directories holds, each with
    the entry of the first directory that has it. The listed directories are the
    inode's own lower directory and then, outside cache mode, in rank order, the
    directories at the same path on the active tiers other than the tier
    recorded in the inode (the fastest one if that is no tier of the pool); in
    cache mode there are no others. Kernel faults are assumed not to be -ENOENT
    or -ENOTDIR, which the code takes for an absent directory. *)
Theorem readdir_merges_the_tiers e dir comps w c w' : honest e ->
  smoothfs_build_dir_cache_inner e dir comps w = (Ok c, w') ->
  looks w w' /\ exists si p, inodes (nw_sb w) !! dir = Some si /\ lower_path si = Some p
  /\ NoDup (de_name <$> dc_entries c)
  /\ (forall n, n ∈ de_name <$> dc_entries c
        <-> is_dots n = false /\ n ∈ de_name <$> raw_listing w si p comps)
  /\ (forall x, x ∈ dc_entries c <-> exists l1 l2, raw_listing w si p comps = l1 ++ x :: l2
        /\ is_dots (de_name x) = false /\ de_name x ∉ de_name <$> l1).
Proof.
  intros Hh H. apply (build_spec e dir comps w c w' Hh) in H as (L & si & p & l & Hi & Hp & _ & _ & ->).
  split; [done|]. exists si, p. split_and!; [done|done|apply merged_NoDup|apply merged_names|apply merged_first].
Qed.

(** ** Reading in pieces *)

(** Successive calls with buffers of the given sizes. *)
Fixpoint read_calls (e : ns_env) (f : dfile) (rooms : list nat) : M (list string * dfile) :=
  match rooms with
  | [] => ok ([], f)
  | r :: rooms =>
      let! (out, f) := smoothfs_iterate_shared e f r in
      let! (out', f) := read_calls e f rooms in
      ok (out ++ out', f)
  end.

Definition with_dots (c : dir_cache) : list string := "."%string :: ".."%string :: map de_name (dc_entries c).

Lemma emit_dots_spec pos room dots pos' room' go rest :
  0 <= pos -> emit_dots pos room = (dots, pos', room', go) ->
  pos' = pos + Z.of_nat (length dots) /\ (room = length dots + room')%nat
  /\ dots = take (length dots) (drop (Z.to_nat pos) ("."%string :: ".."%string :: rest))
  /\ (if go then 2 <= pos' else room' = 0%nat /\ pos' < 2).
Proof.
  intros Hp. unfold emit_dots. destruct (Z.eqb_spec pos 0) as [->|].
  - destruct room as [|[|r]]; cbn; intros [= <- <- <- <-]; cbn; split_and!; done || lia.
  - destruct (Z.eqb_spec pos 1) as [->|].
    + destruct room as [|r]; cbn; intros [= <- <- <- <-]; cbn; split_and!; done || lia.
    + intros [= <- <- <- <-]; cbn; split_and!; done || lia.
Qed.

Lemma iterate_spec e f room w out f' w' :
  0 <= df_pos f -> smoothfs_iterate_shared e f room w = (Ok (out, f'), w') ->
  df_fi f' = true /\ df_pos f' = df_pos f + Z.of_nat (length out)
  /\ (forall c, df_cache f = Some c -> df_cache f' = Some c)
  /\ forall c, df_cache f' = Some c \/ df_cache f' = None ->
     out = take room (drop (Z.to_nat (df_pos f)) (with_dots c)).
Proof.
  intros Hp. unfold smoothfs_iterate_shared. destruct (df_fi f) eqn:Efi; cbn [negb]; [|discriminate].
  destruct (emit_dots (df_pos f) room) as [[[dots pos'] room'] go] eqn:Ed.
  destruct go; cbn [negb].
  - intros H. apply bind_ok in H as (c & w1 & Hc & H). unfold ok in H. injection H as <- <- _.
    set (out2 := take room' _). cbn.
    assert (forall rest, pos' = df_pos f + Z.of_nat (length dots) /\ (room = length dots + room')%nat
      /\ dots = take (length dots) (drop (Z.to_nat (df_pos f)) ("."%string :: ".."%string :: rest)) /\ 2 <= pos') as Hd
      by (intros rest; exact (emit_dots_spec _ _ _ _ _ _ rest Hp Ed)).
    destruct (Hd []) as (D1 & D2 & _ & D4). split_and!; [done|rewrite length_app; lia| |].
    + intros c0 E0. rewrite E0 in Hc. injection Hc as -> _. done.
    + intros c0 [[= <-]|[=]]. destruct (Hd (map de_name (dc_entries c))) as (_ & _ & D3 & _).
      rewrite D2. rewrite <- take_take_drop. fold (with_dots c) in D3. rewrite <- D3. f_equal.
      unfold out2. rewrite drop_drop. f_equal.
      replace (Z.to_nat (df_pos f) + length dots)%nat with (S (S (Z.to_nat (pos' - 2)))) by lia. done.
  - intros [= <- <- _]. cbn.
    assert (forall rest, pos' = df_pos f + Z.of_nat (length dots) /\ (room = length dots + room')%nat
      /\ dots = take (length dots) (drop (Z.to_nat (df_pos f)) ("."%string :: ".."%string :: rest))
      /\ room' = 0%nat /\ pos' < 2) as Hd
      by (intros rest; exact (emit_dots_spec _ _ _ _ _ _ rest Hp Ed)).
    destruct (Hd []) as (D1 & D2 & _ & D4 & D5). split_and!; [done|lia|done|].
    intros c _. destruct (Hd (map de_name (dc_entries c))) as (_ & _ & D3 & _). rewrite D2, D4, Nat.add_0_r. done.
Qed.

Lemma drop_take_length {A} n (l : list A) : drop (length (take n l)) l = drop n l.
Proof.
  rewrite length_take. destruct (Nat.le_ge_cases n (length l)); [by rewrite Nat.min_l|].
  rewrite Nat.min_r by done. by rewrite !drop_ge.
Qed.

(** The cache, once built, stays for the rest of the calls. *)
Lemma read_calls_cache e rooms : forall f w out f' w' c,
  0 <= df_pos f -> read_calls e f rooms w = (Ok (out, f'), w') -> df_cache f' = Some c ->
  df_cache f = Some c \/ df_cache f = None.
Proof.
  induction rooms as [|r rooms IH]; cbn [read_calls]; intros f w out f' w' c Hp H Hc.
  { unfold ok in H. injection H as _ <- _. by left. }
  apply bind_ok in H as ([o1 f1] & w1 & H1 & H). apply bind_ok in H as ([o2 f2] & w2 & H2 & H).
  unfold ok in H. injection H as _ <- _.
  apply (iterate_spec e f r w o1 f1 w1 Hp) in H1 as (_ & P1 & K1 & _).
  destruct (df_cache f) as [c0|] eqn:E0; [|by right]. left. specialize (K1 c0 eq_refl).
  assert (0 <= df_pos f1) as Hp1 by lia.
  destruct (IH f1 w1 o2 f2 w2 c Hp1 H2 Hc); congruence.
Qed.

(** Reading an open directory in any number of calls with buffers of any sizes,
    from any position, returns the same entries, once each and in the same
    order, as one call with the summed room; the file position counts them. *)
Theorem reading_in_pieces_is_reading_once e rooms : forall f w out f' w' c,
  0 <= df_pos f -> read_calls e f rooms w = (Ok (out, f'), w') -> df_cache f' = Some c ->
  out = take (sum_list rooms) (drop (Z.to_nat (df_pos f)) (with_dots c))
  /\ df_pos f' = df_pos f + Z.of_nat (length out).
Proof.
  induction rooms as [|r rooms IH]; cbn [read_calls sum_list]; intros f w out f' w' c Hp H Hc.
  { unfold ok in H. injection H as <- <- _. cbn. split; [done|lia]. }
  apply bind_ok in H as ([o1 f1] & w1 & H1 & H). apply bind_ok in H as ([o2 f2] & w2 & H2 & H).
  unfold ok in H. injection H as <- <- _.
  apply (iterate_spec e f r w o1 f1 w1 Hp) in H1 as (_ & P1 & _ & O1).
  assert (0 <= df_pos f1) as Hp1 by lia.
  specialize (O1 c (read_calls_cache e rooms f1 w1 o2 f2 w2 c Hp1 H2 Hc)).
  destruct (IH f1 w1 o2 f2 w2 c Hp1 H2 Hc) as [E2 P2].
  rewrite length_app, P2, P1. split; [|lia].
  replace (sum_list (r :: rooms)) with (r + sum_list rooms)%nat by done.
  rewrite <- take_take_drop. unfold id. rewrite <- O1. f_equal. rewrite E2, P1. f_equal.
  rewrite Z2Nat.inj_add, Nat2Z.id by lia. rewrite <- drop_drop. rewrite O1 at 1. apply drop_take_length.
Qed.

(** ** A listed name can be looked up *)

(** A name as the VFS passes it: not a dot name, without slashes. *)
Definition good_name (n : string) : Prop := plain_name n /\ rel_comps n = [n].

Lemma rel_comps_cons a b : rel_comps a = [a] -> rel_comps (a ++ "/" ++ b)%string = a :: rel_comps b.
Proof.
  unfold rel_comps. induction a as [|c a IH]; cbn [strsep_all String.append]; [done|].
  destruct (Ascii.eqb c _) eqn:E; [by intros [=]|].
  destruct (strsep_all _ a) as [|p ps] eqn:Ea.
  - exfalso. destruct a; [done|cbn in Ea; repeat case_hyp Ea; discriminate].
  - intros [= -> ->]. change (String c a ++ "/" ++ b)%string with (String c (a ++ "/" ++ b))%string. cbn [strsep_all]. rewrite E. by rewrite (IH eq_refl).
Qed.

Lemma rel_comps_join comps : comps <> [] -> Forall good_name comps -> rel_comps (join_path comps) = comps.
Proof.
  intros Hne Hg. induction Hg as [|c comps [_ Hc] Hg IH]; [done|].
  destruct comps as [|c' comps]; [done|].
  change (join_path (c :: c' :: comps)) with (c ++ "/" ++ join_path (c' :: comps))%string.
  rewrite rel_comps_cons by done. by rewrite IH.
Qed.

Lemma join_path_nonempty comps : comps <> [] -> Forall good_name comps -> str_empty (join_path comps) = false.
Proof.
  intros Hne Hg. apply bool_decide_eq_false. intros He.
  pose proof (rel_comps_join comps Hne Hg) as Hj. rewrite He in Hj. cbn in Hj. subst comps.
  apply Forall_cons in Hg as [[[? _] _] _]. done.
Qed.

(** The trees are closed: entries and parents lead to existing nodes. *)
Record fs_ok (w : nworld) : Prop := FsOk {
  fo_ent : forall k d, lf_ent (nw_fs w) !! k = Some d -> is_Some (lower (nw_sb w) !! d);
  fo_at : forall d p n, lf_at (nw_fs w) !! d = Some (p, n) -> is_Some (lower (nw_sb w) !! p);
  fo_root : forall t tr, tier_at (nw_sb w) t = Some tr -> is_Some (lower (nw_sb w) !! p_dentry (t_path tr));
}.

Lemma path_walk_present w root links : fs_ok w -> is_Some (lower (nw_sb w) !! root) -> forall at0 cur comps at_ d,
  is_Some (lower (nw_sb w) !! cur) ->
  path_walk (nw_fs w) (lower (nw_sb w)) root links at0 cur comps = Ok (at_, d) -> is_Some (lower (nw_sb w) !! d).
Proof.
  intros Hok Hr. induction links as [|links IHl]; intros at0 cur comps; revert at0 cur;
    (induction comps as [|c comps IH]; intros at0 cur at_ d Hcur; simpl; [by intros [= _ <-]|]);
    (destruct (_ || _); [by apply IH|]); (destruct (negb _); [done|]);
    (destruct (bool_decide _);
      [apply IH; destruct (cur =? root); [done|]; unfold dentry_of;
       destruct (lf_at (nw_fs w) !! cur) as [[p n]|] eqn:Ea; [by eapply fo_at|done]|]);
    (destruct (lf_ent (nw_fs w) !! (cur, c)) as [d'|] eqn:Ee; [|done]); apply fo_ent in Ee; try done;
    (destruct (lf_link (nw_fs w) !! d') as [[abs_ target]|]; [|by apply IH]); [done|].
  apply IHl. by destruct abs_.
Qed.

Lemma resolved_present w t rel p ld : fs_ok w -> resolved w t rel = Ok (p, ld) -> is_Some (lower (nw_sb w) !! p_dentry p).
Proof.
  intros Hok. unfold resolved. destruct (_ <=? t); [done|]. destruct (tier_at _ t) as [tr|] eqn:Et; [|done].
  pose proof (fo_root w Hok _ _ Et) as Hroot. cbv zeta. destruct (str_empty rel); [by intros [= <- _]|].
  destruct (path_walk _ _ _ _ _ _ _) as [?|[at_ d]] eqn:Ew; [done|]. intros [= <- _].
  by apply (path_walk_present w _ _ Hok Hroot _ _ _ _ _ Hroot) in Ew.
Qed.

Lemma resolved_child w t comps n p ld l d :
  Forall good_name comps -> good_name n -> resolved w t (join_path comps) = Ok (p, ld) ->
  lower (nw_sb w) !! p_dentry p = Some l -> S_ISDIR (l_type l) = true ->
  lf_ent (nw_fs w) !! (p_dentry p, n) = Some d -> lf_link (nw_fs w) !! d = None ->
  resolved w t (join_path (comps ++ [n])) = Ok (Path (p_mnt p) d, LDentry (p_dentry p) n (Some d)).
Proof.
  intros Hg Hn Hr Hl Hd He Hk.
  assert (Forall good_name (comps ++ [n])) as Hg2 by (apply Forall_app; split; [done|by constructor]).
  assert (comps ++ [n] <> []) as Hne by (destruct comps; done).
  unfold resolved in *. destruct (_ <=? t); [done|]. destruct (tier_at _ t) as [tr|]; [|done]. cbv zeta in *.
  rewrite (join_path_nonempty _ Hne Hg2), (rel_comps_join _ Hne Hg2).
  assert (exists at_, path_walk (nw_fs w) (lower (nw_sb w)) (p_dentry (t_path tr)) MAXSYMLINKS
    (dentry_of (nw_fs w) (p_dentry (t_path tr))) (p_dentry (t_path tr)) comps = Ok (at_, p_dentry p)
    /\ p_mnt p = p_mnt (t_path tr)) as (at_ & Hw & Hm).
  { destruct comps as [|c comps]; [cbn in Hr; injection Hr as <- _; by eexists|].
    rewrite (join_path_nonempty (c :: comps)), (rel_comps_join (c :: comps)) in Hr by done.
    destruct (path_walk _ _ _ _ _ _ _) as [?|[at_ d']]; [done|]. injection Hr as <- _. by exists at_. }
  erewrite path_walk_snoc; [by rewrite Hm|exact Hw|exact Hl|done|apply Hn|done|done].
Qed.

Lemma dir_entries_elem fs dir n d : (n, d) ∈ dir_entries fs dir <-> lf_ent fs !! (dir, n) = Some d.
Proof.
  unfold dir_entries. rewrite list_elem_of_omap. split.
  - intros ([[d0 n0] d1] & Hin & Heq). apply elem_of_map_to_list in Hin. cbn in Heq.
    destruct (Z.eqb_spec d0 dir); [|done]. by injection Heq as <- <-; subst.
  - intros H. exists ((dir, n), d). split; [by apply elem_of_map_to_list|]. cbn. by rewrite Z.eqb_refl.
Qed.

Lemma listing_elem w dir n : is_dots n = false -> n ∈ de_name <$> lower_listing w dir ->
  exists d, lf_ent (nw_fs w) !! (dir, n) = Some d.
Proof.
  intros Hd. unfold lower_listing. cbn [fmap list_fmap]. rewrite !elem_of_cons.
  intros [->|[->|Hin]]; [done|done|]. apply list_elem_of_fmap in Hin as (x & -> & Hx).
  apply list_elem_of_In, in_map_iff in Hx as ([n d] & <- & Hin). exists d. apply dir_entries_elem. by apply list_elem_of_In.
Qed.

Lemma looks_active w w' t : looks w w' ->
  smoothfs_metadata_tier_active (nw_sb w') t = smoothfs_metadata_tier_active (nw_sb w) t.
Proof. intros [_ [n P]]. unfold nw_sb. by rewrite P. Qed.

Lemma looks_pool_ok w w' : looks w w' -> pool_ok (nw_pool w) -> pool_ok (nw_pool w').
Proof. intros [_ [n P]]. rewrite P. by apply pool_ok_frame. Qed.

Lemma looks_fs_ok w w' : looks w w' -> fs_ok w -> fs_ok w'.
Proof.
  intros [F [n P]] [H1 H2 H3]. unfold nw_sb in *. constructor; unfold nw_sb; rewrite ?F, ?P; assumption.
Qed.

Lemma across_calm e rel ts : calm e -> str_empty rel = false -> forall w t p ld,
  t ∈ ts -> Forall (fun t => 0 <= t < SMOOTHFS_MAX_TIERS) ts -> smoothfs_metadata_tier_active (nw_sb w) t = true ->
  resolved w t rel = Ok (p, ld) ->
  exists t' p' ld' w', across_loop e SMOOTHFS_MAX_TIERS rel ts w = (Ok (p', ld', t'), w')
  /\ looks w w' /\ resolved w t' rel = Ok (p', ld').
Proof.
  intros Hc Hr. induction ts as [|t0 ts IH]; intros w t p ld Hin Hf Ha He; [by apply not_elem_of_nil in Hin|].
  apply Forall_cons in Hf as [Ht0 Hf]. cbn [across_loop].
  destruct (Z.eqb_spec t0 SMOOTHFS_MAX_TIERS); [lia|]. rewrite Hr. unfold mbind_ns at 1. cbn [get_sb].
  destruct (smoothfs_metadata_tier_active (nw_sb w) t0) eqn:Ea0; cbn [negb].
  - unfold mbind_ns, attempt. destruct (tier_resolve_calm e t0 rel w Hc) as [k ->].
    destruct (resolved w t0 rel) as [err|[p0 ld0]] eqn:E0.
    + apply elem_of_cons in Hin as [->|Hin]; [by rewrite E0 in He|].
      set (w1 := w <| nw_k := k |>). assert (looks w w1) as L0 by (apply looks_ticked; by exists k).
      destruct (IH w1 t p ld Hin Hf) as (t' & p' & ld' & w' & E1 & L1 & R1);
        [by rewrite (looks_active w w1)|by rewrite (looks_resolved w w1)|].
      exists t', p', ld', w'. split; [done|]. split; [exact (looks_trans _ _ _ L0 L1)|by rewrite <- (looks_resolved w w1)].
    + exists t0, p0, ld0, (w <| nw_k := k |>). split; [done|]. split; [apply looks_ticked; by exists k|done].
  - apply elem_of_cons in Hin as [->|Hin]; [congruence|]. unfold mbind_ns. cbn [on_sb].
    set (w1 := w <| nw_pool := nw_pool w <| p_sbi := smoothfs_note_metadata_tier_skip (nw_sb w) |> |>).
    assert (looks w w1) as L1 by (split; [done|by eexists]).
    destruct (IH w1 t p ld Hin Hf) as (t' & p' & ld' & w' & E1 & L2 & R1);
      [by rewrite (looks_active w w1)|by rewrite (looks_resolved w w1)|].
    exists t', p', ld', w'. split; [exact E1|]. split; [exact (looks_trans _ _ _ L1 L2)|by rewrite <- (looks_resolved w w1)].
Qed.

Section Listed.
Context (e : ns_env) (Hc : calm e) (Hi : forall k, calm_iget (ne_iget e k)).

Lemma lookup_found_calm pt d rel p l t w : pool_ok (nw_pool w) -> lower (nw_sb w) !! p_dentry p = Some l ->
  exists d' w', lookup_found e pt d rel p t w = (Ok d', w') /\ is_Some (d_inode d').
Proof.
  intros Hok Hl. unfold lookup_found. unfold mbind_ns at 1. cbn [on_sb].
  set (w1 := w <| nw_pool := _ |>).
  assert (pool_ok (nw_pool w1) /\ lower (nw_sb w1) = lower (nw_sb w)) as [H1 E1].
  { unfold w1. destruct (t =? pt); (split; [|done]); (eapply pool_ok_frame; [| | |exact Hok]; done). }
  clearbody w1. rewrite <- E1 in Hl.
  destruct (iget_settles e Hi p w1 l H1 Hl) as (ino & w2 & E2 & H2 & _ & I2). unfold mbind_ns at 1. rewrite E2.
  destruct (track_settles e Hc ino (Some rel) t w2 H2 I2) as (u & w3 & E3 & H3 & _ & I3).
  unfold mbind_ns at 1. rewrite E3.
  destruct I3 as [si Hsi]. unfold mbind_ns at 1, get_inode. rewrite Hsi. unfold mbind_ns at 1. cbn [getw].
  edestruct (attach_calm (smoothfs_set_lower_dentry d (option_map (fun q => dentry_of (nw_fs w3) (p_dentry q)) (lower_path si)))
    w3 ino H3) as [w4 E4]; [by eexists|]. eexists _, w4. split; [exact E4|]. by eexists.
Qed.

Lemma lookup_replayed_calm d ino p w : pool_ok (nw_pool w) -> is_Some (inodes (nw_sb w) !! ino) ->
  exists d' w', lookup_replayed e d ino p w = (Ok d', w') /\ is_Some (d_inode d').
Proof.
  intros Hok [si Hsi]. unfold lookup_replayed, update_inode, mbind_ns, ask, get_inode.
  destruct (Z.ltb_spec (ne_ora e (nw_k w)) 0) as [Hlt|_]; [specialize (Hc (nw_k w)); lia|].
  set (w1 := w <| nw_k := S (nw_k w) |>). change (nw_sb w1) with (nw_sb w). rewrite Hsi.
  unfold put_si, on_sb, getw. set (w2 := w1 <| nw_pool := _ |>).
  assert (is_Some (inodes (nw_sb w2) !! ino)) as [si2 Hs2].
  { unfold w2. cbn. rewrite (po_keyed _ Hok _ _ Hsi), lookup_insert_eq. by eexists. }
  unfold attach, update_inode, mbind_ns, get_inode. rewrite Hs2. by eexists _, _.
Qed.

(** The part of a lookup that goes beyond the parent's own lower directory. *)
Lemma lookup_elsewhere_calm pt ld comps n w t p0 ld0 :
  pool_ok (nw_pool w) -> fs_ok w -> cache_mode (nw_sb w) = false ->
  0 <= ntiers (nw_sb w) <= SMOOTHFS_MAX_TIERS -> Forall good_name (comps ++ [n]) ->
  Z.of_nat (String.length (join_path (comps ++ [n]))) + 2 <= PATH_MAX ->
  0 <= t < ntiers (nw_sb w) -> smoothfs_metadata_tier_active (nw_sb w) t = true ->
  resolved w t (join_path (comps ++ [n])) = Ok (p0, ld0) ->
  exists d w', lookup_elsewhere e pt ld (Dentry (comps ++ [n]) None None) w = (Ok d, w') /\ is_Some (d_inode d).
Proof.
  intros Hok Hfs Hcm Hn Hg Hlen Ht Ha Hr. unfold lookup_elsewhere. cbv zeta. cbn [d_path].
  unfold mbind_ns at 1. rewrite kalloc_calm by done.
  destruct (Z.ltb_spec PATH_MAX (Z.of_nat (String.length (join_path (comps ++ [n]))) + 2)); [lia|].
  unfold mbind_ns at 1 2, ask. set (w1 := w <| nw_k := S (nw_k w) |>).
  destruct (Z.ltb_spec (ne_ora e (nw_k w1)) 0) as [Hlt|_]; [specialize (Hc (nw_k w1)); lia|]. unfold ok at 1.
  set (w2 := w1 <| nw_k := S (nw_k w1) |>).
  assert (looks w w2) as L by (apply looks_ticked; by eexists).
  pose proof (looks_pool_ok w w2 L Hok) as Hok2. unfold mbind_ns at 1, get_sb. set (rel := join_path _) in *.
  destruct (replayed_inode (nw_sb w2) rel) as [[ino p]|] eqn:Er.
  { apply lookup_replayed_calm; [done|]. unfold replayed_inode in Er.
    destruct (smoothfs_lookup_rel_path _ _) as [i|]; [|done].
    destruct (inodes (nw_sb w2) !! i) as [si|] eqn:Ei; cbn in Er; [|done]. destruct (lower_path si); [|done].
    destruct (lower _ !! _); [|done]. destruct (l_nlink _ =? 0); [done|]. injection Er as <- _. by eexists. }
  unfold mbind_ns at 1, attempt, smoothfs_lookup_rel_across_tiers. unfold mbind_ns at 1, get_sb.
  change (nw_sb w2) with (nw_sb w). rewrite Hcm.
  destruct (across_calm e rel (tiers_from 0 (ntiers (nw_sb w))) Hc) with (w := w2) (t := t) (p := p0) (ld := ld0)
    as (t' & p' & ld' & w3 & -> & L3 & R3).
  - apply join_path_nonempty; [destruct comps; done|done].
  - unfold tiers_from. apply elem_of_seqZ. lia.
  - apply Forall_forall. intros x Hx. unfold tiers_from in Hx. apply elem_of_seqZ in Hx. lia.
  - done.
  - by rewrite (looks_resolved w w2).
  - pose proof (looks_fs_ok w w2 L Hfs) as Hfs2.
    destruct (resolved_present w2 t' rel p' ld' Hfs2 R3) as [l' Hl'].
    apply (lookup_found_calm pt _ rel p' l' t'); [by eapply looks_pool_ok|].
    destruct L3 as [_ [m P3]]. unfold nw_sb at 1. rewrite P3. exact Hl'.
Qed.

(** C14. Outside cache mode, when nothing fails, a name that the listing of a
    directory shows, on whatever tier, can be looked up in that directory: the
    lookup returns a positive dentry. (Names that are symbolic links are
    excluded.) *)
Theorem listed_names_resolve dir comps w c w1 n :
  pool_ok (nw_pool w) -> fs_ok w -> honest e -> cache_mode (nw_sb w) = false ->
  0 <= ntiers (nw_sb w) <= SMOOTHFS_MAX_TIERS ->
  Forall good_name (comps ++ [n]) -> Z.of_nat (String.length (join_path (comps ++ [n]))) + 2 <= PATH_MAX ->
  (forall d x, lf_ent (nw_fs w) !! (d, n) = Some x -> lf_link (nw_fs w) !! x = None) ->
  smoothfs_build_dir_cache_inner e dir comps w = (Ok c, w1) -> n ∈ de_name <$> dc_entries c ->
  exists d w2, smoothfs_lookup_inner e dir (Dentry (comps ++ [n]) None None) w = (Ok d, w2)
  /\ is_Some (d_inode d).
Proof.
  intros Hok Hfs Hh Hcm Hn Hg Hlen Hln Hb Hin.
  apply (build_spec e dir comps w c w1 Hh) in Hb as (_ & si & p & l & Hsi & Hp & Hl & Hd & Hc').
  rewrite Hc' in Hin. apply merged_names in Hin as [Hdot Hin].
  unfold smoothfs_lookup_inner, mbind_ns at 1. cbn [get_sb]. unfold mbind_ns at 1, get_inode. rewrite Hsi, Hcm, Hp.
  cbv zeta. unfold mbind_ns at 1. rewrite lookup_one_calm by done.
  assert (d_name (Dentry (comps ++ [n]) None None) = n) as Hdn by (unfold d_name; cbn; by rewrite last_snoc).
  rewrite Hdn. set (wk := w <| nw_k := S (nw_k w) |>).
  assert (looks w wk) as Lk by (apply looks_ticked; by eexists).
  assert (pool_ok (nw_pool wk)) as Hokk by done.
  destruct (lf_ent (nw_fs w) !! (p_dentry p, n)) as [node|] eqn:En.
  - destruct (fo_ent w Hfs _ _ En) as [ln Hln'].
    destruct (iget_settles e Hi (Path (p_mnt p) node) wk ln Hokk Hln') as (ino & w2 & E2 & H2 & _ & I2).
    unfold mbind_ns at 1. rewrite E2.
    destruct (attach_calm (smoothfs_set_lower_dentry (Dentry (comps ++ [n]) None None)
       (Some (LDentry (p_dentry p) n (Some node)))) w2 ino H2 I2) as [w3 E3].
    eexists _, w3. split; [exact E3|]. by eexists.
  - unfold raw_listing in Hin. rewrite Hcm, fmap_app, elem_of_app in Hin.
    destruct Hin as [Hin|Hin]; [by apply listing_elem in Hin as [x Hx]; [congruence|]|].
    apply list_elem_of_fmap in Hin as (y & -> & Hy).
    apply list_elem_of_In, in_concat in Hy as (ls & Hls & Hy). apply in_map_iff in Hls as (t & <- & Ht).
    apply list_elem_of_In, list_elem_of_filter in Ht as [_ Ht]. unfold tiers_from in Ht. apply elem_of_seqZ in Ht.
    unfold tier_listing in Hy. destruct (smoothfs_metadata_tier_active (nw_sb w) t) eqn:Ea; [|done]. cbn [negb] in Hy.
    destruct (resolved w t (join_path comps)) as [?|[p0 ld0]] eqn:Er; [done|].
    destruct (lower (nw_sb w) !! p_dentry p0) as [l0|] eqn:El0; [|done].
    destruct (S_ISDIR (l_type l0)) eqn:Ed0; [|done].
    destruct (listing_elem w (p_dentry p0) (de_name y)) as [x Hx]; [done|apply list_elem_of_fmap_2; by apply list_elem_of_In|].
    pose proof Hg as [Hg1 Hg2]%Forall_app. apply Forall_cons in Hg2 as [Hg2 _].
    pose proof (resolved_child w t comps (de_name y) p0 ld0 l0 x Hg1 Hg2 Er El0 Ed0 Hx (Hln _ _ Hx)) as Hr.
    rewrite <- (looks_resolved w wk) in Hr by done.
    refine (lookup_elsewhere_calm _ _ comps (de_name y) wk t _ _ Hokk (looks_fs_ok w wk Lk Hfs) Hcm Hn Hg Hlen _ Ea Hr).
    change (nw_sb wk) with (nw_sb w). lia.
Qed.

End Listed.

(** ** The theorems on a concrete pool *)

(** Directory d of the pool of [NsWorld]: its file f lies on the second tier. *)
Definition dir_demo : M dir_cache :=
  smoothfs_build_dir_cache_inner (ns_env0 false) spilled_dir ["d"%string].

Lemma demo_calm : calm (ns_env0 false) /\ (forall k, calm_iget (ne_iget (ns_env0 false) k)) /\ honest (ns_env0 false).
Proof. split_and!; [done|done|]. intros k. by split. Qed.

(** A check of [fs_ok] that evaluates. *)
Definition fs_check (w : nworld) : bool :=
  all_entries (fun _ d => present w d) (lf_ent (nw_fs w))
  && all_entries (fun _ (x : Z * string) => present w x.1) (lf_at (nw_fs w))
  && forallb (fun tr => present w (p_dentry (t_path tr))) (tiers (nw_sb w)).
Lemma fs_check_ok w : fs_check w = true -> fs_ok w.
Proof.
  unfold fs_check. rewrite !andb_true_iff. intros [[He Ha] Ht].
  assert (forall d, present w d = true -> is_Some (lower (nw_sb w) !! d)) as Hp by (intros d H; by apply bool_decide_eq_true in H).
  constructor.
  - intros k d H. apply Hp. by apply (all_entries_true _ _ _ _ He H).
  - intros d p n H. apply Hp. by apply (all_entries_true _ _ _ _ Ha H).
  - intros t tr H. apply Hp.
    assert (tr ∈ tiers (nw_sb w)) as Hin by (unfold tier_at in H; revert H; case_goal; [done|]; apply list_elem_of_lookup_2).
    rewrite forallb_forall in Ht. exact (Ht tr (proj1 (list_elem_of_In _ _) Hin)).
Qed.
Lemma spilled_fs_ok : fs_ok spilled_world.
Proof. apply fs_check_ok. by vm_compute. Qed.

Lemma readdir_merges_the_tiers_witness :
  exists c w', dir_demo spilled_world = (Ok c, w') /\ map de_name (dc_entries c) = ["f"%string]
  /\ looks spilled_world w'.
Proof.
  destruct (dir_demo spilled_world) as [[err|c] w'] eqn:E; [exfalso; revert E; vm_compute; discriminate|].
  exists c, w'. split; [done|]. split.
  - transitivity (match fst (dir_demo spilled_world) with Ok c => map de_name (dc_entries c) | Err _ => [] end);
      [by rewrite E|by vm_compute].
  - exact (proj1 (readdir_merges_the_tiers _ _ _ _ _ _ (proj2 (proj2 demo_calm)) E)).
Defined.

Lemma reading_in_pieces_is_reading_once_witness :
  let f := DFile true spilled_dir ["d"%string] None 0 in
  exists out f' w' c, read_calls (ns_env0 false) f [1%nat; 0%nat; 2%nat] spilled_world = (Ok (out, f'), w')
  /\ df_cache f' = Some c /\ out = take 3 (with_dots c) /\ df_pos f' = 3.
Proof.
  cbv zeta. destruct (read_calls _ _ _ spilled_world) as [[err|[out f']] w'] eqn:E;
    [exfalso; revert E; vm_compute; discriminate|].
  assert (is_Some (df_cache f') /\ length out = 3%nat) as [[c Hc] Hl].
  { assert (match fst (read_calls (ns_env0 false) (DFile true spilled_dir ["d"%string] None 0)
                         [1%nat; 0%nat; 2%nat] spilled_world) with
            | Ok (out, f') => bool_decide (is_Some (df_cache f')) && Nat.eqb (length out) 3
            | Err _ => false end = true) as H by by vm_compute.
    rewrite E in H. cbn in H. apply andb_true_iff in H as [H1%bool_decide_eq_true H2%Nat.eqb_eq]. split; [exact H1|exact H2]. }
  exists out, f', w', c.
  destruct (reading_in_pieces_is_reading_once (ns_env0 false) [1%nat; 0%nat; 2%nat]
              (DFile true spilled_dir ["d"%string] None 0) spilled_world out f' w' c) as [H1 H2];
    [cbn; lia|exact E|exact Hc|].
  split; [reflexivity|]. split; [exact Hc|]. split; [exact H1|]. rewrite H2, Hl. reflexivity.
Defined.

Lemma listed_names_resolve_witness :
  exists d w2, smoothfs_lookup_inner (ns_env0 false) spilled_dir (neg ["d"%string; "f"%string]) spilled_world = (Ok d, w2)
  /\ is_Some (d_inode d).
Proof.
  destruct (dir_demo spilled_world) as [[err|c] w'] eqn:E; [exfalso; revert E; vm_compute; discriminate|].
  refine (listed_names_resolve (ns_env0 false) (proj1 demo_calm) (proj1 (proj2 demo_calm)) spilled_dir ["d"%string]
            spilled_world c w' "f"%string spilled_pool_ok spilled_fs_ok (proj2 (proj2 demo_calm)) _ _ _ _ _ E _).
  - by vm_compute.
  - split; by vm_compute.
  - repeat constructor; discriminate.
  - by vm_compute.
  - intros d x _. transitivity ((∅ : gmap Z (bool * list string)) !! x); [f_equal; by vm_compute|apply lookup_empty].
  - assert (match fst (dir_demo spilled_world) with Ok c => map de_name (dc_entries c) | Err _ => [] end
            = ["f"%string]) as H by by vm_compute.
    rewrite E in H. cbn [fst] in H. unfold fmap. change (list_fmap _ _ de_name (dc_entries c)) with (map de_name (dc_entries c)).
    rewrite H. by constructor.
Defined.
