(* ===== verification/NamespaceInv.v ===== *)
(** * Invariants of the namespace operations of src/src/smoothfs/inode.c

    A small program logic for the monad of [LowerFs]: [keeps I m] says that [m]
    preserves [I] whether it succeeds or fails, [steps R m] that it only moves
    along the preorder [R].  With it: every operation keeps the cache indices
    consistent, whatever fails, and hence so does every run of operations. *)
From S2P Require Import Prelude Types Oid Tiers KernelIO PlacementLog InodeMaps LowerFs Movement PathIndex Namespace Lookup NsWorld.

(** ** The logic *)

Definition keeps (I : nworld -> Prop) {A} (m : M A) : Prop :=
  forall w r w', I w -> m w = (r, w') -> I w'.

Definition steps (R : relation nworld) {A} (m : M A) : Prop := forall w r w', m w = (r, w') -> R w w'.

Create HintDb keeps.

Section Rules.
Context (I : nworld -> Prop).

Lemma keeps_ok {A} (a : A) : keeps I (ok a).
Proof. by intros w r w' H [= _ <-]. Qed.
Lemma keeps_fail {A} err : keeps I (@fail A err).
Proof. by intros w r w' H [= _ <-]. Qed.
Lemma keeps_getw : keeps I getw.
Proof. by intros w r w' H [= _ <-]. Qed.
Lemma keeps_get_sb : keeps I get_sb.
Proof. by intros w r w' H [= _ <-]. Qed.
Lemma keeps_get_inode i : keeps I (get_inode i).
Proof. by intros w r w' H [= _ <-]. Qed.
Lemma keeps_get_node d : keeps I (get_node d).
Proof. by intros w r w' H [= _ <-]. Qed.
Lemma keeps_bind {A B} (m : M A) (k : A -> M B) :
  keeps I m -> (forall a, keeps I (k a)) -> keeps I (mbind_ns m k).
Proof.
  intros Hm Hk w r w' H. unfold mbind_ns. destruct (m w) as [[err|a] w1] eqn:E.
  - intros [= _ <-]. by eapply Hm.
  - apply Hk. by eapply Hm.
Qed.
Lemma keeps_attempt {A} (m : M A) : keeps I m -> keeps I (attempt m).
Proof.
  intros Hm w r w' H. unfold attempt. destruct (m w) as [r1 w1] eqn:E. intros [= _ <-]. by eapply Hm.
Qed.
End Rules.

#[export] Hint Resolve keeps_ok keeps_fail keeps_getw keeps_get_sb keeps_get_inode keeps_get_node keeps_attempt : keeps.

(** One step of a proof that a piece of code keeps an invariant: sequence,
    branch, or a lemma of the database. *)
Ltac keep :=
  repeat first
    [ match goal with |- forall _, _ => intro end
    | solve [eauto with keeps]
    | match goal with
      | |- keeps _ (mbind_ns _ _) => apply keeps_bind
      | |- keeps _ (attempt _) => apply keeps_attempt
      | |- keeps _ (if ?b then _ else _) => destruct b
      | |- keeps _ (match ?x with _ => _ end) => destruct x
      | |- keeps _ (let _ := _ in _) => cbv zeta
      end ].

(** ** The cache invariant *)

(** The indices agree with the inodes; a hashed inode has a path. *)
Record cache_ok (sbi : sb_info) : Prop := CacheOk {
  ca_index : index_ok sbi;
  ca_hashed : forall ino si, inodes sbi !! ino = Some si -> path_hashed si = true -> is_Some (rel_path si);
}.
Definition ns_inv (w : nworld) : Prop := cache_ok (nw_sb w).

(** The indices and the inodes are untouched. *)
Definition same_cache (sbi sbi' : sb_info) : Prop :=
  oid_map sbi' = oid_map sbi /\ oid_map_ready sbi' = oid_map_ready sbi
  /\ path_map sbi' = path_map sbi /\ path_map_ready sbi' = path_map_ready sbi
  /\ inodes sbi' = inodes sbi /\ inode_list sbi' = inode_list sbi.

Lemma cache_ok_frame sbi sbi' : same_cache sbi sbi' -> cache_ok sbi -> cache_ok sbi'.
Proof.
  intros (E1&E2&E3&E4&E5&E6) [H1 H2]. split; [by apply (index_ok_frame sbi)|]. by rewrite E5.
Qed.

(** A change of an inode's other members: the path of a hashed inode stays. *)
Definition bookkeeping (f : inode_info -> inode_info) : Prop :=
  forall si, i_ino (f si) = i_ino si /\ oid (f si) = oid si
  /\ (is_Some (rel_path si) -> rel_path (f si) = rel_path si)
  /\ path_hashed (f si) = path_hashed si.
#[export] Hint Extern 0 (bookkeeping _) => (by intros ?) : keeps.

Lemma cache_ok_update sbi si si' :
  cache_ok sbi -> inodes sbi !! i_ino si = Some si ->
  i_ino si' = i_ino si -> oid si' = oid si -> (is_Some (rel_path si) -> rel_path si' = rel_path si) ->
  path_hashed si' = path_hashed si ->
  cache_ok (put_inode sbi si').
Proof.
  intros [[R1 R2 H1 H2 H3 H4 H5 H6 H7] H8] Hsi F1 F2 F3 F4.
  assert (inodes (put_inode sbi si') = <[i_ino si := si']> (inodes sbi)) as E by (cbn; by rewrite F1).
  assert (forall ino s, inodes sbi !! ino = Some s -> exists s', <[i_ino si := si']> (inodes sbi) !! ino = Some s'
    /\ oid s' = oid s /\ (is_Some (rel_path s) -> rel_path s' = rel_path s) /\ path_hashed s' = path_hashed s) as Hmono.
  { intros ino s Hs. destruct (decide (ino = i_ino si)) as [->|].
    - rewrite Hsi in Hs. injection Hs as <-. exists si'. by rewrite lookup_insert_eq.
    - exists s. by rewrite lookup_insert_ne. }
  split; [constructor|]; rewrite ?E; try done.
  - intros ino s Hs. apply lookup_insert_Some in Hs as [[<- <-]|[_ Hs]]; [done|by apply H1].
  - intros o ino Hin. destruct (H2 _ _ Hin) as (Hz & s & Hs & Ho). split; [done|].
    destruct (Hmono _ _ Hs) as (s' & Hs' & ? & _). exists s'. split; [done|congruence].
  - intros p ino Hin. destruct (H4 _ _ Hin) as (s & Hs & Hr & Hh).
    destruct (Hmono _ _ Hs) as (s' & Hs' & _ & Hr' & ?). exists s'. rewrite Hr' by by rewrite Hr.
    split_and!; [done|done|congruence].
  - intros ino. change (inode_list _) with (inode_list sbi). rewrite H6.
    destruct (decide (ino = i_ino si)) as [->|]; [rewrite lookup_insert_eq, Hsi; by split; eexists|].
    by rewrite lookup_insert_ne.
  - intros ino s Hs. apply lookup_insert_Some in Hs as [[<- <-]|[_ Hs]]; [|by eapply H8].
    rewrite F4. intros Hh. pose proof (H8 _ _ Hsi Hh) as Hr. by rewrite F3.
Qed.

Section IndexInv.
Context (e : ns_env) (Hins : forall k, ie_oid_insert (ne_iget e k) <> - EEXIST).

Lemma keeps_ask : keeps ns_inv (ask e).
Proof. by intros w r w' H [= _ <-]. Qed.
Lemma keeps_kalloc : keeps ns_inv (kalloc e).
Proof. intros w r w' H [k ->]%kalloc_ticks. done. Qed.
Lemma keeps_fallible : keeps ns_inv (fallible e).
Proof. intros w r w' H [k ->]%fallible_ticks. done. Qed.
Lemma keeps_on_sb f : (forall sbi, same_cache sbi (f sbi)) -> keeps ns_inv (on_sb f).
Proof. intros Hf w r w' H [= _ <-]. by apply (cache_ok_frame (nw_sb w)). Qed.
Lemma keeps_on_fs f : keeps ns_inv (on_fs f).
Proof. by intros w r w' H [= _ <-]. Qed.
Lemma keeps_put_node d l : keeps ns_inv (put_node d l).
Proof. by apply keeps_on_sb. Qed.
Lemma keeps_resolve t rel : keeps ns_inv (smoothfs_resolve_rel_path_on_tier e t rel).
Proof. intros w r w' H [[k ->] _]%tier_resolve_spec. done. Qed.
Lemma keeps_skip : keeps ns_inv (on_sb smoothfs_note_metadata_tier_skip).
Proof. by apply keeps_on_sb. Qed.

Lemma keeps_update_inode ino f : bookkeeping f -> keeps ns_inv (update_inode ino f).
Proof.
  intros Hf w r w' H. unfold update_inode, mbind_ns, get_inode.
  destruct (inodes (nw_sb w) !! ino) as [si|] eqn:Ei; intros [= _ <-]; [|done].
  pose proof (ix_ino _ (ca_index _ H) _ _ Ei) as Hi. destruct (Hf si) as (F1 & F2 & F3 & F4).
  apply (cache_ok_update (nw_sb w) si); [done|by rewrite Hi|done..].
Qed.
End IndexInv.
#[export] Hint Resolve keeps_ask keeps_kalloc keeps_fallible keeps_on_fs keeps_put_node keeps_resolve keeps_skip : keeps.

(** ** Attaching inodes *)

Lemma iget_locked_hashed ie root p l o g t ino pl pl' r :
  iget_locked ie root p l o g t ino pl = (pl', r) ->
  (forall i si, inodes (p_sbi pl) !! i = Some si -> path_hashed si = true -> is_Some (rel_path si)) ->
  forall i si, inodes (p_sbi pl') !! i = Some si -> path_hashed si = true -> is_Some (rel_path si).
Proof.
  unfold iget_locked. destruct (negb (ie_mem ie)); [by intros [= <- _]|].
  destruct (inodes (p_sbi pl) !! ino); [by intros [= <- _]|]. unfold iget_new.
  set (si := smoothfs_copy_attrs _ _). assert (path_hashed si = false) as Hs by done. clearbody si.
  set (s0 := p_sbi pl <| inode_list := _ |>). assert (inodes s0 = inodes (p_sbi pl)) as E0 by done. clearbody s0.
  destruct (smoothfs_oid_map_insert _ s0 si) as [err s1] eqn:E1.
  assert (inodes s1 = inodes (p_sbi pl)) as E2.
  { unfold smoothfs_oid_map_insert in E1. repeat case_hyp E1; injection E1 as _ <-; done. }
  clear E1. case_goal; [intros [= <- _]; cbn; by rewrite E2|].
  intros [= <- _] Hall i s Hi Hh.
  assert (inodes (put_inode s1 si) !! i = Some s) as Hi'.
  { cbn in Hi. revert Hi. unfold smoothfs_lower_ino_map_insert. repeat case_goal; done. }
  cbn in Hi'. apply lookup_insert_Some in Hi' as [[_ <-]|[_ Hi']]; [congruence|]. rewrite E2 in Hi'. by eapply Hall.
Qed.

Lemma iget_cache_ok ie fresh p l pl pl' r : ie_oid_insert ie <> - EEXIST ->
  cache_ok (p_sbi pl) -> smoothfs_iget ie false fresh p l pl = (pl', r) -> cache_ok (p_sbi pl').
Proof.
  intros Hz Hok. unfold smoothfs_iget.
  assert (forall pl0 t, cache_ok (p_sbi pl0) ->
    (match iget_identity ie fresh p l pl0 with
     | (pl1, Err err) => (pl1, Err err)
     | (pl1, Ok (o, g)) => iget_locked ie false p l o g t (smoothfs_inode_no_from_oid (ie_xxh64 ie) o) pl1
     end) = (pl', r) -> cache_ok (p_sbi pl')) as Hslow.
  { intros pl0 t H0. destruct (iget_identity ie fresh p l pl0) as [pl1 [err|[o g]]] eqn:Eid;
      apply identity_frame in Eid; pose proof (cache_ok_frame _ _ Eid H0) as H1; [by intros [= <- _]|].
    intros Hl. split; [by apply iget_locked_spec in Hl as [? _]; [|apply H1|]|].
    exact (iget_locked_hashed _ _ _ _ _ _ _ _ _ _ _ Hl (ca_hashed _ H1)). }
  cbv zeta. destruct (if _ =? 0 then _ else _) as [s|]; [|by apply Hslow].
  destruct (backing_matches s p); [by intros [= <- _]|]. apply Hslow. eapply cache_ok_frame; [|exact Hok].
  match goal with |- context [smoothfs_lower_ino_map_remove ?a ?b ?c] =>
    destruct (lower_ino_remove_frame a b c) as (F1&F2&F3&F4&F5&F6&_) end. done.
Qed.

(** ** Paths of inodes *)

Lemma cache_ok_repath fault sbi si q sbi' si' f :
  cache_ok sbi -> inodes sbi !! i_ino si = Some si -> bookkeeping f ->
  replace_rel_path fault sbi si q = (sbi', si') -> cache_ok (put_inode sbi' (f si')).
Proof.
  intros Hok Hsi Hf Heq. pose proof (ca_hashed _ Hok _ _ Hsi) as Hh. pose proof (ca_index _ Hok) as Hix.
  destruct (path_del_shape sbi si Hix Hsi Hh) as (pm & Hd & Hnd & Hincl & Hgone).
  destruct (replace_rel_path_shape fault sbi si q pm) as (h & _ & Hq & Hs); [apply Hix|done|].
  rewrite Hs in Heq. apply pair_equal_spec in Heq as [<- <-].
  set (sbi1 := sbi <| path_map := path_entries q h (i_ino si) ++ pm |>).
  set (si1 := si <| rel_path := q |> <| path_hashed := h |>).
  assert (inodes sbi1 = inodes sbi) as E1 by done.
  assert (i_ino si1 = i_ino si /\ rel_path si1 = q /\ path_hashed si1 = h) as (F1 & F2 & F3) by done.
  assert (cache_ok (put_inode sbi1 si1)) as Hok1.
  { split; [by apply index_ok_repath|]. clearbody sbi1 si1. intros i s Hi. cbn in Hi. rewrite E1 in Hi.
    apply lookup_insert_Some in Hi as [[_ <-]|[_ Hi]]; [rewrite F2, F3; done|by eapply ca_hashed]. }
  clearbody sbi1 si1. destruct (Hf si1) as (G1 & G2 & G3 & G4).
  apply (cache_ok_frame (put_inode (put_inode sbi1 si1) (f si1))).
  - unfold same_cache. split_and!; try done. cbn. rewrite G1. by rewrite insert_insert_eq.
  - apply (cache_ok_update _ si1); [done|cbn; apply lookup_insert_eq|done..].
Qed.

Section Operations.
Context (e : ns_env) (Hins : forall k, ie_oid_insert (ne_iget e k) <> - EEXIST).

Lemma keeps_iget fresh p : keeps ns_inv (iget e fresh p).
Proof.
  intros w r w' H. unfold iget. destruct (lower (nw_sb w) !! p_dentry p) as [l|]; [|by intros [= _ <-]].
  destruct (smoothfs_iget _ _ _ _ _ _) as [pl r1] eqn:E. intros [= _ <-].
  exact (iget_cache_ok _ _ _ _ _ _ _ (Hins _) H E).
Qed.

Lemma keeps_set_placement ino rel t : keeps ns_inv (smoothfs_set_inode_placement e ino rel t).
Proof.
  unfold smoothfs_set_inode_placement. apply keeps_bind; [destruct rel; auto with keeps|intros _].
  apply keeps_bind; [auto with keeps|]. intros a w r w' H. unfold mbind_ns, get_sb, get_inode.
  destruct (inodes (nw_sb w) !! ino) as [si|] eqn:Ei; [|by intros [= _ <-]].
  pose proof (ix_ino _ (ca_index _ H) _ _ Ei) as Hi.
  destruct (replace_rel_path a (nw_sb w) si rel) as [sbi si'] eqn:Er. intros [= _ <-].
  apply (cache_ok_repath _ _ _ _ _ _ (mark_placed t) H) in Er; [exact Er|by rewrite Hi|by intros ?].
Qed.

Lemma keeps_rekey ino path : keeps ns_inv (rekey_moved e ino path).
Proof.
  unfold rekey_moved. apply keeps_bind; [unfold smoothfs_rel_path_from_dentry; keep|]. intros [rel|]; [|keep].
  apply keeps_bind; [auto with keeps|]. intros a w r w' H. unfold mbind_ns, get_sb, get_inode.
  destruct (inodes (nw_sb w) !! ino) as [si|] eqn:Ei; [|by intros [= _ <-]].
  pose proof (ix_ino _ (ca_index _ H) _ _ Ei) as Hi.
  destruct (replace_rel_path a (nw_sb w) si (Some rel)) as [sbi si'] eqn:Er. intros [= _ <-].
  apply (cache_ok_repath _ _ _ _ _ _ id H) in Er; [exact Er|by rewrite Hi|by intros ?].
Qed.

(** Forgetting a path is replacing it by none. *)
Lemma keeps_forget_path ino : keeps ns_inv (forget_path ino).
Proof.
  intros w r w' H. unfold forget_path, mbind_ns, get_inode, get_sb.
  destruct (inodes (nw_sb w) !! ino) as [si|] eqn:Ei; [|by intros [= _ <-]].
  pose proof (ix_ino _ (ca_index _ H) _ _ Ei) as Hi.
  destruct (rel_path si); [|by intros [= _ <-]].
  destruct (smoothfs_path_map_del (nw_sb w) si) as [sbi si'] eqn:Ed. intros [= _ <-].
  apply (cache_ok_repath 0 (nw_sb w) si None _ _ id); [done|by rewrite Hi|by intros ?|].
  unfold replace_rel_path. rewrite Ed. done.
Qed.

Local Hint Resolve keeps_iget keeps_forget_path keeps_set_placement keeps_rekey keeps_update_inode : keeps.

Lemma keeps_rel_path p : keeps ns_inv (smoothfs_rel_path_from_dentry e p).
Proof. unfold smoothfs_rel_path_from_dentry. keep. Qed.
Lemma keeps_lookup_one p n : keeps ns_inv (lookup_one e p n).
Proof. unfold lookup_one. keep. Qed.
Lemma keeps_set_sb sbi w r w' : cache_ok sbi -> set_sb sbi w = (r, w') -> ns_inv w'.
Proof. by intros H [= _ <-]. Qed.
Lemma keeps_vfs_make ty n p name perm : keeps ns_inv (vfs_make e ty n p name perm).
Proof. unfold vfs_make, new_node. keep. Qed.
Lemma keeps_drop_link d f : keeps ns_inv (drop_link d f).
Proof. unfold drop_link. keep. Qed.
Local Hint Resolve keeps_rel_path keeps_lookup_one keeps_vfs_make keeps_drop_link : keeps.
Lemma keeps_vfs_link d p n : keeps ns_inv (vfs_link e d p n).
Proof. unfold vfs_link. keep. Qed.
Lemma keeps_vfs_unlink p n : keeps ns_inv (vfs_unlink e p n).
Proof. unfold vfs_unlink, drop_entry. keep. Qed.
Lemma keeps_vfs_rmdir p n : keeps ns_inv (vfs_rmdir e p n).
Proof. unfold vfs_rmdir, drop_entry. keep. Qed.
Lemma keeps_vfs_rename p n q m : keeps ns_inv (vfs_rename e p n q m).
Proof. unfold vfs_rename. keep. Qed.
Local Hint Resolve keeps_vfs_rename : keeps.
Lemma keeps_rename_lower f o n : keeps ns_inv (rename_lower e f o n).
Proof. unfold rename_lower, vfs_exchange, new_node. keep. Qed.
Local Hint Resolve keeps_vfs_link keeps_vfs_unlink keeps_vfs_rmdir keeps_rename_lower : keeps.

Lemma keeps_ensure_oid ino : keeps ns_inv (smoothfs_ensure_oid_persisted e ino).
Proof. unfold smoothfs_ensure_oid_persisted. keep. Qed.

Lemma keeps_record ino t : keeps ns_inv
  (let! si := get_inode ino in let! a := ask e in let! sbi := get_sb in
   let '(err, sbi, _) := smoothfs_placement_record (0 <=? a) (ne_now e) sbi (oid si) MS_PLACED t t false in
   let! _ := set_sb sbi in if negb (err =? 0) then fail err else ok tt).
Proof.
  apply keeps_bind; [keep|]. intros si. apply keeps_bind; [keep|]. intros a w r w' H.
  unfold mbind_ns at 1, get_sb. destruct (smoothfs_placement_record _ _ _ _ _ _ _ _) as [[err sbi] b] eqn:Er.
  assert (same_cache (nw_sb w) sbi) as Hs.
  { unfold smoothfs_placement_record in Er. repeat case_hyp Er; injection Er as _ <- _; done. }
  unfold mbind_ns, set_sb, on_sb. pose proof (cache_ok_frame _ _ Hs H) as H'.
  destruct (negb (err =? 0)); intros [= _ <-]; exact H'.
Qed.
Local Hint Resolve keeps_ensure_oid keeps_record : keeps.

Lemma keeps_track ino rel t pin rec : keeps ns_inv (smoothfs_track_placed e ino rel t pin rec).
Proof. unfold smoothfs_track_placed. keep. Qed.
Local Hint Resolve keeps_track : keeps.

Lemma keeps_materialize_loop t comps : forall built cur, keeps ns_inv (materialize_loop e t comps built cur).
Proof. induction comps as [|c comps IH]; intros built cur; cbn [materialize_loop]; unfold vfs_mkdir; keep. Qed.
Local Hint Resolve keeps_materialize_loop : keeps.
Lemma keeps_materialize t rel : keeps ns_inv (smoothfs_materialize_parent_on_tier e t rel).
Proof. unfold smoothfs_materialize_parent_on_tier. keep. Qed.
Lemma keeps_across ex rel ts : keeps ns_inv (across_loop e ex rel ts).
Proof. induction ts as [|t ts IH]; cbn [across_loop]; keep. Qed.
Lemma keeps_attach d ino : keeps ns_inv (attach d ino).
Proof. unfold attach. keep. Qed.
Lemma keeps_each op ts : (forall t, keeps ns_inv (op t)) -> keeps ns_inv (each_active_tier op ts).
Proof. intros Ho. induction ts as [|t ts IH]; cbn [each_active_tier]; keep. Qed.
Lemma keeps_copy_attrs i d : keeps ns_inv (copy_attrs i d).
Proof. unfold copy_attrs. keep. Qed.
Local Hint Resolve keeps_materialize keeps_across keeps_attach keeps_each keeps_copy_attrs : keeps.

Lemma keeps_rmdir_rel t rel : keeps ns_inv (smoothfs_rmdir_rel_path_on_tier e t rel).
Proof. unfold smoothfs_rmdir_rel_path_on_tier. keep. Qed.
Lemma keeps_rename_rel t o n : keeps ns_inv (smoothfs_rename_rel_path_on_tier e t o n).
Proof. unfold smoothfs_rename_rel_path_on_tier, smoothfs_compat_rename. keep. Qed.
Local Hint Resolve keeps_rmdir_rel keeps_rename_rel : keeps.

Lemma keeps_forget ino purge : keeps ns_inv (smoothfs_forget_placement e ino purge).
Proof. unfold smoothfs_forget_placement. keep. Qed.
Lemma keeps_start_removing ld : keeps ns_inv (smoothfs_compat_start_removing e ld).
Proof. unfold smoothfs_compat_start_removing. keep. Qed.
Lemma keeps_start_rename a b f o n m : keeps ns_inv (smoothfs_compat_start_rename e a b f o n m).
Proof. unfold smoothfs_compat_start_rename. keep. Qed.
Lemma keeps_wb_forget d : keeps ns_inv
  (fun w => (Ok tt, w <| nw_pool := smoothfs_oid_wb_forget (nw_pool w) d |>)).
Proof.
  intros w r w' H [= _ <-]. unfold smoothfs_oid_wb_forget. unfold ns_inv, nw_sb in *. cbn. repeat case_goal; done.
Qed.
Local Hint Resolve keeps_forget keeps_start_removing keeps_start_rename keeps_wb_forget : keeps.

Lemma keeps_spill_note i a b : keeps ns_inv (smoothfs_spill_note_success e i a b).
Proof. unfold smoothfs_spill_note_success. keep. apply keeps_on_sb. intros sbi. by case_goal. Qed.
Lemma keeps_note_enospc {A} (m : M A) : keeps ns_inv m -> keeps ns_inv (note_enospc m).
Proof. intros Hm. unfold note_enospc. keep. by apply keeps_on_sb. Qed.
Lemma keeps_pending t : keeps ns_inv (on_sb (update_tier t (fun tr => tr <| pending_writes := pending_writes tr + 1 |>))).
Proof. by apply keeps_on_sb. Qed.
Lemma keeps_recovered (b : bool) : keeps ns_inv (on_sb (fun sbi =>
  if b then sbi <| parent_tier_lookup_recoveries := parent_tier_lookup_recoveries sbi + 1 |> else sbi)).
Proof. apply keeps_on_sb. intros sbi. by destruct b. Qed.
Lemma keeps_parent_on_tier d t pt rel : keeps ns_inv (parent_on_tier e d t pt rel).
Proof. unfold parent_on_tier. keep. Qed.
Local Hint Resolve keeps_spill_note keeps_note_enospc keeps_pending keeps_recovered keeps_parent_on_tier : keeps.

Lemma keeps_lookup dir d : keeps ns_inv (smoothfs_lookup_inner e dir d).
Proof.
  unfold smoothfs_lookup_inner, lookup_cache, lookup_elsewhere, lookup_replayed, lookup_found,
    smoothfs_lookup_rel_across_tiers. keep.
Qed.
Lemma keeps_create dir d mode : keeps ns_inv (smoothfs_create_inner e dir d mode).
Proof.
  unfold smoothfs_create_inner. apply keeps_note_enospc. keep.
  generalize false. generalize (- ENOSPC). generalize (smoothfs_select_create_tier (ne_statfs e) (ne_oom e) a).
  intros start. generalize (create_order a start). intros ts.
  induction ts as [|t ts IH]; intros err fb; cbn [create_loop]; unfold vfs_create, create_finish; keep.
Qed.
Lemma keeps_mkdir dir d mode : keeps ns_inv (smoothfs_mkdir_inner e dir d mode).
Proof.
  unfold smoothfs_mkdir_inner. apply keeps_note_enospc. keep.
  generalize (- ENOSPC). generalize (tiers_from (if cache_mode a then ntiers a - 1 else fastest_tier a) (ntiers a)).
  intros ts. induction ts as [|t ts IH]; intros err; cbn [mkdir_loop]; unfold vfs_mkdir; keep.
Qed.
Lemma keeps_mknod dir pd d mode : keeps ns_inv (smoothfs_mknod_inner e dir pd d mode).
Proof. unfold smoothfs_mknod_inner, make_beside, vfs_mknod. keep. Qed.
Lemma keeps_symlink dir pd d t : keeps ns_inv (smoothfs_symlink_inner e dir pd d t).
Proof. unfold smoothfs_symlink_inner, make_beside, vfs_symlink. keep. Qed.
Lemma keeps_link o dir pd d : keeps ns_inv (smoothfs_link_inner e o dir pd d).
Proof. unfold smoothfs_link_inner. keep. Qed.
Lemma keeps_unlink dir d : keeps ns_inv (smoothfs_unlink_inner e dir d).
Proof. unfold smoothfs_unlink_inner. keep. Qed.
Lemma backfill_bookkeeping rel node : bookkeeping (fun si =>
  si <| rel_path := match rel_path si with Some p => Some p | None => rel end |> <| i_nlink := 0 |>
     <| aliases := clear_alias node (aliases si) |>).
Proof. intros si. split_and!; try done. intros [p Hp]. cbn. by rewrite Hp. Qed.
Local Hint Resolve backfill_bookkeeping : keeps.
Lemma keeps_rmdir dir d : keeps ns_inv (smoothfs_rmdir_inner e dir d).
Proof. unfold smoothfs_rmdir_inner. keep. Qed.
Lemma keeps_choose fs isd f b lo np opd npd n : keeps ns_inv (choose_plan e fs isd f b lo np opd npd n).
Proof. unfold choose_plan, plan_cross_dir. keep. apply keeps_each. keep. Qed.
Local Hint Resolve keeps_choose : keeps.
Lemma keeps_rename od opd o nd npd n f : keeps ns_inv (smoothfs_rename_inner e od opd o nd npd n f).
Proof.
  unfold smoothfs_rename_inner, rename_finish, drop_new_dentry, smoothfs_drop_stale_rename_target,
    smoothfs_rename_spill_tiers. keep.
Qed.

End Operations.

(** ** Runs of namespace operations *)

(** [rhashtable_insert_fast] does not report an existing key. *)
Definition sane (e : ns_env) : Prop := forall k, ie_oid_insert (ne_iget e k) <> - EEXIST.

(** One operation, with whatever faults its environment holds, or one of the
    background steps that touch the cache: eviction and the id writeback. *)
Inductive ns_step : nworld -> nworld -> Prop :=
| NS_lookup e dir d w r w' : sane e -> smoothfs_lookup_inner e dir d w = (r, w') -> ns_step w w'
| NS_create e dir d mode w r w' : sane e -> smoothfs_create_inner e dir d mode w = (r, w') -> ns_step w w'
| NS_mkdir e dir d mode w r w' : sane e -> smoothfs_mkdir_inner e dir d mode w = (r, w') -> ns_step w w'
| NS_mknod e dir pd d mode w r w' : sane e -> smoothfs_mknod_inner e dir pd d mode w = (r, w') -> ns_step w w'
| NS_symlink e dir pd d t w r w' : sane e -> smoothfs_symlink_inner e dir pd d t w = (r, w') -> ns_step w w'
| NS_link e o dir pd d w r w' : sane e -> smoothfs_link_inner e o dir pd d w = (r, w') -> ns_step w w'
| NS_unlink e dir d w r w' : sane e -> smoothfs_unlink_inner e dir d w = (r, w') -> ns_step w w'
| NS_rmdir e dir d w r w' : sane e -> smoothfs_rmdir_inner e dir d w = (r, w') -> ns_step w w'
| NS_rename e od opd o nd npd n f w r w' : sane e ->
    smoothfs_rename_inner e od opd o nd npd n f w = (r, w') -> ns_step w w'
| NS_evict ino si w : inodes (nw_sb w) !! ino = Some si ->
    ns_step w (w <| nw_pool := nw_pool w <| p_sbi := smoothfs_evict_inode (nw_sb w) si |> |>)
| NS_writeback faults w :
    ns_step w (w <| nw_pool := smoothfs_oid_wb_worker faults (nw_pool w) |>).

Lemma cache_ok_evict sbi ino si : cache_ok sbi -> inodes sbi !! ino = Some si -> cache_ok (smoothfs_evict_inode sbi si).
Proof.
  intros [H1 H2] Hi. pose proof (ix_ino _ H1 _ _ Hi) as Hino. rewrite <- Hino in Hi.
  destruct (evict_spec sbi si H1 Hi (H2 _ _ Hi)) as [Hok _]. split; [done|].
  destruct (evict_shape sbi si H1 Hi) as (_ & _ & Hd & _).
  intros i s. rewrite Hd. intros [_ Hs]%lookup_delete_Some. by eapply H2.
Qed.

Lemma ns_step_inv w w' : ns_inv w -> ns_step w w' -> ns_inv w'.
Proof.
  intros H Hs. destruct Hs.
  - by eapply keeps_lookup.
  - by eapply keeps_create.
  - by eapply keeps_mkdir.
  - by eapply keeps_mknod.
  - by eapply keeps_symlink.
  - by eapply keeps_link.
  - by eapply keeps_unlink.
  - by eapply keeps_rmdir.
  - by eapply keeps_rename.
  - by eapply cache_ok_evict.
  - apply (cache_ok_frame (nw_sb w)); [|exact H]. done.
Qed.

(** C15. Every run of lookups, creations, links, removals, renames, evictions
    and id write-backs, whatever kernel calls fail on the way, keeps the cache
    indices consistent: a path found in the path map leads to the cached inode
    that has this path, and an id found in the object map to the cached inode
    with this id. *)
Theorem namespace_keeps_the_index w w' : cache_ok (nw_sb w) -> rtc ns_step w w' ->
  cache_ok (nw_sb w')
  /\ (forall p ino, smoothfs_lookup_rel_path (nw_sb w') (Some p) = Some ino ->
        exists si, inodes (nw_sb w') !! ino = Some si /\ rel_path si = Some p)
  /\ (forall o ino, smoothfs_lookup_oid (nw_sb w') o = Some ino ->
        exists si, inodes (nw_sb w') !! ino = Some si /\ oid si = o).
Proof.
  intros H Hr. pose proof (rtc_invariant _ ns_inv w w' ns_step_inv H Hr) as H'. clear H Hr.
  split; [done|]. split.
  - intros p ino. unfold smoothfs_lookup_rel_path. destruct (negb _); [done|]. intros Hl%rht_lookup_elem.
    destruct (ix_path _ (ca_index _ H') _ _ Hl) as (si & Hi & Hp & _). by exists si.
  - intros o ino. unfold smoothfs_lookup_oid. destruct (negb _); [done|]. intros Hl%rht_lookup_elem.
    destruct (ix_oid _ (ca_index _ H') _ _ Hl) as (_ & si & Hi & Ho). by exists si.
Qed.

(** A pool holding only its root. *)
Lemma ns_world_cache_ok : cache_ok (nw_sb ns_world).
Proof.
  assert (forall ino si, inodes (nw_sb ns_world) !! ino = Some si -> ino = 1 /\ si = ns_root) as Hi.
  { intros ino si H. change (({[1 := ns_root]} : gmap Z inode_info) !! ino = Some si) in H.
    by apply lookup_singleton_Some in H as [-> ->]. }
  split; [constructor|]; try done.
  - by intros ino si [-> ->]%Hi.
  - by intros o ino ?%elem_of_nil.
  - constructor.
  - by intros p ino ?%elem_of_nil.
  - constructor.
  - intros ino. change (ino ∈ [1] <-> is_Some (({[1 := ns_root]} : gmap Z inode_info) !! ino)).
    rewrite list_elem_of_singleton. split; [intros ->; rewrite lookup_singleton_eq; by eexists|].
    by intros [si [<- _]%lookup_singleton_Some].
  - apply NoDup_singleton.
  - by intros ino si [-> ->]%Hi.
Qed.

(** A directory is made and a file in it lands on the second tier. *)
Lemma namespace_keeps_the_index_witness : cache_ok (nw_sb ns_world) /\ cache_ok (nw_sb spilled_world).
Proof.
  split; [exact ns_world_cache_ok|]. unfold spilled_world, make_spilled, mbind_ns.
  assert (forall b, sane (ns_env0 b)) as Hs by (intros b k; by vm_compute).
  destruct (smoothfs_mkdir_inner _ _ _ _ ns_world) as [[err|d] w1] eqn:E1; [exfalso; revert E1; vm_compute; discriminate|].
  destruct (smoothfs_create_inner _ _ _ _ w1) as [r w2] eqn:E2.
  assert (rtc ns_step ns_world w2) as Hr.
  { eapply rtc_l; [exact (NS_mkdir _ _ _ _ _ _ _ (Hs false) E1)|].
    eapply rtc_l; [exact (NS_create _ _ _ _ _ _ _ (Hs true) E2)|]. apply rtc_refl. }
  pose proof (namespace_keeps_the_index _ _ ns_world_cache_ok Hr) as (H & _). by destruct r.
Defined.
