(* ===== verification/Quiet.v ===== *)
(** * Steps that leave the lower trees alone

    Most steps of a namespace operation (src/src/smoothfs/inode.c) do not touch
    the lower trees, identity xattrs apart ([quiet]); an invariant of the trees
    has to be checked only at the calls that change them. *)
From S2P Require Import Prelude Types Oid Tiers KernelIO PlacementLog InodeMaps LowerFs Movement PathIndex Namespace Lookup NsWorld Dir NamespaceInv.

(** ** Quiet steps *)

(** A lower inode without its identity xattrs. *)
Definition forget_ids (l : lnode) : lnode := l <| l_oid := None |> <| l_gen := None |>.

Record same_pool (sbi sbi' : sb_info) : Prop := SamePool {
  sp_nodes : forget_ids <$> lower sbi' = forget_ids <$> lower sbi;
  sp_ntiers : ntiers sbi' = ntiers sbi;
  sp_cache : cache_mode sbi' = cache_mode sbi;
  sp_fastest : fastest_tier sbi' = fastest_tier sbi;
  sp_pct : write_staging_full_pct sbi' = write_staging_full_pct sbi;
  sp_paths : t_path <$> tiers sbi' = t_path <$> tiers sbi;
}.
Definition quiet (w w' : nworld) : Prop := nw_fs w' = nw_fs w /\ same_pool (nw_sb w) (nw_sb w').

#[export] Instance same_pool_preorder : PreOrder same_pool.
Proof. split; [by intros s|]. intros s1 s2 s3 [] []. constructor; congruence. Qed.

(** Nothing but the named members changed. *)
Lemma same_pool_eq sbi sbi' : lower sbi' = lower sbi -> ntiers sbi' = ntiers sbi -> cache_mode sbi' = cache_mode sbi ->
  fastest_tier sbi' = fastest_tier sbi -> write_staging_full_pct sbi' = write_staging_full_pct sbi -> tiers sbi' = tiers sbi -> same_pool sbi sbi'.
Proof. intros E1 E2 E3 E4 E5 E6. constructor; congruence. Qed.

Lemma same_pool_lookup sbi sbi' d l : same_pool sbi sbi' -> lower sbi !! d = Some l ->
  exists l', lower sbi' !! d = Some l' /\ forget_ids l' = forget_ids l.
Proof.
  intros H Hl. pose proof (f_equal (lookup d) (sp_nodes _ _ H)) as E. rewrite !lookup_fmap, Hl in E.
  destruct (lower sbi' !! d) as [l'|]; [|done]. apply (inj Some) in E. by exists l'.
Qed.
Lemma same_pool_back sbi sbi' d l' : same_pool sbi sbi' -> lower sbi' !! d = Some l' ->
  exists l, lower sbi !! d = Some l /\ forget_ids l' = forget_ids l.
Proof.
  intros H Hl. pose proof (f_equal (lookup d) (sp_nodes _ _ H)) as E. rewrite !lookup_fmap, Hl in E.
  destruct (lower sbi !! d) as [l|]; [|done]. apply (inj Some) in E. by exists l.
Qed.

(** An identity xattr is written. *)
Lemma ids_only_insert (low : gmap Z lnode) d l l' : low !! d = Some l -> forget_ids l' = forget_ids l ->
  forget_ids <$> <[d := l']> low = forget_ids <$> low.
Proof. intros Hl E. rewrite fmap_insert, E. apply insert_id. by rewrite lookup_fmap, Hl. Qed.

Lemma write_oid_ids fault l o : forget_ids (snd (smoothfs_write_oid_xattr fault l o)) = forget_ids l.
Proof. unfold smoothfs_write_oid_xattr. case_goal; [done|]. by destruct (l_oid l). Qed.

Lemma oid_wb_write_ids faults batch : forall i low,
  forget_ids <$> oid_wb_write faults i low batch = forget_ids <$> low.
Proof.
  induction batch as [|[p o] batch IH]; intros i low; cbn [oid_wb_write]; [done|]. rewrite IH.
  destruct (low !! p_dentry p) as [l|] eqn:El; [|done]. eapply ids_only_insert; [exact El|apply write_oid_ids].
Qed.

Lemma queue_same_pool fault alloc pl p o err pl' : smoothfs_oid_wb_queue fault alloc pl p o = (err, pl') ->
  same_pool (p_sbi pl) (p_sbi pl').
Proof.
  unfold smoothfs_oid_wb_queue. destruct (negb (oid_wb_ready pl)).
  - destruct (lower (p_sbi pl) !! p_dentry p) as [l|] eqn:El; [|by intros [= _ <-]].
    pose proof (write_oid_ids fault l o) as Hw. destruct (smoothfs_write_oid_xattr _ _ _) as [we wl].
    intros [= _ <-]. constructor; try done. by eapply ids_only_insert.
  - destruct (negb alloc); by intros [= _ <-].
Qed.

Lemma drain_same_pool faults pl : same_pool (p_sbi pl) (p_sbi (smoothfs_oid_wb_drain faults pl)).
Proof.
  unfold smoothfs_oid_wb_drain. destruct (negb _); [done|]. constructor; try done. apply oid_wb_write_ids.
Qed.

Lemma identity_same_pool ie fresh p l pl pl' r : iget_identity ie fresh p l pl = (pl', r) ->
  same_pool (p_sbi pl) (p_sbi pl').
Proof.
  unfold iget_identity. match goal with |- context [let '(_, _) := ?x in _] => destruct x as [pl1 r1] eqn:E1 end.
  assert (same_pool (p_sbi pl) (p_sbi pl1)) as H1.
  { destruct fresh; [by injection E1 as <- _|]. destruct (smoothfs_read_oid_xattr _ _); [|by injection E1 as <- _].
    case_hyp E1; [|by injection E1 as <- _]. destruct (smoothfs_oid_wb_peek pl p); injection E1 as <- _; [done|].
    apply drain_same_pool. }
  destruct r1 as [err|o]; [|by intros [= <- _]]. case_goal; [|by intros [= <- _]].
  destruct (smoothfs_alloc_oid _ _ _ _) as [sbi2 o] eqn:Ea. injection Ea as <- _.
  destruct (smoothfs_oid_wb_queue _ _ _ _ _) as [qerr pl2] eqn:Eq. apply queue_same_pool in Eq.
  case_goal; intros [= <- _]; (etransitivity; [exact H1|]; etransitivity; [|exact Eq]; by apply same_pool_eq).
Qed.

Lemma iget_locked_same_pool ie root p l o g t ino pl pl' r : iget_locked ie root p l o g t ino pl = (pl', r) ->
  same_pool (p_sbi pl) (p_sbi pl').
Proof.
  unfold iget_locked. destruct (negb (ie_mem ie)); [by intros [= <- _]|].
  destruct (inodes (p_sbi pl) !! ino); [by intros [= <- _]|]. unfold iget_new.
  set (si := smoothfs_copy_attrs _ _). clearbody si. unfold smoothfs_oid_map_insert, smoothfs_lower_ino_map_insert.
  cbv zeta. repeat case_goal; intros [= <- _]; by apply same_pool_eq.
Qed.

Lemma iget_same_pool ie fresh p l pl pl' r : smoothfs_iget ie false fresh p l pl = (pl', r) ->
  same_pool (p_sbi pl) (p_sbi pl').
Proof.
  unfold smoothfs_iget.
  assert (forall pl0 t, same_pool (p_sbi pl) (p_sbi pl0) ->
    (match iget_identity ie fresh p l pl0 with
     | (pl1, Err err) => (pl1, Err err)
     | (pl1, Ok (o, g)) => iget_locked ie false p l o g t (smoothfs_inode_no_from_oid (ie_xxh64 ie) o) pl1
     end) = (pl', r) -> same_pool (p_sbi pl) (p_sbi pl')) as Hslow.
  { intros pl0 t H0. destruct (iget_identity ie fresh p l pl0) as [pl1 [err|[o g]]] eqn:Eid;
      apply identity_same_pool in Eid; [intros [= <- _]; by etransitivity|].
    intros Hl%iget_locked_same_pool. etransitivity; [exact H0|]. by etransitivity. }
  cbv zeta. destruct (if _ =? 0 then _ else _) as [s|]; [|by apply Hslow].
  destruct (backing_matches s p); [by intros [= <- _]|]. apply Hslow.
  unfold smoothfs_lower_ino_map_remove. cbn [p_sbi set_field]. repeat case_goal; by apply same_pool_eq.
Qed.

(** An invariant that quiet steps cannot break. *)
Class QuietClosed (I : nworld -> Prop) : Prop := quiet_closed w w' : quiet w w' -> I w -> I w'.

#[export] Hint Extern 0 (QuietClosed _) => typeclasses eauto : keeps.

Lemma quiet_of_sb w sbi : same_pool (nw_sb w) sbi -> quiet w (w <| nw_pool := nw_pool w <| p_sbi := sbi |> |>).
Proof. by split. Qed.
Lemma quiet_ticked w w' : ticked w w' -> quiet w w'.
Proof. intros [k ->]. by split. Qed.

Lemma repath_same_pool fault sbi si q sbi' si' si2 : replace_rel_path fault sbi si q = (sbi', si') ->
  same_pool sbi (put_inode sbi' si2).
Proof.
  unfold replace_rel_path, smoothfs_path_map_del, smoothfs_path_map_add. intros H.
  repeat case_hyp H; injection H as <- _; by apply same_pool_eq.
Qed.

Section Quiet.
Context (e : ns_env) (I : nworld -> Prop) `{HI : !QuietClosed I}.

Lemma keeps_ticks {A} (m : M A) : (forall w r w', m w = (r, w') -> ticked w w') -> keeps I m.
Proof. intros Hm w r w' H E. eapply quiet_closed; [|exact H]. eapply quiet_ticked, Hm, E. Qed.
Lemma q_ask : keeps I (ask e).
Proof. apply keeps_ticks. by intros w r w' [_ ?]%ask_ticks. Qed.
Lemma q_kalloc : keeps I (kalloc e).
Proof. apply keeps_ticks, kalloc_ticks. Qed.
Lemma q_fallible : keeps I (fallible e).
Proof. apply keeps_ticks, fallible_ticks. Qed.
Lemma q_resolve t rel : keeps I (smoothfs_resolve_rel_path_on_tier e t rel).
Proof. apply keeps_ticks. by intros w r w' [? _]%tier_resolve_spec. Qed.
Lemma q_on_sb f : (forall sbi, same_pool sbi (f sbi)) -> keeps I (on_sb f).
Proof. intros Hf w r w' H [= _ <-]. by eapply quiet_closed; [apply quiet_of_sb|]. Qed.
Lemma q_update_inode i f : keeps I (update_inode i f).
Proof.
  intros w r w' H. unfold update_inode, mbind_ns, get_inode.
  destruct (inodes (nw_sb w) !! i); intros [= _ <-]; [|done].
  eapply quiet_closed; [apply quiet_of_sb|exact H]. by apply same_pool_eq.
Qed.
Lemma q_iget fresh p : keeps I (iget e fresh p).
Proof.
  intros w r w' H. unfold iget. destruct (lower (nw_sb w) !! p_dentry p); [|by intros [= _ <-]].
  destruct (smoothfs_iget _ _ _ _ _ _) as [pl r1] eqn:E. intros [= _ <-].
  eapply quiet_closed; [|exact H]. split; [done|]. exact (iget_same_pool _ _ _ _ _ _ _ E).
Qed.
Hint Resolve q_ask q_kalloc q_fallible q_resolve q_update_inode q_iget : keeps.

(** A path is replaced, and the inode stored with whatever else changed. *)
Lemma q_repath ino a q f : keeps I
  (let! sbi := get_sb in let! si := get_inode ino in
   let (sbi, si) := replace_rel_path a sbi si q in set_sb (put_inode sbi (f si))).
Proof.
  intros w r w' H. unfold mbind_ns, get_sb, get_inode. destruct (inodes (nw_sb w) !! ino) as [si|]; [|by intros [= _ <-]].
  destruct (replace_rel_path a (nw_sb w) si q) as [sbi si'] eqn:Er. intros [= _ <-].
  eapply quiet_closed; [apply quiet_of_sb|exact H]. by eapply repath_same_pool.
Qed.
Lemma q_set_placement ino rel t : keeps I (smoothfs_set_inode_placement e ino rel t).
Proof.
  unfold smoothfs_set_inode_placement. apply keeps_bind; [destruct rel; auto with keeps|intros _].
  apply keeps_bind; [auto with keeps|]. intros a. apply (q_repath ino a rel (mark_placed t)).
Qed.
Lemma q_rel_path p : keeps I (smoothfs_rel_path_from_dentry e p).
Proof. unfold smoothfs_rel_path_from_dentry. keep. Qed.
Hint Resolve q_rel_path : keeps.
Lemma q_rekey ino path : keeps I (rekey_moved e ino path).
Proof.
  unfold rekey_moved. apply keeps_bind; [keep|]. intros [rel|]; [|keep].
  apply keeps_bind; [keep|]. intros a. apply (q_repath ino a (Some rel) id).
Qed.
Lemma q_forget_path ino : keeps I (forget_path ino).
Proof.
  intros w r w' H. unfold forget_path, mbind_ns, get_inode, get_sb.
  destruct (inodes (nw_sb w) !! ino) as [si|]; [|by intros [= _ <-]]. destruct (rel_path si); [|by intros [= _ <-]].
  destruct (smoothfs_path_map_del (nw_sb w) si) as [sbi si'] eqn:Ed. intros [= _ <-].
  eapply quiet_closed; [apply quiet_of_sb|exact H].
  unfold smoothfs_path_map_del in Ed. repeat case_hyp Ed; injection Ed as <- _; by apply same_pool_eq.
Qed.
Lemma q_lookup_one p n : keeps I (lookup_one e p n).
Proof. unfold lookup_one. keep. Qed.
Lemma q_skip : keeps I (on_sb smoothfs_note_metadata_tier_skip).
Proof. apply q_on_sb. by intros sbi. Qed.
Hint Resolve q_set_placement q_rekey q_forget_path q_lookup_one q_skip : keeps.

Lemma q_ensure_oid ino : keeps I (smoothfs_ensure_oid_persisted e ino).
Proof.
  unfold smoothfs_ensure_oid_persisted. apply keeps_bind; [keep|]. intros si. destruct (lower_path si) as [p|]; [|keep].
  intros w r w' H. unfold mbind_ns, get_node, ask. destruct (lower (nw_sb w) !! p_dentry p) as [l|] eqn:El; [|by intros [= _ <-]].
  destruct (smoothfs_read_oid_xattr _ l) as [err|o].
  - cbn [nw_k set_field]. destruct (negb (err =? - ENODATA)); [intros [= _ <-]; by apply (quiet_closed w)|].
    match goal with |- context [smoothfs_write_oid_xattr ?b l (oid si)] =>
      pose proof (write_oid_ids b l (oid si)) as Hf; destruct (smoothfs_write_oid_xattr b l (oid si)) as [we wl] end.
    cbn [snd] in Hf.
    unfold put_node, on_sb. assert (forall w2, nw_fs w2 = nw_fs w ->
      nw_sb w2 = nw_sb w <| lower := <[p_dentry p := wl]> (lower (nw_sb w)) |> -> I w2) as Hgo.
    { intros w2 E1 E2. eapply quiet_closed; [|exact H]. split; [done|]. rewrite E2. constructor; try done.
      by eapply ids_only_insert. }
    case_goal; intros [= _ <-]; by apply Hgo.
  - intros [= _ <-]. by apply (quiet_closed w).
Qed.
Lemma q_record ino t : keeps I
  (let! si := get_inode ino in let! a := ask e in let! sbi := get_sb in
   let '(err, sbi, _) := smoothfs_placement_record (0 <=? a) (ne_now e) sbi (oid si) MS_PLACED t t false in
   let! _ := set_sb sbi in if negb (err =? 0) then fail err else ok tt).
Proof.
  apply keeps_bind; [keep|]. intros si. apply keeps_bind; [keep|]. intros a w r w' H.
  unfold mbind_ns at 1, get_sb. destruct (smoothfs_placement_record _ _ _ _ _ _ _ _) as [[err sbi] b] eqn:Er.
  assert (same_pool (nw_sb w) sbi) as Hs.
  { unfold smoothfs_placement_record in Er. repeat case_hyp Er; injection Er as _ <- _; by apply same_pool_eq. }
  unfold mbind_ns, set_sb, on_sb. pose proof (quiet_closed _ _ (quiet_of_sb w sbi Hs) H) as H'.
  destruct (negb (err =? 0)); intros [= _ <-]; exact H'.
Qed.
Hint Resolve q_ensure_oid q_record : keeps.
Lemma q_track ino rel t pin rec : keeps I (smoothfs_track_placed e ino rel t pin rec).
Proof. unfold smoothfs_track_placed. keep. Qed.
Lemma q_attach d ino : keeps I (attach d ino).
Proof. unfold attach. keep. Qed.
Lemma q_copy_attrs i d : keeps I (copy_attrs i d).
Proof. unfold copy_attrs. keep. Qed.
Lemma q_spill_note i a b : keeps I (smoothfs_spill_note_success e i a b).
Proof. unfold smoothfs_spill_note_success. keep. apply q_on_sb. intros sbi. case_goal; by apply same_pool_eq. Qed.
Lemma q_note_enospc {A} (m : M A) : keeps I m -> keeps I (note_enospc m).
Proof. intros Hm. unfold note_enospc. keep. apply q_on_sb. by intros sbi. Qed.
Lemma q_pending t : keeps I (on_sb (update_tier t (fun tr => tr <| pending_writes := pending_writes tr + 1 |>))).
Proof.
  apply q_on_sb. intros sbi. constructor; try done. cbn. apply list_eq. intros i.
  rewrite !list_lookup_fmap. destruct (decide (i = Z.to_nat t)) as [->|].
  - rewrite list_lookup_alter_eq. by destruct (tiers sbi !! _).
  - by rewrite list_lookup_alter_ne.
Qed.
Lemma q_wb_forget d : keeps I (fun w => (Ok tt, w <| nw_pool := smoothfs_oid_wb_forget (nw_pool w) d |>)).
Proof.
  intros w r w' H [= _ <-]. eapply quiet_closed; [|exact H]. split; [done|].
  unfold smoothfs_oid_wb_forget, nw_sb. cbn [nw_pool set_field]. repeat case_goal; by apply same_pool_eq.
Qed.
End Quiet.
#[export] Hint Resolve q_ask q_kalloc q_fallible q_resolve q_update_inode q_iget q_rel_path q_set_placement q_rekey
  q_forget_path q_lookup_one q_skip q_ensure_oid q_record q_track q_attach q_copy_attrs q_spill_note q_pending
  q_wb_forget : keeps.

(** ** What one inode keeps *)

Section OneInode.
Context (e : ns_env) (ino : Z) (Q : inode_info -> Prop).

(** Inode [ino] is cached and satisfies [Q]. *)
Definition inode_holds (w : nworld) : Prop :=
  keyed (nw_sb w) /\ exists si, inodes (nw_sb w) !! ino = Some si /\ Q si.

Lemma holds_on_sb f : (forall sbi, inodes (f sbi) = inodes sbi) -> keeps inode_holds (on_sb f).
Proof. intros Hf w r w' [K H] [= _ <-]. unfold inode_holds, keyed, nw_sb in *. cbn. by rewrite Hf. Qed.

Lemma holds_update i f : (forall si, i_ino (f si) = i_ino si) -> (forall si, Q si -> Q (f si)) ->
  keeps inode_holds (update_inode i f).
Proof.
  intros Hi Hq w r w' [K (si & Hsi & H)]. unfold update_inode, mbind_ns, get_inode.
  destruct (inodes (nw_sb w) !! i) as [s|] eqn:Es; intros [= _ <-]; [|split; [done|by exists si]].
  pose proof (K _ _ Es) as Hk. specialize (Hi s). unfold inode_holds, keyed, nw_sb in *. cbn. rewrite Hi, Hk. split.
  - intros j x Hx. apply lookup_insert_Some in Hx as [[<- <-]|[_ Hx]]; [congruence|by apply K].
  - destruct (decide (i = ino)) as [->|]; [exists (f s); rewrite lookup_insert_eq; split; [done|]; apply Hq; congruence|].
    exists si. by rewrite lookup_insert_ne.
Qed.
Lemma holds_update_other i f : i <> ino -> (forall si, i_ino (f si) = i_ino si) -> keeps inode_holds (update_inode i f).
Proof.
  intros Hne Hi w r w' [K (si & Hsi & H)]. unfold update_inode, mbind_ns, get_inode.
  destruct (inodes (nw_sb w) !! i) as [s|] eqn:Es; intros [= _ <-]; [|split; [done|by exists si]].
  pose proof (K _ _ Es) as Hk. specialize (Hi s). unfold inode_holds, keyed, nw_sb in *. cbn. rewrite Hi, Hk. split.
  - intros j x Hx. apply lookup_insert_Some in Hx as [[<- <-]|[_ Hx]]; [congruence|by apply K].
  - exists si. by rewrite lookup_insert_ne.
Qed.
Lemma holds_ask : keeps inode_holds (ask e).
Proof. by intros w r w' H [= _ <-]. Qed.
Lemma holds_ticks {A} (m : M A) : (forall w r w', m w = (r, w') -> ticked w w') -> keeps inode_holds m.
Proof. intros Hm w r w' H E. by destruct (Hm _ _ _ E) as [k ->]. Qed.
Lemma holds_kalloc : keeps inode_holds (kalloc e).
Proof. apply holds_ticks, kalloc_ticks. Qed.
Lemma holds_lookup_one p n : keeps inode_holds (lookup_one e p n).
Proof. apply holds_ticks, lookup_one_ticks. Qed.
Lemma holds_resolve t rel : keeps inode_holds (smoothfs_resolve_rel_path_on_tier e t rel).
Proof. apply holds_ticks. by intros w r w' [? _]%tier_resolve_spec. Qed.
End OneInode.

Section Holds.
Context (e : ns_env) (ino : Z) (Q : inode_info -> Prop).
(** [Q] looks at the backing of an inode and its cutover generation only. *)
Context (HQ : forall si si', lower_path si' = lower_path si -> cutover_gen si' = cutover_gen si -> Q si -> Q si').

Lemma iget_keeps_inodes ie fresh p l pl pl' r : smoothfs_iget ie false fresh p l pl = (pl', r) -> keyed (p_sbi pl) ->
  keyed (p_sbi pl') /\ inodes (p_sbi pl) ⊆ inodes (p_sbi pl').
Proof.
  assert (forall pl1 o g t i, keyed (p_sbi pl1) -> iget_locked ie false p l o g t i pl1 = (pl', r) ->
    keyed (p_sbi pl') /\ inodes (p_sbi pl1) ⊆ inodes (p_sbi pl')) as Hl.
  { intros pl1 o g t i K. unfold iget_locked. destruct (negb (ie_mem ie)); [by intros [= <- _]|].
    destruct (inodes (p_sbi pl1) !! i) eqn:Ei; [by intros [= <- _]|]. unfold iget_new.
    set (si := smoothfs_copy_attrs _ _). assert (i_ino si = i) as Hi by done. clearbody si.
    unfold smoothfs_oid_map_insert, smoothfs_lower_ino_map_insert. cbv zeta.
    assert (keyed (put_inode (p_sbi pl1) si) /\ inodes (p_sbi pl1) ⊆ <[i := si]> (inodes (p_sbi pl1))) as [K1 S1].
    { split; [|by apply insert_subseteq]. intros j s Hs. cbn in Hs. apply lookup_insert_Some in Hs as [[<- <-]|[_ Hs]]; [done|by apply K]. }
    rewrite <- Hi in S1. repeat case_goal; intros [= <- _]; first [by split|split; [exact K1|exact S1]]. }
  unfold smoothfs_iget. intros H K. revert H.
  assert (forall pl0 t, inodes (p_sbi pl0) = inodes (p_sbi pl) ->
    (match iget_identity ie fresh p l pl0 with
     | (pl1, Err err) => (pl1, Err err)
     | (pl1, Ok (o, g)) => iget_locked ie false p l o g t (smoothfs_inode_no_from_oid (ie_xxh64 ie) o) pl1
     end) = (pl', r) -> keyed (p_sbi pl') /\ inodes (p_sbi pl) ⊆ inodes (p_sbi pl')) as Hslow.
  { intros pl0 t E0. destruct (iget_identity ie fresh p l pl0) as [pl1 [err|[o g]]] eqn:Eid;
      apply identity_frame in Eid as (_ & _ & _ & _ & E1 & _); rewrite E0 in E1; unfold keyed in *.
    - intros [= <- _]. by rewrite E1.
    - intros [A B]%Hl; unfold keyed; rewrite E1 in *; [by split|done]. }
  cbv zeta. destruct (if _ =? 0 then _ else _) as [s|]; [|by apply Hslow].
  destruct (backing_matches s p); [by intros [= <- _]|]. apply Hslow. cbn.
  match goal with |- context [smoothfs_lower_ino_map_remove ?a ?b ?c] =>
    destruct (lower_ino_remove_frame a b c) as (_&_&_&_&F5&_) end. done.
Qed.

Lemma holds_iget fresh p : keeps (inode_holds ino Q) (iget e fresh p).
Proof.
  intros w r w' [K (si & Hsi & H)]. unfold iget. destruct (lower (nw_sb w) !! p_dentry p) as [l|]; [|intros [= _ <-]; split; [done|by exists si]].
  destruct (smoothfs_iget _ _ _ _ _ _) as [pl r1] eqn:E. intros [= _ <-].
  apply iget_keeps_inodes in E as [K' S]; [|done]. split; [done|]. exists si. split; [by eapply lookup_weaken|done].
Qed.

Lemma holds_repath i a q f : (forall si, i_ino (f si) = i_ino si /\ lower_path (f si) = lower_path si /\ cutover_gen (f si) = cutover_gen si) ->
  keeps (inode_holds ino Q)
    (let! sbi := get_sb in let! si := get_inode i in
     let (sbi, si) := replace_rel_path a sbi si q in set_sb (put_inode sbi (f si))).
Proof.
  intros Hf w r w' [K (si & Hsi & H)]. unfold mbind_ns, get_sb, get_inode.
  destruct (inodes (nw_sb w) !! i) as [s|] eqn:Es; [|intros [= _ <-]; split; [done|by exists si]].
  destruct (replace_rel_path a (nw_sb w) s q) as [sbi s'] eqn:Er. pose proof (K _ _ Es) as Hk.
  assert (cutover_gen s' = cutover_gen s) as Hg.
  { revert Er. unfold replace_rel_path, smoothfs_path_map_del, smoothfs_path_map_add. repeat case_goal; by intros [= _ <-]. }
  apply replace_rel_path_frame in Er as (F1 & _ & F3 & _ & F5 & _). destruct (Hf s') as (G1 & G2 & G3). intros [= _ <-].
  assert (forall j x, inodes (put_inode sbi (f s')) !! j = Some x -> j = i /\ x = f s' \/ j <> i /\ inodes (nw_sb w) !! j = Some x) as Hin.
  { intros j x. cbn. rewrite G1, F3, Hk, F1. intros [[<- <-]|[? ?]]%lookup_insert_Some; [by left|right; by split]. }
  split.
  - intros j x [[-> ->]|[_ ?]]%Hin; [congruence|by apply K].
  - unfold nw_sb at 1. cbn -[put_inode]. unfold put_inode. cbn. rewrite G1, F3, Hk, F1.
    destruct (decide (i = ino)) as [->|]; [|exists si; by rewrite lookup_insert_ne].
    exists (f s'). rewrite lookup_insert_eq. split; [done|]. rewrite Hsi in Es. injection Es as <-. by eapply HQ; [..|exact H]; congruence.
Qed.

Lemma holds_put_node d l : keeps (inode_holds ino Q) (put_node d l).
Proof. by apply holds_on_sb. Qed.
Lemma holds_on_fs f : keeps (inode_holds ino Q) (on_fs f).
Proof. by intros w r w' H [= _ <-]. Qed.
Lemma holds_fallible : keeps (inode_holds ino Q) (fallible e).
Proof. apply holds_ticks, fallible_ticks. Qed.
Lemma holds_update_inode i f : (forall si, i_ino (f si) = i_ino si /\ lower_path (f si) = lower_path si /\ cutover_gen (f si) = cutover_gen si) ->
  keeps (inode_holds ino Q) (update_inode i f).
Proof.
  intros Hf. apply holds_update; [apply Hf|]. intros si. destruct (Hf si) as (_ & E1 & E2). by apply HQ.
Qed.
Hint Resolve holds_iget holds_put_node holds_on_fs holds_fallible holds_ask holds_kalloc holds_lookup_one holds_resolve
  holds_update_inode : keeps.

Lemma holds_set_placement i rel t : keeps (inode_holds ino Q) (smoothfs_set_inode_placement e i rel t).
Proof.
  unfold smoothfs_set_inode_placement. apply keeps_bind; [destruct rel; auto with keeps|intros _].
  apply keeps_bind; [auto with keeps|]. intros a. by apply (holds_repath i a rel (mark_placed t)).
Qed.
Lemma holds_ensure_oid i : keeps (inode_holds ino Q) (smoothfs_ensure_oid_persisted e i).
Proof. unfold smoothfs_ensure_oid_persisted. keep. Qed.

Lemma record_inodes alloc now sbi o s c i b : inodes (snd (fst (smoothfs_placement_record alloc now sbi o s c i b))) = inodes sbi.
Proof. unfold smoothfs_placement_record. repeat case_goal; done. Qed.

Lemma holds_record i t : keeps (inode_holds ino Q)
  (let! si := get_inode i in let! a := ask e in let! sbi := get_sb in
   let '(err, sbi, _) := smoothfs_placement_record (0 <=? a) (ne_now e) sbi (oid si) MS_PLACED t t false in
   let! _ := set_sb sbi in if negb (err =? 0) then fail err else ok tt).
Proof.
  apply keeps_bind; [keep|]. intros si. apply keeps_bind; [keep|]. intros a w r w' H.
  unfold mbind_ns at 1, get_sb. pose proof (record_inodes (0 <=? a) (ne_now e) (nw_sb w) (oid si) MS_PLACED t t false) as E.
  destruct (smoothfs_placement_record _ _ _ _ _ _ _ _) as [[err sbi] b]. cbn in E.
  assert (inode_holds ino Q (w <| nw_pool := nw_pool w <| p_sbi := sbi |> |>)) as H'.
  { destruct H as [K H]. unfold inode_holds, keyed, nw_sb in *. cbn. by rewrite E. }
  unfold mbind_ns, set_sb, on_sb. destruct (negb (err =? 0)); intros [= _ <-]; exact H'.
Qed.
Hint Resolve holds_set_placement holds_ensure_oid holds_record : keeps.
Lemma holds_track i rel t pin rec : keeps (inode_holds ino Q) (smoothfs_track_placed e i rel t pin rec).
Proof. unfold smoothfs_track_placed. keep. Qed.
Hint Resolve holds_track : keeps.
Lemma holds_vfs_make ty n p name perm : keeps (inode_holds ino Q) (vfs_make e ty n p name perm).
Proof. unfold vfs_make, new_node. keep. Qed.
Hint Resolve holds_vfs_make : keeps.
Lemma holds_materialize t rel : keeps (inode_holds ino Q) (smoothfs_materialize_parent_on_tier e t rel).
Proof.
  assert (forall comps built cur, keeps (inode_holds ino Q) (materialize_loop e t comps built cur)) as Hm.
  { induction comps as [|c comps IH]; intros built cur; cbn [materialize_loop]; unfold vfs_mkdir; keep. }
  unfold smoothfs_materialize_parent_on_tier. keep.
Qed.
End Holds.
