(* ===== verification/Creation.v ===== *)
(** * Creation: what smoothfs_create does to the trees of src/src/smoothfs/inode.c

    A creation never replaces or removes a name; it makes the parent's chain of
    directories on the tier that takes the file, and the file is then found
    under its path on that tier. *)
From S2P Require Import Prelude Types Oid Tiers KernelIO PlacementLog InodeMaps LowerFs Movement PathIndex Namespace Lookup NsWorld Dir NamespaceInv Quiet.

(** ** Creation only adds *)

(** Node numbers in use are below the next one; a node with a
    link target is a symbolic link. *)
Record fresh_ok (w : nworld) : Prop := FreshOk {
  fr_next : forall d, is_Some (lower (nw_sb w) !! d) -> d < lf_next (nw_fs w);
  fr_link : forall d x, lf_link (nw_fs w) !! d = Some x ->
    exists l, lower (nw_sb w) !! d = Some l /\ l_type l = FT_LNK;
}.

(** Every name and every node of [w0] is still there, nodes differ at most in
    their identity xattrs, and new names lead to new nodes. *)
Record grown (w0 w : nworld) : Prop := Grown {
  gr_fresh : fresh_ok w;
  gr_ent : lf_ent (nw_fs w0) ⊆ lf_ent (nw_fs w);
  gr_node : forall d l, lower (nw_sb w0) !! d = Some l ->
    exists l', lower (nw_sb w) !! d = Some l' /\ forget_ids l' = forget_ids l;
  gr_new : forall k x, lf_ent (nw_fs w) !! k = Some x -> lf_ent (nw_fs w0) !! k = Some x \/ lf_next (nw_fs w0) <= x;
  gr_next : lf_next (nw_fs w0) <= lf_next (nw_fs w);
  gr_ntiers : ntiers (nw_sb w) = ntiers (nw_sb w0);
  gr_fastest : fastest_tier (nw_sb w) = fastest_tier (nw_sb w0);
  gr_pct : write_staging_full_pct (nw_sb w) = write_staging_full_pct (nw_sb w0);
  gr_paths : t_path <$> tiers (nw_sb w) = t_path <$> tiers (nw_sb w0);
}.

Lemma forget_ids_fields l l' : forget_ids l' = forget_ids l ->
  l_type l' = l_type l /\ l_perm l' = l_perm l /\ l_nlink l' = l_nlink l /\ l_size l' = l_size l.
Proof. destruct l, l'. unfold forget_ids. cbn. intros [= -> -> -> -> -> _]. done. Qed.

#[export] Instance fresh_ok_quiet : QuietClosed fresh_ok.
Proof.
  intros w w' [F S] [H1 H2]. constructor; rewrite F.
  - intros d [l' Hl]. destruct (same_pool_back _ _ _ _ S Hl) as (l & Hl' & _). apply H1. by rewrite Hl'.
  - intros d x Hx. destruct (H2 _ _ Hx) as (l & Hl & Hd). destruct (same_pool_lookup _ _ _ _ S Hl) as (l' & Hl' & E).
    exists l'. split; [done|]. by apply forget_ids_fields in E as (-> & _).
Qed.

#[export] Instance grown_quiet w0 : QuietClosed (grown w0).
Proof.
  intros w w' Q G. pose proof Q as [F S]. destruct G as [G1 G2 G3 Gn G4 G5 Gf G6 G7].
  constructor; rewrite ?F; try done.
  - by apply (fresh_ok_quiet w).
  - intros d l Hl. destruct (G3 _ _ Hl) as (l1 & H1 & E1). destruct (same_pool_lookup _ _ _ _ S H1) as (l2 & H2 & E2).
    exists l2. split; [done|congruence].
  - rewrite <- G5. by apply sp_ntiers.
  - rewrite <- Gf. by apply sp_fastest.
  - rewrite <- G6. by apply sp_pct.
  - rewrite <- G7. by apply sp_paths.
Qed.

Lemma grown_refl w : fresh_ok w -> grown w w.
Proof. intros H. constructor; try done; [intros d l Hl; by exists l|by left]. Qed.
Lemma grown_trans w1 w2 w3 : grown w1 w2 -> grown w2 w3 -> grown w1 w3.
Proof.
  intros [A1 A2 A3 An A4 A5 Af A6 A7] [B1 B2 B3 Bn B4 B5 Bf B6 B7]. constructor; try congruence; [by etransitivity| | |lia].
  - intros d l Hl. destruct (A3 _ _ Hl) as (l1 & H1 & E1). destruct (B3 _ _ H1) as (l2 & H2 & E2).
    exists l2. split; [done|congruence].
  - intros k x Hx. destruct (Bn _ _ Hx) as [H|H]; [by apply An|right; lia].
Qed.

(** What a successful creation of a node does. *)
Lemma vfs_make_spec e ty nlink parent name perm w r w' : fresh_ok w ->
  vfs_make e ty nlink parent name perm w = (r, w') ->
  grown w w' /\ inodes (nw_sb w') = inodes (nw_sb w) /\
  match r with
  | Err _ => nw_fs w' = nw_fs w
  | Ok d => lf_ent (nw_fs w) !! (parent, name) = None /\ lower (nw_sb w) !! d = None
      /\ lf_ent (nw_fs w') !! (parent, name) = Some d
      /\ exists l, lower (nw_sb w') !! d = Some l /\ l_type l = ty /\ l_perm l = perm /\ l_nlink l = nlink
  end.
Proof.
  intros Hf. unfold vfs_make, mbind_ns at 1. destruct (fallible e w) as [[err|u] w1] eqn:Ef;
    pose proof (fallible_ticks _ _ _ _ Ef) as [k ->]; clear Ef.
  { intros [= <- <-]. split; [by apply (quiet_closed w); [|apply grown_refl]|done]. }
  unfold mbind_ns at 1, getw. cbn [nw_fs set_field].
  assert (grown w (w <| nw_k := k |>)) as G1 by (apply (quiet_closed w); [by split|by apply grown_refl]).
  destruct (lf_ent (nw_fs w) !! (parent, name)) as [x|] eqn:Ee; [by intros [= <- <-]|].
  clear G1.
  assert (lower (nw_sb w) !! lf_next (nw_fs w) = None) as Hfree.
  { destruct (lower (nw_sb w) !! lf_next (nw_fs w)) as [l|] eqn:El; [|done].
    pose proof (fr_next w Hf (lf_next (nw_fs w))) as Hn. rewrite El in Hn. specialize (Hn ltac:(done)). lia. }
  unfold new_node, mbind_ns, getw, put_node, on_sb, on_fs, ok, nw_sb in *. cbn.
  set (l := LNode _ _ _ _ _ _ _ _). intros H. injection H as <- <-. cbn.
  assert (l_type l = ty /\ l_perm l = perm /\ l_nlink l = nlink) as Hl by done. clearbody l.
  split_and!; [|done|done|done|by rewrite lookup_insert_eq|exists l; by rewrite lookup_insert_eq].
  constructor; unfold nw_sb; cbn; try done.
  - constructor; unfold nw_sb; cbn.
    + intros d [l' H]. apply lookup_insert_Some in H as [[<- _]|[_ H]]; [lia|].
      pose proof (fr_next w Hf d) as Hn. unfold nw_sb in Hn. rewrite H in Hn. specialize (Hn ltac:(done)). lia.
    + intros d x Hx. destruct (fr_link w Hf d x Hx) as (l' & H & Hd). exists l'. split; [|done].
      rewrite lookup_insert_ne; [done|]. intros <-. unfold nw_sb in H. congruence.
  - by apply insert_subseteq.
  - intros d l' H. exists l'. split; [|done]. rewrite lookup_insert_ne; [done|]. intros <-. congruence.
  - intros k' x Hx. apply lookup_insert_Some in Hx as [[_ <-]|[_ Hx]]; [right; lia|by left].
  - lia.
Qed.

Section Create.
Context (e : ns_env) (Hsane : sane e).

Lemma keeps_grown_make w0 ty n p name perm : keeps (grown w0) (vfs_make e ty n p name perm).
Proof.
  intros w r w' G E. apply vfs_make_spec in E as (G' & _); [|by apply (gr_fresh w0)]. by eapply grown_trans.
Qed.
Local Hint Resolve keeps_grown_make : keeps.

Lemma keeps_grown_materialize_loop w0 t comps : forall built cur, keeps (grown w0) (materialize_loop e t comps built cur).
Proof. induction comps as [|c comps IH]; intros built cur; cbn [materialize_loop]; unfold vfs_mkdir; keep. Qed.
Local Hint Resolve keeps_grown_materialize_loop : keeps.
Lemma keeps_grown_materialize w0 t rel : keeps (grown w0) (smoothfs_materialize_parent_on_tier e t rel).
Proof. unfold smoothfs_materialize_parent_on_tier. keep. Qed.
Local Hint Resolve keeps_grown_materialize : keeps.
Lemma keeps_grown_parent w0 dir t pt rel : keeps (grown w0) (parent_on_tier e dir t pt rel).
Proof. unfold parent_on_tier. keep. Qed.
Local Hint Resolve keeps_grown_parent : keeps.

(** *** The chain of directories *)

Definition is_dir (w : nworld) (d : Z) : Prop :=
  exists l, lower (nw_sb w) !! d = Some l /\ S_ISDIR (l_type l) = true.

(** From [cur] the components name directories, one in the other, down to [d]. *)
Fixpoint chain (w : nworld) (cur : Z) (comps : list string) (d : Z) : Prop :=
  match comps with
  | [] => cur = d
  | c :: comps =>
      if str_empty c then chain w cur comps d
      else exists x, lf_ent (nw_fs w) !! (cur, c) = Some x /\ is_dir w x /\ chain w x comps d
  end.

Lemma is_dir_grown w0 w d : grown w0 w -> is_dir w0 d -> is_dir w d.
Proof.
  intros G (l & Hl & Hd). destruct (gr_node _ _ G _ _ Hl) as (l' & Hl' & E). exists l'. split; [done|].
  by apply forget_ids_fields in E as (-> & _).
Qed.
Lemma chain_grown w0 w comps : grown w0 w -> forall cur d, chain w0 cur comps d -> chain w cur comps d.
Proof.
  intros G. induction comps as [|c comps IH]; intros cur d; cbn [chain]; [done|].
  destruct (str_empty c); [apply IH|]. intros (x & Hx & Hd & H). exists x.
  split; [by eapply lookup_weaken, (gr_ent w0)|]. split; [by apply (is_dir_grown w0)|by apply IH].
Qed.
Lemma chain_is_dir w comps : forall cur d, is_dir w cur -> chain w cur comps d -> is_dir w d.
Proof.
  induction comps as [|c comps IH]; intros cur d Hc; cbn [chain]; [by intros <-|].
  destruct (str_empty c); [by apply IH|]. intros (x & _ & Hx & H). by apply (IH x).
Qed.

(** Walking the path takes the same way. *)
Lemma chain_walk w root links comps : fresh_ok w -> Forall (fun c => str_empty c = true \/ plain_name c) comps ->
  forall at0 cur d, is_dir w cur -> chain w cur comps d ->
  exists at1, path_walk (nw_fs w) (lower (nw_sb w)) root links at0 cur comps = Ok (at1, d).
Proof.
  intros Hf Hp. induction Hp as [|c comps Hc Hp IH]; intros at0 cur d Hcur.
  { cbn [chain]. intros <-. exists at0. by destruct links. }
  cbn [chain].
  destruct Hc as [He|(N1 & N2 & N3)].
  - rewrite He. intros H. destruct (IH at0 cur d Hcur H) as [at1 E]. exists at1.
    assert (c = EmptyString) as -> by by destruct c. by destruct links.
  - destruct (str_empty c) eqn:He; [by destruct c|]. intros (x & Hx & Hd & H).
    destruct (IH (LDentry cur c (Some x)) x d Hd H) as [at1 E]. exists at1. rewrite <- E.
    destruct Hcur as (lc & Hlc & Hdc).
    assert (lf_link (nw_fs w) !! x = None) as Hl.
    { destruct (lf_link (nw_fs w) !! x) as [y|] eqn:El; [|done]. destruct (fr_link w Hf _ _ El) as (l & H1 & H2).
      destruct Hd as (l2 & H3 & H4). rewrite H1 in H3. injection H3 as <-. by rewrite H2 in H4. }
    destruct links; simpl; rewrite !bool_decide_eq_false_2 by done; cbn [orb]; by rewrite Hlc, Hdc, Hx, Hl.
Qed.

Lemma materialize_chain t comps : forall built cur w p w',
  fresh_ok w -> is_dir w (p_dentry cur) -> materialize_loop e t comps built cur w = (Ok p, w') ->
  p_mnt p = p_mnt cur /\ chain w' (p_dentry cur) comps (p_dentry p).
Proof.
  induction comps as [|c comps IH]; intros built cur w p w' Hf Hcur; cbn [materialize_loop chain].
  { by intros [= <- _]. }
  destruct (str_empty c); [by apply IH|]. intros H.
  apply bind_ok in H as (u & w1 & H1 & H). pose proof (q_kalloc e (grown w) _ _ _ (grown_refl w Hf) H1) as G1.
  apply bind_ok in H as (child & w2 & H2 & H). pose proof (q_lookup_one e (grown w) _ _ _ _ _ G1 H2) as G2.
  assert (child = lf_ent (nw_fs w2) !! (p_dentry cur, c)) as ->.
  { unfold lookup_one, mbind_ns in H2. destruct (fallible e w1) as [[?|?] ?]; [done|]. by injection H2 as <- <-. }
  apply bind_ok in H as ([d created] & w3 & H3 & H).
  assert (grown w w3 /\ lf_ent (nw_fs w3) !! (p_dentry cur, c) = Some d) as [G3 Hd].
  { destruct (lf_ent (nw_fs w2) !! (p_dentry cur, c)) as [x|] eqn:Ex; [by injection H3 as <- _ <-|].
    apply bind_ok in H3 as (d1 & w4 & H3 & H4). injection H4 as <- _ <-.
    apply vfs_make_spec in H3 as (G & _ & _ & _ & Hd & _); [|by apply (gr_fresh w)].
    split; [by eapply grown_trans|done]. }
  apply bind_ok in H as (l & w4 & H4 & H). apply get_node_ok in H4 as [-> Hl].
  destruct (S_ISDIR (l_type l)) eqn:El; cbn [negb] in H; [|discriminate H].
  apply bind_ok in H as (u2 & w5 & H5 & H).
  assert (grown w3 w5) as G5.
  { revert H5. pose proof (grown_refl w3 (gr_fresh _ _ G3)) as G. destruct created; [|by intros [= _ <-]].
    assert (keeps (grown w3) (let! ino := iget e true (Path (p_mnt cur) d) in
      smoothfs_track_placed e ino (Some match built with Some b => (b ++ "/" ++ c)%string | None => c end) t true true))
      as K by keep.
    intros H5. by apply K in H5. }
  assert (is_dir w3 d) as Hd3 by by exists l. pose proof (is_dir_grown _ _ _ G5 Hd3) as Hd5.
  destruct (IH _ (Path (p_mnt cur) d) _ _ _ (gr_fresh _ _ G5) Hd5 H) as [E1 E2].
  split; [exact E1|]. exists d.
  pose proof (keeps_grown_materialize_loop w5 t comps _ _ _ _ _ (grown_refl w5 (gr_fresh _ _ G5)) H) as G6.
  pose proof (grown_trans _ _ _ G5 G6) as G.
  split; [by eapply lookup_weaken, (gr_ent w3)|]. split; [by apply (is_dir_grown w3)|exact E2].
Qed.

(** *** The inode of the new file *)

(** PLACED on tier [t] under path [rel], no transaction, not yet written. *)
Definition newly_placed (rel : string) (t : Z) (si : inode_info) : Prop :=
  rel_path si = Some rel /\ current_tier si = t /\ intended_tier si = t /\ ms si = MS_PLACED /\ transaction_seq si = 0.

Lemma set_placement_places ino rel t w r w' : keyed (nw_sb w) ->
  smoothfs_set_inode_placement e ino (Some rel) t w = (Ok r, w') -> inode_holds ino (newly_placed rel t) w'.
Proof.
  intros K H. unfold smoothfs_set_inode_placement in H. apply bind_ok in H as (u & w1 & H1 & H).
  apply kalloc_ticks in H1 as [k ->]. apply bind_ok in H as (a & w2 & [= <- <-] & H).
  apply bind_ok in H as (sbi & w3 & [= <- <-] & H). apply bind_ok in H as (si & w4 & H4 & H).
  apply get_inode_ok in H4 as [-> Hsi]. cbn in Hsi.
  destruct (replace_rel_path _ _ si (Some rel)) as [sbi' si'] eqn:Er.
  apply replace_rel_path_frame in Er as (F1 & _ & F3 & _ & _ & F6). injection H as _ <-.
  pose proof (K _ _ Hsi) as Hk. assert (newly_placed rel t (mark_placed t si')) as Hn by done.
  assert (i_ino (mark_placed t si') = ino) as Hi by (cbn; congruence).
  unfold nw_sb in *. cbn in F1. set (s2 := mark_placed t si') in *. clearbody s2.
  unfold inode_holds, keyed, nw_sb. cbn. rewrite F1, Hi. split.
  - intros j x Hx. apply lookup_insert_Some in Hx as [[<- <-]|[_ Hx]]; [done|by apply K].
  - exists s2. by rewrite lookup_insert_eq.
Qed.

Lemma create_finish_holds dir d pp node ino t pt b rel w d' w' : inode_holds ino (newly_placed rel t) w ->
  create_finish e dir d pp node ino t pt b w = (Ok d', w') ->
  inode_holds ino (fun si => newly_placed rel t si /\ write_reservation si = 1) w'
  /\ d' = Dentry (d_path d) (Some ino) (Some (LDentry (p_dentry pp) (d_name d) (Some node))).
Proof.
  intros H Hc. unfold create_finish in Hc. apply bind_ok in Hc as (u & w1 & H1 & Hc).
  set (Q := fun si => newly_placed rel t si /\ write_reservation si = 1).
  assert (inode_holds ino Q w1) as H1'.
  { destruct H as [K (si & Hsi & Hp)]. unfold update_inode, mbind_ns, get_inode in H1. rewrite Hsi in H1.
    injection H1 as _ <-. pose proof (K _ _ Hsi) as Hk. unfold inode_holds, keyed, nw_sb in *. cbn. rewrite Hk. split.
    - intros j x Hx. apply lookup_insert_Some in Hx as [[<- <-]|[_ Hx]]; [done|by apply K].
    - eexists. rewrite lookup_insert_eq. split; [done|]. by split. }
  assert (forall w2 w3, inode_holds ino Q w2 ->
    (let! d1 := attach (smoothfs_set_lower_dentry d (Some (LDentry (p_dentry pp) (d_name d) (Some node)))) ino in
     let! _ := copy_attrs dir (p_dentry pp) in ok d1) w2 = (Ok d', w3) ->
    inode_holds ino Q w3 /\ d' = Dentry (d_path d) (Some ino) (Some (LDentry (p_dentry pp) (d_name d) (Some node)))) as Hfin.
  { intros w2 w3 H2 E. apply bind_ok in E as (d1 & w4 & E1 & E). unfold attach in E1.
    apply bind_ok in E1 as (u1 & w5 & E1 & E2). injection E2 as <- <-.
    apply holds_update with (ino := ino) (Q := Q) in E1; [|done|by intros|done].
    apply bind_ok in E as (u2 & w6 & E & E3). injection E3 as <- <-. split; [|done]. unfold copy_attrs in E.
    apply bind_ok in E as (l & w7 & E & E4). apply get_node_ok in E as [-> _].
    by apply holds_update with (ino := ino) (Q := Q) in E4; [|done|by intros|]. }
  apply bind_ok in Hc as (u1 & w2 & H2 & Hc). apply holds_on_sb with (ino := ino) (Q := Q) in H2; [|by intros|done].
  apply bind_ok in Hc as (u2 & w3 & H3 & Hc). apply (Hfin w3); [|exact Hc].
  destruct b; [|by injection H3 as _ <-]. unfold smoothfs_spill_note_success in H3.
  apply bind_ok in H3 as (si & w4 & H3 & H4). apply get_inode_ok in H3 as [-> _].
  apply bind_ok in H4 as (a & w4 & H4 & H5). apply (holds_ask e ino Q _ _ _ H2) in H4.
  apply holds_on_sb with (ino := ino) (Q := Q) in H5; [done| |done]. intros sbi. by case_goal.
Qed.

(** *** The tier that takes the file *)

(** The tiers are rooted in directories. *)
Definition roots_ok (w : nworld) : Prop :=
  forall t tr, tier_at (nw_sb w) t = Some tr -> is_dir w (p_dentry (t_path tr)).

(** Inode [dir] is backed by [lp]. *)
Definition dir_backed (dir : Z) (lp : option path) : nworld -> Prop := inode_holds dir (fun si => lower_path si = lp).

(** The directory of tier [t] that is to hold the new name: on the tier [pt] of
    the parent the parent's backing [lp], elsewhere the one at its path. *)
Definition parent_found (w : nworld) (lp : option path) (t pt : Z) (prel : string) (pp : path) : Prop :=
  if t =? pt then lp = Some pp
  else exists tr, tier_at (nw_sb w) t = Some tr /\ p_mnt pp = p_mnt (t_path tr)
       /\ chain w (p_dentry (t_path tr)) (rel_comps prel) (p_dentry pp).

Lemma tier_at_grown w0 w t tr : grown w0 w -> tier_at (nw_sb w0) t = Some tr ->
  exists tr', tier_at (nw_sb w) t = Some tr' /\ t_path tr' = t_path tr.
Proof.
  intros G. unfold tier_at. destruct (t <? 0); [done|]. intros H.
  pose proof (f_equal (lookup (Z.to_nat t)) (gr_paths _ _ G)) as E. rewrite !list_lookup_fmap, H in E.
  destruct (tiers (nw_sb w) !! _) as [tr'|]; [|done]. apply (inj Some) in E. by exists tr'.
Qed.

Lemma roots_grown w0 w : grown w0 w -> roots_ok w0 -> roots_ok w.
Proof.
  intros G H t tr. unfold tier_at. destruct (t <? 0) eqn:Et; [done|]. intros Ht.
  pose proof (f_equal (lookup (Z.to_nat t)) (gr_paths _ _ G)) as E. rewrite !list_lookup_fmap, Ht in E.
  destruct (tiers (nw_sb w0) !! Z.to_nat t) as [tr0|] eqn:E0; [|done]. apply (inj Some) in E. rewrite E.
  apply (is_dir_grown w0); [done|]. apply (H t). unfold tier_at. by rewrite Et.
Qed.

Lemma dir_backed_parent dir lp t pt prel : keeps (dir_backed dir lp) (parent_on_tier e dir t pt prel).
Proof.
  assert (forall si si', lower_path si' = lower_path si -> cutover_gen si' = cutover_gen si ->
    lower_path si = lp -> lower_path si' = lp) as HQ by congruence.
  unfold parent_on_tier, dir_backed. case_goal; [by apply holds_materialize|keep].
Qed.

(** What was made or found is the directory at the path. *)
Lemma materialized_chain t prel w pp w' : fresh_ok w -> roots_ok w ->
  smoothfs_materialize_parent_on_tier e t prel w = (Ok pp, w') ->
  exists tr, tier_at (nw_sb w') t = Some tr /\ p_mnt pp = p_mnt (t_path tr)
    /\ chain w' (p_dentry (t_path tr)) (rel_comps prel) (p_dentry pp).
Proof.
  intros Hf Hr H. pose proof (keeps_grown_materialize w _ _ _ _ _ (grown_refl w Hf) H) as G.
  unfold smoothfs_materialize_parent_on_tier in H. apply bind_ok in H as (sbi & w1 & [= <- <-] & H).
  destruct (tier_at (nw_sb w) t) as [tr|] eqn:Et; [|discriminate H].
  destruct (tier_at_grown _ _ _ _ G Et) as (tr' & Et' & Ep'). exists tr'. split; [done|]. rewrite Ep'.
  destruct (str_empty prel) eqn:Ep; [injection H as <- <-; by destruct prel|].
  apply bind_ok in H as (u & w2 & H2 & H). pose proof (q_kalloc e (grown w) _ _ _ (grown_refl w Hf) H2) as G2.
  apply (materialize_chain t _ _ _ _ _ _ (gr_fresh _ _ G2) (is_dir_grown _ _ _ G2 (Hr _ _ Et)) H).
Qed.

Lemma parent_on_tier_found dir lp t pt prel w pp w' : fresh_ok w -> roots_ok w -> dir_backed dir lp w ->
  parent_on_tier e dir t pt prel w = (Ok pp, w') -> parent_found w' lp t pt prel pp.
Proof.
  intros Hf Hr [_ (dsi & Hdsi & Hlp)] H. unfold parent_on_tier in H. unfold parent_found. destruct (t =? pt); cbn [negb] in H.
  { apply bind_ok in H as (si & w1 & H1 & H). apply get_inode_ok in H1 as [-> Hsi].
    destruct (lower_path si) as [p|] eqn:Ep; [|discriminate H]. injection H as <- <-. congruence. }
  by apply (materialized_chain t _ w).
Qed.

(** The inode is attached and placed. *)
Lemma track_places ino rel t w u w' : keyed (nw_sb w) ->
  smoothfs_track_placed e ino (Some rel) t false false w = (Ok u, w') -> inode_holds ino (newly_placed rel t) w'.
Proof.
  intros K H. unfold smoothfs_track_placed in H. apply bind_ok in H as (u1 & w1 & H1 & H).
  apply bind_ok in H as (u2 & w2 & [= _ <-] & H). injection H as _ <-. by eapply set_placement_places.
Qed.

Lemma keeps_grown_tail w0 dir d rel pp node t pt b : keeps (grown w0)
  (let! ino := iget e true (Path (p_mnt pp) node) in
   let! _ := smoothfs_track_placed e ino (Some rel) t false false in
   create_finish e dir d pp node ino t pt b).
Proof. unfold create_finish. keep. Qed.

Lemma parent_found_ticked w w' lp t pt prel pp : fresh_ok w -> ticked w w' ->
  parent_found w lp t pt prel pp -> parent_found w' lp t pt prel pp.
Proof.
  intros Hf [k ->]. unfold parent_found. destruct (t =? pt); [done|]. intros (tr & A & B & C). exists tr.
  split; [done|]. split; [done|]. apply (chain_grown w); [|done]. apply (quiet_closed w); [by split|by apply grown_refl].
Qed.

(** What [create_loop] achieves when it succeeds on one of the tiers [ts]:
    [w1] and [w2] are the worlds before and after the lower file is made. *)
Definition file_made (w0 : nworld) (lp : option path) (d : dentry) (mode : Z) (rel prel : string) (pt : Z) (ts : list Z)
    (d' : dentry) (w' : nworld) : Prop :=
  exists t pp node ino w1 w2,
    t ∈ ts /\ (t = ntiers (nw_sb w0) - 1 \/ smoothfs_tier_near_enospc (ne_statfs e) (nw_sb w0) t = false)
    /\ grown w0 w1 /\ parent_found w1 lp t pt prel pp
    /\ vfs_create e (p_dentry pp) (d_name d) mode w1 = (Ok node, w2) /\ grown w2 w'
    /\ inode_holds ino (fun si => newly_placed rel t si /\ write_reservation si = 1) w'
    /\ d' = Dentry (d_path d) (Some ino) (Some (LDentry (p_dentry pp) (d_name d) (Some node))).

Lemma file_made_later w0 lp d mode rel prel pt t ts d' w' :
  file_made w0 lp d mode rel prel pt ts d' w' -> file_made w0 lp d mode rel prel pt (t :: ts) d' w'.
Proof. intros (t0 & pp & node & ino & w1 & w2 & Ht & H). exists t0, pp, node, ino, w1, w2. split; [by right|exact H]. Qed.

Lemma create_loop_places dir lp d mode rel prel pt st w0 ts : roots_ok w0 -> forall fb err w d' w',
  grown w0 w -> cache_ok (nw_sb w) -> dir_backed dir lp w -> create_loop e dir d mode rel prel pt st ts fb err w = (Ok d', w') ->
  file_made w0 lp d mode rel prel pt ts d' w'.
Proof.
  intros Hroots. induction ts as [|t ts IH]; intros fb err w d' w' G K B H; [discriminate H|]. cbn [create_loop] in H.
  assert (forall fb err w, grown w0 w -> cache_ok (nw_sb w) -> dir_backed dir lp w ->
    create_loop e dir d mode rel prel pt st ts fb err w = (Ok d', w') ->
    file_made w0 lp d mode rel prel pt (t :: ts) d' w') as Hgo
    by (intros fb1 err1 w1 G1 K1 B1 H1; by eapply file_made_later, IH).
  apply bind_ok in H as (sbi & w1 & [= <- <-] & H).
  destruct (negb (t =? ntiers (nw_sb w) - 1) && smoothfs_tier_near_enospc (ne_statfs e) (nw_sb w) t) eqn:Enear.
  { by apply Hgo in H. }
  apply bind_ok in H as (r & w1 & Hr & H). unfold attempt in Hr.
  destruct (parent_on_tier e dir t pt prel w) as [r1 w1'] eqn:Ep. injection Hr as <- <-.
  pose proof (keeps_grown_parent w0 _ _ _ _ _ _ _ G Ep) as G1.
  pose proof (keeps_parent_on_tier e Hsane _ _ _ _ _ _ _ K Ep) as K1.
  pose proof (dir_backed_parent _ _ _ _ _ _ _ _ B Ep) as B1.
  destruct r1 as [er|pp]; [case_hyp H; [by apply Hgo in H|discriminate H]|].
  apply bind_ok in H as (c & w2 & H2 & H). pose proof (q_lookup_one e (grown w1') _ _ _ _ _ (grown_refl _ (gr_fresh _ _ G1)) H2) as G2.
  pose proof (keeps_lookup_one e _ _ _ _ _ K1 H2) as K2. pose proof (holds_lookup_one e _ _ _ _ _ _ _ B1 H2) as B2.
  apply bind_ok in H as (r & w3 & Hr & H). unfold attempt in Hr.
  destruct (vfs_create e (p_dentry pp) (d_name d) mode w2) as [r2 w3'] eqn:Ev. injection Hr as <- <-.
  pose proof (vfs_make_spec e _ _ _ _ _ _ _ _ (gr_fresh _ _ G2) Ev) as (G3 & _ & _).
  pose proof (keeps_vfs_make e _ _ _ _ _ _ _ _ K2 Ev) as K3.
  assert (dir_backed dir lp w3') as B3 by exact (holds_vfs_make e _ _ _ _ _ _ _ _ _ _ B2 Ev).
  pose proof (grown_trans _ _ _ G1 G2) as G02. pose proof (grown_trans _ _ _ G02 G3) as G03.
  destruct r2 as [er|node]; [case_hyp H; [by apply Hgo in H|discriminate H]|]. clear Hgo IH.
  pose proof (keeps_grown_tail w3' _ _ _ _ _ _ _ _ _ _ _ (grown_refl _ (gr_fresh _ _ G3)) H) as G4.
  apply bind_ok in H as (ino & w4 & H4 & H). pose proof (keeps_iget e Hsane _ _ _ _ _ K3 H4) as K4.
  apply bind_ok in H as (u & w5 & H5 & H). apply track_places in H5; [|by intros ?; apply (ix_ino _ (ca_index _ K4))].
  apply create_finish_holds with (rel := rel) in H as [H ->]; [|done].
  exists t, pp, node, ino, w2, w3'. split; [by left|]. split.
  { apply andb_false_iff in Enear as [E|E]; [left; to_prop; rewrite <- (gr_ntiers _ _ G); lia|right].
    revert E. unfold smoothfs_tier_near_enospc. by rewrite (gr_pct _ _ G). }
  pose proof (parent_on_tier_found _ _ _ _ _ _ _ _ (gr_fresh _ _ G) (roots_grown _ _ G Hroots) B Ep) as Hp.
  apply (parent_found_ticked _ w2) in Hp; [|by apply (gr_fresh w0)|by eapply lookup_one_ticks].
  split; [exact G02|]. split; [exact Hp|]. split; [exact Ev|]. split; [exact G4|]. by split.
Qed.

Lemma chain_resolved w t tr comps d : fresh_ok w -> Forall good_name comps -> t < ntiers (nw_sb w) ->
  tier_at (nw_sb w) t = Some tr -> is_dir w (p_dentry (t_path tr)) ->
  chain w (p_dentry (t_path tr)) (rel_comps (join_path comps)) d ->
  exists ld, resolved w t (join_path comps) = Ok (Path (p_mnt (t_path tr)) d, ld).
Proof.
  intros Hf Hg Ht Et Hd Hch. unfold resolved. destruct (Z.leb_spec (ntiers (nw_sb w)) t); [lia|]. rewrite Et. cbv zeta.
  destruct comps as [|c comps]; [change (p_dentry (t_path tr) = d) in Hch; subst d; cbn [join_path str_empty]; destruct (t_path tr); by eexists|].
  rewrite (join_path_nonempty (c :: comps)) by done. rewrite (rel_comps_join (c :: comps)) in * by done.
  destruct (chain_walk w (p_dentry (t_path tr)) MAXSYMLINKS (c :: comps) Hf) with
    (at0 := dentry_of (nw_fs w) (p_dentry (t_path tr))) (cur := p_dentry (t_path tr)) (d := d) as [at1 ->];
    [|done|done|by exists at1].
  eapply Forall_impl; [exact Hg|]. intros x [Hx _]. by right.
Qed.

(** The new file is found under its path on the tier that took it. *)
Lemma file_resolves w t tr pp comps n node l : fresh_ok w -> roots_ok w -> Forall good_name (comps ++ [n]) ->
  t < ntiers (nw_sb w) -> tier_at (nw_sb w) t = Some tr ->
  chain w (p_dentry (t_path tr)) (rel_comps (join_path comps)) pp ->
  lf_ent (nw_fs w) !! (pp, n) = Some node -> lower (nw_sb w) !! node = Some l -> l_type l = FT_REG ->
  lf_link (nw_fs w) !! node = None ->
  exists p ld, resolved w t (join_path (comps ++ [n])) = Ok (p, ld) /\ p_dentry p = node.
Proof.
  intros Hf Hr Hg Ht Et Hch He Hl Hty Hk. apply Forall_app in Hg as [Hg Hn]. apply Forall_cons in Hn as [Hn _].
  destruct (chain_resolved w t tr comps pp Hf Hg Ht Et (Hr _ _ Et) Hch) as [ld Hres].
  destruct (chain_is_dir _ _ _ _ (Hr _ _ Et) Hch) as (lp & Hlp & Hdp).
  eexists _, _. split; [exact (resolved_child w t comps n _ ld lp node Hg Hn Hres Hlp Hdp He Hk)|done].
Qed.

Lemma note_enospc_ok {A} (m : M A) w a w' : note_enospc m w = (Ok a, w') -> m w = (Ok a, w').
Proof.
  unfold note_enospc, attempt, mbind_ns. destruct (m w) as [[err|b] w1]; [|done].
  cbn. destruct (err =? - ENOSPC); discriminate.
Qed.

Lemma create_order_below sbi st t : 0 < ntiers sbi -> t ∈ create_order sbi st -> 0 <= t < ntiers sbi.
Proof. intros Hn (a & -> & _)%list_elem_of_fmap. by apply Z.mod_pos_bound. Qed.

(** C23. A create that succeeds puts a new regular file of the requested mode
    under a name that was free on one tier of the attempt order that was not
    nearly full (or the last one), keeps every other name of every tier, and
    returns a dentry on it whose inode is placed on that tier under that path
    with one write reservation; the name is made in the lower directory that
    backs the parent when that is on the chosen tier, and else the file is found
    on the chosen tier by the new path. *)
Theorem create_places_the_file dir d mode w d' w' :
  cache_ok (nw_sb w) -> 0 < ntiers (nw_sb w) -> fresh_ok w -> roots_ok w -> d_path d <> [] -> Forall good_name (d_path d) ->
  smoothfs_create_inner e dir d mode w = (Ok d', w') ->
  exists t parent node ino si l dsi,
    t ∈ create_order (nw_sb w) (smoothfs_select_create_tier (ne_statfs e) (ne_oom e) (nw_sb w))
    /\ (t = ntiers (nw_sb w) - 1 \/ smoothfs_tier_near_enospc (ne_statfs e) (nw_sb w) t = false)
    /\ d' = Dentry (d_path d) (Some ino) (Some (LDentry parent (d_name d) (Some node)))
    /\ lf_ent (nw_fs w) !! (parent, d_name d) = None /\ lf_ent (nw_fs w') !! (parent, d_name d) = Some node
    /\ lower (nw_sb w) !! node = None /\ lower (nw_sb w') !! node = Some l /\ l_type l = FT_REG /\ l_perm l = mode
    /\ lf_ent (nw_fs w) ⊆ lf_ent (nw_fs w')
    /\ inodes (nw_sb w') !! ino = Some si /\ newly_placed (join_path (d_path d)) t si /\ write_reservation si = 1
    /\ inodes (nw_sb w) !! dir = Some dsi
    /\ (t = parent_tier_of (nw_sb w) dsi -> p_dentry <$> lower_path dsi = Some parent)
    /\ (t <> parent_tier_of (nw_sb w) dsi ->
          exists p ld, resolved w' t (join_path (d_path d)) = Ok (p, ld) /\ p_dentry p = node).
Proof.
  intros K Hn Hf Hr Hne Hg H. unfold smoothfs_create_inner in H. apply note_enospc_ok in H.
  apply bind_ok in H as (sbi & w1 & [= <- <-] & H). apply bind_ok in H as (dsi & w1 & H1 & H).
  apply get_inode_ok in H1 as [-> Hdsi]. apply bind_ok in H as (rel & w1 & H1 & H).
  apply bind_ok in H as (prel & w2 & H2 & H). destruct rel as [rel|]; [|discriminate H]. destruct prel as [prel|]; [|discriminate H].
  apply rel_path_ok in H1 as [-> T1]. apply rel_path_ok in H2 as [-> T2]. pose proof (ticked_trans _ _ _ T1 T2) as [k ->].
  assert (grown w (w <| nw_k := k |>)) as G0 by (apply (quiet_closed w); [by split|by apply grown_refl]).
  assert (dir_backed dir (lower_path dsi) (w <| nw_k := k |>)) as B0
    by (split; [by intros ?; apply (ix_ino _ (ca_index _ K))|by exists dsi]).
  apply (create_loop_places _ _ _ _ _ _ _ _ w _ Hr _ _ _ _ _ G0 K B0) in H
    as (t & pp & node & ino & w3 & w4 & Ht & Hroom & G1 & Hp & Hv & G2 & [_ (si & Hsi & Hnp & Hwr)] & ->).
  pose proof (vfs_make_spec e _ _ _ _ _ _ _ _ (gr_fresh _ _ G1) Hv) as (G3 & _ & Hfree & Hnew & He & l & Hl & Hty & Hperm & _).
  pose proof (grown_trans _ _ _ G3 G2) as G32. pose proof (grown_trans _ _ _ G1 G32) as G.
  destruct (gr_node _ _ G2 _ _ Hl) as (l' & Hl' & E). apply forget_ids_fields in E as (E1 & E2 & _).
  assert (lf_ent (nw_fs w') !! (p_dentry pp, d_name d) = Some node) as He' by (eapply lookup_weaken; [exact He|apply G2]).
  exists t, (p_dentry pp), node, ino, si, l', dsi.
  assert (forall (k : Z * string), lf_ent (nw_fs w3) !! k = None -> lf_ent (nw_fs w) !! k = None) as Hback.
  { intros key Hk. eapply lookup_weaken_None; [exact Hk|apply G1]. }
  assert (lower (nw_sb w) !! node = None) as Hnone.
  { destruct (lower (nw_sb w) !! node) as [l0|] eqn:E0; [|done]. destruct (gr_node _ _ G1 _ _ E0) as (l1 & ? & _). congruence. }
  unfold parent_found in Hp. split_and!; try done; try congruence; [by apply Hback|by apply G| |].
  { intros ->. rewrite Z.eqb_refl in Hp. by rewrite Hp. }
  intros Hne2. destruct (Z.eqb_spec t (parent_tier_of (nw_sb w) dsi)) as [|_]; [done|].
  destruct Hp as (tr & Et & Em & Hch). destruct (tier_at_grown _ _ _ _ G32 Et) as (tr' & Et' & Ep').
  assert (exists q, d_path d = removelast (d_path d) ++ [q] /\ d_name d = q) as (q & Eq & Edn).
  { destruct (exists_last Hne) as (pre & q & E). exists q. unfold d_name. rewrite E. by rewrite removelast_last, last_snoc. }
  rewrite Eq in Hg |- *. rewrite Edn in He'. rewrite Eq, removelast_last in Hch.
  eapply (file_resolves w' t tr' (p_dentry pp)); [apply G2|by eapply roots_grown|done| |done| |done|exact Hl'|congruence|].
  - rewrite (gr_ntiers _ _ G). apply create_order_below in Ht; [lia|done].
  - rewrite Ep'. by apply (chain_grown w3).
  - destruct (lf_link (nw_fs w') !! node) as [x|] eqn:Ex; [|done].
    destruct (fr_link _ (gr_fresh _ _ G2) _ _ Ex) as (l2 & H2 & H3). congruence.
Qed.


End Create.

(** ** The theorem on a concrete pool *)

(** Checks by evaluation. *)
Definition fresh_check (w : nworld) : bool :=
  all_entries (fun d _ => d <? lf_next (nw_fs w)) (lower (nw_sb w))
  && all_entries (fun d _ => bool_decide ((l_type <$> lower (nw_sb w) !! d) = Some FT_LNK)) (lf_link (nw_fs w)).
Definition roots_check (w : nworld) : bool :=
  forallb (fun tr => match lower (nw_sb w) !! p_dentry (t_path tr) with
                     | Some l => S_ISDIR (l_type l) | None => false end) (tiers (nw_sb w)).
Lemma fresh_check_ok w : fresh_check w = true -> fresh_ok w.
Proof.
  intros [H1 H2]%andb_true_iff. constructor.
  - intros d [l Hl]. apply Z.ltb_lt. exact (all_entries_true _ _ _ _ H1 Hl).
  - intros d x Hx. pose proof (all_entries_true _ _ _ _ H2 Hx) as H. cbn beta in H. apply bool_decide_eq_true in H.
    destruct (lower (nw_sb w) !! d) as [l|]; [|done]. exists l. split; [done|]. by injection H.
Qed.
Lemma roots_check_ok w : roots_check w = true -> roots_ok w.
Proof.
  unfold roots_check. rewrite forallb_forall. intros H t tr Ht.
  assert (tr ∈ tiers (nw_sb w)) as Hin by (revert Ht; unfold tier_at; case_goal; [done|]; apply list_elem_of_lookup_2).
  specialize (H tr (proj1 (list_elem_of_In _ _) Hin)). cbn beta in H. unfold is_dir.
  destruct (lower (nw_sb w) !! _) as [l|]; [|done]. by exists l.
Qed.
Lemma demo_sane b : sane (ns_env0 b).
Proof. intros k. by vm_compute. Qed.

Lemma spilled_cache_ok : cache_ok (nw_sb spilled_world).
Proof.
  unfold spilled_world, make_spilled, mbind_ns.
  destruct (smoothfs_mkdir_inner _ _ _ _ ns_world) as [[err|d] w1] eqn:E1; [exfalso; revert E1; vm_compute; discriminate|].
  destruct (smoothfs_create_inner _ _ _ _ w1) as [r w2] eqn:E2.
  pose proof (keeps_mkdir _ (demo_sane false) _ _ _ _ _ _ ns_world_cache_ok E1) as K1.
  pose proof (keeps_create _ (demo_sane true) _ _ _ _ _ _ K1 E2) as K2. by destruct r.
Qed.

(** The dentries of directory d and of its file. *)
Definition spilled_d : dentry := Dentry ["d"%string] (Some 9326954828284297216) (Some (LDentry 1 "d" (Some 100))).
Definition spilled_f : dentry :=
  Dentry ["d"%string; "f"%string] (Some 9471070016360153088) (Some (LDentry 101 "f" (Some 102))).
Lemma spilled_dentries : value make_spilled ns_world = Some (spilled_d, spilled_f).
Proof. vm_compute. reflexivity. Qed.

(** With the first tier full, a file of the root directory lands on the second. *)
Lemma create_places_the_file_witness :
  exists d' w', smoothfs_create_inner (ns_env0 true) 1 (neg ["f"%string]) 420 ns_world = (Ok d', w')
  /\ exists p ld node, resolved w' 1 "f" = Ok (p, ld) /\ p_dentry p = node
       /\ option_map ld_node (d_fsdata d') = Some (Some node).
Proof.
  destruct (smoothfs_create_inner (ns_env0 true) 1 (neg ["f"%string]) 420 ns_world) as [[err|d'] w'] eqn:E;
    [exfalso; revert E; vm_compute; discriminate|].
  exists d', w'. split; [reflexivity|].
  destruct (create_places_the_file (ns_env0 true) (demo_sane true) 1 (neg ["f"%string]) 420 ns_world d' w')
    as (t & parent & node & ino & si & l & dsi & Ht & Hroom & Hd' & _ & _ & _ & _ & _ & _ & _ & _ & _ & _ & Hdsi & _ & Hres);
    [exact ns_world_cache_ok|by vm_compute|apply fresh_check_ok; by vm_compute|apply roots_check_ok; by vm_compute
    |discriminate|repeat constructor; discriminate|exact E|].
  assert (t = 1) as ->.
  { destruct Hroom as [H|H]; [exact H|].
    assert (create_order (nw_sb ns_world) (smoothfs_select_create_tier (ne_statfs (ns_env0 true)) (ne_oom (ns_env0 true))
              (nw_sb ns_world)) = [1; 0]) as Eo by (vm_compute; reflexivity).
    rewrite Eo in Ht. apply elem_of_cons in Ht as [->|Ht]; [reflexivity|].
    apply list_elem_of_singleton in Ht as ->. vm_compute in H. discriminate H. }
  assert (dsi = ns_root) as -> by (vm_compute in Hdsi; injection Hdsi as <-; by vm_compute).
  destruct Hres as (p & ld & H1 & H2); [by vm_compute|]. exists p, ld, node. split; [exact H1|]. split; [exact H2|].
  rewrite Hd'. reflexivity.
Defined.
