(* ===== verification/Removal.v ===== *)
(** * Removal: what unlink and rmdir of src/src/smoothfs/inode.c do to the trees

    An unlink removes one name and an rmdir the name of no file; the inode of a
    removed object is no longer found by path. *)
From S2P Require Import Prelude Types Oid Tiers KernelIO PlacementLog InodeMaps LowerFs Movement PathIndex Namespace Lookup NsWorld Dir NamespaceInv Quiet Creation.

(** ** Removal *)

(** No name appeared, the protected ones are still there, and nodes kept their
    type. *)
Record shrunk (w0 : nworld) (PR : Z * string -> Z -> Prop) (w : nworld) : Prop := Shrunk {
  sh_ent : lf_ent (nw_fs w) ⊆ lf_ent (nw_fs w0);
  sh_kept : forall k x, lf_ent (nw_fs w0) !! k = Some x -> PR k x -> lf_ent (nw_fs w) !! k = Some x;
  sh_type : forall d l0 l, lower (nw_sb w0) !! d = Some l0 -> lower (nw_sb w) !! d = Some l -> l_type l = l_type l0;
}.
#[export] Instance shrunk_quiet w0 PR : QuietClosed (shrunk w0 PR).
Proof.
  intros w w' [F S] [H1 H2 H3]. constructor; rewrite ?F; [done|done|].
  intros d l0 l' H0 Hl'. destruct (same_pool_back _ _ _ _ S Hl') as (l & Hl & E).
  apply forget_ids_fields in E as (-> & _). by apply (H3 d).
Qed.
Lemma shrunk_refl w PR : shrunk w PR w.
Proof. constructor; [done|done|]. intros d l0 l H0 H. congruence. Qed.

(** A tree step that drops at most one unprotected name and keeps types. *)
Lemma shrunk_step w0 PR w w' key : shrunk w0 PR w ->
  lf_ent (nw_fs w') = delete key (lf_ent (nw_fs w)) -> (forall x, lf_ent (nw_fs w0) !! key = Some x -> ~ PR key x) ->
  (forall d l', lower (nw_sb w') !! d = Some l' -> exists l, lower (nw_sb w) !! d = Some l /\ l_type l' = l_type l) ->
  shrunk w0 PR w'.
Proof.
  intros [H1 H2 H3] E Hk Ht. constructor.
  - rewrite E. etransitivity; [apply delete_subseteq|done].
  - intros k x Hx Hp. rewrite E, lookup_delete_ne; [by apply H2|]. intros <-. by eapply Hk.
  - intros d l0 l' H0 Hl'. destruct (Ht _ _ Hl') as (l & Hl & ->). by apply (H3 d).
Qed.

Section Removal.
Context (e : ns_env).

(** The last two steps of a removal: the entry goes, the link count drops. *)
Lemma drop_both_spec parent name d to w r w' : (let! _ := drop_entry parent name in drop_link d to) w = (r, w') ->
  lf_ent (nw_fs w') = delete (parent, name) (lf_ent (nw_fs w)) /\ inodes (nw_sb w') = inodes (nw_sb w)
  /\ forall x l', lower (nw_sb w') !! x = Some l' -> exists l, lower (nw_sb w) !! x = Some l /\ l_type l' = l_type l.
Proof.
  unfold drop_entry, drop_link, put_node, mbind_ns, on_fs, get_node, on_sb, nw_sb. cbn.
  destruct (lower (p_sbi (nw_pool w)) !! d) as [l|] eqn:El; intros [= _ <-]; cbn; (split; [done|]); (split; [done|]).
  - intros x l' H. apply lookup_insert_Some in H as [[<- <-]|[_ H]]; [by exists l|by exists l'].
  - intros x l' H. by exists l'.
Qed.

Lemma shrunk_unlink w0 PR parent name : (forall x, lf_ent (nw_fs w0) !! (parent, name) = Some x -> ~ PR (parent, name) x) ->
  keeps (shrunk w0 PR) (vfs_unlink e parent name).
Proof.
  intros Hk. unfold vfs_unlink. apply keeps_bind; [keep|]. intros _ w r w' H. unfold mbind_ns at 1, getw.
  destruct (lf_ent (nw_fs w) !! (parent, name)) as [d|] eqn:Ee; [|by intros [= _ <-]].
  unfold mbind_ns at 1, get_node. destruct (lower (nw_sb w) !! d) as [l|]; [|by intros [= _ <-]].
  destruct (S_ISDIR (l_type l)); [by intros [= _ <-]|].
  intros (E & _ & Ht)%drop_both_spec. by eapply shrunk_step.
Qed.

Lemma shrunk_rmdir w0 parent name : keeps (shrunk w0 (fun _ x => exists l, lower (nw_sb w0) !! x = Some l /\ S_ISDIR (l_type l) = false))
  (vfs_rmdir e parent name).
Proof.
  unfold vfs_rmdir. apply keeps_bind; [keep|]. intros _ w r w' H. unfold mbind_ns at 1, getw.
  destruct (lf_ent (nw_fs w) !! (parent, name)) as [d|] eqn:Ee; [|by intros [= _ <-]].
  unfold mbind_ns at 1, get_node. destruct (lower (nw_sb w) !! d) as [l|] eqn:El; [|by intros [= _ <-]].
  destruct (S_ISDIR (l_type l)) eqn:Ed; cbn [negb]; [|by intros [= _ <-]].
  destruct (dir_entries (nw_fs w) d); [|by intros [= _ <-]].
  intros (E & _ & Ht)%drop_both_spec. eapply shrunk_step; [exact H|exact E| |exact Ht].
  intros x Hx (l0 & Hl0 & Hd0). pose proof (lookup_weaken _ _ _ _ Ee (sh_ent _ _ _ H)) as Hx'.
  rewrite Hx in Hx'. injection Hx' as <-. pose proof (sh_type _ _ _ H _ _ _ Hl0 El) as Et. congruence.
Qed.

Lemma shrunk_start_removing w0 PR ld : keeps (shrunk w0 PR) (smoothfs_compat_start_removing e ld).
Proof. unfold smoothfs_compat_start_removing. keep. Qed.
Hint Resolve shrunk_rmdir shrunk_start_removing : keeps.

Lemma shrunk_forget_file w0 PR ino : keeps (shrunk w0 PR) (smoothfs_forget_placement e ino false).
Proof. unfold smoothfs_forget_placement. keep. Qed.
Lemma shrunk_rmdir_rel w0 t rel :
  keeps (shrunk w0 (fun _ x => exists l, lower (nw_sb w0) !! x = Some l /\ S_ISDIR (l_type l) = false))
    (smoothfs_rmdir_rel_path_on_tier e t rel).
Proof. unfold smoothfs_rmdir_rel_path_on_tier. keep. Qed.
Hint Resolve shrunk_forget_file shrunk_rmdir_rel : keeps.
Lemma keeps_each_tier I op ts : (forall t, keeps I (op t)) -> keeps I (each_active_tier op ts).
Proof. intros Ho. induction ts as [|t ts IH]; cbn [each_active_tier]; keep. Qed.
Lemma shrunk_forget_dir w0 ino :
  keeps (shrunk w0 (fun _ x => exists l, lower (nw_sb w0) !! x = Some l /\ S_ISDIR (l_type l) = false))
    (smoothfs_forget_placement e ino true).
Proof. unfold smoothfs_forget_placement. keep. apply keeps_each_tier. keep. Qed.

(** *** The inode is forgotten *)

Section Forgotten.
Context (ino : Z) (Q : inode_info -> Prop).

Lemma holds_vfs_rmdir parent name : keeps (inode_holds ino Q) (vfs_rmdir e parent name).
Proof.
  unfold vfs_rmdir, drop_link, put_node. apply keeps_bind; [apply holds_ticks, fallible_ticks|]. keep.
  - by intros w r w' H [= _ <-].
  - by apply holds_on_sb.
Qed.
Lemma holds_vfs_unlink parent name : keeps (inode_holds ino Q) (vfs_unlink e parent name).
Proof.
  unfold vfs_unlink, drop_link, put_node. apply keeps_bind; [apply holds_ticks, fallible_ticks|]. keep.
  - by intros w r w' H [= _ <-].
  - by apply holds_on_sb.
Qed.
Lemma holds_wb_forget d : keeps (inode_holds ino Q)
  (fun w => (Ok tt, w <| nw_pool := smoothfs_oid_wb_forget (nw_pool w) d |>)).
Proof.
  intros w r w' H [= _ <-]. unfold smoothfs_oid_wb_forget, inode_holds, keyed, nw_sb in *. cbn. repeat case_goal; done.
Qed.
Hint Resolve holds_kalloc holds_lookup_one holds_resolve holds_vfs_rmdir holds_vfs_unlink holds_wb_forget : keeps.
Lemma holds_start_removing ld : keeps (inode_holds ino Q) (smoothfs_compat_start_removing e ld).
Proof. unfold smoothfs_compat_start_removing. keep. Qed.
Lemma holds_rmdir_rel t rel : keeps (inode_holds ino Q) (smoothfs_rmdir_rel_path_on_tier e t rel).
Proof. unfold smoothfs_rmdir_rel_path_on_tier. keep. Qed.
End Forgotten.

Lemma forget_path_holds ino w r w' : keyed (nw_sb w) -> forget_path ino w = (Ok r, w') ->
  inode_holds ino (fun si => rel_path si = None) w'.
Proof.
  intros K H. unfold forget_path in H. apply bind_ok in H as (si & w1 & H1 & H). apply get_inode_ok in H1 as [-> Hsi].
  apply bind_ok in H as (sbi & w1 & [= <- <-] & H). destruct (rel_path si) as [rel|] eqn:Er.
  2:{ injection H as _ <-. split; [done|by exists si]. }
  destruct (smoothfs_path_map_del (nw_sb w) si) as [sbi si'] eqn:Ed.
  assert (inodes sbi = inodes (nw_sb w) /\ i_ino si' = i_ino si) as [E1 E2].
  { unfold smoothfs_path_map_del in Ed. repeat case_hyp Ed; by injection Ed as <- <-. }
  injection H as _ <-. pose proof (K _ _ Hsi) as Hk. unfold inode_holds, keyed, nw_sb in *. cbn. rewrite E1, E2, Hk. split.
  - intros j x Hx. apply lookup_insert_Some in Hx as [[<- <-]|[_ Hx]]; [cbn; congruence|by apply K].
  - eexists. by rewrite lookup_insert_eq.
Qed.

Lemma forget_placement_holds ino purge w u w' : keyed (nw_sb w) ->
  smoothfs_forget_placement e ino purge w = (Ok u, w') -> inode_holds ino (fun si => rel_path si = None) w'.
Proof.
  intros K H. unfold smoothfs_forget_placement in H. apply bind_ok in H as (rel & w1 & H1 & H).
  apply (forget_path_holds _ _ _ _ K) in H1. apply bind_ok in H as (sbi & w2 & [= <- <-] & H).
  apply bind_ok in H as (u1 & w2 & H2 & H).
  apply (holds_update ino (fun si => rel_path si = None)) in H; [done|by intros|by intros|].
  assert (forall r ts, keeps (inode_holds ino (fun si => rel_path si = None))
    (each_active_tier (fun t => smoothfs_rmdir_rel_path_on_tier e t r) ts)) as Hk.
  { intros r ts. apply keeps_each_tier. intros t. apply holds_rmdir_rel. }
  destruct rel as [r|]; [|by injection H2 as _ <-]. destruct purge; [by eapply Hk|by injection H2 as _ <-].
Qed.

(** A pathless inode is not found by path. *)
Lemma pathless_not_found w ino p : cache_ok (nw_sb w) -> inode_holds ino (fun si => rel_path si = None) w ->
  smoothfs_lookup_rel_path (nw_sb w) (Some p) <> Some ino.
Proof.
  intros K [_ (si & Hsi & Hr)] H. unfold smoothfs_lookup_rel_path in H. destruct (negb _); [done|].
  apply rht_lookup_elem in H. destruct (ix_path _ (ca_index _ K) _ _ H) as (s & Hs & Hp & _). congruence.
Qed.

(** *** Confinement *)

(** The name is gone once the lower step of a removal succeeded. *)
Definition name_gone (ld : ldentry) (w : nworld) : Prop :=
  forall node, ld_node ld = Some node -> lf_ent (nw_fs w) !! (ld_parent ld, ld_name ld) <> Some node.

Lemma start_removing_cases ld w r w' : smoothfs_compat_start_removing e ld w = (r, w') ->
  ticked w w' /\ match r with
               | Ok d => ld_node ld = Some d /\ lf_ent (nw_fs w) !! (ld_parent ld, ld_name ld) = Some d
               | Err err => (err = - ENOENT /\ name_gone ld w) \/ exists k, err = ne_ora e k /\ err < 0
               end.
Proof.
  unfold smoothfs_compat_start_removing, lookup_one, mbind_ns. destruct (fallible e w) as [[err|u] w1] eqn:Ef.
  { intros [= <- <-]. split; [by eapply fallible_ticks|]. right. by apply fallible_err in Ef. }
  apply fallible_ticks in Ef as [k ->]. cbn. intros H.
  destruct (lf_ent (nw_fs w) !! (ld_parent ld, ld_name ld)) as [d|] eqn:El.
  - case_bool_decide as Hd; injection H as <- <-; (split; [by eexists|]); [done|]. left. split; [done|].
    intros node Hn. rewrite El. congruence.
  - injection H as <- <-. split; [by eexists|]. left. split; [done|]. intros node Hn. by rewrite El.
Qed.

Lemma shrunk_unlink_inner dir d ld w0 : d_fsdata d = Some ld ->
  keeps (shrunk w0 (fun k _ => k <> (ld_parent ld, ld_name ld))) (smoothfs_unlink_inner e dir d).
Proof.
  intros Hd. unfold smoothfs_unlink_inner. rewrite Hd.
  assert (keeps (shrunk w0 (fun k _ => k <> (ld_parent ld, ld_name ld))) (vfs_unlink e (ld_parent ld) (ld_name ld)))
    by (apply shrunk_unlink; by intros x _ []).
  keep.
Qed.

Lemma shrunk_rmdir_inner dir d w0 :
  keeps (shrunk w0 (fun _ x => exists l, lower (nw_sb w0) !! x = Some l /\ S_ISDIR (l_type l) = false))
    (smoothfs_rmdir_inner e dir d).
Proof. unfold smoothfs_rmdir_inner. pose proof (shrunk_forget_dir w0). keep. Qed.

(** Names that are gone stay gone. *)
Lemma name_gone_shrunk ld w0 PR w : shrunk w0 PR w -> name_gone ld w0 -> name_gone ld w.
Proof. intros H Hg node Hn He. apply (Hg node Hn). eapply lookup_weaken; [exact He|apply H]. Qed.

(** Names in use have a link. *)
Definition linked (w : nworld) : Prop :=
  forall k d l, lf_ent (nw_fs w) !! k = Some d -> lower (nw_sb w) !! d = Some l -> l_nlink l <> 0.

Lemma unlink_lower_gone ld w u w' : honest e -> linked w ->
  (let! r := attempt (smoothfs_compat_start_removing e ld) in
   match r with
   | Err err => if negb (err =? - ENOENT) then fail err else ok tt
   | Ok node => let! l := get_node node in
                if l_nlink l =? 0 then ok tt else vfs_unlink e (ld_parent ld) (ld_name ld)
   end) w = (Ok u, w') -> name_gone ld w'.
Proof.
  intros Hh Hl H. apply bind_ok in H as (r & w1 & Hr & H). unfold attempt in Hr.
  destruct (smoothfs_compat_start_removing e ld w) as [r1 w1'] eqn:Es. injection Hr as <- <-.
  apply start_removing_cases in Es as [[k ->] Hc]. destruct r1 as [err|node].
  - destruct (Z.eqb_spec err (- ENOENT)) as [->|]; [|discriminate H]. injection H as _ <-.
    destruct Hc as [[_ Hg]|(k' & Hk & _)]; [exact Hg|]. by destruct (Hh k').
  - destruct Hc as [Hn He]. apply bind_ok in H as (l & w2 & H2 & H). apply get_node_ok in H2 as [-> Hln].
    pose proof (Hl _ _ _ He Hln) as Hnz. destruct (Z.eqb_spec (l_nlink l) 0); [done|].
    unfold vfs_unlink in H. apply bind_ok in H as (u1 & w2 & H2 & H). apply fallible_ticks in H2 as [k2 ->].
    apply bind_ok in H as (w3 & w4 & [= <- <-] & H). cbn [nw_fs set_field] in H. rewrite He in H.
    apply bind_ok in H as (l1 & w4 & H4 & H). apply get_node_ok in H4 as [-> _].
    destruct (S_ISDIR (l_type l1)); [discriminate H|]. apply drop_both_spec in H as (E & _).
    intros x _. rewrite E. by rewrite lookup_delete_eq.
Qed.

Lemma rmdir_lower_gone ld w u w' : honest e ->
  (let! r := attempt (smoothfs_compat_start_removing e ld) in
   match r with
   | Err err => if negb (err =? - ENOENT) then fail err else ok tt
   | Ok _ => vfs_rmdir e (ld_parent ld) (ld_name ld)
   end) w = (Ok u, w') -> name_gone ld w'.
Proof.
  intros Hh H. apply bind_ok in H as (r & w1 & Hr & H). unfold attempt in Hr.
  destruct (smoothfs_compat_start_removing e ld w) as [r1 w1'] eqn:Es. injection Hr as <- <-.
  apply start_removing_cases in Es as [[k ->] Hc]. destruct r1 as [err|node].
  - destruct (Z.eqb_spec err (- ENOENT)) as [->|]; [|discriminate H]. injection H as _ <-.
    destruct Hc as [[_ Hg]|(k' & Hk & _)]; [exact Hg|]. by destruct (Hh k').
  - destruct Hc as [Hn He]. unfold vfs_rmdir in H. apply bind_ok in H as (u1 & w2 & H2 & H).
    apply fallible_ticks in H2 as [k2 ->]. apply bind_ok in H as (w3 & w4 & [= <- <-] & H). cbn [nw_fs set_field] in H.
    rewrite He in H. apply bind_ok in H as (l1 & w4 & H4 & H). apply get_node_ok in H4 as [-> _].
    destruct (negb (S_ISDIR (l_type l1))); [discriminate H|]. cbn [nw_fs set_field] in H.
    destruct (dir_entries (nw_fs w) node); [|discriminate H]. apply drop_both_spec in H as (E & _).
    intros x _. rewrite E. by rewrite lookup_delete_eq.
Qed.

(** Unlinking the last name of a cached inode makes it pathless. *)
Lemma unlink_pathless dir d ld ino w d' w' : d_fsdata d = Some ld -> d_inode d = Some ino -> dir <> ino ->
  inode_holds ino (fun si => i_nlink si = 1) w -> smoothfs_unlink_inner e dir d w = (Ok d', w') ->
  inode_holds ino (fun si => rel_path si = None) w'.
Proof.
  intros Hd Hi Hne Hin H. unfold smoothfs_unlink_inner in H. rewrite Hd, Hi in H.
  apply bind_ok in H as (r & w1 & Hr & H). unfold attempt in Hr.
  destruct (smoothfs_compat_start_removing e ld w) as [r1 w1'] eqn:Es. injection Hr as <- <-.
  apply (holds_start_removing ino _ _ _ _ _ Hin) in Es as H1. clear Es Hin.
  apply bind_ok in H as (u1 & w2 & Hr & H).
  assert (inode_holds ino (fun si => i_nlink si = 1) w2) as H2.
  { destruct r1 as [err|node]; [case_hyp Hr; [discriminate Hr|by injection Hr as _ <-]|].
    apply bind_ok in Hr as (l & w3 & Hn & Hr). apply get_node_ok in Hn as [-> _].
    case_hyp Hr; [by injection Hr as _ <-|]. by apply (holds_vfs_unlink ino _ _ _ _ _ _ H1) in Hr. }
  apply bind_ok in H as (u2 & w3 & H3 & H). apply (holds_wb_forget ino _ _ _ _ _ H2) in H3 as Hw3. clear H3.
  apply bind_ok in H as (u3 & w4 & H4 & H).
  assert (inode_holds ino (fun si => i_nlink si = 0) w4) as H5.
  { destruct Hw3 as [K (si & Hsi & Hnl)]. unfold update_inode, mbind_ns, get_inode in H4. rewrite Hsi in H4.
    injection H4 as _ <-. pose proof (K _ _ Hsi) as Hk. unfold inode_holds, keyed, nw_sb in *. cbn. rewrite Hk. split.
    - intros j x Hx. apply lookup_insert_Some in Hx as [[<- <-]|[_ Hx]]; [done|by apply K].
    - eexists. rewrite lookup_insert_eq. split; [done|]. cbn. lia. }
  apply bind_ok in H as (u4 & w5 & H6 & H). unfold copy_attrs in H6. apply bind_ok in H6 as (l & w6 & H7 & H6).
  apply get_node_ok in H7 as [-> _]. apply (holds_update_other ino (fun si => i_nlink si = 0)) in H6; [|done|done|done].
  destruct H6 as [K (si & Hsi & Hz)]. apply bind_ok in H as (si' & w6 & H8 & H). apply get_inode_ok in H8 as [-> Hsi'].
  rewrite Hsi in Hsi'. injection Hsi' as <-. apply bind_ok in H as (u5 & w7 & H9 & H). injection H as _ <-.
  rewrite Hz in H9. by apply (forget_placement_holds _ _ _ _ _ K) in H9.
Qed.

Lemma rmdir_pathless dir d ld ino w d' w' : sane e -> cache_ok (nw_sb w) -> d_fsdata d = Some ld -> d_inode d = Some ino ->
  smoothfs_rmdir_inner e dir d w = (Ok d', w') -> inode_holds ino (fun si => rel_path si = None) w'.
Proof.
  intros Hs K Hd Hi H. unfold smoothfs_rmdir_inner in H. rewrite Hd, Hi in H. change (ns_inv w) in K.
  apply bind_ok in H as (r & w1 & Hr & H). apply (keeps_attempt _ _ (keeps_start_removing e ld) _ _ _ K) in Hr.
  apply bind_ok in H as (u1 & w2 & H2 & H).
  assert (ns_inv w2) as K2.
  { destruct r as [err|node]; [case_hyp H2; [discriminate H2|by injection H2 as _ <-]|].
    by eapply keeps_vfs_rmdir. }
  apply bind_ok in H as (si & w3 & H3 & H). apply get_inode_ok in H3 as [-> _].
  apply bind_ok in H as (rel & w3 & H3 & H).
  assert (ns_inv w3) as K3.
  { destruct (rel_path si); [by injection H3 as _ <-|]. by eapply keeps_rel_path. }
  apply bind_ok in H as (u2 & w4 & H4 & H). eapply keeps_update_inode in H4; [|apply backfill_bookkeeping|exact K3].
  apply bind_ok in H as (u3 & w5 & H5 & H). eapply keeps_copy_attrs in H5; [|exact H4].
  apply bind_ok in H as (u4 & w6 & H6 & H). injection H as _ <-.
  eapply forget_placement_holds; [|exact H6]. intros i s. apply (ix_ino _ (ca_index _ H5)).
Qed.

Lemma unlink_gone dir d ld w d' w' : honest e -> linked w -> d_fsdata d = Some ld ->
  smoothfs_unlink_inner e dir d w = (Ok d', w') -> name_gone ld w' /\ d_fsdata d' = None.
Proof.
  intros Hh Hl Hd H. unfold smoothfs_unlink_inner in H. rewrite Hd in H. destruct (d_inode d) as [ino|]; [|discriminate H].
  apply bind_ok in H as (r & w1 & H1 & H). apply bind_ok in H as (u1 & w2 & H2 & H).
  assert (name_gone ld w2) as Hg.
  { eapply (unlink_lower_gone ld w u1); [done|done|]. apply bind_ok. by exists r, w1. }
  assert (forall A (m : M A) a, keeps (shrunk w2 (fun _ _ => False)) m -> m w2 = (Ok a, w') -> name_gone ld w') as Hk.
  { intros A m a K E. apply (K _ _ _ (shrunk_refl w2 _)) in E. by eapply name_gone_shrunk. }
  split; [|by repeat (apply bind_ok in H as (? & ? & _ & H)); injection H as <- _].
  eapply Hk; [|exact H]. clear. keep.
Qed.

Lemma rmdir_gone dir d ld w d' w' : honest e -> d_fsdata d = Some ld ->
  smoothfs_rmdir_inner e dir d w = (Ok d', w') -> name_gone ld w' /\ d_fsdata d' = None.
Proof.
  intros Hh Hd H. unfold smoothfs_rmdir_inner in H. rewrite Hd in H. destruct (d_inode d) as [ino|]; [|discriminate H].
  apply bind_ok in H as (r & w1 & H1 & H). apply bind_ok in H as (u1 & w2 & H2 & H).
  assert (name_gone ld w2) as Hg.
  { eapply (rmdir_lower_gone ld w u1); [done|]. apply bind_ok. by exists r, w1. }
  split; [|by repeat (apply bind_ok in H as (? & ? & _ & H)); injection H as <- _].
  eapply name_gone_shrunk; [|exact Hg].
  match type of H with ?m w2 = _ =>
    assert (keeps (shrunk w2 (fun _ x => exists l, lower (nw_sb w2) !! x = Some l /\ S_ISDIR (l_type l) = false)) m) as K end.
  { clear. pose proof (shrunk_forget_dir w2). keep. }
  by apply (K _ _ _ (shrunk_refl w2 _)) in H.
Qed.

End Removal.

(** C24. Whatever fails, unlink removes no lower name but the one its dentry
    stands for, and rmdir removes names of directories only; when they succeed
    the name is gone, the dentry has no lower dentry, and the inode (for unlink:
    of the last link) is found under no path. *)
Theorem removal_is_confined e dir d ld ino w r w' :
  sane e -> honest e -> cache_ok (nw_sb w) -> linked w ->
  d_fsdata d = Some ld -> d_inode d = Some ino -> dir <> ino ->
  (smoothfs_unlink_inner e dir d w = (r, w') ->
     (forall k, k <> (ld_parent ld, ld_name ld) -> lf_ent (nw_fs w') !! k = lf_ent (nw_fs w) !! k)
     /\ (forall d', r = Ok d' -> d_fsdata d' = None /\ name_gone ld w'
           /\ (forall si, inodes (nw_sb w) !! ino = Some si -> i_nlink si = 1 ->
                 forall p, smoothfs_lookup_rel_path (nw_sb w') (Some p) <> Some ino)))
  /\ (smoothfs_rmdir_inner e dir d w = (r, w') ->
     (forall k x l, lf_ent (nw_fs w) !! k = Some x -> lower (nw_sb w) !! x = Some l -> S_ISDIR (l_type l) = false ->
        lf_ent (nw_fs w') !! k = Some x)
     /\ lf_ent (nw_fs w') ⊆ lf_ent (nw_fs w)
     /\ (forall d', r = Ok d' -> d_fsdata d' = None /\ name_gone ld w'
           /\ forall p, smoothfs_lookup_rel_path (nw_sb w') (Some p) <> Some ino)).
Proof.
  intros Hs Hh K Hl Hd Hi Hne. split; intros H.
  - pose proof (shrunk_unlink_inner e dir d ld w Hd _ _ _ (shrunk_refl w _) H) as [S1 S2 _]. split.
    { intros k Hk. destruct (lf_ent (nw_fs w) !! k) as [x|] eqn:Ex; [by apply S2|]. by eapply lookup_weaken_None. }
    intros d' ->. destruct (unlink_gone e dir d ld w d' w' Hh Hl Hd H) as [Hg Hf]. split; [done|]. split; [done|].
    intros si Hsi Hn p. apply pathless_not_found; [exact (keeps_unlink e dir d _ _ _ K H)|].
    eapply unlink_pathless; [exact Hd|exact Hi|exact Hne| |exact H]. split; [|by exists si].
    intros i s. apply (ix_ino _ (ca_index _ K)).
  - pose proof (shrunk_rmdir_inner e dir d w _ _ _ (shrunk_refl w _) H) as [S1 S2 _]. split.
    { intros k x l Hx Hlx Hdx. apply S2; [done|by exists l]. }
    split; [done|]. intros d' ->. destruct (rmdir_gone e dir d ld w d' w' Hh Hd H) as [Hg Hf]. split; [done|]. split; [done|].
    intros p. apply pathless_not_found; [exact (keeps_rmdir e dir d _ _ _ K H)|]. by eapply rmdir_pathless.
Qed.

(** ** The theorem on a concrete pool *)

Definition linked_check (w : nworld) : bool :=
  all_entries (fun _ d => match lower (nw_sb w) !! d with Some l => negb (l_nlink l =? 0) | None => true end)
    (lf_ent (nw_fs w)).

Lemma linked_check_ok w : linked_check w = true -> linked w.
Proof.
  intros H k d l Hk Hl. pose proof (all_entries_true _ _ _ _ H Hk) as H1. cbn beta in H1. rewrite Hl in H1.
  apply negb_true_iff, Z.eqb_neq in H1. done.
Qed.

Lemma removal_is_confined_witness :
  exists r w', smoothfs_unlink_inner (ns_env0 false) 9326954828284297216 spilled_f spilled_world = (r, w')
  /\ lf_ent (nw_fs w') !! (1, "d"%string) = Some 100 /\ lf_ent (nw_fs w') !! (2, "d"%string) = Some 101.
Proof.
  destruct (smoothfs_unlink_inner (ns_env0 false) 9326954828284297216 spilled_f spilled_world) as [r w'] eqn:E.
  exists r, w'. split; [reflexivity|].
  destruct (removal_is_confined (ns_env0 false) 9326954828284297216 spilled_f (LDentry 101 "f" (Some 102))
              9471070016360153088 spilled_world r w') as [H _];
    [apply demo_sane|apply demo_calm|apply spilled_cache_ok|apply linked_check_ok; by vm_compute|reflexivity|reflexivity
    |discriminate|].
  destruct (H E) as [H1 _]. split; rewrite H1 by discriminate; by vm_compute.
Defined.
