(* ===== verification/Renaming.v ===== *)
(** * Rename of a file: what rename of src/src/smoothfs/inode.c does to the trees

    In all three cases (same directory, another directory on another tier,
    another directory on the same tier) exactly one name moves; the name it
    replaces is the only other one that may go. *)
From S2P Require Import Prelude Types Oid Tiers KernelIO PlacementLog InodeMaps LowerFs Movement PathIndex Namespace Lookup NsWorld Dir NamespaceInv Quiet Creation Removal.

(** ** Rename of a file *)

Section Rename.
Context (e : ns_env).

(** What the lower rename does to the names. *)
Lemma vfs_rename_spec op oname np nname node w u w' : lf_ent (nw_fs w) !! (op, oname) = Some node ->
  vfs_rename e op oname np nname w = (Ok u, w') ->
  inodes (nw_sb w') = inodes (nw_sb w)
  /\ (lf_ent (nw_fs w') = lf_ent (nw_fs w) /\ lf_ent (nw_fs w) !! (np, nname) = Some node
      \/ lf_ent (nw_fs w') = <[(np, nname) := node]> (delete (op, oname) (lf_ent (nw_fs w)))
         /\ lf_ent (nw_fs w) !! (np, nname) <> Some node).
Proof.
  intros He H. unfold vfs_rename in H. apply bind_ok in H as (u1 & w1 & H1 & H). apply fallible_ticks in H1 as [k ->].
  apply bind_ok in H as (w2 & w3 & [= <- <-] & H). cbn [nw_fs set_field] in H. rewrite He in H.
  apply bind_ok in H as (l & w3 & H3 & H). apply get_node_ok in H3 as [-> _].
  destruct (lf_ent (nw_fs w) !! (np, nname)) as [t|] eqn:Et.
  2:{ injection H as _ <-. split; [done|]. by right. }
  destruct (Z.eqb_spec t node) as [->|Hne]; [injection H as _ <-; split; [done|]; by left|].
  apply bind_ok in H as (tl & w3 & H3 & H). apply get_node_ok in H3 as [-> _].
  assert (forall to w1 u1 w2, (let! _ := drop_link t to in on_fs (fun fs =>
        fs <| lf_ent := <[(np, nname) := node]> (delete (op, oname) (lf_ent fs)) |>
           <| lf_at := <[node := (np, nname)]> (lf_at fs) |>)) w1 = (Ok u1, w2) ->
    nw_fs w1 = nw_fs w -> nw_sb w1 = nw_sb w -> inodes (nw_sb w2) = inodes (nw_sb w)
    /\ lf_ent (nw_fs w2) = <[(np, nname) := node]> (delete (op, oname) (lf_ent (nw_fs w)))) as Hmove.
  { intros to w1 u2 w2 E E1 E2. apply bind_ok in E as (u3 & w3 & E3 & E). injection E as _ <-.
    unfold drop_link in E3. apply bind_ok in E3 as (l0 & w4 & E4 & E3). apply get_node_ok in E4 as [-> _].
    injection E3 as _ <-. unfold nw_sb in *. cbn. rewrite E1, E2. done. }
  destruct (S_ISDIR (l_type l)).
  - destruct (negb (S_ISDIR (l_type tl))); [discriminate H|]. cbn [nw_fs set_field] in H.
    destruct (dir_entries (nw_fs w) t); [|discriminate H].
    destruct (Hmove _ _ _ _ H eq_refl eq_refl) as [E1 E2]. split; [done|]. right. split; [done|congruence].
  - destruct (S_ISDIR (l_type tl)); [discriminate H|].
    destruct (Hmove _ _ _ _ H eq_refl eq_refl) as [E1 E2]. split; [done|]. right. split; [done|congruence].
Qed.

(** Two steps as one, and the rest. *)
Lemma keeps_bind2 I {A B C} (m : M A) (k : A -> M B) (rest : M C) :
  keeps I (mbind_ns m k) -> keeps I rest -> keeps I (let! a := m in let! _ := k a in rest).
Proof.
  intros K1 K2 w r w' H E. unfold mbind_ns in *. destruct (m w) as [[err|a] w1] eqn:E1.
  - injection E as _ <-. eapply (K1 w); [exact H|]. by rewrite E1.
  - destruct (k a w1) as [[err|b] w2] eqn:E2.
    + injection E as _ <-. eapply (K1 w); [exact H|]. rewrite E1. exact E2.
    + eapply K2; [|exact E]. eapply (K1 w); [exact H|]. rewrite E1. exact E2.
Qed.

(** The stale target loses at most its own name, and only while that name
    still leads to it. *)
Definition stale_only (stale : option ldentry) (k : Z * string) (x : Z) : Prop :=
  match stale with
  | Some ln => ~ (k = (ld_parent ln, ld_name ln) /\ ld_node ln = Some x)
  | None => True
  end.

Lemma shrunk_drop_stale w0 ln i : keeps (shrunk w0 (stale_only (Some ln))) (smoothfs_drop_stale_rename_target e ln i).
Proof.
  unfold smoothfs_drop_stale_rename_target. apply keeps_bind2; [|destruct i; [apply shrunk_forget_file|keep]].
  intros w r w' H. unfold mbind_ns at 1, attempt.
  destruct (smoothfs_compat_start_removing e ln w) as [r1 w1] eqn:Es.
  apply start_removing_cases in Es as [T Hc]. pose proof (quiet_closed _ _ (quiet_ticked _ _ T) H) as H1.
  destruct T as [k ->]. destruct r1 as [err|node]; [by intros [= _ <-]|]. destruct Hc as [Hn He].
  unfold mbind_ns at 1, get_node. destruct (lower _ !! node); [|by intros [= _ <-]]. case_goal; [by intros [= _ <-]|].
  unfold mbind_ns, attempt. destruct (vfs_unlink e _ _ _) as [r2 w2] eqn:Ev. intros [= _ <-].
  revert Ev. apply shrunk_unlink; [|done]. intros x Hx Hp. apply Hp. split; [done|].
  pose proof (lookup_weaken _ _ _ _ He (sh_ent _ _ _ H)) as Hx'. congruence.
Qed.

Lemma keeps_grown_plan w0 f b sb path ln : keeps (grown w0) (plan_cross_dir e f b sb path ln).
Proof.
  unfold plan_cross_dir. pose proof (keeps_grown_materialize e w0). keep. apply keeps_each_tier. keep.
Qed.

(** *** Directories stay where they are *)

(** The names that lead to directories are kept, and so are the directories. *)
Record dirs_kept (w0 w : nworld) : Prop := DirsKept {
  dk_ent : forall k x, lf_ent (nw_fs w0) !! k = Some x -> is_dir w0 x -> lf_ent (nw_fs w) !! k = Some x;
  dk_dir : forall x, is_dir w0 x -> is_dir w x;
}.
#[export] Instance dirs_kept_quiet w0 : QuietClosed (dirs_kept w0).
Proof.
  intros w w' [F S] [H1 H2]. constructor; rewrite ?F; [done|]. intros x Hx. destruct (H2 x Hx) as (l & Hl & Hd).
  destruct (same_pool_lookup _ _ _ _ S Hl) as (l' & Hl' & E). exists l'. split; [done|].
  by apply forget_ids_fields in E as (-> & _).
Qed.

Lemma chain_dirs w0 w comps : dirs_kept w0 w -> forall cur d, chain w0 cur comps d -> chain w cur comps d.
Proof.
  intros [H1 H2]. induction comps as [|c comps IH]; intros cur d; cbn [chain]; [done|].
  destruct (str_empty c); [apply IH|]. intros (x & Hx & Hd & H). exists x. split; [by apply H1|]. split; [by apply H2|by apply IH].
Qed.

(** Changing a link count keeps every type. *)
Lemma is_dir_relink w w' d l n : lower (nw_sb w) !! d = Some l ->
  lower (nw_sb w') = <[d := l <| l_nlink := n |>]> (lower (nw_sb w)) -> forall x, is_dir w x -> is_dir w' x.
Proof.
  intros Hl E x (l1 & H1 & H2). unfold is_dir. rewrite E. destruct (decide (d = x)) as [->|].
  - eexists. rewrite lookup_insert_eq. split; [done|]. rewrite Hl in H1. by injection H1 as <-.
  - exists l1. by rewrite lookup_insert_ne.
Qed.

Lemma dirs_unlink w0 parent name : keeps (dirs_kept w0) (vfs_unlink e parent name).
Proof.
  unfold vfs_unlink. apply keeps_bind; [keep|]. intros _ w r w' [K1 K2]. unfold mbind_ns at 1, getw.
  destruct (lf_ent (nw_fs w) !! (parent, name)) as [d|] eqn:Ee; [|by intros [= _ <-]].
  unfold mbind_ns at 1, get_node. destruct (lower (nw_sb w) !! d) as [l|] eqn:El; [|by intros [= _ <-]].
  destruct (S_ISDIR (l_type l)) eqn:Ed; [by intros [= _ <-]|].
  unfold drop_entry, drop_link, put_node, mbind_ns, on_fs, get_node, on_sb. unfold nw_sb in El |- *. cbn. rewrite El.
  intros [= _ <-]. constructor.
  - intros k x Hk Hx. cbn. rewrite lookup_delete_ne; [by apply K1|]. intros <-. specialize (K1 _ _ Hk Hx).
    rewrite Ee in K1. injection K1 as <-. destruct (K2 _ Hx) as (l' & H1 & H2). unfold nw_sb in H1. congruence.
  - intros x Hx. by apply (is_dir_relink w _ d l (l_nlink l - 1)); [..|apply K2].
Qed.

Lemma dirs_rename w0 op oname np nname w node l u w' : dirs_kept w0 w ->
  lf_ent (nw_fs w) !! (op, oname) = Some node -> lower (nw_sb w) !! node = Some l -> S_ISDIR (l_type l) = false ->
  vfs_rename e op oname np nname w = (Ok u, w') -> dirs_kept w0 w'.
Proof.
  intros [K1 K2] He Hl Hd H. unfold vfs_rename in H. apply bind_ok in H as (u1 & w1 & H1 & H).
  apply fallible_ticks in H1 as [k ->]. apply bind_ok in H as (w2 & w3 & [= <- <-] & H).
  cbn [nw_fs set_field] in H. rewrite He in H. apply bind_ok in H as (l1 & w3 & H3 & H).
  apply get_node_ok in H3 as [-> Hl1]. assert (l1 = l) as -> by (unfold nw_sb in *; cbn in Hl1; congruence). clear Hl1.
  assert (forall k x, (forall t lt, k = (np, nname) -> lf_ent (nw_fs w) !! k = Some t -> lower (nw_sb w) !! t = Some lt ->
      S_ISDIR (l_type lt) = false) -> lf_ent (nw_fs w0) !! k = Some x -> is_dir w0 x ->
      <[(np, nname) := node]> (delete (op, oname) (lf_ent (nw_fs w))) !! k = Some x) as Hmove.
  { intros k0 x Ht Hk Hx. pose proof (K1 _ _ Hk Hx) as Hw. destruct (K2 _ Hx) as (lx & Hlx & Hdx).
    rewrite lookup_insert_ne, lookup_delete_ne; [done| |]; intros <-; [congruence|].
    specialize (Ht _ _ eq_refl Hw Hlx). congruence. }
  destruct (lf_ent (nw_fs w) !! (np, nname)) as [t|] eqn:Et.
  2:{ injection H as _ <-. constructor; [|exact K2]. intros k0 x. cbn. apply Hmove. congruence. }
  destruct (t =? node); [injection H as _ <-; by constructor|].
  apply bind_ok in H as (tl & w3 & H3 & H). apply get_node_ok in H3 as [-> Htl]. rewrite Hd in H.
  destruct (S_ISDIR (l_type tl)) eqn:Edt; [discriminate H|].
  unfold nw_sb in Htl. cbn in Htl. unfold drop_link, put_node, mbind_ns, on_fs, get_node, on_sb in H. unfold nw_sb in H. cbn in H.
  rewrite Htl in H. injection H as _ <-. constructor.
  - intros k0 x. cbn. apply Hmove. intros t0 lt -> E1 E2. unfold nw_sb in E2. congruence.
  - intros x Hx. by apply (is_dir_relink w _ t tl (l_nlink tl - 1)); [..|apply K2].
Qed.

Lemma dirs_finish w0 od nd ino old_d new_d op plan orel :
  keeps (dirs_kept w0) (rename_finish e od nd ino old_d new_d false op plan orel).
Proof.
  unfold rename_finish, drop_new_dentry, smoothfs_drop_stale_rename_target, smoothfs_compat_start_removing,
    smoothfs_forget_placement. pose proof (dirs_unlink w0). keep.
Qed.

(** *** The directory the name goes to *)

Lemma tier_of_sb_found fs sb ts : forall i, i <= tier_of_sb fs sb i ts /\ (tier_of_sb fs sb i ts < i + Z.of_nat (length ts) -> exists tr, ts !! Z.to_nat (tier_of_sb fs sb i ts - i) = Some tr
    /\ default 0 (lf_sb fs !! p_dentry (t_path tr)) = sb).
Proof.
  induction ts as [|t ts IH]; intros i; cbn [tier_of_sb length]; [split; [lia|]; lia|].
  destruct (Z.eqb_spec (default 0 (lf_sb fs !! p_dentry (t_path t))) sb) as [E|_].
  - split; [lia|]. intros _. exists t. by rewrite Z.sub_diag.
  - destruct (IH (i + 1)) as [Hle Hf]. split; [lia|]. intros Hlt. destruct Hf as (tr & Htr & E); [lia|]. exists tr.
    split; [|done]. replace (Z.to_nat (tier_of_sb fs sb (i + 1) ts - i)) with (S (Z.to_nat (tier_of_sb fs sb (i + 1) ts - (i + 1)))) by lia.
    done.
Qed.

(** On the tier whose root is on superblock [sb], the directory at [path]. *)
Definition dir_on_sb (w0 w : nworld) (sb : Z) (path : list string) (np : Z) : Prop :=
  exists t tr, t < ntiers (nw_sb w0) /\ tier_at (nw_sb w0) t = Some tr
    /\ default 0 (lf_sb (nw_fs w0) !! p_dentry (t_path tr)) = sb
    /\ chain w (p_dentry (t_path tr)) (rel_comps (join_path path)) np.

Lemma plan_cross_parent f b sb path ln w plan w' : fresh_ok w -> roots_ok w ->
  plan_cross_dir e f b sb path ln w = (Ok plan, w') -> dir_on_sb w w' sb path (rp_new_parent plan).
Proof.
  intros Hf Hr H. unfold plan_cross_dir in H. apply bind_ok in H as (w1 & w2 & [= <- <-] & H).
  set (ts := take (Z.to_nat (ntiers (nw_sb w))) (tiers (nw_sb w))) in *. set (t := tier_of_sb (nw_fs w) sb 0 ts) in *.
  case_hyp H; [discriminate H|]. destruct (Z.leb_spec (ntiers (nw_sb w)) t) as [|Hlt]; [discriminate H|].
  apply bind_ok in H as (stale & w3 & H3 & H).
  assert (grown w w3) as G3.
  { revert H3. assert (keeps (grown w) (match ln with
      | Some ln => match ld_node ln with
          | Some t => let! l := get_node t in if S_ISDIR (l_type l) then fail (- EXDEV)
              else if rf_noreplace f then fail (- EEXIST) else ok (Some ln)
          | None => ok None end
      | None => ok None end)) as K by keep. intros H3. eapply K; [by apply grown_refl|exact H3]. }
  apply bind_ok in H as (rel & w4 & H4 & H). destruct rel as [rel|]; [|discriminate H]. apply rel_path_ok in H4 as [-> T4].
  pose proof (quiet_closed _ _ (quiet_ticked _ _ T4) G3) as G4.
  apply bind_ok in H as (mat & w5 & H5 & H). pose proof (keeps_grown_materialize e w4 _ _ _ _ _ (grown_refl w4 (gr_fresh _ _ G4)) H5) as G5.
  apply bind_ok in H as (u & w6 & H6 & H). injection H as <- <-. cbn [rp_new_parent].
  assert (grown w5 w6) as G6.
  { revert H6. destruct b; [|intros [= _ <-]; apply grown_refl, (gr_fresh _ _ G5)]. intros H6.
    eapply (keeps_each_tier (grown w5)); [|apply grown_refl, (gr_fresh _ _ G5)|exact H6].
    intros t0. pose proof (keeps_grown_materialize e w5). cbv beta. keep. }
  assert (0 <= t) as H0 by apply (tier_of_sb_found (nw_fs w) sb ts 0).
  assert (exists tr, tier_at (nw_sb w) t = Some tr) as [tr Et].
  { unfold smoothfs_materialize_parent_on_tier in H5. apply bind_ok in H5 as (sbi & w7 & [= <- <-] & H5).
    destruct (tier_at (nw_sb w4) t) as [tr|] eqn:Et; [|discriminate H5]. revert Et. unfold tier_at.
    destruct (Z.ltb_spec t 0); [lia|]. intros Et. pose proof (f_equal (lookup (Z.to_nat t)) (gr_paths _ _ G4)) as Ep.
    rewrite !list_lookup_fmap, Et in Ep. destruct (tiers (nw_sb w) !! Z.to_nat t) as [tr0|]; [by exists tr0|done]. }
  exists t, tr. split; [done|]. split; [done|]. split.
  - revert Et. unfold tier_at. destruct (Z.ltb_spec t 0); [lia|]. intros Et.
    assert (ts !! Z.to_nat t = Some tr) as Ets by (unfold ts; rewrite lookup_take_Some; split; [done|lia]).
    destruct (tier_of_sb_found (nw_fs w) sb ts 0) as [_ (tr' & E1 & E2)].
    { apply lookup_lt_Some in Ets. fold t. lia. }
    fold t in E1. rewrite Z.sub_0_r in E1. congruence.
  - pose proof (materialized_chain e t _ _ _ _ (gr_fresh _ _ G4) (roots_grown _ _ G4 Hr) H5) as (tr5 & Et5 & _ & Hch).
    destruct (tier_at_grown _ _ _ _ (grown_trans _ _ _ G4 G5) Et) as (tr' & Et' & Ep').
    rewrite Et' in Et5. injection Et5 as <-. rewrite <- Ep'. by apply (chain_grown w5).
Qed.

(** The stale target of a plan is the known target. *)
Lemma plan_cross_stale f b sb path ln w plan w' : plan_cross_dir e f b sb path ln w = (Ok plan, w') ->
  rp_lower_new plan = None /\ (rp_stale plan = None \/ rp_stale plan = ln).
Proof.
  intros H. unfold plan_cross_dir in H. apply bind_ok in H as (w1 & w2 & _ & H). case_hyp H; [discriminate H|].
  case_hyp H; [discriminate H|]. apply bind_ok in H as (stale & w3 & H3 & H).
  assert (stale = None \/ stale = ln) as Hs.
  { destruct ln as [ln|]; [|injection H3 as <- _; by left]. destruct (ld_node ln) as [t|]; [|injection H3 as <- _; by left].
    apply bind_ok in H3 as (l & w4 & _ & H3). case_hyp H3; [discriminate H3|]. case_hyp H3; [discriminate H3|].
    injection H3 as <- _. by right. }
  apply bind_ok in H as (rel & w4 & _ & H). destruct rel as [rel|]; [|discriminate H].
  apply bind_ok in H as (mat & w5 & _ & H). apply bind_ok in H as (u & w6 & _ & H). by injection H as <- _.
Qed.

Lemma plan_same_stale fs isd f op ln plan : plan_same_dir fs isd f op ln = Ok plan ->
  (rp_lower_new plan = None \/ rp_lower_new plan = ln) /\ (rp_stale plan = None \/ rp_stale plan = ln).
Proof.
  unfold plan_same_dir. destruct ln as [ln|]; [|intros [= <-]; cbn; auto]. case_goal.
  - destruct (ld_node ln); [|intros [= <-]; cbn; auto]. repeat (case_goal; [done|]). intros [= <-]. cbn. auto.
  - intros [= <-]. cbn. auto.
Qed.

Lemma choose_plan_spec fs isd f b lo np opd npd new_d w plan w' : fresh_ok w ->
  choose_plan e fs isd f b lo np opd npd new_d w = (Ok plan, w') ->
  grown w w' /\ (rp_lower_new plan = None \/ rp_lower_new plan = d_fsdata new_d)
  /\ (rp_stale plan = None \/ rp_stale plan = d_fsdata new_d).
Proof.
  intros Hf H. pose proof (grown_refl w Hf) as G. unfold choose_plan in H. case_hyp H.
  - destruct (plan_same_dir _ _ _ _ _) as [err|q] eqn:Ep; [discriminate H|]. injection H as <- <-.
    split; [done|]. by eapply plan_same_stale.
  - case_hyp H.
    + apply (keeps_grown_plan w) in H as G'; [|done]. apply plan_cross_stale in H as [-> Hs]. split; [done|]. auto.
    + destruct (d_fsdata new_d) as [ln|]; [case_hyp H; [discriminate H|]|]; injection H as <- <-; cbn; auto.
Qed.

(** Where a name of directory [npd] goes when its file was in [op], a directory
    of [opd]: it stays there when the two are one directory; else it goes to the
    lower directory of [npd] when that is on the same superblock, and to the
    directory at the path of [npd] on the file's own tier when it is not. *)
Definition rename_dest (w0 w : nworld) (op : Z) (opd npd : dentry) (np : Z) : Prop :=
  let sb d := default 0 (lf_sb (nw_fs w0) !! d) in
  if bool_decide (d_path opd = d_path npd) then np = op
  else exists lnp, d_fsdata npd ≫= ld_node = Some lnp
    /\ if sb op =? sb lnp then np = lnp else dir_on_sb w0 w (sb op) (d_path npd) np.

Lemma choose_plan_dest is_dir_node f b lo lnp opd npd new_d w plan w' : fresh_ok w -> roots_ok w ->
  d_fsdata npd ≫= ld_node = Some lnp ->
  choose_plan e (nw_fs w) is_dir_node f b lo lnp opd npd new_d w = (Ok plan, w') ->
  rename_dest w w' (ld_parent lo) opd npd (rp_new_parent plan).
Proof.
  intros Hf Hr Hnp H. unfold choose_plan in H. unfold rename_dest. destruct (bool_decide _).
  - destruct (plan_same_dir _ _ _ _ _) as [err|q] eqn:Ep; [discriminate H|]. injection H as <- _.
    revert Ep. unfold plan_same_dir. destruct (d_fsdata new_d) as [ln|]; [|by intros [= <-]].
    destruct (negb _); [|by intros [= <-]]. destruct (ld_node ln); [|by intros [= <-]]. repeat (case_goal; [done|]). by intros [= <-].
  - exists lnp. split; [done|]. destruct (default 0 (lf_sb (nw_fs w) !! ld_parent lo) =? _); cbn [negb] in H.
    + destruct (d_fsdata new_d) as [ln|]; [case_hyp H; [discriminate H|]|]; by injection H as <- _.
    + by apply plan_cross_parent in H.
Qed.

Lemma rename_dest_grown w0 w w' op opd npd np : (forall cur comps d, chain w cur comps d -> chain w' cur comps d) ->
  rename_dest w0 w op opd npd np -> rename_dest w0 w' op opd npd np.
Proof.
  intros Hc. unfold rename_dest. destruct (bool_decide _); [done|]. intros (lnp & E & H). exists lnp. split; [done|].
  destruct (_ =? _); [done|]. destruct H as (t & tr & A & B & D & H). exists t, tr. by auto.
Qed.

(** A started rename: the source is still where it was, the target name is
    that of the plan. *)
Lemma start_rename_spec op np f old new name w r w' node : ld_node old = Some node ->
  smoothfs_compat_start_rename e op np f old new name w = (Ok r, w') ->
  ticked w w' /\ lf_ent (nw_fs w) !! (ld_parent old, ld_name old) = Some node /\ ld_parent r = np
  /\ match new with Some ln => r = ln | None => ld_name r = name end.
Proof.
  intros Hn H. unfold smoothfs_compat_start_rename in H. apply bind_ok in H as (nw & w1 & H1 & H).
  assert (ticked w w1 /\ match new with Some ln => nw = ln | None => ld_name nw = name end) as [T Hname].
  { destruct new as [ln|]; [injection H1 as <- <-; split; [apply ticked_refl|done]|].
    apply bind_ok in H1 as (x & w2 & H2 & H1). injection H1 as <- <-. split; [by eapply lookup_one_ticks|done]. }
  apply bind_ok in H as (w2 & w3 & [= <- <-] & H). rewrite Hn in H.
  destruct (bool_decide (lf_ent (nw_fs w1) !! _ = Some node)) eqn:Eh; cbn [negb orb] in H; [|discriminate H].
  apply bool_decide_eq_true in Eh. case_hyp H; [discriminate H|]. case_hyp H; [discriminate H|].
  case_hyp H; [discriminate H|]. case_hyp H; [discriminate H|]. case_hyp H; [discriminate H|].
  injection H as <- <-. destruct T as [k ->]. split; [by eexists|]. split; [exact Eh|]. split; [|exact Hname].
  match goal with E : _ || negb (np =? ld_parent nw) = false |- _ => apply orb_false_iff in E as [_ E] end.
  to_prop. lia.
Qed.

Lemma shrunk_finish w0 od nd ino old_d new_d op plan orel :
  keeps (shrunk w0 (stale_only (rp_stale plan))) (rename_finish e od nd ino old_d new_d false op plan orel).
Proof.
  unfold rename_finish, drop_new_dentry. pose proof (shrunk_drop_stale w0). destruct (rp_stale plan); keep.
Qed.

(** *** The path of the moved inode *)

Lemma rekey_holds ino path w u w' : calm e -> Z.of_nat (String.length (join_path path)) + 2 <= PATH_MAX ->
  keyed (nw_sb w) -> rekey_moved e ino path w = (Ok u, w') ->
  inode_holds ino (fun si => rel_path si = Some (join_path path)) w'.
Proof.
  intros Hc Hlen K H. unfold rekey_moved in H. apply bind_ok in H as (rel & w1 & H1 & H).
  assert (rel = Some (join_path path) /\ ticked w w1) as [-> [k ->]].
  { unfold smoothfs_rel_path_from_dentry, mbind_ns, ask in H1.
    destruct (Z.ltb_spec (ne_ora e (nw_k w)) 0); [specialize (Hc (nw_k w)); lia|].
    destruct (Z.ltb_spec PATH_MAX (Z.of_nat (String.length (join_path path)) + 2)); [lia|]. injection H1 as <- <-.
    match goal with |- context [?b <? 0] => destruct (Z.ltb_spec b 0) as [Hlt|] end; [|split; [done|by eexists]].
    specialize (Hc (S (nw_k w))). cbn in Hlt. lia. }
  apply bind_ok in H as (a & w2 & [= <- <-] & H). apply bind_ok in H as (sbi & w3 & [= <- <-] & H).
  apply bind_ok in H as (si & w4 & H4 & H). apply get_inode_ok in H4 as [-> Hsi]. cbn in Hsi.
  destruct (replace_rel_path _ _ si _) as [sbi' si'] eqn:Er. apply replace_rel_path_frame in Er as (F1 & _ & F3 & _ & _ & F6).
  injection H as _ <-. pose proof (K _ _ Hsi) as Hk. unfold inode_holds, keyed, nw_sb in *. cbn in *. rewrite F1, F3, Hk. split.
  - intros j x Hx. apply lookup_insert_Some in Hx as [[<- <-]|[_ Hx]]; [congruence|by apply K].
  - exists si'. by rewrite lookup_insert_eq.
Qed.

Lemma holds_forget_other ino Q i : i <> ino -> keeps (inode_holds ino Q) (smoothfs_forget_placement e i false).
Proof.
  intros Hne. unfold smoothfs_forget_placement. apply keeps_bind.
  - intros w r w' [K (si & Hsi & H)]. unfold forget_path, mbind_ns, get_inode, get_sb.
    destruct (inodes (nw_sb w) !! i) as [s|] eqn:Es; [|intros [= _ <-]; split; [done|by exists si]].
    destruct (rel_path s); [|intros [= _ <-]; split; [done|by exists si]].
    destruct (smoothfs_path_map_del (nw_sb w) s) as [sbi s'] eqn:Ed.
    assert (inodes sbi = inodes (nw_sb w) /\ i_ino s' = i_ino s) as [E1 E2].
    { unfold smoothfs_path_map_del in Ed. repeat case_hyp Ed; by injection Ed as <- <-. }
    intros [= _ <-]. pose proof (K _ _ Es) as Hk. unfold inode_holds, keyed, nw_sb in *. cbn. rewrite E1, E2, Hk. split.
    + intros j x Hx. apply lookup_insert_Some in Hx as [[<- <-]|[_ Hx]]; [cbn; congruence|by apply K].
    + exists si. by rewrite lookup_insert_ne.
  - intros [rel|]; apply keeps_bind; try (by keep); intros sbi; apply keeps_bind; try (by keep); intros _;
      by apply holds_update_other.
Qed.

Lemma holds_drop_stale ino Q ln i : i <> Some ino -> keeps (inode_holds ino Q) (smoothfs_drop_stale_rename_target e ln i).
Proof.
  intros Hne. unfold smoothfs_drop_stale_rename_target. pose proof (holds_start_removing e ino Q).
  pose proof (holds_vfs_unlink e ino Q). destruct i as [i|]; [|keep].
  assert (keeps (inode_holds ino Q) (smoothfs_forget_placement e i false)) by (apply holds_forget_other; congruence). keep.
Qed.

Lemma finish_path od nd ino old_d new_d op plan orel w u w' : calm e ->
  Z.of_nat (String.length (join_path (d_path new_d))) + 2 <= PATH_MAX -> d_inode new_d <> Some ino -> ns_inv w ->
  rename_finish e od nd ino old_d new_d false op plan orel w = (Ok u, w') ->
  inode_holds ino (fun si => rel_path si = Some (join_path (d_path new_d))) w'.
Proof.
  intros Hc Hlen Hne K H. unfold rename_finish in H.
  apply bind_ok in H as (u1 & w1 & H1 & H).
  assert (ns_inv w1) as K1.
  { revert H1. unfold drop_new_dentry. destruct (d_inode new_d); [|by intros [= _ <-]].
    by apply keeps_update_inode; [by intros|]. }
  apply bind_ok in H as (u2 & w2 & H2 & H). apply (keeps_copy_attrs _ _ _ _ _ K1) in H2 as K2.
  apply bind_ok in H as (u3 & w3 & H3 & H). apply (keeps_copy_attrs _ _ _ _ _ K2) in H3 as K3.
  apply bind_ok in H as (u4 & w4 & H4 & H).
  apply (rekey_holds _ _ _ _ _ Hc Hlen) in H4; [|intros i s; apply (ix_ino _ (ca_index _ K3))].
  apply bind_ok in H as (u5 & w5 & H5 & H). injection H as _ <-.
  destruct (rp_stale plan) as [ln|]; [|by injection H5 as _ <-].
  by apply (holds_drop_stale ino _ ln (d_inode new_d) Hne _ _ _ H4) in H5.
Qed.

(** The steps of a successful rename of a file. *)
Lemma rename_steps od opd old_d nd npd new_d f w d' w' lo node l :
  sane e -> cache_ok (nw_sb w) -> fresh_ok w -> roots_ok w -> rf_exchange f = false -> rf_whiteout f = false ->
  d_fsdata old_d = Some lo -> ld_node lo = Some node -> lower (nw_sb w) !! node = Some l -> S_ISDIR (l_type l) = false ->
  (forall ln, d_fsdata new_d = Some ln -> ld_name ln = d_name new_d) ->
  smoothfs_rename_inner e od opd old_d nd npd new_d f w = (Ok d', w') ->
  exists ino plan w1 w2 u u', d_inode old_d = Some ino
  /\ d' = Dentry (d_path new_d) (Some ino) (Some (LDentry (rp_new_parent plan) (d_name new_d) (Some node)))
  /\ grown w w1 /\ ns_inv w2 /\ (rp_stale plan = None \/ rp_stale plan = d_fsdata new_d)
  /\ lf_ent (nw_fs w1) !! (ld_parent lo, ld_name lo) = Some node
  /\ vfs_rename e (ld_parent lo) (ld_name lo) (rp_new_parent plan) (d_name new_d) w1 = (Ok u, w2)
  /\ rename_finish e od nd ino old_d new_d false (ld_parent lo) plan None w2 = (Ok u', w')
  /\ rename_dest w w1 (ld_parent lo) opd npd (rp_new_parent plan).
Proof.
  intros Hs K Hf Hr Hx Hw Ho Hn Hl Hd Hname H. unfold smoothfs_rename_inner in H. rewrite Ho in H.
  destruct (d_fsdata npd ≫= ld_node) as [lnp|] eqn:Enp; [|discriminate H]. destruct (d_inode old_d) as [ino|] eqn:Ei; [|discriminate H].
  apply bind_ok in H as (w0 & w0' & [= <- <-] & H). cbv zeta in H. rewrite Hn, Hl, Hd in H.
  apply bind_ok in H as (plan & w1 & H1 & H). apply (keeps_choose e Hs _ _ _ _ _ _ _ _ _ _ _ _ K) in H1 as K1.
  pose proof (choose_plan_dest _ _ _ _ _ _ _ _ _ _ _ Hf Hr Enp H1) as Hdest.
  apply (choose_plan_spec _ _ _ _ _ _ _ _ _ _ _ _ Hf) in H1 as (G & Hln & Hst).
  apply bind_ok in H as (new & w2 & H2 & H). apply (keeps_start_rename e _ _ _ _ _ _ _ _ _ K1) in H2 as K2.
  apply (start_rename_spec _ _ _ _ _ _ _ _ _ node Hn) in H2 as (T & He & Hp & Hnew).
  apply bind_ok in H as (orel & w3 & [= <- <-] & H). apply bind_ok in H as (u & w4 & H4 & H).
  apply bind_ok in H as (u' & w5 & H5 & H). injection H as <- <-.
  unfold rename_lower in H4. rewrite Hx, Hw in H4. apply bind_ok in H4 as (u4 & w6 & H4 & H6). injection H6 as <- <-.
  assert (ld_name new = d_name new_d) as En.
  { destruct Hln as [E|E]; rewrite E in Hnew; [done|]. destruct (d_fsdata new_d) as [ln|]; [subst; by apply Hname|done]. }
  rewrite Hp, En in H4. exists ino, plan, w2, w6, u4, u'.
  split; [done|]. split; [done|]. split; [apply (quiet_closed w1); [by apply quiet_ticked|done]|].
  split; [by eapply keeps_vfs_rename|]. split; [done|]. split; [by destruct T as [k ->]|].
  split; [done|]. split; [done|]. eapply rename_dest_grown; [|exact Hdest]. intros cur comps d. apply chain_grown.
  apply (quiet_closed w1); [by apply quiet_ticked|apply grown_refl, (gr_fresh _ _ G)].
Qed.

(** C25. A rename of a file, without RENAME_EXCHANGE and RENAME_WHITEOUT, onto a
    free name or another file (the VFS does not ask for a rename between two
    names of one inode), that succeeds moves its lower name to the new name: in
    the same lower directory when old and new parent are one directory, else in
    the lower directory of the new parent when that is on the file's superblock,
    and else in the directory at the new parent's path on the file's own tier.
    The old name is gone, every other name of every tier is kept except the
    replaced target's; the dentry's inode is the moved one and, when nothing
    fails, has the new path. *)
Theorem rename_moves_one_name od opd old_d nd npd new_d f w d' w' lo node l :
  sane e -> cache_ok (nw_sb w) -> fresh_ok w -> roots_ok w -> rf_exchange f = false -> rf_whiteout f = false ->
  d_fsdata old_d = Some lo -> ld_node lo = Some node -> lower (nw_sb w) !! node = Some l -> S_ISDIR (l_type l) = false ->
  (forall ln, d_fsdata new_d = Some ln -> ld_name ln = d_name new_d /\ ld_node ln <> Some node) ->
  d_inode new_d = None \/ d_inode new_d <> d_inode old_d ->
  smoothfs_rename_inner e od opd old_d nd npd new_d f w = (Ok d', w') ->
  exists ino np, d_inode old_d = Some ino
  /\ d' = Dentry (d_path new_d) (Some ino) (Some (LDentry np (d_name new_d) (Some node)))
  /\ rename_dest w w' (ld_parent lo) opd npd np
  /\ lf_ent (nw_fs w') !! (np, d_name new_d) = Some node
  /\ (lf_ent (nw_fs w) !! (np, d_name new_d) = Some node \/ lf_ent (nw_fs w') !! (ld_parent lo, ld_name lo) = None)
  /\ (forall k x, lf_ent (nw_fs w) !! k = Some x -> k <> (ld_parent lo, ld_name lo) -> k <> (np, d_name new_d) ->
        (forall ln, d_fsdata new_d = Some ln -> k <> (ld_parent ln, ld_name ln)) -> lf_ent (nw_fs w') !! k = Some x)
  /\ (calm e -> Z.of_nat (String.length (join_path (d_path new_d))) + 2 <= PATH_MAX ->
        exists si, inodes (nw_sb w') !! ino = Some si /\ rel_path si = Some (join_path (d_path new_d))).
Proof.
  intros Hs K Hf Hr Hx Hw Ho Hn Hl Hd Ht Hni H.
  destruct (rename_steps _ _ _ _ _ _ _ _ _ _ lo node l Hs K Hf Hr Hx Hw Ho Hn Hl Hd (fun ln E => proj1 (Ht ln E)) H)
    as (ino & plan & w1 & w2 & u & u' & Hino & -> & G & K2 & Hst & He & Hv & Hfin & Hdest).
  exists ino, (rp_new_parent plan). split; [done|]. split; [done|]. split.
  { destruct (gr_node _ _ G _ _ Hl) as (l1 & Hl1 & El). apply forget_ids_fields in El as (El & _). rewrite <- El in Hd.
    eapply rename_dest_grown; [|exact Hdest]. intros cur comps d. apply chain_dirs.
    eapply dirs_finish; [|exact Hfin]. by eapply dirs_rename. }
  apply (vfs_rename_spec _ _ _ _ _ _ _ _ He) in Hv as [_ Hv].
  pose proof (shrunk_finish w2 _ _ _ _ _ _ _ _ _ _ _ (shrunk_refl w2 _) Hfin) as [S1 S2 _].
  assert (forall k x, stale_only (d_fsdata new_d) k x -> stale_only (rp_stale plan) k x) as Hso
    by (intros k x Hk; by destruct Hst as [-> | ->]).
  assert (node < lf_next (nw_fs w)) as Hlt by (apply (fr_next w Hf); by rewrite Hl).
  split.
  { apply S2; [by destruct Hv as [[-> ?]|[-> _]]; [|rewrite lookup_insert_eq]|]. apply Hso.
    unfold stale_only. destruct (d_fsdata new_d) as [ln|]; [|done]. intros [_ E]. by destruct (Ht ln eq_refl). }
  split.
  { destruct Hv as [[_ Hold]|[E Hne]].
    - left. destruct (gr_new _ _ G _ _ Hold); [done|lia].
    - right. eapply lookup_weaken_None; [|exact S1]. rewrite E, lookup_insert_ne, lookup_delete_eq; [done|]. congruence. }
  split.
  { intros k x Hk K1 K3 K4. apply S2.
    - pose proof (lookup_weaken _ _ _ _ Hk (gr_ent _ _ G)) as Hk1.
      destruct Hv as [[-> _]|[-> _]]; [done|]. by rewrite lookup_insert_ne, lookup_delete_ne.
    - apply Hso. unfold stale_only. destruct (d_fsdata new_d) as [ln|]; [|done]. intros [E _]. by apply (K4 ln). }
  intros Hc Hlen. eapply (finish_path _ _ _ _ _ _ _ _ _ _ _ Hc Hlen) in Hfin as [_ Hi]; [done| |done].
  rewrite Hino in Hni. by destruct Hni as [-> |].
Qed.

End Rename.

(** ** The theorem on a concrete pool *)

Lemma rename_moves_one_name_witness :
  exists d' w', smoothfs_rename_inner (ns_env0 false) 9326954828284297216 spilled_d spilled_f 9326954828284297216
                  spilled_d (neg ["d"%string; "g"%string]) (RenameFlags false false false) spilled_world = (Ok d', w')
  /\ lf_ent (nw_fs w') !! (101, "g"%string) = Some 102.
Proof.
  destruct (smoothfs_rename_inner (ns_env0 false) 9326954828284297216 spilled_d spilled_f 9326954828284297216
              spilled_d (neg ["d"%string; "g"%string]) (RenameFlags false false false) spilled_world)
    as [[err|d'] w'] eqn:E; [exfalso; revert E; vm_compute; discriminate|].
  exists d', w'. split; [reflexivity|].
  assert (exists l, lower (nw_sb spilled_world) !! 102 = Some l /\ S_ISDIR (l_type l) = false) as (l & Hl & Hd).
  { destruct (lower (nw_sb spilled_world) !! 102) as [l|] eqn:El; [|exfalso; revert El; vm_compute; discriminate].
    exists l. split; [reflexivity|]. revert El. vm_compute. intros [= <-]. reflexivity. }
  destruct (rename_moves_one_name (ns_env0 false) 9326954828284297216 spilled_d spilled_f 9326954828284297216
              spilled_d (neg ["d"%string; "g"%string]) (RenameFlags false false false) spilled_world d' w'
              (LDentry 101 "f" (Some 102)) 102 l (demo_sane false) spilled_cache_ok)
    as (ino & np & _ & _ & Hdest & H & _);
    [apply fresh_check_ok; by vm_compute|apply roots_check_ok; by vm_compute|reflexivity|reflexivity|reflexivity|reflexivity|exact Hl|exact Hd|discriminate
    |by left|exact E|].
  unfold rename_dest in Hdest. rewrite bool_decide_true in Hdest by done. cbn [ld_parent] in Hdest. subst np. exact H.
Defined.
