(* ===== verification/Rehome.v ===== *)
(** * Truncated files that change tiers: src/src/smoothfs/inode.c and super.c

    A truncate to zero of a file on a slow tier gives the file a new, empty
    backing on the fastest tier instead (smoothfs_stage_truncate_to_fast); the
    old lower file stays until the administrator lets the slow tier drain, and
    then it is unlinked by its path (smoothfs_write_staging_drain_rehomes).

    The world adds two things to the one of [LowerFs]: for every inode whose
    [write_staged] flag is set the tier its old copy is on
    ([write_staged_drain_tier]), and the staging counters. *)
From S2P Require Import Prelude Types Oid Tiers KernelIO RangeList RangeMeta Staging Drains PlacementLog InodeMaps LowerFs Movement PathIndex Namespace Lookup NsWorld Dir NamespaceInv Quiet Creation Removal.

Record rworld := RWorld { rw_ns : nworld; rw_staged : gmap Z Z; rw_st : wstats }.
#[export] Instance rworld_eta : Eta rworld := fun r => RWorld (rw_ns r) (rw_staged r) (rw_st r).
Definition rw_sb (w : rworld) : sb_info := nw_sb (rw_ns w).

(** A step on the pool and the trees. *)
Definition on_ns {A} (m : M A) (w : rworld) : result A * rworld :=
  let (r, n) := m (rw_ns w) in (r, w <| rw_ns := n |>).

(** [struct iattr]: the size and the mode bits, when they are to be set. *)
Record iattr := IAttr { ia_size : option Z; ia_mode : option Z }.

Section Rehome.
Context (e : ns_env).

(** ** The truncate *)

Definition smoothfs_should_stage_truncate (sbi : sb_info) (si : inode_info) (attr : iattr) : bool :=
  if negb (write_staging_enabled sbi) then false
  else if negb (S_ISREG (i_type si)) then false
  else if negb (bool_decide (ia_size attr = Some 0)) then false
  else if current_tier si =? fastest_tier sbi then false
  else if negb (pin_eqb (pin si) PIN_NONE) then false
  else if smoothfs_tier_near_enospc (ne_statfs e) sbi (fastest_tier sbi) then false
  else true.

(** [notify_change] on a lower inode. *)
Definition set_attrs (attr : iattr) (l : lnode) : lnode :=
  l <| l_size := default (l_size l) (ia_size attr) |> <| l_perm := default (l_perm l) (ia_mode attr) |>.
Definition notify_change (node : Z) (attr : iattr) : M unit :=
  let! _ := fallible e in
  let! l := get_node node in
  put_node node (set_attrs attr l).

(** The identity of the object on its new backing. *)
Definition stamp_backing (node : Z) (o : list Z) (g : Z) : M unit :=
  let! l := get_node node in
  let! a := ask e in
  let (err, l) := smoothfs_write_oid_xattr a l o in
  let! _ := put_node node l in
  if negb (err =? 0) && negb (err =? - EEXIST) then fail err
  else
    let! b := ask e in
    let (err, l) := smoothfs_write_gen_xattr b l g in
    let! _ := put_node node l in
    if negb (err =? 0) then fail err else ok tt.

(** The parent's chain on the fastest tier, and the file under the same name
    in it, made if it is not there. *)
Definition stage_backing (sbi : sb_info) (si : inode_info) (d : dentry) (parent_rel : string) (attr : iattr)
  : M (path * Z) :=
  let! pp := smoothfs_materialize_parent_on_tier e (fastest_tier sbi) parent_rel in
  let! child := lookup_one e (p_dentry pp) (d_name d) in
  let! node := (match child with
                | Some n => ok n
                | None => vfs_create e (p_dentry pp) (d_name d) (Z.land (i_perm si) 4095)
                end) in
  let! _ := notify_change node attr in
  let! _ := stamp_backing node (oid si) (gen si) in
  ok (pp, node).

(** [smoothfs_set_lower_dentry] of one alias of the inode. *)
Fixpoint move_alias (old new : option Z) (l : list (option Z)) : list (option Z) :=
  match l with
  | [] => []
  | a :: l => if bool_decide (a = old) then new :: l else a :: move_alias old new l
  end.

Definition old_lower_tier (sbi : sb_info) (si : inode_info) : Z :=
  match lower_path si with Some p => smoothfs_tier_of sbi (p_mnt p) | None => SMOOTHFS_MAX_TIERS end.

(** The inode moves to its new backing; returns the tier of the old one. *)
Definition stage_switch (ino : Z) (d : dentry) (rel : string) (pp : path) (node : Z) : M Z :=
  let! sbi := get_sb in
  let! si := get_inode ino in
  let! l := get_node node in
  let! a := ask e in
  let! b := ask e in
  let t := fastest_tier sbi in
  let old_tier := old_lower_tier sbi si in
  let (si, old) := smoothfs_swap_lower_path si (Path (p_mnt pp) node) in
  let (sbi, si) := replace_rel_path a sbi si (Some rel) in
  let si := mark_placed t si <| cutover_gen := u32 (cutover_gen si + 1) |> in
  let sbi := match old with
             | Some p =>
                 match lower sbi !! p_dentry p with
                 | Some ol => if old_tier <? SMOOTHFS_MAX_TIERS
                              then smoothfs_lower_ino_map_remove sbi old_tier (l_ino ol) else sbi
                 | None => sbi
                 end
             | None => sbi
             end in
  let (_, sbi) := smoothfs_lower_ino_map_insert b sbi t (l_ino l) (i_ino si) in
  let si := si <| aliases := move_alias (d_fsdata d ≫= ld_node) (Some node) (aliases si) |> in
  let! _ := set_sb (put_inode sbi (smoothfs_copy_attrs si l)) in
  ok old_tier.

(** The placement record; an error is only warned about. *)
Definition record_staged (ino : Z) : M unit :=
  let! si := get_inode ino in
  let! a := ask e in
  let! sbi := get_sb in
  let t := fastest_tier sbi in
  let '(_, sbi, _) := smoothfs_placement_record (0 <=? a) (ne_now e) sbi (oid si) MS_PLACED t t false in
  set_sb sbi.

(** Everything up to the point where the inode changes. *)
Definition stage_prepare (ino : Z) (d : dentry) (attr : iattr) : M (string * path * Z) :=
  let! sbi := get_sb in
  let! si := get_inode ino in
  if cache_mode sbi || negb (smoothfs_should_stage_truncate sbi si attr) then fail (- EOPNOTSUPP)
  else
    let! rel := smoothfs_rel_path_from_dentry e (d_path d) in
    let! parent_rel := smoothfs_rel_path_from_dentry e (removelast (d_path d)) in
    match rel, parent_rel with
    | Some rel, Some parent_rel =>
        let! _ := kalloc e in
        let! (pp, node) := stage_backing sbi si d parent_rel attr in
        ok (rel, pp, node)
    | _, _ => fail (- ENOMEM)
    end.

Definition smoothfs_stage_truncate_to_fast (d : dentry) (attr : iattr) (w : rworld) : result dentry * rworld :=
  match d_inode d with
  | None => (Err (- ESTALE), w)
  | Some ino =>
      match on_ns (stage_prepare ino d attr) w with
      | (Err err, w) => (Err err, w)
      | (Ok (rel, pp, node), w) =>
          match on_ns (stage_switch ino d rel pp node) w with
          | (Err err, w) => (Err err, w)
          | (Ok old_tier, w) =>
              let w := w <| rw_staged := <[ino := old_tier]> (rw_staged w) |>
                         <| rw_st := smoothfs_write_staging_note_rehome (rw_st w) (ne_now e) |> in
              let (_, w) := on_ns (record_staged ino) w in
              (Ok (smoothfs_set_lower_dentry d (Some (LDentry (p_dentry pp) (d_name d) (Some node)))), w)
          end
      end
  end.

(** ** The drain *)

Definition rehome_drainable (grab : Z -> bool) (w : rworld) (ino : Z) : bool :=
  match rw_staged w !! ino with
  | None => false
  | Some t => smoothfs_write_staging_drain_tier_active (rw_sb w) t && grab ino
  end.

(** [grab ino]: [igrab] succeeds. *)
Definition smoothfs_write_staging_find_drainable_rehome (grab : Z -> bool) (w : rworld) : option Z :=
  find_first (rehome_drainable grab w) (inode_list (rw_sb w)).

Definition pending_rehomes (w : rworld) : nat :=
  length (List.filter (fun ino => bool_decide (is_Some (rw_staged w !! ino))) (inode_list (rw_sb w))).

(** The old copy is gone. *)
Definition rehome_cleared (ino : Z) (w : rworld) : rworld :=
  let w := w <| rw_staged := delete ino (rw_staged w) |>
             <| rw_st := rw_st w <| ws_last_drain_ns := ne_now e |> <| ws_reason := SR_REHOME_DRAIN |> |> in
  if (pending_rehomes w =? 0)%nat && (range_staged_bytes (rw_st w) =? 0)
  then w <| rw_st := rw_st w <| staged_bytes := 0 |> <| oldest_staged_write_ns := 0 |> |>
  else w.

(** [kstrdup] of the inode's path *)
Definition dup_rel_path (ino : Z) : M string :=
  let! si := get_inode ino in
  match rel_path si with
  | None => fail (- ENOMEM)
  | Some rel => let! _ := kalloc e in ok rel
  end.

Definition smoothfs_write_staging_drain_one_rehome (ino : Z) (w : rworld) : Z * rworld :=
  match rw_staged w !! ino with
  | None => (0, w)
  | Some t =>
      if negb (smoothfs_write_staging_drain_tier_active (rw_sb w) t) then (0, w)
      else
        match on_ns (let! rel := dup_rel_path ino in smoothfs_unlink_rel_path_on_tier e t rel) w with
        | (Err err, w) => (err, w)
        | (Ok _, w) => (0, rehome_cleared ino w)
        end
  end.

(** [None]: the pass is not over after [fuel] rounds. *)
Fixpoint rehome_pass (fuel : nat) (grab : Z -> bool) (w : rworld) : option (Z * rworld) :=
  match smoothfs_write_staging_find_drainable_rehome grab w with
  | None => Some (0, w)
  | Some ino =>
      match fuel with
      | O => None
      | S fuel =>
          let (err, w) := smoothfs_write_staging_drain_one_rehome ino w in
          if negb (err =? 0) then Some (err, w) else rehome_pass fuel grab w
      end
  end.

Definition smoothfs_write_staging_drain_rehomes (grab : Z -> bool) (w : rworld) : option (Z * rworld) :=
  rehome_pass (length (inode_list (rw_sb w))) grab w.

End Rehome.

(** ** What a drain removes *)

(** The name of the file at path [rel] of tier [t]. *)
Definition copy_at (n : nworld) (t : Z) (rel : string) (k : Z * string) : Prop :=
  exists pp ld, resolved n t (fst (split_rel rel)) = Ok (pp, ld) /\ k = (p_dentry pp, snd (split_rel rel)).

Definition dirp (n : nworld) (d : Z) : bool := match lower (nw_sb n) !! d with Some l => S_ISDIR (l_type l) | None => false end.

(** Names may have gone; the rest of the trees is the same. *)
Record thinned (n0 n : nworld) : Prop := Thinned {
  th_ent : lf_ent (nw_fs n) ⊆ lf_ent (nw_fs n0);
  th_at : lf_at (nw_fs n) = lf_at (nw_fs n0);
  th_link : lf_link (nw_fs n) = lf_link (nw_fs n0);
  th_type : forall d, l_type <$> lower (nw_sb n) !! d = l_type <$> lower (nw_sb n0) !! d;
  th_sb : nw_sb n0 <| lower := lower (nw_sb n) |> = nw_sb n;
}.

Lemma thinned_refl n : thinned n n.
Proof. constructor; try done. by destruct n as [[[] ? ?] ? ?]. Qed.
Lemma thinned_trans n1 n2 n3 : thinned n1 n2 -> thinned n2 n3 -> thinned n1 n3.
Proof.
  intros [A1 A2 A3 A4 A5] [B1 B2 B3 B4 B5]. constructor.
  - by etransitivity.
  - congruence.
  - congruence.
  - intros d. by rewrite B4.
  - rewrite <- B5, <- A5. done.
Qed.
Lemma thinned_sb {A} n0 n (f : sb_info -> A) : thinned n0 n -> (forall s l, f (s <| lower := l |>) = f s) -> f (nw_sb n) = f (nw_sb n0).
Proof. intros H Hf. rewrite <- (th_sb _ _ H). apply Hf. Qed.
Lemma thinned_dirp n0 n d : thinned n0 n -> dirp n d = dirp n0 d.
Proof.
  intros H. pose proof (th_type _ _ H d) as E. unfold dirp.
  destruct (lower (nw_sb n) !! d), (lower (nw_sb n0) !! d); try done. cbn in E. by injection E as ->.
Qed.

(** A walk that succeeds with fewer names goes the same way with more. *)
Lemma path_walk_thinned n0 n root links : thinned n0 n -> forall at0 cur comps r,
  path_walk (nw_fs n) (lower (nw_sb n)) root links at0 cur comps = Ok r ->
  path_walk (nw_fs n0) (lower (nw_sb n0)) root links at0 cur comps = Ok r.
Proof.
  intros T.
  assert (forall d, dentry_of (nw_fs n) d = dentry_of (nw_fs n0) d) as Hat by (intros d; unfold dentry_of; by rewrite (th_at _ _ T)).
  assert (forall d, match lower (nw_sb n) !! d with Some l => S_ISDIR (l_type l) | None => false end
    = match lower (nw_sb n0) !! d with Some l => S_ISDIR (l_type l) | None => false end) as Hd
    by (intros d; exact (thinned_dirp _ _ d T)).
  induction links as [|links IH]; intros at0 cur comps; revert at0 cur;
    (induction comps as [|c comps IHc]; intros at0 cur r; [done|]); simpl;
    (destruct (bool_decide (c = EmptyString) || bool_decide (c = "."%string)); [apply IHc|]);
    rewrite Hd; (destruct (negb _); [done|]); rewrite ?Hat; (destruct (bool_decide (c = ".."%string)); [apply IHc|]);
    (destruct (lf_ent (nw_fs n) !! (cur, c)) as [d'|] eqn:Ee; [|done]);
    rewrite (lookup_weaken _ _ _ _ Ee (th_ent _ _ T));
    pose proof (f_equal (lookup d') (th_link _ _ T)) as El; rewrite <- El;
    (destruct (lf_link (nw_fs n) !! d') as [[abs_ target]|]; [|apply IHc]); [done|]. rewrite Hat. apply IH.
Qed.

Lemma resolved_thinned n0 n t rel r : thinned n0 n -> resolved n t rel = Ok r -> resolved n0 t rel = Ok r.
Proof.
  intros T. unfold resolved. rewrite (thinned_sb _ _ ntiers T) by done.
  assert (tier_at (nw_sb n) t = tier_at (nw_sb n0) t) as -> by (unfold tier_at; by rewrite (thinned_sb _ _ tiers T)).
  destruct (_ <=? t); [done|]. destruct (tier_at (nw_sb n0) t) as [tr|]; [|done]. cbv zeta.
  assert (forall d, dentry_of (nw_fs n) d = dentry_of (nw_fs n0) d) as Hat by (intros d; unfold dentry_of; by rewrite (th_at _ _ T)).
  rewrite !Hat. destruct (str_empty rel); [done|].
  destruct (path_walk (nw_fs n) _ _ _ _ _ _) as [err|[at_ d]] eqn:E; [done|].
  by rewrite (path_walk_thinned _ _ _ _ T _ _ _ _ E).
Qed.

Lemma copy_at_thinned n0 n t rel k : thinned n0 n -> copy_at n t rel k -> copy_at n0 t rel k.
Proof. intros T (pp & ld & H & ->). exists pp, ld. split; [by eapply resolved_thinned|done]. Qed.

(** One unlink: at most the copy, which is a regular file, goes; after a
    success there is no copy. *)
Definition unlinked (t : Z) (rel : string) (n : nworld) (r : result unit) (n' : nworld) : Prop :=
  thinned n n'
  /\ (forall k x, lf_ent (nw_fs n) !! k = Some x -> lf_ent (nw_fs n') !! k = None ->
        copy_at n t rel k /\ exists l, lower (nw_sb n) !! x = Some l /\ l_type l = FT_REG)
  /\ (r = Ok tt -> exists k, copy_at n t rel k /\ lf_ent (nw_fs n') !! k = None).

Lemma thinned_ticked n m : ticked n m -> thinned n m.
Proof. intros [k ->]. constructor; try done. by destruct n as [[[] ? ?] ? ?]. Qed.

Lemma unlinked_ticked t rel n r n' : ticked n n' ->
  (r = Ok tt -> exists k, copy_at n t rel k /\ lf_ent (nw_fs n) !! k = None) -> unlinked t rel n r n'.
Proof. intros T H. split; [by apply thinned_ticked|]. destruct T as [k0 ->]. split; [|exact H]. cbn. intros k x H1 H2. congruence. Qed.

Lemma unlinked_err t rel n m err r n' : ticked n m -> (Err err, m) = (r, n') -> unlinked t rel n r n'.
Proof. intros T [= <- <-]. by apply unlinked_ticked. Qed.

(** The copy [d] is a regular file and is unlinked from [parent]. *)
Lemma vfs_unlink_copy e t rel n m parent name d l r n' : ticked n m ->
  (forall k, copy_at n t rel k <-> k = (parent, name)) -> lf_ent (nw_fs n) !! (parent, name) = Some d ->
  lower (nw_sb n) !! d = Some l -> l_type l = FT_REG ->
  vfs_unlink e parent name m = (r, n') -> unlinked t rel n r n'.
Proof.
  intros [k0 ->] Hcopy Hc Hl Hreg. unfold vfs_unlink, mbind_ns at 1.
  destruct (fallible e _) as [[err|u1] n4] eqn:Ef; pose proof (fallible_ticks _ _ _ _ Ef) as [k4 ->];
    [apply unlinked_err; by eexists|].
  cbn -[drop_entry drop_link]. rewrite Hc. unfold get_node, drop_entry, drop_link, put_node, on_fs, on_sb, mbind_ns, nw_sb in *. cbn.
  rewrite Hl, Hreg. change (S_ISDIR FT_REG) with false. cbv beta iota. cbn. unfold nw_sb. cbn. rewrite Hl. intros [= <- <-]. split_and!.
  - constructor; unfold nw_sb; cbn; try done; [apply delete_subseteq|].
    intros x. destruct (decide (x = d)) as [->|]; [by rewrite lookup_insert_eq, Hl|by rewrite lookup_insert_ne].
  - cbn. intros k x Hk Hg. destruct (decide (k = (parent, name))) as [->|Hne]; [|rewrite lookup_delete_ne in Hg by congruence; congruence].
    split; [by apply Hcopy|]. exists l. unfold nw_sb. split; [congruence|done].
  - intros _. exists (parent, name). split; [by apply Hcopy|]. cbn. apply lookup_delete_eq.
Qed.

Lemma unlink_rel_spec e t rel n r n' : smoothfs_unlink_rel_path_on_tier e t rel n = (r, n') -> unlinked t rel n r n'.
Proof.
  unfold smoothfs_unlink_rel_path_on_tier. destruct (str_empty rel); [apply unlinked_err, ticked_refl|].
  unfold mbind_ns at 1. destruct (kalloc e n) as [[err|u] n1] eqn:Ek; pose proof (kalloc_ticks _ _ _ _ Ek) as T1;
    [by apply unlinked_err|].
  destruct (split_rel rel) as [prel name] eqn:Es. destruct (str_empty name); [by apply unlinked_err|].
  unfold mbind_ns at 1. destruct (smoothfs_resolve_rel_path_on_tier e t prel n1) as [[err|[pp ld]] n2] eqn:Er;
    apply tier_resolve_spec in Er as [T2 Hres]; pose proof (ticked_trans _ _ _ T1 T2) as T12; [by apply unlinked_err|].
  destruct Hres as [Hres|(k & ? & _)]; [|done].
  assert (resolved n t prel = Ok (pp, ld)) as Hpp by by destruct T1 as [k ->].
  assert (forall k, copy_at n t rel k <-> k = (p_dentry pp, name)) as Hcopy.
  { intros k. unfold copy_at. rewrite Es. cbn [fst snd]. rewrite Hpp. split; [by intros (? & ? & [= <- _] & ->)|intros ->; eauto]. }
  unfold mbind_ns at 1. destruct (lookup_one e (p_dentry pp) name n2) as [[err|child] n3] eqn:El;
    pose proof (lookup_one_ticks _ _ _ _ _ _ El) as T3; pose proof (ticked_trans _ _ _ T12 T3) as T13; [by apply unlinked_err|].
  assert (child = lf_ent (nw_fs n) !! (p_dentry pp, name)) as Hc.
  { unfold lookup_one, mbind_ns in El. destruct (fallible e n2) as [[?|?] ?] eqn:Ef; [done|]. injection El as <- <-. by destruct T13 as [k ->]. }
  destruct child as [d|].
  - unfold mbind_ns at 1, get_node. assert (lower (nw_sb n3) = lower (nw_sb n)) as -> by by destruct T13 as [k ->].
    destruct (lower (nw_sb n) !! d) as [l|] eqn:Hl; [|by apply unlinked_err].
    destruct (S_ISREG (l_type l)) eqn:Ereg; cbn [negb]; [|by apply unlinked_err].
    apply bool_decide_eq_true in Ereg. by eapply vfs_unlink_copy.
  - intros [= <- <-]. apply unlinked_ticked; [done|]. intros _. exists (p_dentry pp, name). by rewrite Hcopy.
Qed.

Lemma path_walk_err fs nodes root links : forall at0 cur comps err,
  path_walk fs nodes root links at0 cur comps = Err err -> err < 0.
Proof.
  induction links as [|links IH]; intros at0 cur comps; revert at0 cur;
    (induction comps as [|c comps IHc]; intros at0 cur err; [done|]); simpl;
    (destruct (bool_decide (c = EmptyString) || bool_decide (c = "."%string)); [apply IHc|]);
    (destruct (negb _); [by intros [= <-]|]); (destruct (bool_decide (c = ".."%string)); [apply IHc|]);
    (destruct (lf_ent fs !! (cur, c)) as [d'|]; [|by intros [= <-]]);
    (destruct (lf_link fs !! d') as [[abs_ target]|]; [|apply IHc]); [by intros [= <-]|]. apply IH.
Qed.

Lemma resolve_err e t rel n err n' : smoothfs_resolve_rel_path_on_tier e t rel n = (Err err, n') -> err < 0.
Proof.
  intros [_ [H|(k & [= ->] & ?)]]%tier_resolve_spec; [|done]. revert H. unfold resolved.
  destruct (_ <=? t); [by intros [= ->]|]. destruct (tier_at _ t); [|by intros [= ->]]. cbv zeta.
  destruct (str_empty rel); [done|]. destruct (path_walk _ _ _ _ _ _ _) as [er|[? ?]] eqn:E; [|done].
  intros [= ->]. by apply path_walk_err in E.
Qed.

Create HintDb errs.

(** A computation whose errors are negative. *)
Definition negative {A} (m : M A) : Prop := forall w err w', m w = (Err err, w') -> err < 0.
Lemma negative_bind {A B} (m : M A) (k : A -> M B) : negative m -> (forall a, negative (k a)) -> negative (mbind_ns m k).
Proof.
  intros Hm Hk w err w'. unfold mbind_ns. destruct (m w) as [[er|a] w1] eqn:E; [|apply Hk].
  intros [= <- _]. by eapply Hm.
Qed.
Lemma negative_ok {A} (a : A) : negative (ok a).
Proof. done. Qed.
Lemma negative_fallible e : negative (fallible e).
Proof. by intros w err w' (k & _ & ?)%fallible_err. Qed.
Lemma negative_kalloc e : negative (kalloc e).
Proof. intros w err w'. unfold kalloc, mbind_ns, ask. cbn. case_goal; by intros [= <- _]. Qed.
Lemma negative_get_node d : negative (get_node d).
Proof. intros w err w'. unfold get_node. destruct (_ !! d); by intros [= <-]. Qed.
Lemma negative_get_inode i : negative (get_inode i).
Proof. intros w err w'. unfold get_inode. destruct (_ !! i); by intros [= <-]. Qed.
Lemma negative_fail {A} z : z < 0 -> negative (@fail A z).
Proof. by intros H w err w' [= <- _]. Qed.
#[export] Hint Resolve negative_ok negative_fallible negative_kalloc negative_get_node negative_get_inode : errs.
#[export] Hint Extern 1 (negative (fail _)) => (apply negative_fail; done) : errs.

Ltac negate :=
  repeat first
    [ match goal with |- forall _, _ => intro end
    | solve [eauto with errs]
    | match goal with
      | |- negative (mbind_ns _ _) => apply negative_bind
      | |- negative (if ?b then _ else _) => destruct b
      | |- negative (match ?x with _ => _ end) => destruct x
      end ].

Lemma negative_unlink_rel e t rel : negative (smoothfs_unlink_rel_path_on_tier e t rel).
Proof.
  assert (forall p, negative (smoothfs_resolve_rel_path_on_tier e t p)) as Hr by (intros p w err w'; apply resolve_err).
  assert (negative getw) as Hg by done.
  unfold smoothfs_unlink_rel_path_on_tier, lookup_one, vfs_unlink, drop_entry, drop_link, put_node, on_fs, on_sb.
  negate; by intros w err w'.
Qed.

(** The drain of the pool's rehomed files, started at [w0], has come to [w]:
    names that went were regular files at the path, on the tier to be drained,
    of an inode that is registered there; inodes left the register when that
    name was gone. *)
Record drained_from (w0 w : rworld) : Prop := DrainedFrom {
  df_thin : thinned (rw_ns w0) (rw_ns w);
  df_staged : rw_staged w ⊆ rw_staged w0;
  df_names : forall k x, lf_ent (nw_fs (rw_ns w0)) !! k = Some x -> lf_ent (nw_fs (rw_ns w)) !! k = None ->
    exists ino t si rel l, rw_staged w0 !! ino = Some t
      /\ smoothfs_write_staging_drain_tier_active (rw_sb w0) t = true
      /\ inodes (rw_sb w0) !! ino = Some si /\ rel_path si = Some rel /\ copy_at (rw_ns w0) t rel k
      /\ lower (rw_sb w0) !! x = Some l /\ l_type l = FT_REG;
  df_cleared : forall ino t, rw_staged w0 !! ino = Some t -> rw_staged w !! ino = None ->
    exists si rel k, inodes (rw_sb w0) !! ino = Some si /\ rel_path si = Some rel
      /\ copy_at (rw_ns w0) t rel k /\ lf_ent (nw_fs (rw_ns w)) !! k = None;
}.

Lemma drained_refl w : drained_from w w.
Proof.
  constructor; [apply thinned_refl|done| |].
  - intros k x H1 H2. congruence.
  - intros ino t H1 H2. congruence.
Qed.

Lemma drained_trans w1 w2 w3 : drained_from w1 w2 -> drained_from w2 w3 -> drained_from w1 w3.
Proof.
  intros [A1 A2 A3 A4] [B1 B2 B3 B4].
  assert (inodes (rw_sb w2) = inodes (rw_sb w1)) as Ei by by apply (thinned_sb _ _ inodes A1).
  assert (forall t, smoothfs_write_staging_drain_tier_active (rw_sb w2) t = smoothfs_write_staging_drain_tier_active (rw_sb w1) t) as Ea
    by (intros t; by apply (thinned_sb _ _ (fun s => smoothfs_write_staging_drain_tier_active s t) A1)).
  constructor; [by eapply thinned_trans|by etransitivity| |].
  - intros k x H1 H3. destruct (lf_ent (nw_fs (rw_ns w2)) !! k) as [x'|] eqn:H2; [|by apply A3].
    pose proof (lookup_weaken _ _ _ _ H2 (th_ent _ _ A1)) as Hx. rewrite H1 in Hx. injection Hx as <-.
    destruct (B3 _ _ H2 H3) as (ino & t & si & rel & l & C1 & C2 & C3 & C4 & C5 & C6 & C7).
    rewrite Ea in C2. rewrite Ei in C3. pose proof (th_type _ _ A1 x) as Ht. fold (rw_sb w2) (rw_sb w1) in Ht. rewrite C6 in Ht.
    destruct (lower (rw_sb w1) !! x) as [l1|] eqn:El; [|done]. injection Ht as Ht.
    exists ino, t, si, rel, l1. split_and!; try done; [by eapply lookup_weaken|by eapply copy_at_thinned|congruence].
  - intros ino t H1 H3. destruct (rw_staged w2 !! ino) as [t'|] eqn:H2.
    + pose proof (lookup_weaken _ _ _ _ H2 A2) as Hx. rewrite H1 in Hx. injection Hx as <-.
      destruct (B4 _ _ H2 H3) as (si & rel & k & C1 & C2 & C3 & C4). rewrite Ei in C1.
      exists si, rel, k. split_and!; try done. by eapply copy_at_thinned.
    + destruct (A4 _ _ H1 H2) as (si & rel & k & C1 & C2 & C3 & C4). exists si, rel, k. split_and!; try done.
      destruct (lf_ent (nw_fs (rw_ns w3)) !! k) as [x|] eqn:E; [|done].
      pose proof (lookup_weaken _ _ _ _ E (th_ent _ _ B1)). congruence.
Qed.

Lemma active_drained w0 w t : drained_from w0 w ->
  smoothfs_write_staging_drain_tier_active (rw_sb w) t = smoothfs_write_staging_drain_tier_active (rw_sb w0) t.
Proof. intros D. by apply (thinned_sb _ _ (fun s => smoothfs_write_staging_drain_tier_active s t) (df_thin _ _ D)). Qed.

Section Pass.
Context (e : ns_env).

Lemma rehome_cleared_fields ino w : rw_ns (rehome_cleared e ino w) = rw_ns w
  /\ rw_staged (rehome_cleared e ino w) = delete ino (rw_staged w).
Proof. unfold rehome_cleared. by case_goal. Qed.

(** Look up the path and unlink the copy. *)
Definition unlink_copy (ino t : Z) : M unit :=
  let! rel := dup_rel_path e ino in smoothfs_unlink_rel_path_on_tier e t rel.

Lemma unlink_copy_cases ino t n r n' : unlink_copy ino t n = (r, n') ->
  r <> Ok tt /\ ticked n n'
  \/ exists si rel n1, inodes (nw_sb n) !! ino = Some si /\ rel_path si = Some rel /\ ticked n n1
     /\ smoothfs_unlink_rel_path_on_tier e t rel n1 = (r, n').
Proof.
  unfold unlink_copy, dup_rel_path, mbind_ns, get_inode.
  destruct (inodes (nw_sb n) !! ino) as [si|]; [|intros [= <- <-]; left; by split; [|apply ticked_refl]].
  destruct (rel_path si) as [rel|] eqn:Er; [|intros [= <- <-]; left; by split; [|apply ticked_refl]].
  destruct (kalloc e n) as [[er|u] n1] eqn:Ek; pose proof (kalloc_ticks _ _ _ _ Ek);
    [intros [= <- <-]; by left|]. intros Hu. right. by exists si, rel, n1.
Qed.

Lemma unlink_copy_spec ino t w r n' : rw_staged w !! ino = Some t ->
  smoothfs_write_staging_drain_tier_active (rw_sb w) t = true -> unlink_copy ino t (rw_ns w) = (r, n') ->
  drained_from w (w <| rw_ns := n' |>)
  /\ (r = Ok tt -> exists si rel k, inodes (rw_sb w) !! ino = Some si /\ rel_path si = Some rel
        /\ copy_at (rw_ns w) t rel k /\ lf_ent (nw_fs n') !! k = None).
Proof.
  intros Hs Ha [[Hne T]|(si & rel & n1 & Hi & Hr & T & Hu)]%unlink_copy_cases.
  - split; [|done]. constructor; cbn; [by apply thinned_ticked|done| |].
    + intros k x H1 H2. destruct T as [k0 ->]. cbn in H2. congruence.
    + intros i t0 H1 H2. congruence.
  - apply unlink_rel_spec in Hu as (U1 & U2 & U3). pose proof (thinned_ticked _ _ T) as T1. split.
    + constructor; cbn; [by eapply thinned_trans|done| |intros i t0 H1 H2; congruence].
      intros k x H1 H2. assert (lf_ent (nw_fs n1) !! k = Some x) as H1' by by destruct T as [? ->].
      destruct (U2 _ _ H1' H2) as (C & l & Hl & Hty). exists ino, t, si, rel, l. split_and!; try done.
      * by eapply copy_at_thinned.
      * unfold rw_sb. destruct T as [? ->]. done.
    + intros Hr0. destruct (U3 Hr0) as (k & C & G). exists si, rel, k. split_and!; try done. by eapply copy_at_thinned.
Qed.

Lemma one_rehome_spec ino t w err w' : rw_staged w !! ino = Some t ->
  smoothfs_write_staging_drain_tier_active (rw_sb w) t = true ->
  smoothfs_write_staging_drain_one_rehome e ino w = (err, w') ->
  drained_from w w' /\ err <= 0 /\ (err = 0 -> rw_staged w' = delete ino (rw_staged w)).
Proof.
  intros Hs Ha. unfold smoothfs_write_staging_drain_one_rehome. rewrite Hs, Ha. cbn [negb]. fold (unlink_copy ino t). unfold on_ns.
  assert (negative (unlink_copy ino t)) as Hneg.
  { unfold unlink_copy, dup_rel_path. pose proof (negative_unlink_rel e t). negate. }
  destruct (unlink_copy ino t (rw_ns w)) as [r n'] eqn:E. destruct (unlink_copy_spec _ _ _ _ _ Hs Ha E) as [Hd Hok].
  destruct r as [er|[]]; intros [<- <-]%pair_equal_spec.
  - apply Hneg in E. split; [done|]. split; lia.
  - destruct (rehome_cleared_fields ino (w <| rw_ns := n' |>)) as [F1 F2]. split; [|split; [done|intros _; exact F2]].
    destruct Hd as [D1 D2 D3 D4]. constructor; rewrite ?F1, ?F2; [exact D1|apply delete_subseteq|exact D3|].
    intros i t0 H1 H2. cbn in H2. destruct (decide (i = ino)) as [->|]; [|rewrite lookup_delete_ne in H2 by done; congruence].
    rewrite Hs in H1. injection H1 as <-. by apply Hok.
Qed.

Lemma rehome_pass_spec grab fuel : forall w,
  (count (rehome_drainable grab w) (inode_list (rw_sb w)) <= fuel)%nat ->
  exists err w', rehome_pass e fuel grab w = Some (err, w') /\ drained_from w w' /\ err <= 0
  /\ (err = 0 -> forall ino, ino ∈ inode_list (rw_sb w) -> rehome_drainable grab w' ino = false).
Proof.
  induction fuel as [|fuel IH]; intros w Hf; cbn [rehome_pass]; unfold smoothfs_write_staging_find_drainable_rehome;
    (destruct (find_first (rehome_drainable grab w) (inode_list (rw_sb w))) as [ino|] eqn:Ef;
     [|exists 0, w; split; [done|]; split; [apply drained_refl|]; split; [done|]; intros _; by apply find_first_None]);
    apply find_first_Some in Ef as [Hin Hd].
  - assert (0 < count (rehome_drainable grab w) (inode_list (rw_sb w)))%nat; [|lia].
    eapply Nat.le_lt_trans; [|apply (count_lt _ (fun _ => false) _ ino); done]. lia.
  - pose proof Hd as Hd'. unfold rehome_drainable in Hd. destruct (rw_staged w !! ino) as [t|] eqn:Hs; [|done].
    apply andb_prop in Hd as [Ha _]. destruct (smoothfs_write_staging_drain_one_rehome e ino w) as [err w1] eqn:E1.
    destruct (one_rehome_spec _ _ _ _ _ Hs Ha E1) as (D & Hle & Hcl).
    destruct (Z.eqb_spec err 0) as [->|Hne]; cbn [negb]; [|exists err, w1; by split_and!].
    assert (inode_list (rw_sb w1) = inode_list (rw_sb w)) as El by by apply (thinned_sb _ _ inode_list (df_thin _ _ D)).
    destruct (IH w1) as (err & w2 & E2 & D2 & Hle2 & Hz).
    { rewrite El. enough (count (rehome_drainable grab w1) (inode_list (rw_sb w)) < count (rehome_drainable grab w) (inode_list (rw_sb w)))%nat by lia.
      apply (count_lt _ _ _ ino); [|done|done|].
      - intros i. unfold rehome_drainable. destruct (rw_staged w1 !! i) as [ti|] eqn:Ei; [|done].
        rewrite (lookup_weaken _ _ _ _ Ei (df_staged _ _ D)).
        by rewrite (active_drained _ _ _ D).
      - unfold rehome_drainable. by rewrite (Hcl eq_refl), lookup_delete_eq. }
    exists err, w2. split; [exact E2|]. split; [by eapply drained_trans|]. split; [done|]. by rewrite El in Hz.
Qed.

(** C30. The drain of rehomed files, which restarts its search of the inode list
    after every file, ends within one round per listed inode for every pattern
    of faults. It removes no lower name but the one at a rehomed file's path on
    the tier noted for it, keeps every inode, and when it reports success every
    listed file that is still marked is on a tier that is not being drained or
    could not be grabbed. *)
Theorem rehome_drain_removes_old_copies grab w :
  exists err w', smoothfs_write_staging_drain_rehomes e grab w = Some (err, w')
  /\ drained_from w w' /\ inodes (rw_sb w') = inodes (rw_sb w) /\ err <= 0
  /\ (err = 0 -> forall ino t, ino ∈ inode_list (rw_sb w) -> rw_staged w' !! ino = Some t ->
        smoothfs_write_staging_drain_tier_active (rw_sb w) t = false \/ grab ino = false).
Proof.
  destruct (rehome_pass_spec grab (length (inode_list (rw_sb w))) w) as (err & w' & E & D & Hle & Hz); [apply count_length|].
  exists err, w'. split; [exact E|]. split; [exact D|]. split; [by apply (thinned_sb _ _ inodes (df_thin _ _ D))|]. split; [done|].
  intros H0 ino t Hin Hs. specialize (Hz H0 ino Hin). unfold rehome_drainable in Hz. rewrite Hs in Hz.
  rewrite (active_drained _ _ _ D) in Hz.
  by apply andb_false_iff.
Qed.
End Pass.

(** ** The truncate keeps what it does not replace *)

Section Holds.
Context (e : ns_env) (ino : Z) (Q : inode_info -> Prop).
Context (HQ : forall si si', lower_path si' = lower_path si -> cutover_gen si' = cutover_gen si -> Q si -> Q si').
Hint Resolve holds_iget holds_put_node holds_on_fs holds_fallible holds_ask holds_kalloc holds_lookup_one holds_resolve
  holds_update_inode holds_materialize holds_vfs_make : keeps.

Lemma holds_prepare i d attr : keeps (inode_holds ino Q) (stage_prepare e i d attr).
Proof.
  unfold stage_prepare, stage_backing, notify_change, stamp_backing, vfs_create, smoothfs_rel_path_from_dentry. keep.
Qed.
End Holds.

(** Names and the types of nodes are kept. *)
Record more (n0 n : nworld) : Prop := More {
  mo_fresh : fresh_ok n;
  mo_ent : lf_ent (nw_fs n0) ⊆ lf_ent (nw_fs n);
  mo_type : forall d l, lower (nw_sb n0) !! d = Some l -> exists l', lower (nw_sb n) !! d = Some l' /\ l_type l' = l_type l;
}.
#[export] Instance more_quiet n0 : QuietClosed (more n0).
Proof.
  intros w w' Q [A B D]. pose proof Q as [F S]. constructor; [by apply (fresh_ok_quiet w)|by rewrite F|].
  intros d l Hl. destruct (D _ _ Hl) as (l1 & H1 & E1). destruct (same_pool_lookup _ _ _ _ S H1) as (l2 & H2 & E2).
  exists l2. split; [done|]. apply forget_ids_fields in E2 as (-> & _). done.
Qed.
Lemma more_refl n : fresh_ok n -> more n n.
Proof. intros H. constructor; [done|done|]. intros d l Hl. by exists l. Qed.
Lemma more_trans n1 n2 n3 : more n1 n2 -> more n2 n3 -> more n1 n3.
Proof.
  intros [A1 A2 A3] [B1 B2 B3]. constructor; [done|by etransitivity|].
  intros d l Hl. destruct (A3 _ _ Hl) as (l1 & H1 & E1). destruct (B3 _ _ H1) as (l2 & H2 & E2). exists l2. split; [done|congruence].
Qed.
Lemma more_grown n1 n2 : grown n1 n2 -> more n1 n2.
Proof.
  intros G. constructor; [apply (gr_fresh _ _ G)|apply (gr_ent _ _ G)|]. intros d l Hl.
  destruct (gr_node _ _ G _ _ Hl) as (l' & Hl' & E). apply forget_ids_fields in E as (E & _). by exists l'.
Qed.
Lemma is_dir_more n1 n2 d : more n1 n2 -> is_dir n1 d -> is_dir n2 d.
Proof. intros M (l & Hl & Hd). destruct (mo_type _ _ M _ _ Hl) as (l' & Hl' & E). exists l'. by rewrite E. Qed.
Lemma chain_more n1 n2 comps : more n1 n2 -> forall cur d, chain n1 cur comps d -> chain n2 cur comps d.
Proof.
  intros G. induction comps as [|c comps IH]; intros cur d; cbn [chain]; [done|].
  destruct (str_empty c); [apply IH|]. intros (x & Hx & Hd & H). exists x.
  split; [by eapply lookup_weaken, (mo_ent n1)|]. split; [by apply (is_dir_more n1)|by apply IH].
Qed.

(** Attributes of one node change. *)
Definition with_node (n : nworld) (d : Z) (l : lnode) (k : nat) : nworld :=
  n <| nw_pool := nw_pool n <| p_sbi := nw_sb n <| lower := <[d := l]> (lower (nw_sb n)) |> |> |> <| nw_k := k |>.

Lemma more_with n d l l' k : fresh_ok n -> lower (nw_sb n) !! d = Some l -> l_type l' = l_type l -> more n (with_node n d l' k).
Proof.
  intros Hf Hl Ht. constructor; unfold with_node, nw_sb in *; cbn.
  - constructor; unfold nw_sb; cbn.
    + intros x [lx Hx]. apply lookup_insert_Some in Hx as [[<- _]|[_ Hx]]; apply (fr_next n Hf); [by eexists|]. by exists lx.
    + intros x y Hy. destruct (fr_link n Hf _ _ Hy) as (lx & Hx & Hty). destruct (decide (x = d)) as [->|].
      * exists l'. rewrite lookup_insert_eq. split; [done|]. unfold nw_sb in Hx. congruence.
      * exists lx. by rewrite lookup_insert_ne.
  - done.
  - intros x lx Hx. destruct (decide (x = d)) as [->|]; [exists l'; rewrite lookup_insert_eq; split; [done|congruence]|].
    exists lx. by rewrite lookup_insert_ne.
Qed.

Lemma with_node_twice n d l1 k1 l2 k2 : with_node (with_node n d l1 k1) d l2 k2 = with_node n d l2 k2.
Proof. unfold with_node, nw_sb. cbn. by rewrite insert_insert_eq. Qed.

Section Truncate.
Context (e : ns_env) (Hsane : sane e).

Lemma ask_with n d l k : ask e (with_node n d l k) = (Ok (ne_ora e k), with_node n d l (S k)).
Proof. done. Qed.
Lemma get_with n d l k : get_node d (with_node n d l k) = (Ok l, with_node n d l k).
Proof. unfold get_node, with_node, nw_sb. cbn. by rewrite lookup_insert_eq. Qed.
Lemma put_with n d l1 k l2 : put_node d l2 (with_node n d l1 k) = (Ok tt, with_node n d l2 k).
Proof. by rewrite <- (with_node_twice n d l1 k l2 k). Qed.

(** [w] is [n] with the attributes and perhaps the identity on [node]. *)
Definition dressed (n : nworld) (node : Z) (attr : iattr) (w : nworld) : Prop :=
  exists l l' k, lower (nw_sb n) !! node = Some l /\ w = with_node n node l' k /\ l_type l' = l_type l
    /\ (forall s, ia_size attr = Some s -> l_size l' = s).

Lemma notify_spec node attr n r n' : notify_change e node attr n = (r, n') ->
  ticked n n' /\ r <> Ok tt \/ dressed n node attr n'.
Proof.
  unfold notify_change, mbind_ns at 1.
  destruct (fallible e n) as [[err|u] n1] eqn:Ef; pose proof (fallible_ticks _ _ _ _ Ef) as [k1 ->];
    [intros [= <- <-]; left; by split; [eexists|]|].
  unfold mbind_ns at 1, get_node. change (nw_sb (n <| nw_k := k1 |>)) with (nw_sb n).
  destruct (lower (nw_sb n) !! node) as [l|] eqn:Hl; [|intros [= <- <-]; left; by split; [eexists|]].
  intros [= _ <-]. right. exists l, (set_attrs attr l), k1. split_and!; [done|done|done|]. intros s Hs. cbn. by rewrite Hs.
Qed.

Lemma stamp_backing_spec node o g n attr w r w' : dressed n node attr w -> stamp_backing e node o g w = (r, w') -> dressed n node attr w'.
Proof.
  intros (l & l0 & k & Hl & -> & Ht & Hs). unfold stamp_backing, mbind_ns. rewrite get_with, ask_with.
  pose proof (write_oid_ids (ne_ora e k) l0 o) as Ho. destruct (smoothfs_write_oid_xattr _ l0 o) as [err1 l1].
  apply forget_ids_fields in Ho as (E1 & _ & _ & E2). cbn [snd] in E1, E2. rewrite put_with.
  assert (l_type l1 = l_type l /\ forall s, ia_size attr = Some s -> l_size l1 = s) as [T1 S1]
    by (split; [congruence|intros s ?; rewrite E2; by apply Hs]).
  destruct (negb (err1 =? 0) && negb (err1 =? - EEXIST)); [intros [= _ <-]; by exists l, l1, (S k)|].
  rewrite ask_with. destruct (smoothfs_write_gen_xattr _ l1 g) as [err2 l2] eqn:Eg.
  assert (l_type l2 = l_type l1 /\ l_size l2 = l_size l1) as [E3 E4].
  { unfold smoothfs_write_gen_xattr in Eg. case_hyp Eg; by injection Eg as _ <-. }
  rewrite put_with. destruct (negb (err2 =? 0)); intros [= _ <-]; exists l, l2, (S (S k)); (split_and!; [done|done|congruence|]);
    intros s ?; rewrite E4; by apply S1.
Qed.

Lemma more_dressed n0 n node attr w : more n0 n -> dressed n node attr w -> more n0 w.
Proof. intros M (l & l' & k & Hl & -> & Ht & _). eapply more_trans; [exact M|]. eapply more_with; [apply M|done|done]. Qed.

(** ** The new backing *)

(** The file that holds the object from now on: its directory is the parent's
    chain on the fastest tier. *)
Definition backed (n : nworld) (d : dentry) (prel : string) (attr : iattr) (pp : path) (node : Z) (w : nworld) : Prop :=
  exists tr n1, tier_at (nw_sb n) (fastest_tier (nw_sb n)) = Some tr /\ p_mnt pp = p_mnt (t_path tr)
  /\ grown n n1 /\ chain n1 (p_dentry (t_path tr)) (rel_comps prel) (p_dentry pp)
  /\ lf_ent (nw_fs n1) !! (p_dentry pp, d_name d) = Some node /\ dressed n1 node attr w.

Lemma stage_backing_spec n d prel attr si w r w' : fresh_ok n -> roots_ok n -> ticked n w ->
  stage_backing e (nw_sb n) si d prel attr w = (r, w') ->
  more n w' /\ forall pp node, r = Ok (pp, node) -> backed n d prel attr pp node w'.
Proof.
  intros Hf Hr T. assert (grown n w) as G by (apply (quiet_closed n); [by apply quiet_ticked|by apply grown_refl]).
  unfold stage_backing, mbind_ns at 1. set (t := fastest_tier (nw_sb n)).
  destruct (smoothfs_materialize_parent_on_tier e t prel w) as [[err|pp] w1] eqn:Em;
    pose proof (keeps_grown_materialize e n t prel _ _ _ G Em) as G1; [intros [= <- <-]; split; [by apply more_grown|done]|].
  destruct (materialized_chain e t prel w pp w1 (gr_fresh _ _ G) (roots_grown _ _ G Hr) Em) as (tr & Htr & Hmnt & Hch).
  assert (exists tr0, tier_at (nw_sb n) t = Some tr0 /\ t_path tr0 = t_path tr) as (tr0 & Htr0 & Etr).
  { unfold smoothfs_materialize_parent_on_tier, mbind_ns, get_sb in Em. destruct T as [k ->]. change (nw_sb (n <| nw_k := k |>)) with (nw_sb n) in Em.
    destruct (tier_at (nw_sb n) t) as [tr0|] eqn:E0; [|done]. exists tr0. split; [done|].
    destruct (tier_at_grown _ _ _ _ G1 E0) as (tr1 & E1 & E2). congruence. }
  unfold mbind_ns at 1. destruct (lookup_one e (p_dentry pp) (d_name d) w1) as [[err|child] w2] eqn:El;
    pose proof (lookup_one_ticks _ _ _ _ _ _ El) as [k2 ->];
    pose proof (quiet_closed w1 (w1 <| nw_k := k2 |>) (quiet_ticked _ _ (ex_intro _ k2 eq_refl)) G1) as G2;
    [intros [= <- <-]; split; [by apply more_grown|done]|].
  assert (child = lf_ent (nw_fs w1) !! (p_dentry pp, d_name d)) as Hc.
  { unfold lookup_one, mbind_ns in El. destruct (fallible e w1) as [[?|?] ?] eqn:Ef; [done|]. apply fallible_ticks in Ef as [k3 ->]. by injection El as <- _. }
  assert (forall node w3, grown n w3 -> chain w3 (p_dentry (t_path tr)) (rel_comps prel) (p_dentry pp) ->
    lf_ent (nw_fs w3) !! (p_dentry pp, d_name d) = Some node ->
    (let! _ := notify_change e node attr in let! _ := stamp_backing e node (oid si) (gen si) in ok (pp, node)) w3 = (r, w') ->
    more n w' /\ forall pp0 node0, r = Ok (pp0, node0) -> backed n d prel attr pp0 node0 w') as Hfin.
  { intros node w3 G3 C3 E3. unfold mbind_ns. destruct (notify_change e node attr w3) as [[err|[]] w4] eqn:En;
      apply notify_spec in En as [[T4 Hn]|D4]; try done.
    - intros [= <- <-]. split; [|done]. by apply (quiet_closed w3); [apply quiet_ticked|apply more_grown].
    - intros [= <- <-]. split; [|done]. eapply more_dressed; [by apply more_grown|exact D4].
    - destruct (stamp_backing e node (oid si) (gen si) w4) as [[err|[]] w5] eqn:Es; pose proof (stamp_backing_spec _ _ _ _ _ _ _ _ D4 Es) as D5;
        intros [= <- <-]; (split; [eapply more_dressed; [by apply more_grown|exact D5]|]); [done|].
      intros pp0 node0 [= <- <-]. exists tr0, w3. rewrite Etr. by split_and!. }
  destruct child as [node|].
  - unfold mbind_ns at 1, ok at 1. apply Hfin; [exact G2| |done]. by eapply chain_grown; [|exact Hch]; apply (quiet_closed w1); [by split|apply grown_refl, G1].
  - unfold mbind_ns at 1. destruct (vfs_create e _ _ _ _) as [[err|node] w3] eqn:Ev;
      apply vfs_make_spec in Ev as (G3 & _ & Hv); [|apply G2| |apply G2].
    + intros [= <- <-]. split; [|done]. apply more_grown. by eapply grown_trans.
    + destruct Hv as (_ & _ & Hent & _). apply Hfin; [by eapply grown_trans| |done].
      apply (chain_grown (w1 <| nw_k := k2 |>)); [done|]. eapply chain_grown; [|exact Hch]. apply (quiet_closed w1); [by split|apply grown_refl, G1].
Qed.

Lemma prepare_spec ino d attr n r n' si : fresh_ok n -> roots_ok n -> inodes (nw_sb n) !! ino = Some si ->
  stage_prepare e ino d attr n = (r, n') ->
  more n n' /\ forall rel pp node, r = Ok (rel, pp, node) ->
    cache_mode (nw_sb n) = false /\ smoothfs_should_stage_truncate e (nw_sb n) si attr = true
    /\ rel = join_path (d_path d) /\ backed n d (join_path (removelast (d_path d))) attr pp node n'.
Proof.
  intros Hf Hr Hi. unfold stage_prepare, mbind_ns at 1, get_sb, mbind_ns at 1, get_inode. rewrite Hi.
  assert (forall w err, ticked n w -> (Err err : result (string * path * Z), w) = (r, n') -> more n n' /\ forall rel pp node, r = Ok (rel, pp, node) ->
    cache_mode (nw_sb n) = false /\ smoothfs_should_stage_truncate e (nw_sb n) si attr = true
    /\ rel = join_path (d_path d) /\ backed n d (join_path (removelast (d_path d))) attr pp node n') as Herr.
  { intros w err T [= <- <-]. split; [|done]. apply (quiet_closed n); [by apply quiet_ticked|by apply more_refl]. }
  destruct (cache_mode (nw_sb n)); [apply Herr, ticked_refl|]. cbn [orb].
  destruct (smoothfs_should_stage_truncate e (nw_sb n) si attr); cbn [negb]; [|apply Herr, ticked_refl].
  unfold mbind_ns at 1. destruct (smoothfs_rel_path_from_dentry e (d_path d) n) as [[err|rel] n1] eqn:E1; [unfold smoothfs_rel_path_from_dentry, mbind_ns, ask in E1; cbn in E1; repeat case_hyp E1; done|].
  assert (ticked n n1 /\ forall x, rel = Some x -> x = join_path (d_path d)) as [T1 Hrel].
  { revert E1. unfold smoothfs_rel_path_from_dentry, mbind_ns, ask. cbn. repeat case_goal; intros [= <- <-]; (split; [by eexists|]); by intros ? [= <-]. }
  unfold mbind_ns at 1. destruct (smoothfs_rel_path_from_dentry e (removelast (d_path d)) n1) as [[err|prel] n2] eqn:E2;
    [unfold smoothfs_rel_path_from_dentry, mbind_ns, ask in E2; cbn in E2; repeat case_hyp E2; done|].
  assert (ticked n1 n2 /\ forall x, prel = Some x -> x = join_path (removelast (d_path d))) as [T2 Hprel].
  { revert E2. unfold smoothfs_rel_path_from_dentry, mbind_ns, ask. cbn. repeat case_goal; intros [= <- <-]; (split; [by eexists|]); by intros ? [= <-]. }
  pose proof (ticked_trans _ _ _ T1 T2) as T12. destruct rel as [rel|]; [|by apply Herr]. destruct prel as [prel|]; [|by apply Herr].
  unfold mbind_ns at 1. destruct (kalloc e n2) as [[err|u] n3] eqn:Ek; pose proof (ticked_trans _ _ _ T12 (kalloc_ticks _ _ _ _ Ek)) as T3; [by apply Herr|].
  unfold mbind_ns. destruct (stage_backing e (nw_sb n) si d prel attr n3) as [[err|[pp node]] n4] eqn:Es;
    destruct (stage_backing_spec _ _ _ _ _ _ _ _ Hf Hr T3 Es) as [M Hb]; intros [= <- <-]; (split; [exact M|]); [done|].
  intros rel0 pp0 node0 [= <- <- <-]. split_and!; [done|done|by apply Hrel|]. rewrite <- (Hprel _ eq_refl). by apply Hb.
Qed.

(** ** The switch *)

(** The inode after the switch to [node]. *)
Definition rehomed (si : inode_info) (rel : string) (t : Z) (p : path) (l : lnode) (si' : inode_info) : Prop :=
  newly_placed rel t si' /\ lower_path si' = Some p /\ i_size si' = l_size l /\ cutover_gen si' = u32 (cutover_gen si + 1).

Lemma repath_lower_path a sbi si p q : replace_rel_path a sbi (si <| lower_path := p |>) q
  = let (sbi', si') := replace_rel_path a sbi si q in (sbi', si' <| lower_path := p |>).
Proof.
  unfold replace_rel_path, smoothfs_path_map_del, smoothfs_path_map_add.
  destruct si as [? ? ? ? ? ? ? ? ? ? ? ? ? ? ? ? ? ? ? ? ? ? ? ? ? ? ? rp ? ph]. cbn.
  destruct ph, q as [q|]; cbn; destruct (path_map_ready sbi) eqn:Er; cbn; rewrite ?Er; cbn; try done;
    (destruct rp; cbn; rewrite ?Er; cbn; by destruct (a <? 0)) || by destruct (a <? 0).
Qed.

Lemma repath_gen a sbi si q sbi' si' : replace_rel_path a sbi si q = (sbi', si') -> cutover_gen si' = cutover_gen si /\ same_pool sbi sbi'.
Proof.
  intros H. split; [|etransitivity; [exact (repath_same_pool a sbi si q sbi' si' si' H)|by apply same_pool_eq]].
  revert H. unfold replace_rel_path, smoothfs_path_map_del, smoothfs_path_map_add. repeat case_goal; by intros [= _ <-].
Qed.

(** What happens to the inode when it moves to [node]. *)
Definition rehome_inode (d : dentry) (t : Z) (p : path) (l : lnode) (si : inode_info) : inode_info :=
  let si := si <| lower_path := Some p |> in
  let si := mark_placed t si <| cutover_gen := u32 (cutover_gen si + 1) |> in
  smoothfs_copy_attrs (si <| aliases := move_alias (d_fsdata d ≫= ld_node) (Some (p_dentry p)) (aliases si) |>) l.

(** The index by lower inode number is not part of the cache invariant. *)
Lemma lower_map_frame sbi sbi' m : sbi' = sbi <| lower_ino_map := m |> -> forall si,
  same_cache (put_inode sbi si) (put_inode sbi' si) /\ same_pool (put_inode sbi si) (put_inode sbi' si).
Proof. intros -> si. split; [by unfold same_cache|by apply same_pool_eq]. Qed.

Lemma lower_map_remove sbi t i : exists m, smoothfs_lower_ino_map_remove sbi t i = sbi <| lower_ino_map := m |>.
Proof.
  unfold smoothfs_lower_ino_map_remove. repeat case_goal; [exists (lower_ino_map sbi); by destruct sbi|by eexists|exists (lower_ino_map sbi); by destruct sbi].
Qed.
Lemma lower_map_insert f sbi t i j : exists m, snd (smoothfs_lower_ino_map_insert f sbi t i j) = sbi <| lower_ino_map := m |>.
Proof.
  unfold smoothfs_lower_ino_map_insert. repeat case_goal; [exists (lower_ino_map sbi); by destruct sbi..|by eexists].
Qed.

(** The key of the backing that the switch takes out of the lower-inode index. *)
Definition old_lower_key (sbi : sb_info) (si : inode_info) : option Z :=
  match lower_path si with
  | Some p => match lower sbi !! p_dentry p with
              | Some ol => if old_lower_tier sbi si <? SMOOTHFS_MAX_TIERS
                           then Some (smoothfs_lower_key (old_lower_tier sbi si) (l_ino ol)) else None
              | None => None
              end
  | None => None
  end.

Lemma repath_lower_map a sbi si q sbi' si' : replace_rel_path a sbi si q = (sbi', si') ->
  lower_ino_map sbi' = lower_ino_map sbi /\ lower_ino_map_ready sbi' = lower_ino_map_ready sbi.
Proof. unfold replace_rel_path, smoothfs_path_map_del, smoothfs_path_map_add. repeat case_goal; by intros [= <- _]. Qed.

Lemma remapped_from old new fault ino s s1 s2 : lower_ino_map s1 = lower_ino_map s ->
  lower_ino_map_ready s1 = lower_ino_map_ready s -> remapped old new fault ino s1 s2 -> remapped old new fault ino s s2.
Proof. intros E1 E2. unfold remapped. by rewrite E1, E2. Qed.

Lemma stage_switch_shape ino d rel pp node n si l : inodes (nw_sb n) !! ino = Some si -> lower (nw_sb n) !! node = Some l ->
  i_ino si = ino -> exists k s1 si1 m, replace_rel_path (ne_ora e (nw_k n)) (nw_sb n) si (Some rel) = (s1, si1)
  /\ stage_switch e ino d rel pp node n
     = (Ok (old_lower_tier (nw_sb n) si),
        n <| nw_pool := nw_pool n <| p_sbi := put_inode (s1 <| lower_ino_map := m |>)
               (rehome_inode d (fastest_tier (nw_sb n)) (Path (p_mnt pp) node) l si1) |> |> <| nw_k := k |>)
  /\ remapped (old_lower_key (nw_sb n) si) (smoothfs_lower_key (fastest_tier (nw_sb n)) (l_ino l))
       (ne_ora e (S (nw_k n))) ino (nw_sb n) (s1 <| lower_ino_map := m |>).
Proof.
  intros Hi Hl Hino. unfold stage_switch, mbind_ns, get_sb, get_inode, get_node, ask, smoothfs_swap_lower_path. rewrite Hi, Hl.
  cbv beta iota zeta. rewrite repath_lower_path. cbn [nw_k set_field].
  destruct (replace_rel_path (ne_ora e (nw_k n)) (nw_sb n) si (Some rel)) as [s1 si1] eqn:Er. cbv beta iota.
  destruct (repath_lower_map _ _ _ _ _ _ Er) as [M1 M2]. pose proof (replace_rel_path_frame _ _ _ _ _ _ Er) as (_ & Fl & Fi & _).
  set (old := match lower_path si with Some p => _ | None => s1 end).
  assert (unmapped (old_lower_key (nw_sb n) si) s1 old /\ lower_ino_map_ready old = lower_ino_map_ready s1) as [Hum Hrd].
  { unfold old, old_lower_key, unmapped. rewrite <- Fl. assert (unmapped None s1 s1) as Hn by by apply unmapped_refl.
    destruct (lower_path si) as [p|]; [|done]. destruct (lower s1 !! p_dentry p) as [ol|]; [|done].
    destruct (_ <? _); [|done]. split; [by apply lower_map_unmaps|by apply lower_remove_rest]. }
  assert (exists m, old = s1 <| lower_ino_map := m |>) as [m1 Hm1].
  { unfold old. assert (exists m, s1 = s1 <| lower_ino_map := m |>) as Hs by (exists (lower_ino_map s1); by destruct s1).
    destruct (lower_path si) as [p|]; [|done]. destruct (lower s1 !! p_dentry p); [|done]. case_goal; [apply lower_map_remove|done]. }
  clearbody old. pose proof (lower_map_moves (ne_ora e (S (nw_k n))) _ s1 old (fastest_tier (nw_sb n)) (l_ino l) (i_ino si1) Hum Hrd) as Hmap.
  match goal with |- context [smoothfs_lower_ino_map_insert ?f ?s ?t ?i ?j] =>
    change (snd _) with (snd (smoothfs_lower_ino_map_insert f s t i j)) in Hmap;
    destruct (lower_map_insert f s t i j) as [m2 Hm2]; destruct (smoothfs_lower_ino_map_insert f s t i j) as [err s2] end.
  cbn [snd] in Hm2, Hmap. rewrite Hm1 in Hm2. exists (S (S (nw_k n))), s1, si1, m2. split; [done|]. rewrite Hm2 in Hmap |- *.
  split; [done|]. rewrite Fi, Hino in Hmap. by eapply remapped_from.
Qed.

Lemma stage_switch_spec ino d rel pp node n r n' si l : cache_ok (nw_sb n) -> inodes (nw_sb n) !! ino = Some si ->
  lower (nw_sb n) !! node = Some l -> stage_switch e ino d rel pp node n = (r, n') ->
  r = Ok (old_lower_tier (nw_sb n) si) /\ cache_ok (nw_sb n') /\ quiet n n'
  /\ exists si', inodes (nw_sb n') !! ino = Some si'
     /\ rehomed si rel (fastest_tier (nw_sb n)) (Path (p_mnt pp) node) l si'
     /\ remapped (old_lower_key (nw_sb n) si) (smoothfs_lower_key (fastest_tier (nw_sb n)) (l_ino l))
          (ne_ora e (S (nw_k n))) ino (nw_sb n) (nw_sb n').
Proof.
  intros K Hi Hl. pose proof (ix_ino _ (ca_index _ K) _ _ Hi) as Hino.
  destruct (stage_switch_shape ino d rel pp node n si l Hi Hl Hino) as (k & s1 & si1 & m & Er & -> & Hmap). intros [= <- <-].
  split; [done|]. set (t := fastest_tier (nw_sb n)). set (si' := rehome_inode d t (Path (p_mnt pp) node) l si1).
  destruct (lower_map_frame s1 _ m eq_refl si') as [Fc Fp].
  assert (bookkeeping (rehome_inode d t (Path (p_mnt pp) node) l)) as Hbk by by intros s.
  pose proof (cache_ok_repath _ _ _ _ _ _ _ K ltac:(by rewrite Hino) Hbk Er) as K1. fold si' in K1.
  destruct (repath_gen _ _ _ _ _ _ Er) as [Hg _]. pose proof (repath_same_pool _ _ _ _ _ _ si' Er) as Hsp.
  apply replace_rel_path_frame in Er as (F1 & _ & F3 & _ & _ & F6). split; [by eapply cache_ok_frame|]. split.
  { split; [done|]. by etransitivity. }
  exists si'. split; [unfold nw_sb; cbn; by rewrite F1, F3, Hino, lookup_insert_eq|].
  split; [|exact Hmap]. split; [|split; [done|split; [done|cbn; by rewrite Hg]]]. unfold newly_placed. cbn. by rewrite F6.
Qed.

Lemma record_spec ino n r n' : record_staged e ino n = (r, n') -> cache_ok (nw_sb n) ->
  cache_ok (nw_sb n') /\ quiet n n' /\ inodes (nw_sb n') = inodes (nw_sb n)
  /\ lower_ino_map (nw_sb n') = lower_ino_map (nw_sb n).
Proof.
  unfold record_staged, mbind_ns, get_inode, get_sb, ask. destruct (inodes (nw_sb n) !! ino) as [si|]; [|intros [= _ <-] K; split; [exact K|]; split; [apply quiet_ticked, ticked_refl|done]].
  cbn [nw_k set_field]. change (nw_sb (n <| nw_k := ?k |>)) with (nw_sb n).
  destruct (smoothfs_placement_record _ _ _ _ _ _ _ _) as [[err sbi] b] eqn:Er. intros [= _ <-] K.
  assert (same_cache (nw_sb n) sbi /\ same_pool (nw_sb n) sbi /\ lower_ino_map sbi = lower_ino_map (nw_sb n)) as (Hc & Hp & Hm).
  { unfold smoothfs_placement_record in Er.
    repeat case_hyp Er; injection Er as _ <- _; (split; [by unfold same_cache|split; [by apply same_pool_eq|done]]). }
  split; [by eapply cache_ok_frame|]. split; [by split|]. split; [apply Hc|exact Hm].
Qed.

Lemma tier_of_loop_paths mnt ts : forall ts' i, t_path <$> ts' = t_path <$> ts -> tier_of_loop i ts' mnt = tier_of_loop i ts mnt.
Proof.
  induction ts as [|t ts IH]; intros [|t' ts'] i; try done. cbn. intros [= E1 E2]. rewrite E1. case_goal; [done|by apply IH].
Qed.
Lemma tier_of_paths sbi sbi' mnt : ntiers sbi' = ntiers sbi -> t_path <$> tiers sbi' = t_path <$> tiers sbi ->
  smoothfs_tier_of sbi' mnt = smoothfs_tier_of sbi mnt.
Proof. intros E1 E2. unfold smoothfs_tier_of. rewrite E1. apply tier_of_loop_paths. by rewrite !fmap_take, E2. Qed.

(** The members of the pool that the switch reads are those of the start. *)
Lemma backed_pool n d prel attr pp node w : backed n d prel attr pp node w ->
  fastest_tier (nw_sb w) = fastest_tier (nw_sb n) /\ (forall mnt, smoothfs_tier_of (nw_sb w) mnt = smoothfs_tier_of (nw_sb n) mnt)
  /\ more n w /\ exists l', lower (nw_sb w) !! node = Some l' /\ (forall s, ia_size attr = Some s -> l_size l' = s)
  /\ lf_ent (nw_fs w) !! (p_dentry pp, d_name d) = Some node
  /\ (forall x l, x <> node -> lower (nw_sb n) !! x = Some l -> exists lx, lower (nw_sb w) !! x = Some lx /\ forget_ids lx = forget_ids l)
  /\ exists tr, tier_at (nw_sb n) (fastest_tier (nw_sb n)) = Some tr /\ p_mnt pp = p_mnt (t_path tr)
     /\ chain w (p_dentry (t_path tr)) (rel_comps prel) (p_dentry pp).
Proof.
  intros (tr & n1 & Htr & Hm & G & Hch & He & D). pose proof D as (l & l' & k & Hl & -> & Hty & Hs).
  split; [exact (gr_fastest _ _ G)|]. split; [intros mnt; apply tier_of_paths; [exact (gr_ntiers _ _ G)|exact (gr_paths _ _ G)]|].
  split; [by eapply more_dressed; [apply more_grown|]|]. exists l'. split; [unfold nw_sb; cbn; apply lookup_insert_eq|]. split; [exact Hs|].
  split; [exact He|]. split.
  - intros x lx Hne Hx. destruct (gr_node _ _ G _ _ Hx) as (ly & Hy & E). exists ly. split; [|done].
    unfold nw_sb. cbn. by rewrite lookup_insert_ne.
  - exists tr. split; [done|]. split; [done|]. eapply chain_more; [|exact Hch]. eapply more_with; [apply G|done|done].
Qed.

Lemma quiet_more n w : fresh_ok n -> quiet n w -> more n w.
Proof. intros Hf Q. apply (quiet_closed n); [done|by apply more_refl]. Qed.

Lemma keeps_prepare ino d attr : keeps ns_inv (stage_prepare e ino d attr).
Proof.
  pose proof (keeps_materialize e Hsane). pose proof (keeps_vfs_make e). pose proof (keeps_rel_path e). pose proof (keeps_lookup_one e).
  unfold stage_prepare, stage_backing, notify_change, stamp_backing, vfs_create. keep.
Qed.

(** The file is on the fastest tier, empty, and everything that refers to it was
    switched; [n1] is the pool when the new backing was there and before the
    inode was switched to it. *)
Definition rehomed_at (d : dentry) (n n1 : nworld) (si : inode_info) (ino : Z) (d' : dentry) (n' : nworld) : Prop :=
  exists tr pp node si' l',
    tier_at (nw_sb n) (fastest_tier (nw_sb n)) = Some tr
    /\ d' = d <| d_fsdata := Some (LDentry pp (d_name d) (Some node)) |>
    /\ lf_ent (nw_fs n') !! (pp, d_name d) = Some node
    /\ chain n' (p_dentry (t_path tr)) (rel_comps (join_path (removelast (d_path d)))) pp
    /\ lower (nw_sb n') !! node = Some l' /\ l_size l' = 0
    /\ (forall x l, x <> node -> lower (nw_sb n) !! x = Some l ->
          exists lx, lower (nw_sb n') !! x = Some lx /\ forget_ids lx = forget_ids l)
    /\ inodes (nw_sb n') !! ino = Some si' /\ newly_placed (join_path (d_path d)) (fastest_tier (nw_sb n)) si'
    /\ lower_path si' = Some (Path (p_mnt (t_path tr)) node) /\ i_size si' = 0
    /\ cutover_gen si' = u32 (cutover_gen si + 1)
    /\ remapped (old_lower_key (nw_sb n1) si) (smoothfs_lower_key (fastest_tier (nw_sb n)) (l_ino l'))
         (ne_ora e (S (nw_k n1))) ino (nw_sb n1) (nw_sb n').

(** C29. A truncate to zero that is staged happens only outside cache mode and
    when the staging conditions hold. When it succeeds, the file is on the
    fastest tier under the same path, of size 0, with its inode, dentry, lower
    path and path index switched to it and a new cutover generation; in the
    lower-inode index, when it is in use, the newest entry of the old lower
    inode is taken out and, unless the insertion fails, the inode put in front
    under the fastest tier and the new lower inode number, every other entry
    staying as the preparation of the new backing left it; and the tier with the
    old copy is noted for the drain; every other lower object keeps its
    contents. When it fails, the inode keeps its backing. No lower name is
    removed either way. *)
Theorem truncate_rehomes_the_file d attr w r w' ino si :
  cache_ok (rw_sb w) -> fresh_ok (rw_ns w) -> roots_ok (rw_ns w) ->
  d_inode d = Some ino -> inodes (rw_sb w) !! ino = Some si ->
  smoothfs_stage_truncate_to_fast e d attr w = (r, w') ->
  cache_ok (rw_sb w') /\ lf_ent (nw_fs (rw_ns w)) ⊆ lf_ent (nw_fs (rw_ns w'))
  /\ match r with
     | Err _ => rw_staged w' = rw_staged w /\ rw_st w' = rw_st w
         /\ exists si', inodes (rw_sb w') !! ino = Some si' /\ lower_path si' = lower_path si /\ cutover_gen si' = cutover_gen si
     | Ok d' => cache_mode (rw_sb w) = false /\ smoothfs_should_stage_truncate e (rw_sb w) si attr = true
         /\ (exists rel pp node n1, stage_prepare e ino d attr (rw_ns w) = (Ok (rel, pp, node), n1)
              /\ rehomed_at d (rw_ns w) n1 si ino d' (rw_ns w'))
         /\ rw_staged w' = <[ino := old_lower_tier (rw_sb w) si]> (rw_staged w)
     end.
Proof.
  intros K Hf Hr Hd Hi. unfold smoothfs_stage_truncate_to_fast, on_ns. rewrite Hd.
  destruct (stage_prepare e ino d attr (rw_ns w)) as [r1 n1] eqn:Ep.
  pose proof (keeps_prepare _ _ _ _ _ _ K Ep) as K1.
  set (Q := fun s => lower_path s = lower_path si /\ cutover_gen s = cutover_gen si).
  assert (inode_holds ino Q n1) as [_ (si1 & Hi1 & Hq1 & Hq2)].
  { eapply (holds_prepare e ino Q); [intros s s' E1 E2 [A B]; split; congruence| |exact Ep].
    split; [intros i s; apply (ix_ino _ (ca_index _ K))|]. by exists si. }
  destruct (prepare_spec _ _ _ _ _ _ _ Hf Hr Hi Ep) as [M1 Hok].
  destruct r1 as [err|[[rel pp] node]]; [intros [= <- <-]; split; [exact K1|]; split; [apply M1|]; split; [done|]; split; [done|]; by exists si1|].
  destruct (Hok _ _ _ eq_refl) as (Hc & Hs & -> & B). cbn [rw_ns set_field].
  pose proof (backed_pool _ _ _ _ _ _ _ B) as (Ef & Et & _ & l' & Hl' & Hsz & He & Hoth & tr & Htr & Hm & Hch).
  destruct (stage_switch e ino d (join_path (d_path d)) pp node n1) as [r2 n2] eqn:Es.
  destruct (stage_switch_spec _ _ _ _ _ _ _ _ _ _ K1 Hi1 Hl' Es) as (-> & K2 & Q2 & si' & Hi' & (Hn & Hlp & Hsize & Hg) & Hmap).
  cbn [rw_ns rw_staged rw_st set_field]. destruct (record_staged e ino n2) as [r3 n3] eqn:Er.
  destruct (record_spec _ _ _ _ Er K2) as (K3 & Q3 & Ei & Em). intros [= <- <-]. cbn.
  assert (quiet n1 n3) as Q13 by (destruct Q2, Q3; split; [congruence|by etransitivity]).
  pose proof (quiet_more _ _ (mo_fresh _ _ M1) Q13) as M3. pose proof (more_trans _ _ _ M1 M3) as M.
  assert (ia_size attr = Some 0) as Ha.
  { unfold smoothfs_should_stage_truncate in Hs. repeat (case_hyp Hs; [done|]). destruct (bool_decide_reflect (ia_size attr = Some 0)); done. }
  split; [exact K3|]. split; [apply M|]. split; [done|]. split; [done|]. destruct Q13 as [F13 S13].
  destruct (same_pool_lookup _ _ _ _ S13 Hl') as (l3 & Hl3 & E3). pose proof (f_equal l_ino E3) as E4. cbn in E4.
  apply forget_ids_fields in E3 as (_ & _ & _ & E3). split.
  - exists (join_path (d_path d)), pp, node, n1. split; [done|]. rewrite Ef in Hn, Hmap. exists tr, (p_dentry pp), node, si', l3. rewrite F13, Ei, <- Hm.
    split; [exact Htr|]. split; [done|]. split; [exact He|]. split; [exact (chain_more _ _ _ M3 _ _ Hch)|]. split; [exact Hl3|].
    split; [rewrite E3; by apply Hsz|]. split; [|split_and!; [done|done|done|rewrite Hsize; by apply Hsz|by rewrite <- Hq2|]].
    2:{ rewrite E4. unfold old_lower_key, old_lower_tier in Hmap |- *. rewrite <- Hq1. unfold remapped in *. by rewrite Em. }
    intros x l Hne Hx. destruct (Hoth _ _ Hne Hx) as (lx & Hx1 & E1). destruct (same_pool_lookup _ _ _ _ S13 Hx1) as (ly & Hy & E2).
    exists ly. split; [done|congruence].
  - unfold old_lower_tier. rewrite Hq1. unfold rw_sb. destruct (lower_path si); [|done]. by rewrite Et.
Qed.
End Truncate.

(** ** Runs on a small pool *)

Definition no_stats : wstats := WStats 0 0 0 0 0 0 0 SR_NONE 0 0 0 0 0 0 RR_NONE.
(** File f was created while the first tier was full; staging is on. *)
Definition rh_made : result dentry * nworld := smoothfs_create_inner (ns_env0 true) 1 (neg ["f"%string]) 420 ns_world.
Definition rh_ino : Z := 9326954828284297216.
Definition rh_d : dentry := Dentry ["f"%string] (Some rh_ino) (Some (LDentry 2 "f" (Some 100))).
Definition staging_on (n : nworld) : rworld :=
  RWorld (snd (on_sb (fun s => s <| write_staging_enabled := true |>) n)) ∅ no_stats.
Definition rh_start : rworld := staging_on (snd rh_made).
Definition to_zero : iattr := IAttr (Some 0) None.
Definition rh_trunc : result dentry * rworld := smoothfs_stage_truncate_to_fast (ns_env0 false) rh_d to_zero rh_start.

Lemma staging_on_ok n : cache_ok (nw_sb n) -> cache_ok (rw_sb (staging_on n)).
Proof. by apply cache_ok_frame. Qed.

Lemma rh_start_ok : cache_ok (rw_sb rh_start).
Proof.
  unfold rh_start. apply staging_on_ok. destruct rh_made as [r w] eqn:E. unfold rh_made in E.
  apply (keeps_create _ (demo_sane true)) in E; [exact E|exact ns_world_cache_ok].
Qed.

Lemma truncate_rehomes_the_file_witness :
  exists d', fst rh_trunc = Ok d' /\ rw_staged (snd rh_trunc) = {[rh_ino := 1]}
  /\ exists parent node, d_fsdata d' = Some (LDentry parent "f" (Some node)) /\ parent = 1.
Proof.
  destruct rh_trunc as [r w'] eqn:E.
  assert (exists si, inodes (rw_sb rh_start) !! rh_ino = Some si /\ old_lower_tier (rw_sb rh_start) si = 1) as (si & Hi & Ho)
    by (vm_compute; eexists; split; reflexivity).
  assert (match r with Ok _ => True | Err _ => False end) as Hr by (revert E; vm_compute; intros [= <- _]; exact I).
  destruct (truncate_rehomes_the_file (ns_env0 false) (demo_sane false) rh_d to_zero rh_start r w' rh_ino si) as (_ & _ & H).
  - exact rh_start_ok.
  - apply fresh_check_ok. vm_compute. reflexivity.
  - apply roots_check_ok. vm_compute. reflexivity.
  - reflexivity.
  - exact Hi.
  - exact E.
  - destruct r as [|d']; [destruct Hr|]. cbn [fst snd]. exists d'. split; [reflexivity|].
    destruct H as (_ & _ & (rel & pp0 & node0 & n1 & _ & tr & pp & node & si' & l' & Htr & Hd & _ & Hch & _) & Hst). rewrite Ho in Hst. split; [exact Hst|].
    exists pp, node. rewrite Hd. split; [reflexivity|].
    assert (p_dentry (t_path tr) = 1) as Ht by (revert Htr; vm_compute; intros [= <-]; reflexivity). rewrite Ht in Hch. symmetry. exact Hch.
Defined.

(** *** A file that moved back is deleted by the drain

    After the truncate a move takes the file back to the second tier (the
    destination is the old lower file); [write_staged] stays set.  When the
    tier is drained, the live file is unlinked. *)
Definition rh_oid : list Z := match inodes (rw_sb (snd rh_trunc)) !! rh_ino with Some si => oid si | None => [] end.
Definition rh_cut : cut_env :=
  CutEnv (fun _ => true) true 1 0 no_alias "f" (fun _ _ => Err (- ENOENT))
    (fun p n => if (p_mnt p =? 20) && bool_decide (n = "f"%string) then Ok (Some 100) else Ok None) 0 0 0 0 0 0 0.
Definition rh_moved : Z * Z * Z * mworld :=
  let (e1, m) := smoothfs_movement_plan true true 1 (MWorld tt (rw_sb (snd rh_trunc))) rh_oid 1 9 false in
  let (e2, m) := smoothfs_movement_cutover rh_cut id m rh_oid 9 None in
  let (e3, m) := smoothfs_movement_complete true true 1 m rh_oid 9 in
  (e1, e2, e3, m).
(** The administrator lets both tiers drain. *)
Definition rh_before_drain : rworld :=
  snd rh_trunc <| rw_ns := snd (on_sb (fun _ => mw_sb (snd rh_moved) <| write_staging_drain_active_tier_mask := 3 |>) (rw_ns (snd rh_trunc))) |>.

Example drain_unlinks_a_file_that_moved_back :
  fst rh_moved = (0, 0, 0)
  /\ option_map (fun si => (ms si, current_tier si, lower_path si)) (inodes (rw_sb rh_before_drain) !! rh_ino)
     = Some (MS_PLACED, 1, Some (Path 20 100))
  /\ lf_ent (nw_fs (rw_ns rh_before_drain)) !! (2, "f"%string) = Some 100
  /\ match smoothfs_write_staging_drain_rehomes (ns_env0 false) (fun _ => true) rh_before_drain with
     | Some (err, w) => err = 0 /\ lf_ent (nw_fs (rw_ns w)) !! (2, "f"%string) = None
         /\ option_map l_nlink (lower (rw_sb w) !! 100) = Some 0
     | None => False
     end.
Proof. vm_compute. done. Qed.

(** *** A failed truncate hides the file

    Writing the identity fails after the empty file was made on the fastest
    tier; the inode stays on its old backing, but the name now leads to the
    empty file. *)
Definition rh_flaky : ns_env := NsEnv (fun k => if (k =? nw_k (rw_ns rh_start) + 8)%nat then - EIO else 0)
  (ne_iget (ns_env0 false)) (ne_statfs (ns_env0 false)) false (ne_ino (ns_env0 false)) 7.
Definition rh_failed : result dentry * rworld := smoothfs_stage_truncate_to_fast rh_flaky rh_d to_zero rh_start.

Example failed_truncate_hides_the_file :
  fst rh_failed = Err (- EIO)
  /\ option_map lower_path (inodes (rw_sb (snd rh_failed)) !! rh_ino) = Some (Some (Path 20 100))
  /\ match fst (smoothfs_lookup_inner (ns_env0 false) 1 (neg ["f"%string]) (rw_ns (snd rh_failed))) with
     | Ok d => option_map ld_parent (d_fsdata d) = Some 1 /\ d_inode d <> Some rh_ino
     | Err _ => False
     end.
Proof. vm_compute. done. Qed.
