(* ===== verification/Sysfs.v ===== *)
(** * sysfs controls that act on cached inodes: src/src/smoothfs/super.c

    "<tier> <lower inode>" written to forget_lower says that the daemon moved
    or removed that lower copy behind the filesystem's back.  The inode that is
    backed by it is re-pointed to the copy on another tier, if there is one, and
    dropped otherwise, so that the backing filesystem can free the blocks.
    drop_read_cache empties the read caches of all inodes. *)
From S2P Require Import Prelude Types Oid Tiers KernelIO PlacementLog InodeMaps LowerFs ReadCache Movement PathIndex Namespace Lookup NsWorld Dir NamespaceInv Quiet Creation.

Section Forget.
Context (e : ns_env).

(** [smoothfs_relower_after_forget] with the lookup that it makes.  [alias] is
    the kernel's part in finding the inode's path, [ins] the outcome of the insertion into
    the lower inode map. *)
Definition relower (alias : alias_env) (ins : Z) (ino tier lower_ino : Z) : M bool :=
  let! si := get_inode ino in
  let! found := match smoothfs_current_rel_path alias si with
                | None => ok None
                | Some rel =>
                    let! r := attempt (smoothfs_lookup_rel_across_tiers e tier rel) in
                    ok (match r with Ok (p, _, t) => Some (t, p) | Err _ => None end)
                end in
  let! sbi := get_sb in
  let (live, sbi) := smoothfs_relower_after_forget alias (fun _ => found) ins sbi si tier lower_ino in
  let! _ := on_sb (fun _ => sbi) in
  ok live.

(** [busy]: someone besides the replay pin holds the inode, so that the last
    [iput] is not this one. *)
Definition smoothfs_forget_tier_copy (alias : alias_env) (ins : Z) (busy : bool) (tier lower_ino : Z) : M unit :=
  let! sbi := get_sb in
  let ino := smoothfs_lower_ino_map_get sbi tier lower_ino in
  if ino =? 0 then ok tt
  else match inodes sbi !! ino with
       | None => ok tt
       | Some _ =>
           let! live := relower alias ins ino tier lower_ino in
           if live : bool then ok tt
           else
             let! _ := update_inode ino (fun si => si <| i_nlink := 0 |> <| replay_pinned := false |>) in
             if busy then ok tt
             else
               let! si := get_inode ino in
               on_sb (fun sbi => smoothfs_evict_inode sbi si)
       end.

(** [parsed]: what [sscanf] reads, two numbers or fewer. *)
Definition forget_lower_store (alias : alias_env) (ins : Z) (busy : bool) (parsed : option (Z * Z)) (count : Z) : M Z :=
  match parsed with
  | None => fail (- EINVAL)
  | Some (tier, lower_ino) =>
      let! sbi := get_sb in
      if ntiers sbi <=? tier then fail (- EINVAL)
      else let! _ := smoothfs_forget_tier_copy alias ins busy (u8 tier) lower_ino in ok count
  end.
End Forget.

(** ** What the lookup on the other tiers finds *)

Section Across.
Context (e : ns_env).




End Across.

(** ** The outcome *)






Section Spec.
Context (e : ns_env).


End Spec.

(** ** Dropping the read caches *)

(** [caches] holds the read cache of every inode; [parsed] is what [kstrtobool]
    makes of the text. *)
Definition drop_read_cache_store (parsed : result bool) (count : Z) (sbi : sb_info) (caches : gmap Z rcache)
  : Z * gmap Z rcache :=
  match parsed with
  | Err err => (err, caches)
  | Ok false => (- EINVAL, caches)
  | Ok true => (count, foldl (fun m ino => alter smoothfs_read_cache_clear ino m) caches (inode_list sbi))
  end.

(** Every cached inode that is listed has no chunk left, the caches keep the
    version they are about, and an inode that is not listed keeps its cache. *)
Lemma drop_read_cache_empties count sbi caches ino rc :
  (snd (drop_read_cache_store (Ok true) count sbi caches) !! ino = Some rc) <->
  exists rc0, caches !! ino = Some rc0 /\ rc = if decide (ino ∈ inode_list sbi) then smoothfs_read_cache_clear rc0 else rc0.
Proof.
  cbn. generalize (inode_list sbi). intros l. revert caches. induction l as [|i l IH]; intros caches; cbn [foldl].
  { destruct (decide (ino ∈ [])) as [H|_]; [by apply not_elem_of_nil in H|]. split; [by eauto|]. by intros (rc0 & ? & ->). }
  rewrite IH. destruct (decide (ino = i)) as [->|Hne].
  - rewrite lookup_alter_eq. destruct (decide (i ∈ i :: l)) as [_|H]; [|by destruct H; left]. split.
    + intros (rc0 & H & ->). apply fmap_Some in H as (rc1 & H & ->). exists rc1. split; [done|]. by destruct (decide (i ∈ l)).
    + intros (rc0 & -> & ->). exists (smoothfs_read_cache_clear rc0). split; [done|]. by destruct (decide (i ∈ l)).
  - rewrite lookup_alter_ne by done.
    destruct (decide (ino ∈ l)), (decide (ino ∈ i :: l)) as [H|H]; try done; exfalso; rewrite elem_of_cons in H; tauto.
Qed.

(** ** A file that the daemon moved *)

(** File d/f of [spilled_world] copied to the first tier and unlinked on the
    second, behind the filesystem's back. *)
Definition move_f (w : nworld) : nworld :=
  NWorld (nw_pool w <| p_sbi := nw_sb w <| lower := <[150 := LNode 700 FT_REG 420 5 1 None None false]> (lower (nw_sb w)) |> |>)
    (nw_fs w <| lf_ent := <[(100, "f"%string) := 150]> (delete (101, "f"%string) (lf_ent (nw_fs w))) |>
             <| lf_at := <[150 := (100, "f"%string)]> (lf_at (nw_fs w)) |>) (nw_k w).
Definition moved_world : nworld := move_f spilled_world.
Definition moved_ino : Z := 9471070016360153088.
Definition d_f_alias : alias_env := AliasEnv true true (Some "/d/f"%string) true true.



(** A lookup that fails on the surviving tier is taken for a removal: the inode
    of the file that moved is dropped, and an inode in use shows no links. *)
Example failed_lookup_forgets_a_live_file :
  let r := smoothfs_forget_tier_copy (NsEnv (fun _ => - EIO) (fun _ => ns_iget_env) (ns_statfs false) false (fun _ => 0) 7)
             d_f_alias 0 true 1 1025 moved_world in
  fst r = Ok tt /\ i_nlink <$> inodes (nw_sb (snd r)) !! moved_ino = Some 0.
Proof. vm_compute. by split. Qed.
