(* ===== verification/Sync.v ===== *)
(** * Durability barriers: fsync of a directory and syncfs

    smoothfs_dir_fsync (src/src/smoothfs/dir.c) and smoothfs_sync_fs
    (src/src/smoothfs/super.c).  A directory has names on several tiers and file
    data lives on the backing filesystems, so both reach through to all tiers.

    Beside the pool and its lower trees the world has the state that survives a
    crash ([disk]): the names, inodes and file bytes of the backing filesystems
    and the placement log.  A lower [vfs_fsync] or [sync_filesystem] that
    succeeds copies its part of the live state to the disk. *)
From S2P Require Import Prelude Types Oid Tiers KernelIO RangeList RangeMeta Staging Drains PlacementLog InodeMaps LowerFs Movement PathIndex Namespace Lookup NsWorld Dir NamespaceInv Quiet Creation Removal Rehome.

Record disk := Disk {
  dk_ent : gmap (Z * string) Z;
  dk_node : gmap Z lnode;
  dk_data : gmap Z (list Z);
  dk_log : option (list Z);
}.
#[export] Instance disk_eta : Eta disk := fun r => Disk (dk_ent r) (dk_node r) (dk_data r) (dk_log r).

(** [dw_files]: the files with their bytes and staged ranges, by inode;
    [dw_synced]: the backing filesystems that were synced, latest first. *)
Record dworld := DWorld { dw_ns : nworld; dw_files : Drains.pool; dw_disk : disk; dw_synced : list Z }.
#[export] Instance dworld_eta : Eta dworld := fun r => DWorld (dw_ns r) (dw_files r) (dw_disk r) (dw_synced r).

Definition dw_sb (w : dworld) : sb_info := nw_sb (dw_ns w).

(** The filesystem (superblock) an object is on. *)
Definition fs_of (n : nworld) (d : Z) : Z := default 0 (lf_sb (nw_fs n) !! d).
Definition tier_sb (n : nworld) (tr : tier) : Z := fs_of n (p_dentry (t_path tr)).

(** Take from [new] what [P] selects. *)
Definition overwrite `{Countable K} {A} (P : K -> bool) (new old : gmap K A) : gmap K A :=
  filter (fun kv => P kv.1 = true) new ∪ filter (fun kv => P kv.1 = false) old.

Lemma overwrite_lookup `{Countable K} {A} P (new old : gmap K A) k :
  overwrite P new old !! k = if P k then new !! k else old !! k.
Proof.
  unfold overwrite. rewrite lookup_union, !map_lookup_filter.
  destruct (P k) eqn:E, (new !! k) as [x|] eqn:En, (old !! k) as [y|] eqn:Eo; cbn; rewrite ?En, ?Eo; cbn;
    repeat (case_guard; cbn in *); try done; congruence.
Qed.

Section Sync.
Context (e : ns_env).

(** ** The barriers of the lower filesystems *)

(** [m], and [f] on the disk when it succeeds. *)
Definition barrier (f : disk -> disk) (w : dworld) : Z * dworld :=
  match fallible e (dw_ns w) with
  | (Err err, n) => (err, w <| dw_ns := n |>)
  | (Ok _, n) => (0, w <| dw_ns := n |> <| dw_disk := f (dw_disk w) |>)
  end.

Definition vfs_fsync_dir (d : Z) (w : dworld) : Z * dworld :=
  barrier (fun dk => dk <| dk_ent := overwrite (fun k => k.1 =? d) (lf_ent (nw_fs (dw_ns w))) (dk_ent dk) |>) w.

Definition vfs_fsync_log (w : dworld) : Z * dworld :=
  barrier (fun dk => dk <| dk_log := placement_log (dw_sb w) |>) w.

Definition data_on (n : nworld) (p : Drains.pool) (s : Z) (ino : Z) : bool :=
  match po_files p !! ino with
  | Some f => match lower_path (pf_si f) with Some q => fs_of n (p_dentry q) =? s | None => false end
  | None => false
  end.

Definition sync_filesystem (s : Z) (w : dworld) : Z * dworld :=
  let n := dw_ns w in
  let w := w <| dw_synced := s :: dw_synced w |> in
  barrier (fun dk =>
    dk <| dk_ent := overwrite (fun k => fs_of n k.1 =? s) (lf_ent (nw_fs n)) (dk_ent dk) |>
       <| dk_node := overwrite (fun d => fs_of n d =? s) (lower (nw_sb n)) (dk_node dk) |>
       <| dk_data := overwrite (data_on n (dw_files w) s) (pf_base <$> po_files (dw_files w)) (dk_data dk) |>) w.

(** [smoothfs_oid_wb_drain] and [smoothfs_placement_wb_drain]: the queued ids
    are written to their objects, the queued records to the log. *)
Definition wb_drains (n : nworld) : nworld :=
  let k := (nw_k n + length (oid_wb_pending (nw_pool n)))%nat in
  let pl := smoothfs_oid_wb_drain (fun i => ne_ora e (nw_k n + i)%nat) (nw_pool n) in
  let (k, sbi) := smoothfs_placement_wb_drain (ne_ora e) k (p_sbi pl) in
  n <| nw_pool := pl <| p_sbi := sbi |> |> <| nw_k := k |>.

(** ** fsync of a directory *)

(** The directory at [rel] of every tier from the list; [mine] is the one that
    is synced already. *)
Fixpoint fsync_tiers (mine : path) (rel : string) (ts : list Z) (w : dworld) : Z * dworld :=
  match ts with
  | [] => (0, w)
  | t :: ts =>
      match smoothfs_resolve_rel_path_on_tier e t rel (dw_ns w) with
      | (Err err, n) =>
          if (err =? - ENOENT) || (err =? - ENOTDIR) then fsync_tiers mine rel ts (w <| dw_ns := n |>)
          else (err, w <| dw_ns := n |>)
      | (Ok (p, _), n) =>
          let w := w <| dw_ns := n |> in
          let is_dir := match lower (dw_sb w) !! p_dentry p with Some l => S_ISDIR (l_type l) | None => false end in
          if negb is_dir || ((p_mnt p =? p_mnt mine) && (p_dentry p =? p_dentry mine)) then fsync_tiers mine rel ts w
          else
            match fallible e n with   (* dentry_open *)
            | (Err err, n) => (err, w <| dw_ns := n |>)
            | (Ok _, n) =>
                let (err, w) := vfs_fsync_dir (p_dentry p) (w <| dw_ns := n |>) in
                if negb (err =? 0) then (err, w) else fsync_tiers mine rel ts w
            end
      end
  end.

(** [lower]: what [smoothfs_lower_file] returns, the path of the open lower
    directory. *)
Definition smoothfs_dir_fsync (lower : result (option path)) (comps : list string) (w : dworld) : Z * dworld :=
  match lower with
  | Err err => (err, w)
  | Ok None => (- EBADF, w)
  | Ok (Some mine) =>
      match smoothfs_rel_path_from_dentry e comps (dw_ns w) with
      | (Err err, n) => (err, w <| dw_ns := n |>)
      | (Ok None, n) => (- ENOMEM, w <| dw_ns := n |>)
      | (Ok (Some rel), n) =>
          let w := w <| dw_ns := wb_drains n |> in
          let (err, w) := vfs_fsync_dir (p_dentry mine) w in
          if negb (err =? 0) then (err, w)
          else
            let (err, w) := fsync_tiers mine rel (tiers_from 0 (ntiers (dw_sb w))) w in
            if negb (err =? 0) then (err, w)
            else match placement_log (dw_sb w) with None => (0, w) | Some _ => vfs_fsync_log w end
      end
  end.

(** ** syncfs *)

Definition first_error (err ret : Z) : Z := if err =? 0 then ret else err.

(** Each distinct backing filesystem once; [prior] holds those of the tiers
    before. *)
Fixpoint sync_tiers (prior : list Z) (ts : list Z) (err : Z) (w : dworld) : Z * dworld :=
  match ts with
  | [] => (err, w)
  | t :: ts =>
      match tier_at (dw_sb w) t with
      | None => sync_tiers prior ts err w
      | Some tr =>
          let s := tier_sb (dw_ns w) tr in
          if bool_decide (s ∈ prior) then sync_tiers (s :: prior) ts err w
          else let (ret, w) := sync_filesystem s w in sync_tiers (s :: prior) ts (first_error err ret) w
      end
  end.

Definition with_sb (p : Drains.pool) (sbi : sb_info) : Drains.pool :=
  Drains.Pool (po_k p) sbi (po_st p) (po_dir p) (po_list p) (po_files p).

(** [None]: the drain does not end.  Without [wait] the writeback workers are
    kicked and run later. *)
Definition smoothfs_sync_fs (ora : oracle) (grab : Z -> bool) (wait : bool) (w : dworld) : option (Z * dworld) :=
  if negb wait then Some (0, w)
  else
    match smoothfs_cache_drain ora (ne_now e) grab (with_sb (dw_files w) (dw_sb w)) with
    | None => None
    | Some (ret, files) =>
        let w := w <| dw_files := files |> <| dw_ns := wb_drains (dw_ns w) |> in
        let (err, w) := match placement_log (dw_sb w) with
                        | None => (ret, w)
                        | Some _ => let (r, w) := vfs_fsync_log w in (first_error ret r, w)
                        end in
        Some (sync_tiers [] (tiers_from 0 (ntiers (dw_sb w))) err w)
    end.
End Sync.

(** ** Resolution looks at types only *)

Definition dirb (nodes : gmap Z lnode) (d : Z) : bool := match nodes !! d with Some l => S_ISDIR (l_type l) | None => false end.

Lemma path_walk_types fs nodes nodes' root : (forall d, dirb nodes' d = dirb nodes d) -> forall links at0 cur comps,
  path_walk fs nodes' root links at0 cur comps = path_walk fs nodes root links at0 cur comps.
Proof.
  intros Hd. induction links as [|links IH]; intros at0 cur comps; revert at0 cur;
    induction comps as [|c comps IHc]; intros at0 cur; try done; cbn;
    (case_goal; [apply IHc|]); fold (dirb nodes' cur); fold (dirb nodes cur); rewrite Hd;
    (case_goal; [done|]); (case_goal; [apply IHc|]);
    (destruct (lf_ent fs !! (cur, c)) as [d|]; [|done]); (destruct (lf_link fs !! d) as [[abs_ target]|]; [|apply IHc]); [done|apply IH].
Qed.

Lemma quiet_dirb n n' d : quiet n n' -> dirb (lower (nw_sb n')) d = dirb (lower (nw_sb n)) d.
Proof.
  intros [_ S]. pose proof (f_equal (lookup d) (sp_nodes _ _ S)) as E. rewrite !lookup_fmap in E. unfold dirb.
  destruct (lower (nw_sb n') !! d), (lower (nw_sb n) !! d); try done. apply (inj Some) in E.
  by apply forget_ids_fields in E as (-> & _).
Qed.

Lemma tier_at_quiet n n' t : quiet n n' -> t_path <$> tier_at (nw_sb n') t = t_path <$> tier_at (nw_sb n) t.
Proof.
  intros [_ S]. unfold tier_at. case_goal; [done|]. pose proof (f_equal (lookup (Z.to_nat t)) (sp_paths _ _ S)) as Ep.
  by rewrite !list_lookup_fmap in Ep.
Qed.

Lemma resolved_quiet n n' t rel : quiet n n' -> resolved n' t rel = resolved n t rel.
Proof.
  intros Q. pose proof (tier_at_quiet _ _ t Q) as Et. unfold resolved. rewrite (sp_ntiers _ _ (proj2 Q)), (proj1 Q).
  destruct (_ <=? t); [done|].
  destruct (tier_at (nw_sb n') t) as [tr'|], (tier_at (nw_sb n) t) as [tr|]; try done. cbn in Et. injection Et as Et. rewrite Et.
  cbv zeta. destruct (str_empty rel); [done|]. rewrite (path_walk_types _ (lower (nw_sb n))); [done|]. intros d. by apply quiet_dirb.
Qed.

(** ** What the disk holds *)

(** The names of directory [d] are on disk. *)
Definition durable_dir (w : dworld) (d : Z) : Prop :=
  forall n, dk_ent (dw_disk w) !! (d, n) = lf_ent (nw_fs (dw_ns w)) !! (d, n).

(** Only barriers ran. *)
Record settled (w w' : dworld) : Prop := Settled {
  st_ns : ticked (dw_ns w) (dw_ns w');
  st_files : dw_files w' = dw_files w;
  st_dir : forall d, durable_dir w d -> durable_dir w' d;
}.
Lemma settled_refl w : settled w w.
Proof. split; [apply ticked_refl|done|done]. Qed.
Lemma settled_trans a b c : settled a b -> settled b c -> settled a c.
Proof. intros [A1 A2 A3] [B1 B2 B3]. split; [by eapply ticked_trans|congruence|auto]. Qed.
Lemma settled_tick w n : ticked (dw_ns w) n -> settled w (w <| dw_ns := n |>).
Proof. intros [k ->]. split; [by eexists|done|done]. Qed.

Section Barriers.
Context (e : ns_env).

Lemma barrier_cases f w r w' : barrier e f w = (r, w') ->
  exists n, ticked (dw_ns w) n /\ (r < 0 /\ w' = w <| dw_ns := n |> \/ r = 0 /\ w' = w <| dw_ns := n |> <| dw_disk := f (dw_disk w) |>).
Proof.
  unfold barrier. destruct (fallible e (dw_ns w)) as [[err|u] n] eqn:E; pose proof (fallible_ticks _ _ _ _ E) as T; intros [= <- <-];
    exists n; (split; [exact T|]); [left|by right].
  apply fallible_err in E as (k & -> & ?). done.
Qed.

Lemma fsync_dir_spec d w r w' : vfs_fsync_dir e d w = (r, w') -> settled w w' /\ r <= 0 /\ (r = 0 -> durable_dir w' d).
Proof.
  unfold vfs_fsync_dir. intros H. apply barrier_cases in H as (n & [k ->] & [[Hr ->]|[-> ->]]).
  { split; [apply settled_tick; by eexists|]. split; [lia|lia]. }
  assert (forall x, durable_dir w x \/ x = d -> durable_dir (w <| dw_ns := dw_ns w <| nw_k := k |> |>
    <| dw_disk := dw_disk w <| dk_ent := overwrite (fun k0 => k0.1 =? d) (lf_ent (nw_fs (dw_ns w))) (dk_ent (dw_disk w)) |> |>) x) as H.
  { intros x Hx n. unfold durable_dir in *. cbn. rewrite overwrite_lookup. cbn.
    destruct (Z.eqb_spec x d); [done|]. destruct Hx as [Hx|?]; [apply Hx|done]. }
  split; [split; [by eexists|done|intros x Hx; apply H; by left]|]. split; [done|]. intros _. apply H. by right.
Qed.

(** The tiers' directories at a path are on disk when every barrier succeeded. *)
Lemma fsync_tiers_spec mine rel : honest e -> forall ts w r w',
  fsync_tiers e mine rel ts w = (r, w') ->
  settled w w' /\ (r = 0 -> durable_dir w (p_dentry mine) -> forall t p ld, t ∈ ts -> resolved (dw_ns w) t rel = Ok (p, ld) ->
    dirb (lower (dw_sb w)) (p_dentry p) = true -> durable_dir w' (p_dentry p)).
Proof.
  intros Hh. induction ts as [|t ts IH]; intros w r w'; cbn [fsync_tiers].
  { intros [= <- <-]. split; [apply settled_refl|]. intros _ _ t p ld H. by apply not_elem_of_nil in H. }
  assert (forall w1, settled w w1 -> (r = 0 -> durable_dir w (p_dentry mine) -> forall p ld, resolved (dw_ns w) t rel = Ok (p, ld) ->
      dirb (lower (dw_sb w)) (p_dentry p) = true -> durable_dir w1 (p_dentry p)) ->
    fsync_tiers e mine rel ts w1 = (r, w') ->
    settled w w' /\ (r = 0 -> durable_dir w (p_dentry mine) -> forall t0 p ld, t0 ∈ t :: ts -> resolved (dw_ns w) t0 rel = Ok (p, ld) ->
      dirb (lower (dw_sb w)) (p_dentry p) = true -> durable_dir w' (p_dentry p))) as Hnext.
  { intros w1 S1 H1 H. apply IH in H as [S2 H2]. split; [by eapply settled_trans|]. destruct (st_ns _ _ S1) as [k1 E1].
    intros H0 Hm t0 p ld [->|Hin]%elem_of_cons Hr Hd; [apply (st_dir _ _ S2); by eapply H1|].
    apply (H2 H0 (st_dir _ _ S1 _ Hm) t0 p ld Hin); unfold dw_sb; by rewrite E1. }
  destruct (smoothfs_resolve_rel_path_on_tier e t rel (dw_ns w)) as [[err|[p ld]] n] eqn:Er.
  - pose proof (resolve_err _ _ _ _ _ _ Er) as Hneg. apply tier_resolve_spec in Er as [T Hr]; pose proof (settled_tick _ _ T) as S1.
    destruct ((err =? - ENOENT) || (err =? - ENOTDIR)) eqn:Ee.
    + apply Hnext; [exact S1|]. intros _ _ p ld Hok. destruct Hr as [Hr|(k & Hk & _)]; [congruence|].
      apply orb_true_iff in Ee as [Ee%Z.eqb_eq|Ee%Z.eqb_eq]; injection Hk as Hk; destruct (Hh k); congruence.
    + intros [= <- <-]. split; [exact S1|]. lia.
  - apply tier_resolve_spec in Er as [T Hr]; pose proof (settled_tick _ _ T) as S1.
    assert (resolved (dw_ns w) t rel = Ok (p, ld)) as Hok by (by destruct Hr as [Hr|(k & ? & _)]).
    set (w1 := w <| dw_ns := n |>) in *. fold (dirb (lower (dw_sb w1)) (p_dentry p)).
    assert (dw_sb w1 = dw_sb w) as Esb by (destruct T as [k ->]; done).
    destruct (negb (dirb (lower (dw_sb w1)) (p_dentry p)) || _) eqn:Es.
    + apply Hnext; [exact S1|]. intros _ Hm p' ld' Hp' Hd. rewrite Hok in Hp'. injection Hp' as <- <-. rewrite Esb, Hd in Es. cbn in Es.
      apply andb_true_iff in Es as [_ Es%Z.eqb_eq]. rewrite Es. by apply (st_dir _ _ S1).
    + destruct (fallible e n) as [[err|u] n2] eqn:Ef; pose proof (fallible_ticks _ _ _ _ Ef) as T2;
        pose proof (settled_trans _ _ _ S1 (settled_tick w1 _ T2)) as S2.
      { intros [= <- <-]. split; [exact S2|]. intros ->. apply fallible_err in Ef as (k & ? & ?). lia. }
      destruct (vfs_fsync_dir e (p_dentry p) (w1 <| dw_ns := n2 |>)) as [err w3] eqn:Ed.
      apply fsync_dir_spec in Ed as (S3 & Hle & Hd). pose proof (settled_trans _ _ _ S2 S3) as S4.
      destruct (Z.eqb_spec err 0) as [->|Hne]; cbn [negb]; [|intros [= <- <-]; split; [exact S4|lia]].
      apply Hnext; [exact S4|]. intros _ _ p' ld' Hp' _. rewrite Hok in Hp'. injection Hp' as <- <-. by apply Hd.
Qed.
End Barriers.

Section DirFsync.
Context (e : ns_env).

Lemma placement_drain_frame ora k sbi k' sbi' : smoothfs_placement_wb_drain ora k sbi = (k', sbi') ->
  same_pool sbi sbi' /\ placement_wb_ready sbi' = placement_wb_ready sbi
  /\ (placement_wb_ready sbi = true -> placement_wb_pending sbi' = []) /\ (is_Some (placement_log sbi') <-> is_Some (placement_log sbi)).
Proof.
  unfold smoothfs_placement_wb_drain, smoothfs_placement_wb_worker. destruct (placement_wb_ready sbi) eqn:Er; cbn [negb].
  - destruct (placement_log (sbi <| placement_wb_pending := [] |>)) as [log|] eqn:El; [destruct (wb_write_all _ _ _ _) as [k1 log1]|];
      cbn in El; intros [= _ <-]; (split; [by apply same_pool_eq|]); cbn; rewrite El; (split; [done|]); split; try done; by split.
  - intros [= _ <-]. split; [done|]. by split_and!.
Qed.

Lemma wb_drains_spec n : let n' := wb_drains e n in
  quiet n n' /\ (placement_wb_ready (nw_sb n) = true -> placement_wb_pending (nw_sb n') = [])
  /\ (oid_wb_ready (nw_pool n) = true -> oid_wb_pending (nw_pool n') = [])
  /\ (is_Some (placement_log (nw_sb n')) <-> is_Some (placement_log (nw_sb n))).
Proof.
  unfold wb_drains. set (pl := smoothfs_oid_wb_drain _ _). cbv zeta.
  pose proof (drain_same_pool (fun i => ne_ora e (nw_k n + i)%nat) (nw_pool n)) as S1. fold pl in S1.
  assert (placement_log (p_sbi pl) = placement_log (nw_sb n) /\ placement_wb_ready (p_sbi pl) = placement_wb_ready (nw_sb n)
    /\ (oid_wb_ready (nw_pool n) = true -> oid_wb_pending pl = [])) as (El & Er & Ep).
  { unfold pl, smoothfs_oid_wb_drain, nw_sb. destruct (oid_wb_ready (nw_pool n)); by split_and!. }
  destruct (smoothfs_placement_wb_drain (ne_ora e) _ (p_sbi pl)) as [k sbi] eqn:Ed. apply placement_drain_frame in Ed as (S2 & _ & Hp & Hl).
  split; [split; [done|by etransitivity]|]. rewrite Er in Hp. rewrite El in Hl. by split_and!.
Qed.

Lemma rel_from_dentry comps n r n' : smoothfs_rel_path_from_dentry e comps n = (r, n') ->
  ticked n n' /\ (r = Ok None \/ r = Ok (Some (join_path comps))).
Proof.
  unfold smoothfs_rel_path_from_dentry, mbind_ns, ask, ok. cbn. repeat case_goal; intros [= <- <-]; (split; [by eexists|]); auto.
Qed.

(** What a directory fsync of [comps] leaves on disk. *)
Record dir_synced (mine : path) (comps : list string) (w w' : dworld) : Prop := DirSynced {
  sy_fs : nw_fs (dw_ns w') = nw_fs (dw_ns w);
  sy_mine : durable_dir w' (p_dentry mine);
  sy_tiers : forall t p ld, 0 <= t < ntiers (dw_sb w) -> resolved (dw_ns w) t (join_path comps) = Ok (p, ld) ->
    dirb (lower (dw_sb w)) (p_dentry p) = true -> durable_dir w' (p_dentry p);
  sy_log : is_Some (placement_log (dw_sb w)) -> dk_log (dw_disk w') = placement_log (dw_sb w');
  sy_records : placement_wb_ready (dw_sb w) = true -> placement_wb_pending (dw_sb w') = [];
  sy_ids : oid_wb_ready (nw_pool (dw_ns w)) = true -> oid_wb_pending (nw_pool (dw_ns w')) = [];
}.

(** C34. A directory fsync that returns 0 leaves the names of the opened lower
    directory, and of the directory's copy on every tier where its path resolves
    to one, as they are and durable on that tier's disk; the placement log on
    disk is the log in memory and no id or record is left in the queues. *)
Theorem dir_fsync_makes_names_durable mine comps w w' :
  honest e -> smoothfs_dir_fsync e (Ok (Some mine)) comps w = (0, w') -> dir_synced mine comps w w'.
Proof.
  intros Hh. cbn [smoothfs_dir_fsync]. destruct (smoothfs_rel_path_from_dentry e comps (dw_ns w)) as [r n] eqn:Er.
  apply rel_from_dentry in Er as [[k ->] [->| ->]]; [done|].
  destruct (wb_drains_spec (dw_ns w <| nw_k := k |>)) as (Q & Hp & Ho & Hl). set (n1 := wb_drains e _) in *. clearbody n1.
  set (w1 := w <| dw_ns := n1 |>).
  destruct (vfs_fsync_dir e (p_dentry mine) w1) as [r2 w2] eqn:Ed. apply fsync_dir_spec in Ed as (S2 & _ & D2).
  destruct (Z.eqb_spec r2 0) as [->|]; cbn [negb]; [|by intros [= -> <-]]. specialize (D2 eq_refl).
  destruct (fsync_tiers e mine (join_path comps) _ w2) as [r3 w3] eqn:Et. apply (fsync_tiers_spec e _ _ Hh) in Et as [S3 D3].
  destruct (Z.eqb_spec r3 0) as [->|]; cbn [negb]; [|by intros [= -> <-]]. specialize (D3 eq_refl D2).
  destruct (st_ns _ _ S2) as [k2 E2]. destruct (st_ns _ _ (settled_trans _ _ _ S2 S3)) as [k3 E3].
  assert (forall k4 dk, dk_ent dk = dk_ent (dw_disk w3) -> (is_Some (placement_log (nw_sb n1)) -> dk_log dk = placement_log (nw_sb n1)) ->
    dir_synced mine comps w (w3 <| dw_ns := dw_ns w3 <| nw_k := k4 |> |> <| dw_disk := dk |>)) as Hend.
  { intros k4 dk Ee Elog. assert (forall d, durable_dir w3 d -> durable_dir (w3 <| dw_ns := dw_ns w3 <| nw_k := k4 |> |> <| dw_disk := dk |>) d) as Hd
      by (intros d H x; cbn; rewrite Ee; apply H).
    constructor; [cbn; rewrite E3; apply Q|apply Hd, (st_dir _ _ S3), D2|..]; unfold dw_sb; cbn.
    - intros t p ld Ht Hr Hdir. apply Hd, (D3 t p ld); unfold dw_sb; rewrite E2.
      + apply elem_of_tiers_from. change (0 <= t < ntiers (nw_sb n1)). by rewrite (sp_ntiers _ _ (proj2 Q)).
      + change (resolved n1 t (join_path comps) = Ok (p, ld)). by rewrite (resolved_quiet _ _ _ _ Q).
      + change (dirb (lower (nw_sb n1)) (p_dentry p) = true). by rewrite (quiet_dirb _ _ _ Q).
    - rewrite E3. intros H. by apply Elog, Hl.
    - rewrite E3. exact Hp.
    - rewrite E3. exact Ho. }
  assert (dw_sb w3 = nw_sb n1) as -> by (unfold dw_sb; rewrite E3; done).
  destruct (placement_log (nw_sb n1)) as [log|] eqn:Elog.
  - intros H. apply barrier_cases in H as (n & [k4 ->] & [[? _]|[_ ->]]); [lia|]. apply Hend; [done|]. intros _. unfold dw_sb. rewrite E3. exact Elog.
  - intros [= <-]. specialize (Hend (nw_k (dw_ns w3)) (dw_disk w3) eq_refl). destruct w3 as [[] ? ? ?]. apply Hend. by intros [].
Qed.
End DirFsync.

(** ** syncfs *)

(** Everything on filesystem [s] is on disk: names, inodes and file bytes. *)
Record durable_fs (w : dworld) (s : Z) : Prop := DurableFs {
  du_ent : forall k, fs_of (dw_ns w) k.1 = s -> dk_ent (dw_disk w) !! k = lf_ent (nw_fs (dw_ns w)) !! k;
  du_node : forall d, fs_of (dw_ns w) d = s -> dk_node (dw_disk w) !! d = lower (dw_sb w) !! d;
  du_data : forall ino, data_on (dw_ns w) (dw_files w) s ino = true ->
    dk_data (dw_disk w) !! ino = pf_base <$> po_files (dw_files w) !! ino;
}.

Section SyncFs.
Context (e : ns_env).

Lemma sync_filesystem_spec s w r w' : sync_filesystem e s w = (r, w') ->
  ticked (dw_ns w) (dw_ns w') /\ dw_files w' = dw_files w /\ dw_synced w' = s :: dw_synced w /\ r <= 0
  /\ dk_log (dw_disk w') = dk_log (dw_disk w)
  /\ forall s0, durable_fs w s0 \/ s0 = s /\ r = 0 -> durable_fs w' s0.
Proof.
  unfold sync_filesystem. intros H. apply barrier_cases in H as (n & [k ->] & [[Hr ->]|[-> ->]]).
  { split; [by eexists|]. do 4 (split; [done || lia|]). intros s0 [[H1 H2 H3]|[_ ?]]; [by constructor|lia]. }
  split; [by eexists|]. do 4 (split; [done|]). intros s0 Hs.
  constructor; cbn; intros x Hx; change (fs_of (dw_ns w <| nw_k := k |>) ?y) with (fs_of (dw_ns w) y) in *;
    rewrite overwrite_lookup.
  - destruct (Z.eqb_spec (fs_of (dw_ns w) x.1) s); [done|]. destruct Hs as [[Hs _ _]|[-> _]]; [by apply Hs|done].
  - destruct (Z.eqb_spec (fs_of (dw_ns w) x) s); [done|]. destruct Hs as [[_ Hs _]|[-> _]]; [by apply Hs|done].
  - change (data_on (dw_ns w) (dw_files w) s0 x = true) in Hx. destruct (data_on (dw_ns w) (dw_files w) s x) eqn:Ex.
    + by rewrite lookup_fmap.
    + destruct Hs as [[_ _ Hs]|[-> _]]; [by apply Hs|congruence].
Qed.

Lemma sync_tiers_spec : forall ts prior err w err' w', err <= 0 -> sync_tiers e prior ts err w = (err', w') ->
  ticked (dw_ns w) (dw_ns w') /\ dw_files w' = dw_files w /\ dk_log (dw_disk w') = dk_log (dw_disk w)
  /\ err' <= 0 /\ (err <> 0 -> err' = err)
  /\ exists calls, dw_synced w' = calls ++ dw_synced w /\ NoDup calls /\ (forall s, s ∈ calls -> s ∉ prior)
  /\ (forall t tr, t ∈ ts -> tier_at (dw_sb w) t = Some tr -> tier_sb (dw_ns w) tr ∈ prior \/ tier_sb (dw_ns w) tr ∈ calls)
  /\ (forall s, durable_fs w s \/ s ∈ calls /\ err' = 0 -> durable_fs w' s).
Proof.
  induction ts as [|t ts IH]; intros prior err w err' w' He; cbn [sync_tiers].
  { intros [= <- <-]. split; [apply ticked_refl|]. do 4 (split; [done|]). exists []. split; [done|]. split; [apply NoDup_nil_2|].
    split; [intros s H; by apply not_elem_of_nil in H|]. split; [intros t tr H; by apply not_elem_of_nil in H|].
    intros s [H|[H _]]; [done|]. by apply not_elem_of_nil in H. }
  destruct (tier_at (dw_sb w) t) as [tr|] eqn:Et.
  2:{ intros H. apply IH in H as (A & B & C & D & F & calls & G1 & G2 & G3 & G4 & G5); [|done]. do 5 (split; [done|]). exists calls. split_and!; try done.
    intros t0 tr0 [->|Hin]%elem_of_cons H0; [congruence|by eapply G4]. }
  set (s := tier_sb (dw_ns w) tr). case_bool_decide as Hp.
  { intros H. apply IH in H as (A & B & C & D & F & calls & G1 & G2 & G3 & G4 & G5); [|done]. do 5 (split; [done|]). exists calls. split_and!; try done.
    - intros x Hx Hx'. apply (G3 x Hx). by right.
    - intros t0 tr0 [->|Hin]%elem_of_cons H0; [left; rewrite Et in H0; by injection H0 as <-|].
      destruct (G4 _ _ Hin H0) as [[->|H]%elem_of_cons|H]; [by left|by left|by right]. }
  destruct (sync_filesystem e s w) as [ret w1] eqn:Es. apply sync_filesystem_spec in Es as ([k A1] & B1 & C1 & D1 & L1 & F1).
  assert (first_error err ret <= 0) as Hf by (unfold first_error; case_goal; done).
  intros H. apply IH in H as (A & B & C & D & F & calls & G1 & G2 & G3 & G4 & G5); [|exact Hf].
  assert (ticked (dw_ns w) (dw_ns w')) as T by (eapply ticked_trans; [|exact A]; by eexists).
  split; [exact T|]. split; [congruence|]. split; [congruence|]. split; [done|].
  split; [intros Hne; rewrite F; unfold first_error; by destruct (Z.eqb_spec err 0)|].
  exists (calls ++ [s]). split; [rewrite G1, C1; by rewrite <- app_assoc|]. split.
  { apply NoDup_app. split; [done|]. split; [|apply NoDup_singleton]. intros x Hx ->%list_elem_of_singleton. apply (G3 s Hx). by left. }
  split; [intros x [Hx| ->%list_elem_of_singleton]%elem_of_app Hx'; [apply (G3 x Hx); by right|done]|]. split.
  - intros t0 tr0 [->|Hin]%elem_of_cons H0.
    + rewrite Et in H0. injection H0 as <-. right. apply elem_of_app. right. by apply list_elem_of_singleton.
    + specialize (G4 t0 tr0 Hin). unfold dw_sb in G4. rewrite A1 in G4. rewrite elem_of_app, list_elem_of_singleton.
      destruct (G4 H0) as [[H|H]%elem_of_cons|H]; auto.
  - intros x Hx. apply G5. destruct (decide (x ∈ calls)) as [Hc|Hc].
    + destruct Hx as [Hx|[_ H0]]; [left; by apply F1; left|by right].
    + left. apply F1. destruct Hx as [Hx|[[?|Hx%list_elem_of_singleton]%elem_of_app H0]]; [by left|done|]. right. split; [done|].
      destruct (Z.eqb_spec (first_error err ret) 0) as [E0|Hne]; [|specialize (F Hne); congruence].
      unfold first_error in E0. destruct (Z.eqb_spec err 0); [done|congruence].
Qed.

Lemma cache_drain_spec ora now grab p : Drains.pool_ok p -> exists err p', smoothfs_cache_drain ora now grab p = Some (err, p')
  /\ Drains.pool_ok p' /\ same_contents p p' /\ err <= 0
  /\ (cache_mode (po_sbi p) = true -> err = 0 -> forall ino f, ino ∈ po_list p -> po_files p' !! ino = Some f -> range_staged (pf_rs f) = true ->
      smoothfs_write_staging_drain_tier_active (po_sbi p) (range_staged_source_tier (pf_rs f)) = false \/ grab ino = false).
Proof.
  intros Hp. unfold smoothfs_cache_drain. destruct (cache_mode (po_sbi p)) eqn:Hc; cbn [negb]; [|exists 0, p; by split_and!].
  destruct (drain_pass_spec ora now grab (length (po_list p)) p Hp (count_length _ _)) as (err & p' & A & B & D & _ & E & F & G).
  exists err, p'. split_and!; [done|done|done|done|]. intros _ H0 ino f Hin Hf Hr. specialize (G H0 ino Hin).
  unfold drainable in G. rewrite Hf, Hr, E in G. cbn in G. by apply andb_false_iff in G.
Qed.

(** A file without staged ranges has its bytes in its base. *)
Lemma unstaged_base p ino f : Drains.pool_ok p -> po_files p !! ino = Some f -> range_staged (pf_rs f) = false -> pf_base f = abs (focus p f).
Proof.
  intros Hp Hf Hr. destruct (pk_files p Hp _ _ Hf) as [Hok _]. pose proof (ok_unstaged _ Hok Hr) as Hn.
  symmetry. apply (abs_unstaged (focus p f) Hn). rewrite (ok_size _ Hok), Hn. cbn. unfold fsize. lia.
Qed.

(** C35. A waiting syncfs ends for every pattern of faults, keeps every name and
    every file's bytes, and syncs each backing filesystem of the pool exactly
    once. When it returns 0 the names on each of them and the bytes of every
    file without staged ranges are durable, the placement log is on disk with no
    record left in the queue, and in cache mode a file that is still staged is
    on a tier that is not being drained or could not be grabbed. *)
Theorem sync_makes_everything_durable ora grab w :
  let p := with_sb (dw_files w) (dw_sb w) in
  Drains.pool_ok p ->
  exists err w' calls, smoothfs_sync_fs e ora grab true w = Some (err, w') /\ err <= 0
  /\ nw_fs (dw_ns w') = nw_fs (dw_ns w) /\ same_contents p (dw_files w')
  /\ dw_synced w' = calls ++ dw_synced w /\ NoDup calls
  /\ (forall t tr, 0 <= t < ntiers (dw_sb w) -> tier_at (dw_sb w) t = Some tr -> tier_sb (dw_ns w) tr ∈ calls)
  /\ (err = 0 ->
      (forall s, s ∈ calls -> durable_fs w' s
         /\ forall ino f, po_files (dw_files w') !! ino = Some f -> range_staged (pf_rs f) = false -> data_on (dw_ns w') (dw_files w') s ino = true ->
              dk_data (dw_disk w') !! ino = abs <$> (focus p <$> po_files p !! ino))
      /\ (is_Some (placement_log (dw_sb w)) -> dk_log (dw_disk w') = placement_log (dw_sb w'))
      /\ (placement_wb_ready (dw_sb w) = true -> placement_wb_pending (dw_sb w') = [])
      /\ (cache_mode (dw_sb w) = true -> forall ino f, ino ∈ po_list (dw_files w) -> po_files (dw_files w') !! ino = Some f ->
           range_staged (pf_rs f) = true ->
           smoothfs_write_staging_drain_tier_active (dw_sb w) (range_staged_source_tier (pf_rs f)) = false \/ grab ino = false)).
Proof.
  intros p Hp. unfold smoothfs_sync_fs. cbn [negb].
  destruct (cache_drain_spec ora (ne_now e) grab p Hp) as (ret & files & Ed & Hp' & Hsame & Hret & Hdr). fold p. rewrite Ed.
  destruct (wb_drains_spec e (dw_ns w)) as (Q & Hpend & _ & Hl). set (n1 := wb_drains e (dw_ns w)) in *. clearbody n1.
  set (w1 := w <| dw_files := files |> <| dw_ns := n1 |>).
  match goal with |- context [let (_, _) := ?m in Some _] => destruct m as [err1 w2] eqn:El end.
  assert (ticked (dw_ns w1) (dw_ns w2) /\ dw_files w2 = files /\ dw_synced w2 = dw_synced w /\ err1 <= 0 /\ (err1 = 0 -> ret = 0)
    /\ (err1 = 0 -> is_Some (placement_log (nw_sb n1)) -> dk_log (dw_disk w2) = placement_log (nw_sb n1))) as ([k2 E2] & F2 & C2 & H1 & H0 & L2).
  { change (dw_sb w1) with (nw_sb n1) in El. destruct (placement_log (nw_sb n1)) as [log|] eqn:Elog.
    - destruct (vfs_fsync_log e w1) as [r w3] eqn:Ev. apply barrier_cases in Ev as (n & [k ->] & Hv). injection El as <- <-.
      unfold first_error. change (dw_sb w1) with (nw_sb n1) in Hv.
      destruct Hv as [[Hr ->]|[-> ->]]; (split; [by eexists|]); do 2 (split; [done|]); destruct (Z.eqb_spec ret 0); (split; [lia|]); (split; [lia|]);
        [lia|lia|done|done].
    - injection El as <- <-. split; [apply ticked_refl|]. do 2 (split; [done|]). split; [done|]. split; [done|]. by intros _ []. }
  destruct (sync_tiers e [] (tiers_from 0 (ntiers (dw_sb w2))) err1 w2) as [err w'] eqn:Es.
  apply sync_tiers_spec in Es as ([k3 E3] & F3 & L3 & H3 & H4 & calls & G1 & G2 & _ & G4 & G5); [|done].
  assert (err = 0 -> err1 = 0) as H01 by (intros ->; destruct (Z.eq_dec err1 0) as [->|Hne]; [done|specialize (H4 Hne); congruence]).
  exists err, w', calls. split; [done|]. split; [done|]. split; [rewrite E3, E2; apply Q|]. split; [by rewrite F3, F2|].
  split; [by rewrite G1, C2|]. split; [done|]. split.
  - intros t tr Ht Htr. pose proof (tier_at_quiet _ _ t Q) as Eq. change (nw_sb (dw_ns w)) with (dw_sb w) in Eq. rewrite Htr in Eq.
    apply fmap_Some in Eq as (tr1 & Htr1 & Ep). unfold dw_sb in G4. rewrite E2 in G4.
    destruct (G4 t tr1) as [H|H]; [apply elem_of_tiers_from; change (0 <= t < ntiers (nw_sb n1)); by rewrite (sp_ntiers _ _ (proj2 Q))|exact Htr1|by apply not_elem_of_nil in H|].
    unfold tier_sb, fs_of in H |- *. rewrite Ep. change (nw_fs (_ <| nw_k := k2 |>)) with (nw_fs n1) in H. by rewrite (proj1 Q) in H.
  - intros He. assert (dw_sb w' = nw_sb n1) as Esb by (unfold dw_sb; rewrite E3, E2; done). rewrite Esb, L3.
    split; [|split_and!; [intros H; by apply L2, Hl; [apply H01|]|exact Hpend|]].
    + intros s Hs. assert (durable_fs w' s) as Hd by (apply G5; by right). split; [exact Hd|]. intros ino f Hf Hr Hon.
      rewrite (du_data _ _ Hd ino Hon), Hsame. rewrite F3, F2 in Hf |- *. rewrite Hf. cbn. f_equal. by apply unstaged_base with ino.
    + intros Hc ino f Hin Hf Hr. rewrite F3, F2 in Hf. apply (Hdr Hc (H0 (H01 He)) ino f Hin Hf Hr).
Qed.
End SyncFs.

(** ** Concrete runs *)

Lemma pool_ok_with_sb p sbi : Drains.pool_ok p -> Drains.pool_ok (with_sb p sbi).
Proof.
  intros [H1 H2]. constructor; [|exact H2]. intros ino f Hf. destruct (H1 ino f Hf) as [[A1 A2 A3 A4 A5] Ho]. split; [|exact Ho]. by constructor.
Qed.

Definition blank_disk : disk := Disk ∅ ∅ ∅ None.
(** A directory with a file on the second tier, nothing on disk yet. *)
Definition sy_world : dworld := DWorld spilled_world two_files blank_disk [].

Lemma dir_fsync_makes_names_durable_witness :
  exists w', smoothfs_dir_fsync (ns_env0 false) (Ok (Some (Path 10 100))) ["d"%string] sy_world = (0, w')
  /\ durable_dir w' 101 /\ dk_ent (dw_disk w') !! (101, "f"%string) = Some 102.
Proof.
  destruct (smoothfs_dir_fsync (ns_env0 false) (Ok (Some (Path 10 100))) ["d"%string] sy_world) as [r w'] eqn:E.
  assert (fst (smoothfs_dir_fsync (ns_env0 false) (Ok (Some (Path 10 100))) ["d"%string] sy_world) = 0) as Hr by (vm_compute; reflexivity).
  rewrite E in Hr. cbn [fst] in Hr. subst r. exists w'. split; [reflexivity|].
  pose proof (dir_fsync_makes_names_durable (ns_env0 false) (Path 10 100) ["d"%string] sy_world w' (proj2 (proj2 demo_calm)) E) as [Hfs _ Ht _ _ _].
  assert (exists ld, resolved (dw_ns sy_world) 1 "d" = Ok (Path 20 101, ld)) as [ld Hres] by (vm_compute; by eexists).
  assert (durable_dir w' 101) as Hd.
  { apply (Ht 1 (Path 20 101) ld); [vm_compute; by split|exact Hres|vm_compute; reflexivity]. }
  split; [exact Hd|]. rewrite (Hd "f"%string), Hfs. vm_compute. reflexivity.
Defined.

(** In cache mode syncfs drains the staged file and syncs both tiers. *)
Definition sy_cache : dworld :=
  DWorld (ns_world <| nw_pool := Pool (ns_pool <| cache_mode := true |> <| write_staging_drain_active_tier_mask := 3 |>) true [] |>)
    two_files blank_disk [].

Lemma sync_makes_everything_durable_witness :
  exists w' calls, smoothfs_sync_fs (ns_env0 false) no_faults (fun _ => true) true sy_cache = Some (0, w')
  /\ dw_synced w' = calls ++ [] /\ (forall s, s ∈ calls -> durable_fs w' s) /\ 10 ∈ calls /\ 20 ∈ calls.
Proof.
  destruct (sync_makes_everything_durable (ns_env0 false) no_faults (fun _ => true) sy_cache (pool_ok_with_sb _ _ two_files_ok))
    as (err & w' & calls & E & _ & _ & _ & C & _ & Ht & Hd).
  assert ((fst <$> smoothfs_sync_fs (ns_env0 false) no_faults (fun _ => true) true sy_cache) = Some 0) as H0 by (vm_compute; reflexivity).
  rewrite E in H0. injection H0 as ->. exists w', calls. split; [exact E|]. split; [exact C|]. split; [intros s Hs; by apply (Hd eq_refl)|].
  split; [apply (Ht 0 (Tier 0 0 (Path 10 1) 0 0))|apply (Ht 1 (Tier 1 0 (Path 20 2) 0 0))]; vm_compute; by split || reflexivity.
Defined.
