(* ===== verification/Mount.v ===== *)
(** * Mount and unmount: src/src/smoothfs/super.c and module.c

    The mount options, [smoothfs_fill_super] with its error labels,
    [smoothfs_put_super] and [smoothfs_kill_sb].  A mount calls most of the
    other components: it resolves the tiers, attaches the root inode, opens and
    replays the placement log, replays the range sidecars, and registers the
    pool.  The state below is the superblock's: what is allocated, ready or held
    at each point, so that teardown can be compared with setup. *)
From S2P Require Import Prelude Types Oid Tiers KernelIO RangeList RangeMeta Staging Drains Heat PlacementLog InodeMaps LowerFs Movement Netlink PathIndex Replay Namespace Lookup NsWorld Dir NamespaceInv Quiet Creation Removal Rehome Sync.

(** ** Options *)

Inductive smoothfs_param := Opt_pool | Opt_uuid | Opt_tiers | Opt_create_policy | Opt_mode.

Definition smoothfs_fs_parameters : list (string * smoothfs_param) :=
  [("pool", Opt_pool); ("uuid", Opt_uuid); ("tiers", Opt_tiers); ("create_policy", Opt_create_policy); ("mode", Opt_mode)]%string.

Definition ENOPARAM : Z := 519.

(** [fs_parse] with string parameters only: an unknown key is not ours, a
    missing or empty value is bad. *)
Definition fs_parse (key : string) (value : option string) : result (smoothfs_param * string) :=
  match list_find (fun x => x.1 = key) smoothfs_fs_parameters with
  | None => Err (- ENOPARAM)
  | Some (_, (_, opt)) =>
      match value with
      | None => Err (- EINVAL)
      | Some v => if str_empty v then Err (- EINVAL) else Ok (opt, v)
      end
  end.

Record smoothfs_fc_ctx := FcCtx {
  fc_pool : option string; fc_uuid : option string; fc_tiers : option string; fc_policy : option string; fc_cache : bool }.
#[export] Instance fc_eta : Eta smoothfs_fc_ctx := fun r => FcCtx (fc_pool r) (fc_uuid r) (fc_tiers r) (fc_policy r) (fc_cache r).

(** [smoothfs_init_fs_context] *)
Definition fc_init : smoothfs_fc_ctx := FcCtx None None None None false.

(** The old string is freed before the new one is allocated; [alloc] is
    [kstrdup]'s success. *)
Definition smoothfs_parse_param (alloc : bool) (ctx : smoothfs_fc_ctx) (key : string) (value : option string)
  : Z * smoothfs_fc_ctx :=
  match fs_parse key value with
  | Err err => (err, ctx)
  | Ok (Opt_mode, v) =>
      if bool_decide (v = "cache"%string) then (0, ctx <| fc_cache := true |>)
      else if bool_decide (v = "tier"%string) then (0, ctx <| fc_cache := false |>)
      else (- EINVAL, ctx)
  | Ok (opt, v) =>
      let dup := if alloc then Some v else None in
      (if alloc then 0 else - ENOMEM,
       match opt with
       | Opt_pool => ctx <| fc_pool := dup |>
       | Opt_uuid => ctx <| fc_uuid := dup |>
       | Opt_tiers => ctx <| fc_tiers := dup |>
       | _ => ctx <| fc_policy := dup |>
       end)
  end.

(** ** The superblock under construction *)

Record mount := Mount {
  mo_sbi : sb_info;
  mo_st : rstate;                 (** recovery, id writeback, path index *)
  mo_stages : gmap Z rstage;      (** staged ranges of the inodes *)
  mo_stats : wstats;
  mo_heat : heat_work;
  mo_reg : @nl_world rstate;      (** the module's registry of pools *)
  mo_disk : option (list Z);      (** the placement log on the fastest tier *)
  mo_alloc : bool;                (** [sbi] is allocated *)
  mo_cred : bool;                 (** [creator_cred] is held *)
  mo_srcu : bool;                 (** [cutover_srcu_ready] *)
  mo_index_work : bool;           (** [path_index_work_ready] *)
  mo_sysfs : bool;                (** [sysfs_pool] is set *)
  mo_tier_refs : Z;               (** references to tier root paths *)
  mo_root : bool;                 (** [sb->s_root] is set *)
  mo_info : bool;                 (** [sb->s_fs_info] is set *)
}.
#[export] Instance mount_eta : Eta mount := fun r =>
  Mount (mo_sbi r) (mo_st r) (mo_stages r) (mo_stats r) (mo_heat r) (mo_reg r) (mo_disk r) (mo_alloc r) (mo_cred r) (mo_srcu r)
    (mo_index_work r) (mo_sysfs r) (mo_tier_refs r) (mo_root r) (mo_info r).

(** What the kernel, the lower filesystems and the disks answer. *)
Record mount_env := MountEnv {
  me_kzalloc : bool;
  me_oid_map : Z; me_lower_map : Z; me_path_map : Z; me_srcu : Z;   (** [rhashtable_init], [init_srcu_struct] *)
  me_oid_wq : bool; me_pl_wq : bool;                                (** workqueues *)
  me_uuid_parse : string -> Z * list Z; me_uuid_gen : list Z; me_xxh32 : list Z -> Z;
  me_kern_path : string -> result lower_root; me_tiers_mem : bool;  (** lookup of a tier root; the copy of the option *)
  me_iget : iget_env; me_make_root : bool;
  me_io : oracle; me_replay_mem : bool;
  me_range : oracle; me_meta : meta_dir; me_listing : list string;
  me_recovery : recovery_env; me_scan : scan_env; me_trees : Z -> lforest; me_scan_mem : bool;
  me_register : bool; me_sysfs_root : bool; me_kobject : Z;
  me_now : Z; me_addr : Z;                                          (** the address of [sbi] *)
}.

(** ** Tables *)

Definition smoothfs_oid_map_init (err : Z) (sbi : sb_info) : Z * sb_info :=
  if negb (err =? 0) then (err, sbi) else (0, sbi <| oid_map := [] |> <| oid_map_ready := true |>).
Definition smoothfs_oid_map_destroy (sbi : sb_info) : sb_info :=
  if negb (oid_map_ready sbi) then sbi else sbi <| oid_map_ready := false |> <| oid_map := [] |>.
Definition smoothfs_path_map_init (err : Z) (sbi : sb_info) : Z * sb_info :=
  if negb (err =? 0) then (err, sbi) else (0, sbi <| path_map := [] |> <| path_map_ready := true |>).
Definition smoothfs_path_map_destroy (sbi : sb_info) : sb_info :=
  if negb (path_map_ready sbi) then sbi else sbi <| path_map_ready := false |> <| path_map := [] |>.
Definition smoothfs_lower_ino_map_init (err : Z) (sbi : sb_info) : Z * sb_info :=
  if negb (err =? 0) then (err, sbi) else (0, sbi <| lower_ino_map := [] |> <| lower_ino_map_ready := true |>).
Definition smoothfs_lower_ino_map_destroy (sbi : sb_info) : sb_info :=
  if negb (lower_ino_map_ready sbi) then sbi else sbi <| lower_ino_map_ready := false |> <| lower_ino_map := [] |>.

Definition smoothfs_oid_wb_init (wq : bool) (st : rstate) : Z * rstate :=
  let st := st <| rv_wb_pending := [] |> in
  if negb wq then (- ENOMEM, st) else (0, st <| rv_wb_ready := true |>).

(** The background rebuild: armed, or cancelled for good. *)
Definition smoothfs_path_index_async_init (m : mount) : mount := m <| mo_index_work := true |>.
Definition smoothfs_path_index_async_destroy (m : mount) : mount :=
  if negb (mo_index_work m) then m
  else m <| mo_index_work := false |> <| mo_st := mo_st m <| rv_scheduled := false |> |>.

(** [root]: the module's sysfs directory exists; [err]: [kobject_init_and_add];
    the allocation before it fails as -ENOMEM. *)
Definition smoothfs_sysfs_pool_add (root : bool) (err : Z) (m : mount) : Z * mount :=
  if negb root then (0, m)
  else if negb (err =? 0) then (err, m)
  else (0, m <| mo_sysfs := true |>).
Definition smoothfs_sysfs_pool_remove (m : mount) : mount := m <| mo_sysfs := false |>.

Section Mount.
Context (e : mount_env).

(** ** Teardown *)

Definition wb_faults (i : nat) : Z := me_io e i.

(** [smoothfs_placement_wb_destroy] and [smoothfs_oid_wb_destroy] run their
    workers one last time. *)
Definition placement_wb_destroy (m : mount) : mount :=
  let (_, sbi) := smoothfs_placement_wb_destroy (me_io e) 0 (mo_sbi m) in m <| mo_sbi := sbi |>.
Definition oid_wb_destroy (m : mount) : mount :=
  let pl := smoothfs_oid_wb_destroy wb_faults (Pool (mo_sbi m) (rv_wb_ready (mo_st m)) (rv_wb_pending (mo_st m))) in
  m <| mo_sbi := p_sbi pl |> <| mo_st := mo_st m <| rv_wb_ready := oid_wb_ready pl |> <| rv_wb_pending := oid_wb_pending pl |> |>.
Definition placement_close (m : mount) : mount :=
  let '(_, sbi, log) := smoothfs_placement_close (me_io e) 0 (mo_sbi m) in
  m <| mo_sbi := sbi |> <| mo_disk := match log with Some f => Some f | None => mo_disk m end |>.

Definition maps_destroy (sbi : sb_info) : sb_info :=
  smoothfs_path_map_destroy (smoothfs_oid_map_destroy (smoothfs_lower_ino_map_destroy sbi)).

(** The label [out_sbi]. *)
Definition out_sbi (m : mount) : mount :=
  let m := smoothfs_path_index_async_destroy m in
  let m := m <| mo_st := smoothfs_recovery_destroy (mo_st m) |> in
  let m := oid_wb_destroy (placement_wb_destroy m) in
  let m := if mo_srcu m then m <| mo_srcu := false |> else m in
  m <| mo_sbi := maps_destroy (mo_sbi m) |> <| mo_cred := false |> <| mo_alloc := false |> <| mo_info := false |>.

(** The label [out_tiers]. *)
Definition out_tiers (m : mount) : mount := out_sbi (m <| mo_tier_refs := mo_tier_refs m - ntiers (mo_sbi m) |>).

(** ** Setup *)

Definition lift_sb (f : sb_info -> Z * sb_info) (m : mount) : Z * mount :=
  let (err, sbi) := f (mo_sbi m) in (err, m <| mo_sbi := sbi |>).
Definition lift_st (f : rstate -> Z * rstate) (m : mount) : Z * mount :=
  let (err, st) := f (mo_st m) in (err, m <| mo_st := st |>).

(** The next step, unless there was an error. *)
Definition andthen (r : Z * mount) (k : mount -> Z * mount) : Z * mount :=
  let (err, m) := r in if negb (err =? 0) then (err, m) else k m.

(** The hash tables and workqueues. *)
Definition setup_tables (m : mount) : Z * mount :=
  andthen (lift_sb (smoothfs_oid_map_init (me_oid_map e)) m) (fun m =>
  andthen (lift_sb (smoothfs_lower_ino_map_init (me_lower_map e)) m) (fun m =>
  andthen (lift_sb (smoothfs_path_map_init (me_path_map e)) m) (fun m =>
  andthen (me_srcu e, m) (fun m =>
  let m := m <| mo_srcu := true |> in
  andthen (lift_st (smoothfs_oid_wb_init (me_oid_wq e)) m) (fun m =>
  andthen (lift_sb (smoothfs_placement_wb_init (me_pl_wq e)) m) (fun m =>
  (0, smoothfs_path_index_async_init m))))))).

Definition smoothfs_zero_stats : wstats := WStats 0 0 0 0 0 0 0 SR_NONE 0 0 0 0 0 0 RR_NONE.

Definition pool_id (ctx : smoothfs_fc_ctx) : Z * list Z :=
  match fc_uuid ctx with Some s => me_uuid_parse e s | None => (0, me_uuid_gen e) end.

(** The options, the counters and the tiers. *)
Definition setup_config (ctx : smoothfs_fc_ctx) (m : mount) : Z * mount :=
  andthen (lift_sb (fun sbi => smoothfs_parse_create_policy sbi (fc_policy ctx)) m) (fun m =>
  let (err, uuid) := pool_id ctx in
  if negb (err =? 0) then (err, m)
  else
      let sbi := mo_sbi m <| pool_uuid := uuid |> <| fsid := me_xxh32 e uuid |>
                   <| spill_creates_total := 0 |> <| spill_creates_failed_all_tiers := 0 |> <| any_spill_since_mount := false |>
                   <| cache_mode := fc_cache ctx |> <| write_staging_enabled := fc_cache ctx |> <| write_staging_full_pct := 98 |>
                   <| metadata_tier_skips := 0 |> <| parent_tier_lookup_recoveries := 0 |> in
      let sbi := sbi <| metadata_active_tier_mask := BIT (fastest_tier sbi) |>
                     <| write_staging_drain_active_tier_mask := BIT (fastest_tier sbi) |> in
      let m := m <| mo_sbi := sbi |> <| mo_stats := smoothfs_zero_stats |> in
      let '(err, sbi, refs) := smoothfs_resolve_tiers (me_kern_path e) (me_tiers_mem e) sbi (mo_tier_refs m) (fc_tiers ctx) in
      let m := m <| mo_sbi := sbi |> <| mo_tier_refs := refs |> in
      if negb (err =? 0) then (err, m)
      else if cache_mode sbi && (ntiers sbi <? 2) then (- EINVAL, m)
      else
        let all := BIT (ntiers sbi) - 1 in
        let sbi := sbi <| metadata_active_tier_mask := all |>
                       <| write_staging_drain_active_tier_mask := if cache_mode sbi then all else BIT (fastest_tier sbi) |> in
        (0, m <| mo_sbi := sbi |> <| mo_info := true |>)).

(** The root inode on the fastest tier, in cache mode on the base tier. *)
Definition root_tier (sbi : sb_info) : Z := if cache_mode sbi then ntiers sbi - 1 else fastest_tier sbi.
Definition setup_root (m : mount) : Z * mount :=
  match tier_at (mo_sbi m) (root_tier (mo_sbi m)) with
  | None => (- ENOENT, m)
  | Some tr =>
      match lower (mo_sbi m) !! p_dentry (t_path tr) with
      | None => (- ENOENT, m)
      | Some l =>
          let (pl, r) := smoothfs_iget (me_iget e) true false (t_path tr) l
                           (Pool (mo_sbi m) (rv_wb_ready (mo_st m)) (rv_wb_pending (mo_st m))) in
          let m := m <| mo_sbi := p_sbi pl |> <| mo_st := mo_st m <| rv_wb_ready := oid_wb_ready pl |> <| rv_wb_pending := oid_wb_pending pl |> |> in
          match r with
          | Err err => (err, m)
          | Ok ino =>
              if negb (me_make_root e)   (* d_make_root drops the inode *)
              then (- ENOMEM, m <| mo_sbi := match inodes (mo_sbi m) !! ino with
                                             | Some si => smoothfs_evict_inode (mo_sbi m) si
                                             | None => mo_sbi m
                                             end |>)
              else (0, m <| mo_root := true |>)
          end
      end
  end.

(** The log is opened and replayed, then the sidecars; a failed replay of the
    sidecars does not matter. *)
Definition setup_log (m : mount) : Z * mount :=
  andthen (lift_sb (smoothfs_placement_open (me_io e) 0 (mo_disk m)) m) (fun m =>
  let (err, st) := smoothfs_placement_replay (me_io e) (me_replay_mem e) (mo_index_work m) (mo_st m) (mo_sbi m) in
  let m := m <| mo_st := st |> in
  if negb (err =? 0) then (err, placement_close m)
  else
    let '(_, svc, stages, stats) :=
      @smoothfs_range_staging_replay _ (placement_oid_service (me_recovery e) (me_scan e) (me_trees e) (me_scan_mem e))
        (me_range e) (mo_sbi m) (me_meta e) (me_listing e) (MWorld (mo_st m) (mo_sbi m)) (mo_stages m) (mo_stats m) (me_now e) in
    (0, m <| mo_st := mw_rec svc |> <| mo_sbi := mw_sb svc |> <| mo_stages := stages |> <| mo_stats := stats |>)).

(** The pool becomes visible. *)
Definition setup_publish (m : mount) : Z * mount :=
  let m := m <| mo_sbi := mo_sbi m <| quiesced := false |> |> in
  let (err, reg) := smoothfs_sb_register (me_register e) (me_addr e) (mo_reg m) in
  let m := m <| mo_reg := reg |> in
  if negb (err =? 0) then (err, placement_close m)
  else
    let (err, m) := smoothfs_sysfs_pool_add (me_sysfs_root e) (me_kobject e) m in
    if negb (err =? 0) then (err, placement_close (m <| mo_reg := smoothfs_sb_unregister (me_addr e) (mo_reg m) |>))
    else (0, m <| mo_heat := snd (smoothfs_heat_init (mo_heat m)) |>).

Definition orelse (r : Z * mount) (out : mount -> mount) (k : mount -> Z * mount) : Z * mount :=
  let (err, m) := r in if negb (err =? 0) then (err, out m) else k m.

(** [kzalloc] zeroes the pool; the lower objects are there before it. *)
Definition smoothfs_fill_super (ctx : smoothfs_fc_ctx) (m : mount) : Z * mount :=
  match fc_pool ctx, fc_tiers ctx with
  | Some _, Some _ =>
      if negb (me_kzalloc e) then (- ENOMEM, m)
      else
        let m := m <| mo_sbi := sb_zero <| lower := lower (mo_sbi m) |> |> <| mo_alloc := true |> <| mo_cred := true |> in
        orelse (setup_tables m) out_sbi (fun m =>
        orelse (setup_config ctx m) out_sbi (fun m =>
        orelse (setup_root m) out_tiers (fun m =>
        orelse (setup_log m) out_tiers (fun m =>
        orelse (setup_publish m) out_tiers (fun m => (0, m))))))
  | _, _ => (- EINVAL, m)
  end.

(** ** Unmount *)

Definition smoothfs_put_super (m : mount) : mount :=
  if negb (mo_info m) then m
  else
    let m := smoothfs_path_index_async_destroy m in
    let m := m <| mo_st := smoothfs_recovery_destroy (mo_st m) |> <| mo_heat := smoothfs_heat_destroy (mo_heat m) |> in
    let m := smoothfs_sysfs_pool_remove m in
    let m := m <| mo_reg := smoothfs_sb_unregister (me_addr e) (mo_reg m) |> in
    let m := placement_wb_destroy (placement_close (oid_wb_destroy m)) in
    let m := if mo_srcu m then m <| mo_srcu := false |> else m in
    m <| mo_sbi := maps_destroy (mo_sbi m) |> <| mo_tier_refs := mo_tier_refs m - ntiers (mo_sbi m) |>
      <| mo_cred := false |> <| mo_alloc := false |> <| mo_info := false |>.

(** [held]: the references each inode has besides those of its dentries.  A pin
    is a flag of the inode that stands for one of them. *)
Definition unmount_pins (m : mount) (ino : Z) : Z :=
  Z.b2z (match inodes (mo_sbi m) !! ino with Some si => replay_pinned si | None => false end)
  + Z.b2z (range_staging_pinned (default rstage_init (mo_stages m !! ino))).

(** Both flags of every listed inode are cleared, and one reference is put for
    each that was set.  (The inode also leaves the list here, and not only when
    it is evicted.) *)
Definition drop_pins (m : mount) : mount :=
  m <| mo_sbi := mo_sbi m <| inodes := map_imap (fun ino si => Some (if bool_decide (ino ∈ inode_list (mo_sbi m))
                                                                     then si <| replay_pinned := false |> else si)) (inodes (mo_sbi m)) |> |>
    <| mo_stages := map_imap (fun ino rs => Some (if bool_decide (ino ∈ inode_list (mo_sbi m))
                                                  then rs <| range_staging_pinned := false |> else rs)) (mo_stages m) |>.
Definition put_pins (m : mount) (held : Z -> Z) (ino : Z) : Z :=
  if bool_decide (ino ∈ inode_list (mo_sbi m)) then held ino - unmount_pins m ino else held ino.

(** What a drain did to the inodes: their ranges, and the reference of each pin
    that it dropped. *)
Definition drain_stages (files : Drains.pool) (m : mount) : mount :=
  m <| mo_stages := (pf_rs <$> po_files files) ∪ mo_stages m |>.
Definition range_pin (files : Drains.pool) (ino : Z) : Z :=
  Z.b2z (match po_files files !! ino with Some f => range_staging_pinned (pf_rs f) | None => false end).
Definition drain_puts (before after : Drains.pool) (held : Z -> Z) (ino : Z) : Z :=
  held ino - (range_pin before ino - range_pin after ino).

(** [generic_shutdown_super]: with a root, the dentries go, every inode without
    references is evicted and [put_super] runs.  The second value is the inodes
    that stay, "busy after unmount". *)
Definition evict_all (held : Z -> Z) (m : mount) : mount * list Z :=
  let all := (map_to_list (inodes (mo_sbi m))).*1 in
  let busy := List.filter (fun i => 0 <? held i) all in
  (m <| mo_sbi := if mo_info m then foldl (fun sbi ino => match inodes sbi !! ino with Some si => smoothfs_evict_inode sbi si | None => sbi end)
                                      (mo_sbi m) (List.filter (fun i => negb (0 <? held i)) all)
                  else mo_sbi m <| inodes := filter (fun x => (0 <? held x.1) = true) (inodes (mo_sbi m)) |> |>, busy).

Definition generic_shutdown_super (held : Z -> Z) (m : mount) : mount * list Z :=
  if negb (mo_root m) then (m, [])
  else let (m, busy) := evict_all held m in (smoothfs_put_super (m <| mo_root := false |>), busy).

(** [files]: the files of the pool, whose staged ranges are drained; what
    cannot be drained stays for recovery. *)
Definition smoothfs_kill_sb (ora : oracle) (grab : Z -> bool) (files : Drains.pool) (held : Z -> Z) (m : mount)
  : option (mount * list Z * Drains.pool) :=
  if negb (mo_info m) then let (m, busy) := generic_shutdown_super held m in Some (m, busy, files)
  else
    let m := smoothfs_path_index_async_destroy m in
    let m := m <| mo_heat := smoothfs_heat_destroy (mo_heat m) |> in
    match smoothfs_cache_drain ora (me_now e) grab (with_sb files (mo_sbi m)) with
    | None => None
    | Some (_, after) =>
        let m := drain_stages after m in
        let held := drain_puts files after held in
        let (m, busy) := generic_shutdown_super (put_pins m held) (drop_pins m) in Some (m, busy, after)
    end.
End Mount.
