(* ===== verification/MountInv.v ===== *)
(** * What a mount leaves: theorems about src/src/smoothfs/super.c and module.c

    A mount that succeeds gives a pool on which the other components'
    assumptions hold; one that fails releases what it took; an unmount releases
    everything. *)
From S2P Require Import Prelude Types Oid Tiers KernelIO RangeList RangeMeta Staging Drains Heat PlacementLog InodeMaps LowerFs Movement Netlink PathIndex Replay Namespace Lookup NsWorld Dir NamespaceInv Quiet Creation Removal Rehome Sync Mount.

(** ** Sidecar replay keeps what its service keeps *)

Section RangeReplay.
Context {S : Type} `{OidService S} (I : S -> Prop).
Context (Hlookup : forall svc o r svc', I svc -> RangeMeta.lookup_oid_resolve svc o = (r, svc') -> I svc').
Context (Hrebuild : forall svc err svc', I svc -> rebuild_for_staging svc = (err, svc') -> I svc').

Lemma resolve_or_rebuild_keeps svc o rb r svc' rb' : I svc -> resolve_or_rebuild svc o rb = (r, svc', rb') -> I svc'.
Proof.
  intros HI. unfold resolve_or_rebuild. destruct (lookup_oid_resolve svc o) as [r1 s1] eqn:E1. pose proof (Hlookup _ _ _ _ HI E1) as H1.
  destruct r1 as [i|]; [by intros [= _ <- _]|]. destruct rb; [by intros [= _ <- _]|].
  destruct (rebuild_for_staging s1) as [err s2] eqn:E2. pose proof (Hrebuild _ _ _ H1 E2) as H2.
  case_goal; [by intros [= _ <- _]|]. destruct (lookup_oid_resolve s2 o) as [r3 s3] eqn:E3. intros [= _ <- _]. by eapply Hlookup.
Qed.

Lemma replay_one_keeps ora sbi d f n w err w' : I (RangeMeta.rw_svc w) -> smoothfs_range_replay_one ora sbi d f n w = (err, w') -> I (RangeMeta.rw_svc w').
Proof.
  intros HI. unfold smoothfs_range_replay_one. destruct (smoothfs_range_parse_oid n) as [|o]; [by intros [= _ <-]|].
  destruct (smoothfs_range_read_full _ _ _ _ _) as [[|h] k]; [by intros [= _ <-]|].
  destruct (parse_header _ _) as [|[[t ns] c]]; [by intros [= _ <-]|].
  destruct (resolve_or_rebuild _ o _) as [[r svc] rb] eqn:Er. pose proof (resolve_or_rebuild_keeps _ _ _ _ _ _ HI Er) as H1.
  destruct r as [|[ino|]]; [by intros [= _ <-]| |by intros [= _ <-]]. case_goal; [by intros [= _ <-]|].
  destruct (read_ranges _ _ _ _ _) as [[|l] k2]; by intros [= _ <-].
Qed.

Lemma replay_names_keeps ora sbi d : forall ns w rc sk err w' rc' sk', I (RangeMeta.rw_svc w) ->
  replay_names ora sbi d ns w rc sk = (err, w', rc', sk') -> I (RangeMeta.rw_svc w').
Proof.
  induction ns as [|n ns IH]; intros w rc sk err w' rc' sk' HI; cbn [replay_names]; [by intros [= _ <- _ _]|].
  case_goal; [by intros [= _ <- _ _]|]. destruct (d !! n) as [f|]; [|by apply IH]. case_goal; [by apply IH|].
  destruct (smoothfs_range_replay_one _ _ _ _ _ _) as [e1 w1] eqn:E1. apply replay_one_keeps in E1; [|exact HI].
  case_goal; [by intros [= _ <- _ _]|]. case_goal; by apply IH.
Qed.

Lemma range_replay_keeps ora sbi d listing svc stages st now err svc' stages' st' : I svc ->
  smoothfs_range_staging_replay ora sbi d listing svc stages st now = (err, svc', stages', st') -> I svc'.
Proof.
  intros HI. unfold smoothfs_range_staging_replay. repeat (case_goal; [by intros [= _ <- _ _]|]).
  destruct (smoothfs_range_actor _ _ _) as [[names oom] k]. case_goal; [by intros [= _ <- _ _]|].
  destruct (replay_names _ _ _ _ _ _ _) as [[[e1 w] rc] sk] eqn:Ern. intros [= _ <- _ _]. apply replay_names_keeps in Ern; [exact Ern|exact HI].
Qed.
End RangeReplay.

(** ** The configuration of a pool *)

Definition config (sbi : sb_info) :=
  (ntiers sbi, tiers sbi, cache_mode sbi, fastest_tier sbi, create_policy sbi, pool_uuid sbi, fsid sbi,
   (metadata_active_tier_mask sbi, write_staging_drain_active_tier_mask sbi, write_staging_enabled sbi, write_staging_full_pct sbi),
   (placement_wb_ready sbi, lower_ino_map_ready sbi)).

Lemma config_fields a b : config a = config b ->
  ntiers a = ntiers b /\ tiers a = tiers b /\ cache_mode a = cache_mode b /\ fastest_tier a = fastest_tier b
  /\ metadata_active_tier_mask a = metadata_active_tier_mask b
  /\ write_staging_drain_active_tier_mask a = write_staging_drain_active_tier_mask b
  /\ placement_wb_ready a = placement_wb_ready b /\ lower_ino_map_ready a = lower_ino_map_ready b.
Proof. unfold config. intros H. injection H. intros. by split_and!. Qed.

(** Nothing but the cache and the lower ids. *)
Definition same_setup (sbi sbi' : sb_info) : Prop :=
  config sbi' = config sbi /\ placement_log sbi' = placement_log sbi.

#[export] Instance same_setup_preorder : PreOrder same_setup.
Proof. split; [by intros s|]. intros a b c [A1 A2] [B1 B2]. split; congruence. Qed.

Lemma identity_setup ie fresh p l pl pl' r : iget_identity ie fresh p l pl = (pl', r) ->
  same_setup (p_sbi pl) (p_sbi pl') /\ oid_wb_ready pl' = oid_wb_ready pl.
Proof.
  assert (forall faults q, same_setup (p_sbi q) (p_sbi (smoothfs_oid_wb_drain faults q)) /\ oid_wb_ready (smoothfs_oid_wb_drain faults q) = oid_wb_ready q) as Hd.
  { intros faults q. unfold smoothfs_oid_wb_drain. by destruct (oid_wb_ready q) eqn:E. }
  unfold iget_identity.
  match goal with |- (let '(_, _) := ?m in _) = _ -> _ => destruct m as [pl1 r1] eqn:E1 end.
  assert (same_setup (p_sbi pl) (p_sbi pl1) /\ oid_wb_ready pl1 = oid_wb_ready pl) as [S1 W1].
  { destruct fresh; [by injection E1 as <- _|]. destruct (smoothfs_read_oid_xattr _ _); [|by injection E1 as <- _].
    case_hyp E1; [|by injection E1 as <- _]. destruct (smoothfs_oid_wb_peek pl p); injection E1 as <- _; [done|apply Hd]. }
  destruct r1 as [err|o]; [|by intros [= <- _]]. case_goal; [|by intros [= <- _]].
  unfold smoothfs_alloc_oid. cbv zeta.
  destruct (smoothfs_oid_wb_queue _ _ _ _ _) as [qerr pl2] eqn:Eq.
  enough (same_setup (p_sbi pl1) (p_sbi pl2) /\ oid_wb_ready pl2 = oid_wb_ready pl1) as [S2 W2].
  { case_goal; intros [= <- _]; (split; [by etransitivity|congruence]). }
  revert Eq. unfold smoothfs_oid_wb_queue. repeat case_goal; by intros [= _ <-].
Qed.

Lemma iget_setup ie root fresh p l pl pl' r : smoothfs_iget ie root fresh p l pl = (pl', r) ->
  same_setup (p_sbi pl) (p_sbi pl') /\ oid_wb_ready pl' = oid_wb_ready pl.
Proof.
  assert (forall o g t ino q q' r0, iget_locked ie root p l o g t ino q = (q', r0) ->
    same_setup (p_sbi q) (p_sbi q') /\ oid_wb_ready q' = oid_wb_ready q) as Hlocked.
  { intros o g t ino q q' r0. unfold iget_locked. case_goal; [by intros [= <- _]|]. destruct (inodes (p_sbi q) !! ino); [by intros [= <- _]|].
    unfold iget_new. set (si := smoothfs_copy_attrs _ _). clearbody si. unfold smoothfs_oid_map_insert.
    repeat case_goal; intros [= <- _]; (split; [|done]); unfold smoothfs_lower_ino_map_insert; repeat case_goal; done. }
  assert (forall t q, same_setup (p_sbi pl) (p_sbi q) /\ oid_wb_ready q = oid_wb_ready pl ->
    (match iget_identity ie fresh p l q with
     | (q, Err err) => (q, Err err)
     | (q, Ok (o, g)) => iget_locked ie root p l o g t (smoothfs_inode_no_from_oid (ie_xxh64 ie) o) q
     end) = (pl', r) -> same_setup (p_sbi pl) (p_sbi pl') /\ oid_wb_ready pl' = oid_wb_ready pl) as Hslow.
  { intros t q [S1 W1]. destruct (iget_identity ie fresh p l q) as [q1 [err|[o g]]] eqn:Eid; apply identity_setup in Eid as [S2 W2].
    - intros [= <- _]. split; [by etransitivity|congruence].
    - intros H. apply Hlocked in H as [S3 W3]. split; [by repeat (etransitivity; [eassumption|])|congruence]. }
  unfold smoothfs_iget. destruct root; [apply Hlocked|]. cbv zeta. destruct (if _ =? 0 then _ else _) as [si|]; [|by apply Hslow].
  case_goal; [by intros [= <- _]|]. apply Hslow. split; [|done]. cbn. unfold smoothfs_lower_ino_map_remove. repeat case_goal; done.
Qed.

(** ** Recovery keeps a pool in order *)

Record service_ok (sbi0 : sb_info) (rootp : path) (w : @mworld rstate) : Prop := ServiceOk {
  so_cache : cache_ok (mw_sb w);
  so_config : config (mw_sb w) = config sbi0;
  so_log : is_Some (placement_log (mw_sb w));
  so_records : records_settled (rv_records (mw_rec w));
  so_ready : rv_ready (mw_rec w) = true;
  so_wb : rv_wb_ready (mw_rec w) = true;
  so_root : exists si, inodes (mw_sb w) !! 1 = Some si /\ lower_path si = Some rootp;
}.

Section Service.
Context (env : recovery_env) (se : scan_env) (trees : Z -> lforest) (alloc : bool).
Context (Hins : ie_oid_insert (re_iget env) <> - EEXIST) (sbi0 : sb_info) (rootp : path).

Lemma record_setup mem now sbi o s a b sync : same_setup sbi (snd (fst (smoothfs_placement_record mem now sbi o s a b sync)))
  /\ same_cache sbi (snd (fst (smoothfs_placement_record mem now sbi o s a b sync))).
Proof. unfold smoothfs_placement_record. by repeat case_goal. Qed.

Lemma place_bookkeeping sbi rec t : bookkeeping (place_inode sbi rec t).
Proof. intros si. unfold place_inode. by destruct (normalized rec). Qed.

Lemma repath_setup fault sbi si q sbi' si' : replace_rel_path fault sbi si q = (sbi', si') -> same_setup sbi sbi' /\ lower_path si' = lower_path si /\ i_ino si' = i_ino si.
Proof.
  unfold replace_rel_path, smoothfs_path_map_del, smoothfs_path_map_add. repeat case_goal; intros [= <- <-]; done.
Qed.

Lemma service_next st sbi t s : service_ok sbi0 rootp (MWorld st sbi) -> cache_ok s -> same_setup sbi s ->
  (exists si, inodes s !! 1 = Some si /\ lower_path si = Some rootp) ->
  records_settled (rv_records t) -> rv_ready t = true -> rv_wb_ready t = true -> service_ok sbi0 rootp (MWorld t s).
Proof.
  intros [K C L _ _ _ _] K1 [C1 L1] R1 R2 R3 R4. constructor; cbn in *; try done; [congruence|]. by rewrite L1.
Qed.

(** The placement of an inode from its record, and the record's own new entry. *)
Lemma placed_ok fault rel rec tier st sbi ino si sbi2 si2 : service_ok sbi0 rootp (MWorld st sbi) -> inodes sbi !! ino = Some si ->
  replace_rel_path fault sbi si (Some rel) = (sbi2, si2) ->
  let s := put_inode sbi2 (place_inode sbi2 rec tier si2) in
  service_ok sbi0 rootp (MWorld st (if normalized rec
    then snd (fst (smoothfs_placement_record (re_log_mem env) (re_now env) s (rr_oid rec) MS_PLACED tier tier true)) else s)).
Proof.
  intros Hs Hino Ep s. pose proof Hs as [K _ _ Rs Rd Wb (si0 & Hr0 & Hp0)]. cbn [mw_sb mw_rec] in *.
  pose proof (ix_ino _ (ca_index _ K) _ _ Hino) as Hnum.
  pose proof (repath_setup _ _ _ _ _ _ Ep) as (S3 & P3 & N3). pose proof (rel_path_frame _ _ _ _ _ _ Ep) as (F3 & _).
  pose proof (cache_ok_repath _ _ _ _ _ _ _ K ltac:(by rewrite Hnum) (place_bookkeeping sbi2 rec tier) Ep) as K4. fold s in K4.
  assert (lower_path (place_inode sbi2 rec tier si2) = lower_path si /\ i_ino (place_inode sbi2 rec tier si2) = ino) as [P4 N4].
  { split; [rewrite <- P3|rewrite <- Hnum, <- N3]; unfold place_inode; by destruct (normalized rec). }
  assert (exists s1, inodes s !! 1 = Some s1 /\ lower_path s1 = Some rootp) as R4.
  { unfold s. change (inodes (put_inode sbi2 ?x)) with (<[i_ino x := x]> (inodes sbi2)). rewrite N4, F3. destruct (decide (ino = 1)) as [->|Hne]; [|exists si0; by rewrite lookup_insert_ne].
    eexists. rewrite lookup_insert_eq. split; [done|]. rewrite P4. congruence. }
  assert (same_setup sbi s) as S4 by (etransitivity; [exact S3|done]). clearbody s.
  destruct (record_setup (re_log_mem env) (re_now env) s (rr_oid rec) MS_PLACED tier tier true) as [S5 C5].
  destruct (normalized rec); apply (service_next st sbi); try done.
  - by apply (cache_ok_frame s).
  - by etransitivity.
  - destruct C5 as (_ & _ & _ & _ & -> & _). done.
Qed.

Lemma instantiate_ok rec st sbi r st' sbi' : settled_record rec -> service_ok sbi0 rootp (MWorld st sbi) ->
  smoothfs_replay_instantiate_one env rec st sbi = (r, (st', sbi')) -> service_ok sbi0 rootp (MWorld st' sbi').
Proof.
  intros Hrec Hs. pose proof Hs as [K _ _ Rs Rd Wb (si0 & Hr0 & Hp0)]. cbn in *. unfold smoothfs_replay_instantiate_one.
  pose proof (promote_settled rec Hrec) as Hrec1. set (rec1 := promote_fallback rec) in *. clearbody rec1. cbv zeta.
  set (st1 := st <| rv_records := _ |>).
  assert (service_ok sbi0 rootp (MWorld st1 sbi)) as Hs1 by (apply (service_next st sbi); try done; [by exists si0|by apply update_settled]).
  assert (records_settled (rv_records st1) /\ rv_ready st1 = true /\ rv_wb_ready st1 = true) as (Rs1 & Rd1 & Wb1) by by destruct Hs1.
  clearbody st1.
  destruct (chosen_rel_path rec1) as [rel|]; [|by intros [= _ <- <-]]. case_goal; [by intros [= _ <- <-]|].
  destruct (re_resolve _ _ _ _) as [|p]; [by intros [= _ <- <-]|]. destruct (lower sbi !! p_dentry p) as [l|]; [|by intros [= _ <- <-]].
  destruct (smoothfs_iget _ _ _ _ _ _) as [pl ri] eqn:Ei. pose proof (iget_cache_ok _ _ _ _ (Pool sbi _ _) _ _ Hins K Ei) as K2.
  pose proof (iget_setup _ _ _ _ _ _ _ _ Ei) as [S2 W2]. cbn in S2, W2. apply iget_inodes in Ei. cbn in Ei.
  set (st2 := st1 <| rv_wb_ready := _ |> <| rv_wb_pending := _ |>).
  assert (service_ok sbi0 rootp (MWorld st2 (p_sbi pl))) as Hs2.
  { apply (service_next st1 sbi); try done; [|cbn; congruence]. exists si0. split; [|done].
    destruct Ei as [->|(i & s & Hn & -> & _)]; [done|]. rewrite lookup_insert_ne; [done|congruence]. }
  clearbody st2. set (found := match ri with Ok ino => _ | Err _ => None end).
  destruct found as [[ino si]|] eqn:Ef; [|by intros [= _ <- <-]].
  assert (inodes (p_sbi pl) !! ino = Some si) as Hino.
  { subst found. destruct ri as [|i]; [done|]. destruct (inodes (p_sbi pl) !! i) eqn:Ein; [|done]. by injection Ef as <- <-. }
  case_goal; [by intros [= _ <- <-]|]. destruct (replace_rel_path _ _ _ _) as [sbi2 si2] eqn:Ep. intros [= _ <- <-].
  exact (placed_ok _ _ rec1 _ _ _ _ _ _ _ Hs2 Hino Ep).
Qed.

Lemma resolve_ok w o r w' : service_ok sbi0 rootp w ->
  @smoothfs_lookup_oid_resolve rstate (placement_recovery env) w o = (r, w') -> service_ok sbi0 rootp w'.
Proof.
  destruct w as [st0 s0]. intros Hs. unfold smoothfs_lookup_oid_resolve. cbn. destruct (smoothfs_lookup_oid s0 o); [by intros [= _ <-]|].
  destruct (smoothfs_recovery_resolve_oid env st0 s0 o) as [r1 [st sbi]] eqn:E. intros [= _ <-].
  apply resolve_cases in E as [[-> ->]|(rec & Hf & Hi)]; [done|].
  eapply instantiate_ok; [|exact Hs|exact Hi]. eapply find_settled; [apply (so_records _ _ _ Hs)|exact Hf].
Qed.

(** ** A scan changes ids and the table only *)

Lemma scan_keeps (P : scan_st -> Prop) e t : (forall s k, P s -> P (s <| ss_k := k |>)) ->
  (forall p d s err s', P s -> smoothfs_scan_node e t p d s = (err, s') -> P s') ->
  forall prefix es s err s', P s -> smoothfs_scan_tree e t prefix es s = (err, s') -> P s'.
Proof.
  intros Hk Hn.
  assert (forall s body err s', P s -> (forall s1 err1 s2, P s1 -> body s1 = (err1, s2) -> P s2) -> scan_dir e s body = (err, s') -> P s') as Hdir.
  { intros s body err s' Hs Hb. unfold scan_dir. repeat (case_goal; [intros [_ <-]%pair_equal_spec; first [exact Hs|by apply Hk]|]). apply Hb. by apply Hk. }
  assert ((forall c rel s err s', P s -> scan_child e t rel c s = (err, s') -> P s')
    /\ (forall es prefix s err s', P s -> scan_entries e t prefix es s = (err, s') -> P s')) as [_ He].
  { apply ltree_lforest_ind; cbn [scan_child scan_entries].
    - intros rel s err s' Hs [= _ <-]. done.
    - intros d rel s err s'. apply Hn.
    - intros d es IH rel s err s' Hs. case_bool_decide; [by intros [= _ <-]|].
      destruct (smoothfs_scan_node e t rel d s) as [e1 s1] eqn:E1. apply Hn in E1; [|done]. case_goal; [by intros [= _ <-]|].
      apply Hdir; [exact E1|]. intros s2 e2 s3. apply IH.
    - intros prefix s err s' Hs [= _ <-]. done.
    - intros n c IHc es IHes prefix s err s' Hs. case_goal; [by apply IHes|]. repeat (case_goal; [intros [_ <-]%pair_equal_spec; by apply Hk|]).
      destruct (scan_child e t (join_rel prefix n) c _) as [e1 s1] eqn:Ec. apply IHc in Ec; [|by apply Hk].
      case_goal; [by intros [= _ <-]|]. destruct c; [by apply IHes|..]; (case_goal; [by intros [= _ <-]|by apply IHes]). }
  intros prefix es s err s' Hs. apply Hdir; [done|]. intros s1 err1 s2. apply He.
Qed.

Record scanned (sbi0 : sb_info) (s : scan_st) : Prop := Scanned {
  sc_setup : same_setup sbi0 (ss_sbi s);
  sc_cache : same_cache sbi0 (ss_sbi s);
  sc_records : records_settled (ss_records s);
}.

Lemma scanned_node sb e t p d s err s' : scanned sb s -> smoothfs_scan_node e t p d s = (err, s') -> scanned sb s'.
Proof.
  intros Hs. unfold smoothfs_scan_node. destruct (lower (ss_sbi s) !! d) as [l|]; [|by intros [= _ <-]]. case_goal; [by intros [= _ <-]|].
  destruct (scan_identity e s d l) as [r s1] eqn:Ei.
  assert (scanned sb s1) as H1.
  { revert Ei. unfold scan_identity, smoothfs_alloc_oid. destruct (smoothfs_read_oid_xattr _ l); [|intros [= _ <-]; by destruct Hs].
    case_goal; [intros [= _ <-]; by destruct Hs|]. destruct (smoothfs_write_oid_xattr _ _ _) as [e1 l1]. destruct Hs as [A B D].
    repeat case_goal; intros [= _ <-]; constructor; done. }
  clear Hs Ei. destruct r as [e1|[o|]]; [by intros [= _ <-]| |by intros [= _ <-]]. cbv zeta.
  destruct H1 as [A B D].
  destruct (smoothfs_replay_get_or_create _ (ss_records s1) o) as [[rec rs]|] eqn:Eg; [|intros [= _ <-]; by constructor].
  apply goc_settled in Eg as [Hrec Hrs]; [|done]. set (g := snd _). clearbody g.
  assert (settled_record (scan_adopt t g rec)) as H2 by (unfold scan_adopt; destruct (chosen_rel_path rec); [done|]; case_goal; [apply normalize_settled|done]).
  assert (settled_record (scan_fallback t g p (scan_adopt t g rec))) as H3 by (unfold scan_fallback; repeat case_goal; done).
  assert (settled_record (scan_choose t g p (scan_fallback t g p (scan_adopt t g rec)))) as H4 by (unfold scan_choose; case_goal; done).
  case_goal; [intros [= _ <-]; constructor; cbn; [done|done|by apply update_settled]|].
  case_goal; intros [= _ <-]; constructor; cbn; try done; by apply update_settled.
Qed.

Lemma scanned_tiers sb e trs : forall ts s err s', scanned sb s -> scan_tiers e trs ts s = (err, s') -> scanned sb s'.
Proof.
  induction ts as [|t ts IH]; intros s err s' Hs; cbn [scan_tiers]; [by intros [= _ <-]|].
  destruct (smoothfs_scan_tree e t EmptyString (trs t) s) as [e1 s1] eqn:E1.
  eapply (scan_keeps (scanned sb)) in E1; [|by intros ? ? []|intros; by eapply scanned_node|exact Hs].
  case_goal; [by intros [= _ <-]|]. by apply IH.
Qed.

Lemma rebuild_ok w err w' : service_ok sbi0 rootp w ->
  (let '(err, (st, sbi)) := smoothfs_recovery_rebuild_for_staging se trees alloc (mw_rec w) (mw_sb w) in (err, MWorld st sbi)) = (err, w') ->
  service_ok sbi0 rootp w'.
Proof.
  destruct w as [st sbi]. intros Hs. unfold smoothfs_recovery_rebuild_for_staging. cbn [mw_rec mw_sb].
  pose proof Hs as [K C L Rs Rd Wb R1]. cbn [mw_sb mw_rec] in *.
  set (st1 := st <| rv_scheduled := false |>).
  assert (service_ok sbi0 rootp (MWorld st1 sbi)) as Hs1 by by constructor. unfold smoothfs_path_index_rebuild.
  destruct (placement_log sbi) as [lg|] eqn:El; [|by intros [= _ <-]]. case_goal; [by intros [= _ <-]|].
  destruct (smoothfs_placement_wb_drain _ _ sbi) as [k s1] eqn:Ed.
  assert (service_ok sbi0 rootp (MWorld st1 s1)) as Hs2.
  { revert Ed. unfold smoothfs_placement_wb_drain, smoothfs_placement_wb_worker.
    case_goal; [by intros [= _ <-]|]. cbn. rewrite El. destruct (wb_write_all _ _ _ _) as [k1 lg1]. intros [= _ <-].
    constructor; cbn; try done. by apply (cache_ok_frame sbi). }
  destruct (smoothfs_replay_load_log _ _ _ _) as [e1 recs] eqn:Er. case_goal; [by intros [= _ <-]|].
  assert (records_settled recs) as Hrecs.
  { unfold smoothfs_replay_load_log in Er. apply (f_equal snd) in Er. cbn [snd] in Er. rewrite <- Er. apply load_loop_settled. constructor. }
  match goal with |- context [scan_tiers ?a ?b ?c ?d] => destruct (scan_tiers a b c d) as [e2 s] eqn:Es; apply (scanned_tiers s1) in Es; [|by constructor] end.
  destruct Es as [A B D].
  assert (forall t, records_settled (rv_records t) -> rv_ready t = true -> rv_wb_ready t = true -> service_ok sbi0 rootp (MWorld t (ss_sbi s))) as Hend.
  { intros t T1 T2 T3. pose proof Hs2 as [K2 _ _ _ _ _ R2]. apply (service_next st1 s1); try done; [by apply (cache_ok_frame s1)|].
    destruct B as (_ & _ & _ & _ & E5 & _). by rewrite E5. }
  case_goal; [intros [= _ <-]; by apply Hend|]. destruct (smoothfs_path_index_write _ _ _ _ _) as [[e3 k3] f].
  case_goal; intros [= _ <-]; by apply Hend.
Qed.
End Service.

(** ** The stages of a mount *)

(** Nothing is set up. *)
Record fresh (m : mount) : Prop := Fresh {
  fr_flags : mo_alloc m = false /\ mo_cred m = false /\ mo_srcu m = false /\ mo_index_work m = false /\ mo_sysfs m = false
             /\ mo_root m = false /\ mo_info m = false;
  fr_refs : mo_tier_refs m = 0;
  fr_st : rv_wb_ready (mo_st m) = false /\ rv_ready (mo_st m) = false /\ rv_records (mo_st m) = [] /\ rv_scheduled (mo_st m) = false;
}.

(** Everything a mount sets up is gone; the references to the tiers apart. *)
Record released (m : mount) : Prop := Released {
  rl_flags : mo_alloc m = false /\ mo_cred m = false /\ mo_srcu m = false /\ mo_index_work m = false /\ mo_sysfs m = false
             /\ mo_info m = false;
  rl_maps : oid_map_ready (mo_sbi m) = false /\ path_map_ready (mo_sbi m) = false /\ lower_ino_map_ready (mo_sbi m) = false;
  rl_queues : placement_wb_ready (mo_sbi m) = false /\ rv_wb_ready (mo_st m) = false;
  rl_log : placement_log (mo_sbi m) = None;
  rl_recovery : rv_ready (mo_st m) = false /\ rv_records (mo_st m) = [] /\ rv_scheduled (mo_st m) = false;
}.

(** The parts that a step of the setup leaves alone. *)
Record untouched (m m' : mount) : Prop := Untouched {
  un_sysfs : mo_sysfs m' = mo_sysfs m;
  un_refs : mo_tier_refs m' = mo_tier_refs m;
  un_reg : mo_reg m' = mo_reg m;
  un_heat : mo_heat m' = mo_heat m;
}.
#[export] Instance untouched_preorder : PreOrder untouched.
Proof. split; [by intros m|]. intros a b c [] []. constructor; congruence. Qed.

(** The rebuild is scheduled only while its work item is armed. *)
Definition armed (m : mount) : Prop := mo_index_work m = false -> rv_scheduled (mo_st m) = false.

Section MountProps.
Context (e : mount_env) (Hkern : forall s err, me_kern_path e s = Err err -> err <> 0).

Lemma placement_worker_frame ora k sbi : let s := snd (smoothfs_placement_wb_worker ora k sbi) in
  config s = config sbi /\ oid_map_ready s = oid_map_ready sbi /\ path_map_ready s = path_map_ready sbi
  /\ (placement_log sbi = None -> placement_log s = None).
Proof.
  unfold smoothfs_placement_wb_worker. cbn. destruct (placement_log sbi) as [lg|] eqn:El; [destruct (wb_write_all _ _ _ _)|]; cbn; by rewrite ?El.
Qed.

Lemma placement_wb_destroy_spec m : let m' := placement_wb_destroy e m in
  untouched m m' /\ mo_st m' = mo_st m /\ mo_srcu m' = mo_srcu m /\ mo_index_work m' = mo_index_work m /\ mo_root m' = mo_root m
  /\ placement_wb_ready (mo_sbi m') = false /\ ntiers (mo_sbi m') = ntiers (mo_sbi m)
  /\ (placement_log (mo_sbi m) = None -> placement_log (mo_sbi m') = None).
Proof.
  unfold placement_wb_destroy, smoothfs_placement_wb_destroy. destruct (placement_wb_ready (mo_sbi m)) eqn:Er; cbn [negb].
  - pose proof (placement_worker_frame (me_io e) 0 (mo_sbi m <| placement_wb_ready := false |>)) as (C & _ & _ & L).
    destruct (smoothfs_placement_wb_worker _ _ _) as [k s]. cbn [snd] in C, L.
    apply config_fields in C as (C1 & _ & _ & _ & _ & _ & C2 & _). by split_and!.
  - by split_and!.
Qed.

Lemma oid_wb_destroy_spec m : let m' := oid_wb_destroy e m in
  untouched m m' /\ mo_srcu m' = mo_srcu m /\ mo_index_work m' = mo_index_work m /\ mo_root m' = mo_root m
  /\ config (mo_sbi m') = config (mo_sbi m) /\ placement_log (mo_sbi m') = placement_log (mo_sbi m)
  /\ rv_wb_ready (mo_st m') = false /\ rv_ready (mo_st m') = rv_ready (mo_st m) /\ rv_records (mo_st m') = rv_records (mo_st m)
  /\ rv_scheduled (mo_st m') = rv_scheduled (mo_st m).
Proof.
  unfold oid_wb_destroy, smoothfs_oid_wb_destroy. cbn [oid_wb_ready]. destruct (rv_wb_ready (mo_st m)) eqn:Er; cbn [negb]; by split_and!.
Qed.

Lemma maps_destroyed sbi : let s := maps_destroy sbi in
  oid_map_ready s = false /\ path_map_ready s = false /\ lower_ino_map_ready s = false
  /\ placement_wb_ready s = placement_wb_ready sbi /\ placement_log s = placement_log sbi /\ ntiers s = ntiers sbi.
Proof.
  unfold maps_destroy, smoothfs_path_map_destroy, smoothfs_oid_map_destroy, smoothfs_lower_ino_map_destroy.
  destruct (lower_ino_map_ready sbi) eqn:E1; cbn; destruct (oid_map_ready sbi) eqn:E2; cbn; destruct (path_map_ready sbi) eqn:E3; cbn; by split_and!.
Qed.

Lemma index_destroy_spec m : armed m -> let m' := smoothfs_path_index_async_destroy m in
  untouched m m' /\ mo_srcu m' = mo_srcu m /\ mo_index_work m' = false /\ mo_root m' = mo_root m /\ mo_sbi m' = mo_sbi m
  /\ rv_scheduled (mo_st m') = false.
Proof. intros Ha. unfold smoothfs_path_index_async_destroy. destruct (mo_index_work m) eqn:Ei; cbn; split_and!; try done. by apply Ha. Qed.

Lemma out_sbi_spec m : armed m -> mo_sysfs m = false -> placement_log (mo_sbi m) = None ->
  released (out_sbi e m) /\ untouched m (out_sbi e m) /\ mo_root (out_sbi e m) = mo_root m.
Proof.
  intros Ha Hs Hl. unfold out_sbi. destruct (index_destroy_spec m Ha) as (U1 & _ & I1 & R1 & B1 & D1).
  set (m1 := smoothfs_path_index_async_destroy m) in *. clearbody m1.
  set (m2 := m1 <| mo_st := _ |>).
  destruct (placement_wb_destroy_spec m2) as (U3 & T3 & _ & I3 & R3 & W3 & _ & L3). set (m3 := placement_wb_destroy e m2) in *.
  destruct (oid_wb_destroy_spec m3) as (U4 & _ & I4 & R4 & C4 & L4 & W4 & A4 & B4 & D4). set (m4 := oid_wb_destroy e m3) in *.
  assert (placement_wb_ready (mo_sbi m4) = false) as Wp by (apply config_fields in C4 as (_ & _ & _ & _ & _ & _ & -> & _); exact W3).
  assert (untouched m m4) as U by (etransitivity; [exact U1|]; etransitivity; [|exact U4]; etransitivity; [|exact U3]; done).
  assert (placement_log (mo_sbi m4) = None) as L by (rewrite L4; apply L3; cbn; congruence).
  assert (mo_index_work m4 = false /\ mo_root m4 = mo_root m) as [I R] by (split; [rewrite I4, I3; exact I1|rewrite R4, R3; exact R1]).
  assert (rv_ready (mo_st m4) = false /\ rv_records (mo_st m4) = [] /\ rv_scheduled (mo_st m4) = false) as (A & B & D)
    by (rewrite A4, B4, D4, T3; by split_and!).
  clearbody m4. destruct U as [U5 U6 U7 U8]. pose proof (maps_destroyed (mo_sbi m4)) as (M1 & M2 & M3 & M4 & M5 & _).
  assert (mo_sysfs m4 = false) as Hs4 by congruence.
  split; [|by destruct (mo_srcu m4); split].
  destruct (mo_srcu m4) eqn:Es; constructor; cbn; rewrite ?M4, ?M5; split_and?; done.
Qed.

(** What the later stages need from the earlier ones. *)
Definition step_ok (m m' : mount) : Prop :=
  untouched m m' /\ (armed m -> armed m').

Lemma andthen_cases r k err m : andthen r k = (err, m) -> (r.1 <> 0 /\ r = (err, m)) \/ (r.1 = 0 /\ k r.2 = (err, m)).
Proof. unfold andthen. destruct r as [e0 m0]. cbn. destruct (Z.eqb_spec e0 0); cbn [negb]; [by right|by left]. Qed.

Definition tables_of (sbi : sb_info) : sb_info :=
  sbi <| oid_map := [] |> <| oid_map_ready := true |> <| lower_ino_map := [] |> <| lower_ino_map_ready := true |>
      <| path_map := [] |> <| path_map_ready := true |> <| placement_wb_pending := [] |> <| placement_wb_ready := true |>.

Ltac setup_failed E := intros [= <- <-]; split; [split; [done|by intros Ha]|split_and!; [done|done|done|]]; first [discriminate | intros H0; rewrite H0 in E; discriminate E].

Lemma tables_spec m err m' : setup_tables e m = (err, m') ->
  step_ok m m' /\ mo_root m' = mo_root m /\ mo_disk m' = mo_disk m /\ placement_log (mo_sbi m') = placement_log (mo_sbi m)
  /\ (err = 0 -> mo_sbi m' = tables_of (mo_sbi m) /\ mo_srcu m' = true /\ mo_index_work m' = true /\ rv_wb_ready (mo_st m') = true
        /\ mo_alloc m' = mo_alloc m /\ mo_cred m' = mo_cred m /\ mo_stages m' = mo_stages m
        /\ rv_ready (mo_st m') = rv_ready (mo_st m) /\ rv_records (mo_st m') = rv_records (mo_st m)).
Proof.
  unfold setup_tables, lift_sb, lift_st, smoothfs_oid_map_init, smoothfs_lower_ino_map_init, smoothfs_path_map_init, smoothfs_oid_wb_init,
    smoothfs_placement_wb_init, andthen.
  destruct (me_oid_map e =? 0) eqn:E1; cbn [negb]; [|rewrite E1; cbn [negb]; setup_failed E1]. cbn [negb Z.eqb].
  destruct (me_lower_map e =? 0) eqn:E2; cbn [negb]; [|rewrite E2; cbn [negb]; setup_failed E2]. cbn [negb Z.eqb].
  destruct (me_path_map e =? 0) eqn:E3; cbn [negb]; [|rewrite E3; cbn [negb]; setup_failed E3]. cbn [negb Z.eqb].
  destruct (me_srcu e =? 0) eqn:E4; cbn [negb]; [|setup_failed E4].
  destruct (me_oid_wq e); cbn [negb Z.eqb Z.opp ENOMEM]; [|setup_failed E4].
  destruct (me_pl_wq e); cbn [negb Z.eqb Z.opp ENOMEM]; [|setup_failed E4].
  intros [= <- <-]. split; [split; [done|by intros Ha ?]|]. by split_and!.
Qed.

(** A pool as the mount options describe it. *)
Record configured (ctx : smoothfs_fc_ctx) (sbi : sb_info) : Prop := Configured {
  cf_ntiers : 1 <= ntiers sbi <= SMOOTHFS_MAX_TIERS;
  cf_length : ntiers sbi = Z.of_nat (length (tiers sbi));
  cf_fastest : fastest_tier sbi = 0;
  cf_pieces : length (tiers sbi) = length (tier_pieces (default EmptyString (fc_tiers ctx)));
  cf_tiers : forall i t, tiers sbi !! i = Some t -> tier_ok (me_kern_path e) (tier_pieces (default EmptyString (fc_tiers ctx))) i t;
  cf_cache : cache_mode sbi = fc_cache ctx;
  cf_two : fc_cache ctx = true -> 2 <= ntiers sbi;
  cf_metadata : metadata_active_tier_mask sbi = BIT (ntiers sbi) - 1;
  cf_drain : write_staging_drain_active_tier_mask sbi = if fc_cache ctx then BIT (ntiers sbi) - 1 else BIT 0;
}.

Lemma configured_config ctx a b : config b = config a -> configured ctx a -> configured ctx b.
Proof. intros (E1 & E2 & E3 & E4 & E5 & E6 & _)%config_fields []. constructor; rewrite ?E1, ?E2, ?E3, ?E4, ?E5, ?E6; done. Qed.

(** Not the caches nor the log. *)
Definition bare (sbi sbi' : sb_info) : Prop :=
  same_cache sbi sbi' /\ lower sbi' = lower sbi /\ placement_log sbi' = placement_log sbi
  /\ placement_wb_ready sbi' = placement_wb_ready sbi /\ lower_ino_map_ready sbi' = lower_ino_map_ready sbi.

#[export] Instance bare_preorder : PreOrder bare.
Proof.
  split; [by intros s|]. intros a b c ((A1&A2&A3&A4&A5&A6)&A7&A8&A9&A10) ((B1&B2&B3&B4&B5&B6)&B7&B8&B9&B10).
  unfold bare, same_cache. split_and!; congruence.
Qed.

Lemma resolve_bare kp mem sbi refs csv err sbi' refs' : smoothfs_resolve_tiers kp mem sbi refs csv = (err, sbi', refs') ->
  bare sbi sbi' /\ cache_mode sbi' = cache_mode sbi.
Proof.
  unfold smoothfs_resolve_tiers. destruct csv as [csv|]; [|by intros [= _ <- _]]. case_goal; [by intros [= _ <- _]|]. case_goal; [by intros [= _ <- _]|].
  destruct (resolve_tiers_loop _ _ _) as [e1 s]. cbv zeta. repeat case_goal; by intros [= _ <- _].
Qed.

Lemma config_spec ctx m err m' : setup_config e ctx m = (err, m') ->
  mo_st m' = mo_st m /\ mo_index_work m' = mo_index_work m /\ mo_srcu m' = mo_srcu m /\ mo_sysfs m' = mo_sysfs m /\ mo_reg m' = mo_reg m
  /\ mo_heat m' = mo_heat m /\ mo_root m' = mo_root m /\ mo_disk m' = mo_disk m /\ mo_stages m' = mo_stages m
  /\ mo_alloc m' = mo_alloc m /\ mo_cred m' = mo_cred m /\ bare (mo_sbi m) (mo_sbi m')
  /\ if err =? 0
     then configured ctx (mo_sbi m') /\ mo_info m' = true /\ mo_tier_refs m' = mo_tier_refs m + ntiers (mo_sbi m')
     else mo_tier_refs m' = mo_tier_refs m \/ fc_cache ctx = true /\ mo_tier_refs m' = mo_tier_refs m + 1.
Proof.
  unfold setup_config, lift_sb. destruct (smoothfs_parse_create_policy (mo_sbi m) (fc_policy ctx)) as [e1 s1] eqn:Ep.
  assert (bare (mo_sbi m) s1) as B1 by (revert Ep; unfold smoothfs_parse_create_policy; repeat case_goal; by intros [= _ <-]).
  unfold andthen. destruct (Z.eqb_spec e1 0) as [->|Hne]; cbn [negb].
  2:{ intros [= <- <-]. do 11 (split; [done|]). split; [exact B1|]. destruct (Z.eqb_spec e1 0); [done|by left]. }
  destruct (pool_id e ctx) as [e2 uuid]. destruct (Z.eqb_spec e2 0) as [->|Hne]; cbn [negb].
  2:{ intros [= <- <-]. do 11 (split; [done|]). split; [exact B1|]. destruct (Z.eqb_spec e2 0); [done|by left]. }
  cbv zeta. match goal with |- context [smoothfs_resolve_tiers _ _ ?x _ _] => set (s3 := x) end.
  assert (bare (mo_sbi m) s3 /\ cache_mode s3 = fc_cache ctx) as [B3 C3] by done. clearbody s3.
  destruct (smoothfs_resolve_tiers _ _ s3 _ _) as [[e3 s4] refs] eqn:Er.
  pose proof (resolve_bare _ _ _ _ _ _ _ _ Er) as [B4 C4]. apply resolve_tiers_sound in Er; [|exact Hkern].
  assert (bare (mo_sbi m) s4) as B by (by etransitivity).
  destruct (Z.eqb_spec e3 0) as [->|Hne]; cbn [negb].
  2:{ intros [= <- <-]. do 11 (split; [done|]). split; [exact B|]. destruct (Z.eqb_spec e3 0); [done|by left]. }
  destruct Er as (T1 & T2 & T3 & T4 & T5 & T6). cbn in T6. rewrite C4, C3.
  destruct (fc_cache ctx && (ntiers s4 <? 2)) eqn:Ec.
  - intros [= <- <-]. do 11 (split; [done|]). split; [exact B|]. cbn. right. apply andb_true_iff in Ec as [Hc Hn%Z.ltb_lt]. split; [done|lia].
  - intros [= <- <-]. do 11 (split; [done|]). split; [exact B|]. cbn. split; [|done].
    constructor; cbn; rewrite ?T3; try done; [congruence|]. intros Hc. rewrite Hc in Ec. cbn in Ec. apply Z.ltb_ge in Ec. lia.
Qed.

(** What an eviction has nothing to do with. *)
Definition pool_rest (sbi : sb_info) := (ntiers sbi, placement_log sbi, placement_wb_ready sbi, placement_wb_pending sbi).
Lemma evict_rest sbi si : pool_rest (smoothfs_evict_inode sbi si) = pool_rest sbi.
Proof.
  unfold smoothfs_evict_inode. destruct (smoothfs_clear_write_reservation sbi si) as [s1 si1] eqn:E1.
  assert (pool_rest s1 = pool_rest sbi) as <- by (revert E1; unfold smoothfs_clear_write_reservation; repeat case_goal; intros [= <- _]; done).
  destruct (smoothfs_path_map_del _ si1) as [s2 si2] eqn:E2.
  assert (pool_rest s2 = pool_rest s1) as <-
    by (revert E2; unfold smoothfs_path_map_del, smoothfs_oid_map_remove; repeat case_goal; intros [= <- _]; done).
  cbn. unfold smoothfs_lower_ino_map_remove. by repeat case_goal.
Qed.
Lemma evict_keeps_pool sbi si : let s := smoothfs_evict_inode sbi si in
  ntiers s = ntiers sbi /\ placement_log s = placement_log sbi /\ placement_wb_ready s = placement_wb_ready sbi.
Proof. cbv zeta. pose proof (evict_rest sbi si) as H. unfold pool_rest in H. by injection H as -> -> -> _. Qed.

Lemma iget_root_error ie fresh_ p l pl pl' err : smoothfs_iget ie true fresh_ p l pl = (pl', Err err) -> err <> 0.
Proof.
  unfold smoothfs_iget, iget_locked. case_goal; [by intros [= _ <-]|]. destruct (inodes (p_sbi pl) !! 1); [done|]. unfold iget_new.
  destruct (smoothfs_oid_map_insert _ _ _) as [e1 s1] eqn:E1.
  assert (e1 = 0) as -> by (revert E1; unfold smoothfs_oid_map_insert; change (bytes_eqb (oid _) zero_oid) with (bytes_eqb zero_oid zero_oid);
    rewrite bytes_eqb_refl; by intros [= <- _]). done.
Qed.

(** The root inode is attached and in order. *)
Definition rooted (sbi : sb_info) : Prop :=
  exists tr si, tier_at sbi (root_tier sbi) = Some tr /\ inodes sbi !! 1 = Some si /\ lower_path si = Some (t_path tr).

Lemma root_spec ctx m err m' : ie_oid_insert (me_iget e) <> - EEXIST -> configured ctx (mo_sbi m) -> cache_ok (mo_sbi m) -> inodes (mo_sbi m) = ∅ ->
  setup_root e m = (err, m') ->
  step_ok m m' /\ mo_disk m' = mo_disk m /\ mo_stages m' = mo_stages m /\ mo_index_work m' = mo_index_work m
  /\ placement_log (mo_sbi m') = placement_log (mo_sbi m) /\ ntiers (mo_sbi m') = ntiers (mo_sbi m)
  /\ (err = 0 -> cache_ok (mo_sbi m') /\ rooted (mo_sbi m') /\ config (mo_sbi m') = config (mo_sbi m) /\ mo_root m' = true
        /\ mo_info m' = mo_info m /\ mo_alloc m' = mo_alloc m /\ mo_cred m' = mo_cred m /\ mo_srcu m' = mo_srcu m
        /\ rv_wb_ready (mo_st m') = rv_wb_ready (mo_st m)).
Proof.
  intros Hins Hc K He. unfold setup_root. destruct (tier_at (mo_sbi m) (root_tier (mo_sbi m))) as [tr|] eqn:Et; [|by intros [= <- <-]].
  destruct (lower (mo_sbi m) !! p_dentry (t_path tr)) as [l|]; [|by intros [= <- <-]].
  destruct (smoothfs_iget _ _ _ _ _ _) as [pl r] eqn:Ei. pose proof (iget_setup _ _ _ _ _ _ _ _ Ei) as [[C L] W]. cbn in C, L, W.
  set (m1 := m <| mo_sbi := p_sbi pl |> <| mo_st := _ |>). pose proof (config_fields _ _ C) as (N & T & M & F & _).
  assert (step_ok m m1) as S1 by (split; [done|by intros Ha]).
  destruct r as [err0|ino].
  { pose proof (iget_root_error _ _ _ _ _ _ _ Ei). intros [= <- <-]. by do 6 (split; [done|]). }
  destruct (me_make_root e); cbn [negb].
  - intros [= <- <-]. do 6 (split; [done|]). intros _. cbn.
    unfold smoothfs_iget in Ei. assert (inodes (p_sbi (Pool (mo_sbi m) (rv_wb_ready (mo_st m)) (rv_wb_pending (mo_st m)))) !! 1 = None) as Hn
      by (cbn; rewrite He; apply lookup_empty).
    pose proof (iget_locked_hashed _ _ _ _ _ _ _ _ _ _ _ Ei (ca_hashed _ K)) as Hh.
    apply iget_locked_spec in Ei as [Hix Hr]; [|apply K|done]. destruct (Hr _ eq_refl) as (-> & Hsi & _). destruct (Hsi Hn) as (si & Hi & _ & Hp & _).
    split; [by split|]. split; [|by split_and!]. exists tr, si. split; [|done]. unfold root_tier, tier_at in *. by rewrite N, T, M, F.
  - set (s2 := match inodes (mo_sbi m1) !! ino with Some _ => _ | None => _ end).
    assert (ntiers s2 = ntiers (mo_sbi m) /\ placement_log s2 = placement_log (mo_sbi m)) as [N2 L2].
    { unfold s2. destruct (inodes (mo_sbi m1) !! ino) as [si|]; [|done]. destruct (evict_keeps_pool (mo_sbi m1) si) as (-> & -> & _). done. }
    clearbody s2. intros [= <- <-]. split; [split; [done|by intros Ha]|]. by split_and!.
Qed.

Lemma close_spec m : let m' := placement_close e m in
  untouched m m' /\ mo_st m' = mo_st m /\ mo_index_work m' = mo_index_work m /\ mo_srcu m' = mo_srcu m /\ mo_root m' = mo_root m
  /\ placement_log (mo_sbi m') = None /\ ntiers (mo_sbi m') = ntiers (mo_sbi m)
  /\ (is_Some (placement_log (mo_sbi m)) -> is_Some (mo_disk m')).
Proof.
  unfold placement_close, smoothfs_placement_close. destruct (placement_log (mo_sbi m)) as [lg|] eqn:El.
  - destruct (smoothfs_placement_wb_drain _ _ _) as [k s] eqn:Ed. apply placement_drain_frame in Ed as (S & _ & _ & L).
    split; [done|]. do 5 (split; [done|]). split; [apply (sp_ntiers _ _ S)|]. intros H. cbn. destruct (placement_log s); [done|].
    rewrite El in L. destruct L as [_ L]. destruct (L H) as [? ?]. done.
  - split; [done|]. do 4 (split; [done|]). split; [exact El|]. split; [done|]. by intros [].
Qed.

Lemma open_spec ora k disk sbi err sbi' : smoothfs_placement_open ora k disk sbi = (err, sbi') ->
  same_cache sbi sbi' /\ config sbi' = config sbi /\ (err = 0 -> is_Some (placement_log sbi')) /\ (err <> 0 -> sbi' = sbi).
Proof.
  unfold smoothfs_placement_open. cbv zeta.
  assert (forall err0, err0 <> 0 -> (err0, sbi) = (err, sbi') ->
    same_cache sbi sbi' /\ config sbi' = config sbi /\ (err = 0 -> is_Some (placement_log sbi')) /\ (err <> 0 -> sbi' = sbi)) as Hf
    by (intros err0 Hne [= <- <-]; by split_and!).
  destruct (Z.ltb_spec (ora k) 0); [apply Hf; lia|]. case_goal; [by apply Hf|].
  set (found := if ora (k + 2)%nat <? 0 then _ else _). destruct (Z.eqb_spec found 0) as [_|Hne]; cbn [negb andb].
  2: destruct (Z.eqb_spec found (- ENOENT)); cbn [negb]; [|by apply Hf].
  all: destruct (Z.ltb_spec (ora (k + 3)%nat) 0); [apply Hf; lia|]; intros [= <- <-]; by split_and!.
Qed.

Lemma log_spec m err m' : ie_oid_insert (re_iget (me_recovery e)) <> - EEXIST -> mo_index_work m = true ->
  cache_ok (mo_sbi m) -> rooted (mo_sbi m) -> rv_wb_ready (mo_st m) = true -> placement_log (mo_sbi m) = None ->
  setup_log e m = (err, m') ->
  untouched m m' /\ mo_index_work m' = true /\ mo_root m' = mo_root m /\ ntiers (mo_sbi m') = ntiers (mo_sbi m)
  /\ (err <> 0 -> placement_log (mo_sbi m') = None)
  /\ (err = 0 -> mo_info m' = mo_info m /\ mo_alloc m' = mo_alloc m /\ mo_cred m' = mo_cred m /\ mo_srcu m' = mo_srcu m
        /\ exists tr, tier_at (mo_sbi m) (root_tier (mo_sbi m)) = Some tr /\ service_ok (mo_sbi m) (t_path tr) (MWorld (mo_st m') (mo_sbi m'))).
Proof.
  intros Hins Hw K (tr & si & Ht & Hi & Hp) Wb Hl. unfold setup_log, lift_sb.
  destruct (smoothfs_placement_open _ _ _ _) as [e1 s1] eqn:Eo. apply open_spec in Eo as (C1 & F1 & L1 & U1). unfold andthen.
  pose proof (config_fields _ _ F1) as (N1 & _).
  destruct (Z.eqb_spec e1 0) as [->|Hne]; cbn [negb]; [|intros [= <- <-]; rewrite (U1 Hne); by split_and!].
  set (m1 := m <| mo_sbi := s1 |>). clear U1. specialize (L1 eq_refl).
  destruct (smoothfs_placement_replay _ _ _ _ _) as [e2 st] eqn:Er. set (m2 := m1 <| mo_st := st |>).
  destruct (Z.eqb_spec e2 0) as [->|Hne]; cbn [negb].
  2:{ intros [= <- <-]. destruct (close_spec m2) as (V & _ & V1 & _ & V2 & V3 & V4 & _). split; [etransitivity; [|exact V]; done|]. split; [by rewrite V1|]. split; [by rewrite V2|].
    split; [rewrite V4; exact N1|]. split; [done|]. intros ->. done. }
  assert (service_ok (mo_sbi m) (t_path tr) (MWorld st s1)) as Hs.
  { pose proof (placement_replay_settled _ _ _ _ _ _ Er) as (Rd & Rs & W). constructor; cbn; try done; [by apply (cache_ok_frame (mo_sbi m))| |].
    - by rewrite W.
    - destruct C1 as (_ & _ & _ & _ & E5 & _). exists si. by rewrite E5. }
  destruct (smoothfs_range_staging_replay _ _ _ _ _ _ _ _) as [[[e3 svc] stages] stats] eqn:Eg.
  apply (range_replay_keeps (service_ok (mo_sbi m) (t_path tr))) in Eg;
    [|intros ? ? ? ? HI H; exact (resolve_ok _ Hins _ _ _ _ _ _ HI H)|intros ? ? ? HI H; exact (rebuild_ok _ _ _ _ _ _ _ _ HI H)|exact Hs].
  intros [= <- <-]. destruct svc as [st3 s3]. pose proof (config_fields _ _ (so_config _ _ _ Eg)) as (N3 & _).
  split; [done|]. split; [done|]. split; [done|]. split; [done|]. split; [done|]. intros _. do 4 (split; [done|]). by exists tr.
Qed.

Lemma publish_spec m err m' : mo_sysfs m = false -> setup_publish e m = (err, m') ->
  mo_st m' = mo_st m /\ mo_index_work m' = mo_index_work m /\ mo_root m' = mo_root m /\ mo_tier_refs m' = mo_tier_refs m
  /\ ntiers (mo_sbi m') = ntiers (mo_sbi m)
  /\ (err <> 0 -> mo_sysfs m' = false /\ placement_log (mo_sbi m') = None /\ nl_list (mo_reg m') = nl_list (mo_reg m))
  /\ (err = 0 -> mo_sbi m' = mo_sbi m <| quiesced := false |> /\ mo_sysfs m' = me_sysfs_root e /\ nl_list (mo_reg m') = me_addr e :: nl_list (mo_reg m)
        /\ mo_heat m' = snd (smoothfs_heat_init (mo_heat m)) /\ mo_srcu m' = mo_srcu m /\ mo_info m' = mo_info m
        /\ mo_alloc m' = mo_alloc m /\ mo_cred m' = mo_cred m).
Proof.
  intros Hs. unfold setup_publish, smoothfs_sb_register. cbv zeta.
  assert (forall x, mo_st x = mo_st m -> mo_index_work x = mo_index_work m -> mo_root x = mo_root m -> mo_tier_refs x = mo_tier_refs m ->
    ntiers (mo_sbi x) = ntiers (mo_sbi m) -> mo_sysfs x = false -> nl_list (mo_reg x) = nl_list (mo_reg m) -> forall err0, err0 <> 0 ->
    (err0, placement_close e x) = (err, m') ->
    mo_st m' = mo_st m /\ mo_index_work m' = mo_index_work m /\ mo_root m' = mo_root m /\ mo_tier_refs m' = mo_tier_refs m
    /\ ntiers (mo_sbi m') = ntiers (mo_sbi m)
    /\ (err <> 0 -> mo_sysfs m' = false /\ placement_log (mo_sbi m') = None /\ nl_list (mo_reg m') = nl_list (mo_reg m))
    /\ (err <> 0)) as Hclose.
  { intros x X1 X2 X3 X4 X5 X6 X7 err0 Hne [= <- <-]. destruct (close_spec x) as ([U1 U2 U3 _] & V1 & V2 & _ & V3 & V4 & V5 & _).
    rewrite V1, V2, V3, V5, U1, U2, U3. by split_and!. }
  destruct (me_register e); cbn [negb]; cbn [Z.eqb negb].
  2:{ change (- ENOMEM =? 0) with false. cbn [negb]. intros H. apply Hclose in H as (A & B & C & D & E & F & G); [|done..]. by split_and!. }
  unfold smoothfs_sysfs_pool_add. destruct (me_sysfs_root e); cbn [negb Z.eqb]; [|intros [= <- <-]; by split_and!].
  destruct (me_kobject e =? 0) eqn:Ek; cbn [negb Z.eqb]; [intros [= <- <-]; by split_and!|]. rewrite Ek. cbn [negb].
  intros H. apply Hclose in H as (A & B & C & D & E & F & G); [|try done..|by apply Z.eqb_neq]; [by split_and!|].
  cbn. by rewrite Z.eqb_refl.
Qed.

(** ** A mount *)

(** The pool that a successful mount leaves. *)
Record mounted (ctx : smoothfs_fc_ctx) (m0 m : mount) : Prop := Mounted {
  mt_flags : mo_alloc m = true /\ mo_cred m = true /\ mo_srcu m = true /\ mo_index_work m = true /\ mo_root m = true /\ mo_info m = true;
  mt_sysfs : mo_sysfs m = me_sysfs_root e;
  mt_refs : mo_tier_refs m = ntiers (mo_sbi m);
  mt_config : configured ctx (mo_sbi m);
  mt_cache : cache_ok (mo_sbi m);
  mt_root : rooted (mo_sbi m);
  mt_log : is_Some (placement_log (mo_sbi m)) /\ placement_wb_ready (mo_sbi m) = true /\ rv_wb_ready (mo_st m) = true
           /\ lower_ino_map_ready (mo_sbi m) = true;
  mt_recovery : rv_ready (mo_st m) = true /\ records_settled (rv_records (mo_st m));
  mt_reg : nl_list (mo_reg m) = me_addr e :: nl_list (mo_reg m0);
  mt_open : quiesced (mo_sbi m) = false /\ hw_active (mo_heat m) = true;
}.

Lemma orelse_cases r out k err m : orelse r out k = (err, m) ->
  (exists m1, r = (err, m1) /\ err <> 0 /\ m = out m1) \/ (exists m1, r = (0, m1) /\ k m1 = (err, m)).
Proof. unfold orelse. destruct r as [e0 m0]. destruct (Z.eqb_spec e0 0) as [->|]; cbn [negb]; [right; eauto|intros [= <- <-]; left; eauto]. Qed.

Lemma zero_cache_ok low : cache_ok (tables_of (sb_zero <| lower := low |>)).
Proof.
  split; [constructor|]; cbn; try done; try (by intros ? ? ?%elem_of_nil); try apply NoDup_nil_2; try (by intros ? ? ?%lookup_empty_Some).
  intros ino. rewrite lookup_empty. split; [by intros ?%elem_of_nil|by intros []].
Qed.

Lemma out_tiers_spec m : armed m -> mo_sysfs m = false -> placement_log (mo_sbi m) = None -> mo_tier_refs m = ntiers (mo_sbi m) ->
  released (out_tiers e m) /\ mo_tier_refs (out_tiers e m) = 0 /\ mo_reg (out_tiers e m) = mo_reg m.
Proof.
  intros Ha Hs Hl Hr. unfold out_tiers. set (m1 := m <| mo_tier_refs := _ |>).
  destruct (out_sbi_spec m1) as (R & [_ U _ _] & _); [exact Ha|exact Hs|exact Hl|]. pose proof (un_reg _ _ (proj1 (proj2 (out_sbi_spec m1 Ha Hs Hl)))) as Ur.
  split; [exact R|]. split; [rewrite U; cbn; lia|exact Ur].
Qed.

(** What the mount reports and leaves. *)
Definition outcome (ctx : smoothfs_fc_ctx) (m0 : mount) (err : Z) (m : mount) : Prop :=
  err = 0 /\ mounted ctx m0 m
  \/ err <> 0 /\ released m /\ nl_list (mo_reg m) = nl_list (mo_reg m0)
     /\ (mo_tier_refs m = 0 \/ fc_cache ctx = true /\ mo_tier_refs m = 1).

Context (Hi1 : ie_oid_insert (me_iget e) <> - EEXIST) (Hi2 : ie_oid_insert (re_iget (me_recovery e)) <> - EEXIST).

(** From the root inode on. *)
Lemma later_stages ctx m0 m err m' : configured ctx (mo_sbi m) -> cache_ok (mo_sbi m) -> inodes (mo_sbi m) = ∅ ->
  mo_index_work m = true -> rv_wb_ready (mo_st m) = true -> placement_log (mo_sbi m) = None -> mo_sysfs m = false ->
  mo_tier_refs m = ntiers (mo_sbi m) -> mo_reg m = mo_reg m0 ->
  mo_alloc m = true -> mo_cred m = true -> mo_srcu m = true -> mo_info m = true ->
  placement_wb_ready (mo_sbi m) = true -> lower_ino_map_ready (mo_sbi m) = true ->
  orelse (setup_root e m) (out_tiers e) (fun m =>
  orelse (setup_log e m) (out_tiers e) (fun m =>
  orelse (setup_publish e m) (out_tiers e) (fun m => (0, m)))) = (err, m') -> outcome ctx m0 err m'.
Proof.
  intros C K Hin Iw Wb Lg Sy Rf Rg Al Cr Sr In Pw Lr H.
  apply orelse_cases in H as [(m1 & Hroot & Hne & ->)|(m1 & Hroot & H)]; apply (root_spec ctx) in Hroot as ([U1 A1] & _ & _ & I1 & L1 & N1 & Z1); try done.
  { destruct (out_tiers_spec m1) as (R & T & G); [apply A1; by intros ?; congruence|by rewrite (un_sysfs _ _ U1)|congruence|rewrite (un_refs _ _ U1); congruence|].
    right. split; [done|]. split; [exact R|]. split; [by rewrite G, (un_reg _ _ U1), Rg|by left]. }
  destruct (Z1 eq_refl) as (K1 & R1 & C1 & Rt1 & In1 & Al1 & Cr1 & Sr1 & W1). clear Z1 A1.
  apply orelse_cases in H as [(m2 & Hlog & Hne & ->)|(m2 & Hlog & H)]; apply log_spec in Hlog as (U2 & I2 & Rt2 & N2 & L2 & Z2); try done; try congruence.
  { pose proof (un_sysfs _ _ U2). pose proof (un_sysfs _ _ U1). pose proof (un_refs _ _ U2). pose proof (un_refs _ _ U1).
    destruct (out_tiers_spec m2) as (R & T & G); [by intros ?; congruence|congruence|by apply L2|congruence|].
    right. split; [done|]. split; [exact R|]. split; [by rewrite G, (un_reg _ _ U2), (un_reg _ _ U1), Rg|by left]. }
  destruct (Z2 eq_refl) as (In2 & Al2 & Cr2 & Sr2 & tr & Ht & Hs). clear Z2 L2. pose proof Hs as [K2 C2 Lg2 Rs Rd Wb2 (si & Hi & Hp)]. cbn in *.
  assert (mo_sysfs m2 = false) as Sy2 by (rewrite (un_sysfs _ _ U2), (un_sysfs _ _ U1); done).
  assert (mo_tier_refs m2 = ntiers (mo_sbi m2)) as Rf2 by (rewrite (un_refs _ _ U2), (un_refs _ _ U1); congruence).
  assert (mo_reg m2 = mo_reg m0) as Rg2 by (rewrite (un_reg _ _ U2), (un_reg _ _ U1); done).
  apply orelse_cases in H as [(m3 & Hpub & Hne & ->)|(m3 & Hpub & H)]; apply publish_spec in Hpub as (T3 & I3 & Rt3 & Rf3 & N3 & Z3 & Y3); try done.
  { destruct (Z3 Hne) as (Sy3 & L3 & G3). destruct (out_tiers_spec m3) as (R & T & G); [by intros ?; congruence|done|done|congruence|].
    right. split; [done|]. split; [exact R|]. split; [by rewrite G, G3, Rg2|by left]. }
  destruct (Y3 eq_refl) as (B3 & Sy3 & G3 & H3 & Sr3 & In3 & Al3 & Cr3). injection H as <- <-. left. split; [done|].
  assert (config (mo_sbi m3) = config (mo_sbi m)) as C3 by (rewrite B3; change (config (mo_sbi m2) = config (mo_sbi m)); congruence).
  pose proof (config_fields _ _ C3) as (F1 & F2 & F3 & F4 & _ & _ & F5 & F6). pose proof (config_fields _ _ C1) as (D1 & D2 & D3 & D4 & _).
  constructor; rewrite ?T3; try done.
  - split_and!; congruence.
  - rewrite Rf3, Rf2. congruence.
  - by apply (configured_config ctx (mo_sbi m)).
  - rewrite B3. by apply (cache_ok_frame (mo_sbi m2)).
  - exists tr, si. split; [|rewrite B3; by split]. unfold root_tier, tier_at in *. rewrite F1, F2, F3, F4, <- D1, <- D2, <- D3, <- D4. exact Ht.
  - split_and!; [by rewrite B3|congruence|done|congruence].
  - by rewrite G3, Rg2.
  - rewrite B3, H3. done.
Qed.

(** C32. A mount that succeeds leaves a well-formed pool: between one and eight
    tiers (two or more in cache mode), tier i being what the i-th non-empty
    piece of the tiers= option leads to, on a supported filesystem and with one
    reference each, masks over exactly these tiers, consistent inode indices
    with the root inode on its tier, the log open and loaded with no move half
    done, every queue running, and the pool first in the registry. A mount that
    fails at whatever step gives back the tables, queues, log, registration and
    sysfs directory it had, and every reference to a tier root it had taken but
    for the one that cache mode with a single tier keeps. Assumed: errors of
    path lookup are not 0, and the table of object ids never reports an inserted
    id as existing. *)
Theorem mount_is_all_or_nothing ctx m0 err m :
  fresh m0 -> smoothfs_fill_super e ctx m0 = (err, m) ->
  outcome ctx m0 err m \/ err <> 0 /\ m = m0.
Proof.
  intros [(A1 & A2 & A3 & A4 & A5 & A6 & A7) Ar (B1 & B2 & B3 & B4)]. unfold smoothfs_fill_super.
  destruct (fc_pool ctx); [|intros [= <- <-]; by right]. destruct (fc_tiers ctx) eqn:Et; [|intros [= <- <-]; by right].
  destruct (me_kzalloc e); cbn [negb]; [|intros [= <- <-]; by right]. left.
  set (m1 := m0 <| mo_sbi := _ |> <| mo_alloc := true |> <| mo_cred := true |>) in *. revert H.
  intros H. apply orelse_cases in H as [(m2 & Htab & Hne & ->)|(m2 & Htab & H)]; apply tables_spec in Htab as ([U2 Ar2] & R2 & _ & L2 & Z2).
  { destruct (out_sbi_spec m2) as (R & [_ U _ _] & _); [apply Ar2; by intros ?|by rewrite (un_sysfs _ _ U2)|by rewrite L2|].
    right. split; [done|]. split; [exact R|]. split; [|left; rewrite U, (un_refs _ _ U2); exact Ar].
    pose proof (un_reg _ _ (proj1 (proj2 (out_sbi_spec m2 ltac:(apply Ar2; by intros ?) ltac:(by rewrite (un_sysfs _ _ U2)) ltac:(by rewrite L2))))) as ->.
    by rewrite (un_reg _ _ U2). }
  destruct (Z2 eq_refl) as (S2 & Sr2 & I2 & W2 & Al2 & Cr2 & _). clear Z2.
  apply orelse_cases in H as [(m3 & Hcfg & Hne & ->)|(m3 & Hcfg & H)];
    apply config_spec in Hcfg as (T3 & I3 & Sr3 & Sy3 & G3 & _ & R3 & _ & _ & Al3 & Cr3 & (Bc & Bl & Bp & Bw & Bi) & Z3).
  { assert (mo_sysfs m3 = false) as Hs by (rewrite Sy3, (un_sysfs _ _ U2); exact A5).
    assert (placement_log (mo_sbi m3) = None) as Hl by (rewrite Bp, L2; done).
    destruct (out_sbi_spec m3) as (R & [_ U Ug _] & _); [by intros ?; congruence|exact Hs|exact Hl|].
    right. split; [done|]. split; [exact R|]. split; [by rewrite Ug, G3, (un_reg _ _ U2)|]. rewrite U. destruct (Z.eqb_spec err 0); [done|].
    rewrite (un_refs _ _ U2) in Z3. cbn in Z3. rewrite Ar in Z3. exact Z3. }
  destruct Z3 as (C & In3 & Rf3). rewrite (un_refs _ _ U2) in Rf3. cbn in Rf3. rewrite Ar in Rf3.
  apply (later_stages ctx m0 m3); try done; try congruence.
  - apply (cache_ok_frame (mo_sbi m2)); [exact Bc|]. rewrite S2. apply zero_cache_ok.
  - destruct Bc as (_ & _ & _ & _ & -> & _). by rewrite S2.
  - by rewrite Bp, L2.
  - rewrite Sy3, (un_sysfs _ _ U2). exact A5.
  - rewrite G3, (un_reg _ _ U2). done.
  - by rewrite Al3, Al2.
  - by rewrite Cr3, Cr2.
  - by rewrite Bw, S2.
  - by rewrite Bi, S2.
Qed.
End MountProps.

(** ** A mount of two tiers in cache mode *)

Definition mt_env : mount_env := {|
  me_kzalloc := true; me_oid_map := 0; me_lower_map := 0; me_path_map := 0; me_srcu := 0; me_oid_wq := true; me_pl_wq := true;
  me_uuid_parse := fun _ => (- EINVAL, []); me_uuid_gen := replicate 16 3; me_xxh32 := some_hash;
  me_kern_path := demo_kern_path; me_tiers_mem := true; me_iget := calm_env; me_make_root := true;
  me_io := never_fails; me_replay_mem := true; me_range := never_fails; me_meta := ∅; me_listing := [];
  me_recovery := rp_env; me_scan := rp_scan; me_trees := fun _ => LNil; me_scan_mem := true;
  me_register := true; me_sysfs_root := true; me_kobject := 0; me_now := 5; me_addr := 4096 |}.
Definition mt_none : mount := {|
  mo_sbi := sb_zero <| lower := {[100 := rp_node 64 FT_DIR None; 110 := rp_node 64 FT_DIR None]} |>;
  mo_st := RState false [] [] false None false; mo_stages := ∅; mo_stats := smoothfs_zero_stats; mo_heat := HeatWork false None;
  mo_reg := NlWorld [] ∅; mo_disk := Some (encode_record 1 (rp_oid 3) (ms_code MS_CUTOVER_IN_PROGRESS) 0 1 5);
  mo_alloc := false; mo_cred := false; mo_srcu := false; mo_index_work := false; mo_sysfs := false; mo_tier_refs := 0;
  mo_root := false; mo_info := false |}.
Definition mt_ctx (tiers : string) : smoothfs_fc_ctx := FcCtx (Some "p"%string) None (Some tiers) None true.

Lemma mt_fresh : fresh mt_none.
Proof. by constructor. Qed.
Lemma mt_kern s err : me_kern_path mt_env s = Err err -> err <> 0.
Proof. apply demo_kern_path_errors. Qed.

Lemma mount_is_all_or_nothing_witness :
  exists m, smoothfs_fill_super mt_env (mt_ctx "/ssd:/hdd") mt_none = (0, m) /\ mounted mt_env (mt_ctx "/ssd:/hdd") mt_none m.
Proof.
  destruct (smoothfs_fill_super mt_env (mt_ctx "/ssd:/hdd") mt_none) as [err m] eqn:E.
  assert (fst (smoothfs_fill_super mt_env (mt_ctx "/ssd:/hdd") mt_none) = 0) as H0 by (vm_compute; reflexivity).
  rewrite E in H0. cbn [fst] in H0. subst err. exists m. split; [reflexivity|].
  destruct (mount_is_all_or_nothing mt_env mt_kern ltac:(discriminate) ltac:(discriminate) _ _ _ _ mt_fresh E) as [[[_ H]|[H _]]|[H _]];
    [exact H|destruct (H eq_refl)..].
Defined.

(** One tier in cache mode: refused, with the reference to it kept. *)
Example refused_mount_keeps_tier : let (err, m) := smoothfs_fill_super mt_env (mt_ctx "/ssd") mt_none in
  err = - EINVAL /\ mo_alloc m = false /\ mo_tier_refs m = 1.
Proof. vm_compute. by split. Qed.
