(* ===== verification/Unmount.v ===== *)
(** * What an unmount leaves: src/src/smoothfs/module.c and super.c

    [smoothfs_kill_sb] on a live pool: nothing stays busy when each pin flag
    stands for one reference, everything the mount took is given back, the staged
    ranges are drained with the bytes of every file unchanged, and the queued
    placement records reach the log. *)
From S2P Require Import Prelude Types Oid Tiers KernelIO RangeList RangeMeta Staging Drains Heat PlacementLog InodeMaps LowerFs Movement Netlink PathIndex Replay Namespace Lookup NsWorld Dir NamespaceInv Quiet Creation Removal Rehome Sync Mount MountInv.

(** A pool in use. *)
Record live (m : mount) : Prop := Live {
  lv_flags : mo_root m = true /\ mo_info m = true;
  lv_refs : mo_tier_refs m = ntiers (mo_sbi m);
  lv_cache : cache_ok (mo_sbi m);
  lv_armed : armed m;
  lv_queues : placement_wb_ready (mo_sbi m) = true /\ rv_wb_ready (mo_st m) = true;
  lv_log : is_Some (placement_log (mo_sbi m));
}.

(** ** Evicting every inode *)

Definition evict_ino (sbi : sb_info) (ino : Z) : sb_info :=
  match inodes sbi !! ino with Some si => smoothfs_evict_inode sbi si | None => sbi end.

Lemma evict_ino_spec sbi ino : cache_ok sbi -> let s := evict_ino sbi ino in
  cache_ok s /\ pool_rest s = pool_rest sbi /\ inodes s = delete ino (inodes sbi).
Proof.
  intros K. unfold evict_ino. destruct (inodes sbi !! ino) as [si|] eqn:Ei.
  - pose proof (ix_ino _ (ca_index _ K) _ _ Ei) as Hino. split; [by eapply cache_ok_evict|]. split; [apply evict_rest|].
    rewrite <- Hino in Ei. destruct (evict_shape sbi si (ca_index _ K) Ei) as (_ & _ & -> & _). by rewrite Hino.
  - split; [exact K|]. split; [done|]. by rewrite delete_id.
Qed.

Lemma evict_list_spec : forall l sbi, cache_ok sbi -> let s := foldl evict_ino sbi l in
  cache_ok s /\ pool_rest s = pool_rest sbi /\ forall i, inodes s !! i = if decide (i ∈ l) then None else inodes sbi !! i.
Proof.
  induction l as [|ino l IH]; intros sbi K; cbn [foldl]; [split_and!; try done; intros i; by rewrite decide_False by apply not_elem_of_nil|].
  destruct (evict_ino_spec sbi ino K) as (K1 & R1 & D1). destruct (IH _ K1) as (K2 & R2 & D2). split; [exact K2|]. split; [congruence|].
  intros i. rewrite D2, D1. destruct (decide (i ∈ l)); [rewrite decide_True; [done|by apply elem_of_cons; right]|].
  destruct (decide (i = ino)) as [->|Hne]; [rewrite lookup_delete_eq, decide_True; [done|by apply elem_of_cons; left]|].
  rewrite lookup_delete_ne by done. rewrite decide_False; [done|]. by intros [|]%elem_of_cons.
Qed.

(** ** Dropping the pins *)

Lemma drop_pins_lookup m ino : cache_ok (mo_sbi m) ->
  inodes (mo_sbi (drop_pins m)) !! ino = (fun si => si <| replay_pinned := false |>) <$> inodes (mo_sbi m) !! ino.
Proof.
  intros K. cbn. rewrite map_lookup_imap. destruct (inodes (mo_sbi m) !! ino) as [si|] eqn:Ei; cbn; [|done].
  rewrite bool_decide_eq_true_2; [done|]. apply (ix_list _ (ca_index _ K)). by rewrite Ei.
Qed.

Lemma drop_pins_cache m : cache_ok (mo_sbi m) -> cache_ok (mo_sbi (drop_pins m)).
Proof.
  intros K. pose proof K as [[R1 R2 H1 H2 H3 H4 H5 H6 H7] H8].
  assert (forall ino si, inodes (mo_sbi (drop_pins m)) !! ino = Some si ->
    exists s0, inodes (mo_sbi m) !! ino = Some s0 /\ si = s0 <| replay_pinned := false |>) as Hl.
  { intros ino si. rewrite drop_pins_lookup by done. intros (s0 & -> & ->)%fmap_Some. by exists s0. }
  assert (forall ino s0, inodes (mo_sbi m) !! ino = Some s0 -> inodes (mo_sbi (drop_pins m)) !! ino = Some (s0 <| replay_pinned := false |>)) as Hr
    by (intros ino s0 Hs; rewrite drop_pins_lookup, Hs; done).
  split; [constructor|]; try done.
  - intros ino si (s0 & Hs & ->)%Hl. exact (H1 _ _ Hs).
  - intros o ino Hin. destruct (H2 _ _ Hin) as (Hz & s0 & Hs & Ho). split; [done|]. eexists. split; [apply Hr, Hs|done].
  - intros p ino Hin. destruct (H4 _ _ Hin) as (s0 & Hs & Hp & Hh). eexists. split; [apply Hr, Hs|done].
  - intros ino. rewrite drop_pins_lookup by done. rewrite fmap_is_Some. apply H6.
  - intros ino si (s0 & Hs & ->)%Hl. exact (H8 _ _ Hs).
Qed.

(** Every reference of a cached inode is that of one of its pins. *)
Definition pins_counted (held : Z -> Z) (m : mount) : Prop :=
  forall ino, is_Some (inodes (mo_sbi m) !! ino) -> held ino = unmount_pins m ino.

Lemma nothing_held held m ino : cache_ok (mo_sbi m) -> pins_counted held m -> is_Some (inodes (mo_sbi m) !! ino) ->
  put_pins m held ino = 0.
Proof.
  intros K Hc Hi. unfold put_pins. rewrite bool_decide_eq_true_2 by (by apply (ix_list _ (ca_index _ K))). rewrite (Hc _ Hi). lia.
Qed.

(** The ranges that the mount and the drains keep are the same. *)
Definition stages_agree (files : Drains.pool) (m : mount) : Prop :=
  forall ino f, po_files files !! ino = Some f -> default rstage_init (mo_stages m !! ino) = pf_rs f.

(** A drain puts one reference for each pin it drops. *)
Lemma drain_keeps_counted ora now grab files sbi err after held m : stages_agree files m -> pins_counted held m ->
  smoothfs_cache_drain ora now grab (with_sb files sbi) = Some (err, after) -> pins_counted (drain_puts files after held) (drain_stages after m).
Proof.
  intros Ha Hc Hd ino Hi. unfold drain_puts. rewrite (Hc ino Hi).
  assert (is_Some (po_files after !! ino) <-> is_Some (po_files files !! ino)) as Hdom.
  { revert Hd. unfold smoothfs_cache_drain. case_goal; [by intros [= _ <-]|]. intros [_ H]%drain_pass_inodes. specialize (H ino).
    change (po_files (with_sb files sbi)) with (po_files files) in H. destruct (po_files after !! ino), (po_files files !! ino); naive_solver. }
  change (inodes (mo_sbi (drain_stages after m))) with (inodes (mo_sbi m)) in Hi. unfold unmount_pins, range_pin.
  change (mo_stages (drain_stages after m)) with ((pf_rs <$> po_files after) ∪ mo_stages m). change (mo_sbi (drain_stages after m)) with (mo_sbi m).
  rewrite lookup_union, lookup_fmap.
  destruct (po_files files !! ino) as [f|] eqn:Ef.
  - rewrite (Ha _ _ Ef). destruct Hdom as [_ [f' ->]]; [by eexists|]. cbn. destruct (mo_stages m !! ino); cbn; lia.
  - destruct (po_files after !! ino); [destruct Hdom as [H _]; destruct H as [? H]; [by eexists|discriminate H]|]. cbn. destruct (mo_stages m !! ino); cbn; lia.
Qed.

Lemma filter_all {A} (f : A -> bool) l : (forall x, x ∈ l -> f x = true) -> List.filter f l = l.
Proof. induction l as [|x l IH]; intros H; cbn; [done|]. rewrite H by (by left). f_equal. apply IH. intros y Hy. apply H. by right. Qed.
Lemma filter_none {A} (f : A -> bool) l : (forall x, x ∈ l -> f x = false) -> List.filter f l = [].
Proof. induction l as [|x l IH]; intros H; cbn; [done|]. rewrite H by (by left). apply IH. intros y Hy. apply H. by right. Qed.

(** The pins gone, every cached inode is evicted. *)
Lemma evict_all_spec held m m' busy : cache_ok (mo_sbi m) -> mo_info m = true -> pins_counted held m ->
  evict_all (put_pins m held) (drop_pins m) = (m', busy) ->
  busy = [] /\ inodes (mo_sbi m') = ∅ /\ inode_list (mo_sbi m') = [] /\ cache_ok (mo_sbi m') /\ pool_rest (mo_sbi m') = pool_rest (mo_sbi m)
  /\ m' = drop_pins m <| mo_sbi := mo_sbi m' |>.
Proof.
  intros K Hinfo Hheld. unfold evict_all. set (all := (map_to_list _).*1).
  assert (forall i, i ∈ all <-> is_Some (inodes (mo_sbi m) !! i)) as Hall.
  { intros i. unfold all. rewrite list_elem_of_fmap. split.
    - intros ((j & si) & -> & Hin). apply elem_of_map_to_list in Hin. rewrite drop_pins_lookup in Hin by done. cbn. by apply fmap_Some in Hin as (s0 & -> & _).
    - intros [si Hi]. exists (i, si <| replay_pinned := false |>). split; [done|]. apply elem_of_map_to_list. by rewrite drop_pins_lookup, Hi. }
  rewrite (filter_none (fun i => 0 <? put_pins m held i) all) by (intros i Hi; rewrite (nothing_held held m i K Hheld); [done|by apply Hall]).
  rewrite (filter_all _ all) by (intros i Hi; rewrite (nothing_held held m i K Hheld); [done|by apply Hall]).
  change (mo_info (drop_pins m)) with (mo_info m). rewrite Hinfo. intros [<- <-]%pair_equal_spec. split; [done|].
  destruct (evict_list_spec all _ (drop_pins_cache m K)) as (K' & R & D). cbv zeta in *. fold evict_ino. cbn [mo_sbi].
  set (s := foldl evict_ino _ all) in *. change (foldl (fun sbi ino => _) _ all) with s.
  assert (inodes s = ∅) as He.
  { apply map_eq. intros i. rewrite D, lookup_empty. destruct (decide (i ∈ all)) as [|Hn]; [done|]. rewrite drop_pins_lookup by done.
    destruct (inodes (mo_sbi m) !! i) eqn:Ei; [|done]. exfalso. apply Hn, Hall. by rewrite Ei. }
  split; [exact He|]. split; [|by split_and!].
  destruct (inode_list s) as [|i l] eqn:El; [done|]. pose proof (proj1 (ix_list _ (ca_index _ K') i)) as Hx.
  rewrite El, He, lookup_empty in Hx. destruct Hx as [? Hx]; [by left|done].
Qed.

(** ** Releasing the pool *)

Section Unmount.
Context (e : mount_env).

(** A log whose queue is written out by the close. *)
Definition log_holds (sbi : sb_info) (es ps : list log_entry) : Prop :=
  placement_log sbi = Some (log_bytes es) /\ placement_wb_pending sbi = map enc ps /\ Forall entry_ok ps.

Lemma close_disk m : placement_wb_ready (mo_sbi m) = true -> is_Some (placement_log (mo_sbi m)) -> let m' := placement_close e m in
  placement_wb_pending (mo_sbi m') = [] /\ same_cache (mo_sbi m) (mo_sbi m') /\ is_Some (mo_disk m')
  /\ forall es ps, log_holds (mo_sbi m) es ps -> smooth_run (me_io e) 64 -> mo_disk m' = Some (log_bytes (es ++ ps)).
Proof.
  intros Hr [lg Hl]. unfold placement_close, smoothfs_placement_close, smoothfs_placement_wb_drain, smoothfs_placement_wb_worker. rewrite Hl, Hr.
  cbn [negb]. cbn. rewrite Hl. destruct (wb_write_all _ _ lg _) as [k log] eqn:Ew. cbn. split_and!; try done.
  intros es ps (Hlog & Hp & Hok) Hs. rewrite Hl in Hlog. injection Hlog as ->. rewrite Hp in Ew.
  destruct (wb_write_all_smooth _ Hs ps 0 es Hok) as [k' Hk]. rewrite Hk in Ew. by injection Ew as _ <-.
Qed.

Lemma placement_wb_destroy_rest m : let m' := placement_wb_destroy e m in
  inodes (mo_sbi m') = inodes (mo_sbi m) /\ inode_list (mo_sbi m') = inode_list (mo_sbi m) /\ mo_disk m' = mo_disk m.
Proof.
  unfold placement_wb_destroy, smoothfs_placement_wb_destroy, smoothfs_placement_wb_worker. destruct (placement_wb_ready (mo_sbi m)); cbn [negb]; [|done].
  cbn. destruct (placement_log (mo_sbi m)); [|done]. by destruct (wb_write_all _ _ _ _).
Qed.

Lemma maps_destroy_rest sbi : inodes (maps_destroy sbi) = inodes sbi /\ inode_list (maps_destroy sbi) = inode_list sbi.
Proof.
  unfold maps_destroy, smoothfs_path_map_destroy, smoothfs_oid_map_destroy, smoothfs_lower_ino_map_destroy. by repeat case_goal.
Qed.

(** Releasing a live pool without cached inodes. *)
Lemma put_super_spec m : mo_info m = true -> armed m -> mo_tier_refs m = ntiers (mo_sbi m) ->
  placement_wb_ready (mo_sbi m) = true -> is_Some (placement_log (mo_sbi m)) ->
  let m' := smoothfs_put_super e m in
  released m' /\ mo_tier_refs m' = 0 /\ mo_root m' = mo_root m /\ hw_active (mo_heat m') = false
  /\ nl_list (mo_reg m') = list_del_first (me_addr e) (nl_list (mo_reg m))
  /\ inodes (mo_sbi m') = inodes (mo_sbi m) /\ inode_list (mo_sbi m') = inode_list (mo_sbi m)
  /\ is_Some (mo_disk m')
  /\ forall es ps, log_holds (mo_sbi m) es ps -> smooth_run (me_io e) 64 -> mo_disk m' = Some (log_bytes (es ++ ps)).
Proof.
  intros Hinfo Ha Hrefs Hw Hlog. unfold smoothfs_put_super. rewrite Hinfo. cbn [negb].
  destruct (index_destroy_spec m Ha) as ([_ P1 P2 _] & _ & I1 & R1 & B1 & D1). set (m1 := smoothfs_path_index_async_destroy m) in *. clearbody m1.
  set (m2 := _ <| mo_reg := smoothfs_sb_unregister _ _ |>).
  destruct (oid_wb_destroy_spec e m2) as (U3 & _ & I3 & R3 & C3 & L3 & W3 & A3 & E3 & D3).
  assert (inodes (mo_sbi (oid_wb_destroy e m2)) = inodes (mo_sbi m) /\ inode_list (mo_sbi (oid_wb_destroy e m2)) = inode_list (mo_sbi m)
    /\ placement_wb_pending (mo_sbi (oid_wb_destroy e m2)) = placement_wb_pending (mo_sbi m)) as (S3 & S3' & Q3).
  { rewrite <- B1. change (mo_sbi m1) with (mo_sbi m2). unfold oid_wb_destroy, smoothfs_oid_wb_destroy. cbn [oid_wb_ready].
    by destruct (rv_wb_ready (mo_st m2)). }
  set (m3 := oid_wb_destroy e m2) in *. apply config_fields in C3 as (N3 & _ & _ & _ & _ & _ & Wr3 & _).
  change (mo_sbi m2) with (mo_sbi m1) in *. rewrite B1 in *.
  destruct (close_spec e m3) as (U4 & T4 & I4 & _ & R4 & L4 & N4 & _).
  destruct (close_disk m3) as (Q4 & (_ & _ & _ & _ & S4 & S4') & K4 & F4); [congruence|by rewrite L3|]. set (m4 := placement_close e m3) in *.
  destruct (placement_wb_destroy_spec e m4) as (U5 & T5 & _ & I5 & R5 & W5 & N5 & L5).
  destruct (placement_wb_destroy_rest m4) as (S5 & S5' & K5). set (m5 := placement_wb_destroy e m4) in *.
  assert (untouched m2 m5) as [V1 V2 V3 V4] by (etransitivity; [exact U3|]; etransitivity; [exact U4|exact U5]).
  assert (forall m6, m6 = (if mo_srcu m5 then m5 <| mo_srcu := false |> else m5) -> mo_srcu m6 = false /\ mo_sbi m6 = mo_sbi m5 /\ mo_st m6 = mo_st m5
    /\ mo_index_work m6 = mo_index_work m5 /\ mo_sysfs m6 = mo_sysfs m5 /\ mo_tier_refs m6 = mo_tier_refs m5 /\ mo_root m6 = mo_root m5
    /\ mo_heat m6 = mo_heat m5 /\ mo_reg m6 = mo_reg m5 /\ mo_disk m6 = mo_disk m5) as Hsr by (intros ? ->; by destruct (mo_srcu m5) eqn:?).
  set (m6 := if mo_srcu m5 then _ else _). destruct (Hsr m6 eq_refl) as (X1 & X2 & X3 & X4 & X5 & X6 & X7 & X8 & X9 & X10). clearbody m6. clear Hsr.
  destruct (maps_destroyed (mo_sbi m6)) as (M1 & M2 & M3 & M4 & M5 & _). destruct (maps_destroy_rest (mo_sbi m6)) as (M6 & M7). rewrite X2 in *.
  split; [constructor; cbn; rewrite ?M4, ?M5, ?X2, ?X3, ?X4, ?X5|].
  - split_and!; try done; [rewrite I5, I4, I3; exact I1].
  - by split_and!.
  - split; [exact W5|]. by rewrite T5, T4.
  - by apply L5.
  - rewrite T5, T4, A3, E3, D3. split_and!; done.
  - cbn. rewrite ?X2, M6, M7, X6, X7, X8, X9, X10, S5, S5', S4, S4', K5, V2, V3, V4, R5, R4, R3. cbn. rewrite P1, P2, N5, N4, N3.
    split_and!; [lia|exact R1|done|done|exact S3|exact S3'|exact K4|].
    intros es ps (H1 & H2 & H3). apply F4. split_and!; congruence.
Qed.

(** C33. Unmounting a live pool, in which the references of a cached inode
    besides its dentries' are those its two pin flags stand for, ends and leaves
    no cached or busy inode and no tier root, table, log file, writeback queue,
    heat or index work or registration of the pool; every file's bytes are
    unchanged whatever the lower calls answer. In cache mode, when no call of
    the drain fails or moves no byte and every file has a lower file, no listed
    file that can be grabbed stays staged unless the drain of its source tier is
    off. When no write of the log fails or is cut short, the records still
    queued are appended to it before it is closed. Not covered: an inode with
    two references for one flag, which stays busy, and a grace-period callback
    left by a cutover whose wait timed out (see the findings for placement.c and
    super.c). *)
Theorem unmount_releases_everything ora grab files held m :
  live m -> Drains.pool_ok (with_sb files (mo_sbi m)) -> stages_agree files m -> pins_counted held m ->
  exists m' files', smoothfs_kill_sb e ora grab files held m = Some (m', [], files')
  /\ released m' /\ mo_tier_refs m' = 0 /\ mo_root m' = false /\ hw_active (mo_heat m') = false
  /\ inodes (mo_sbi m') = ∅ /\ inode_list (mo_sbi m') = []
  /\ nl_list (mo_reg m') = list_del_first (me_addr e) (nl_list (mo_reg m))
  /\ is_Some (mo_disk m')
  /\ (forall es ps, log_holds (mo_sbi m) es ps -> smooth_run (me_io e) 64 -> mo_disk m' = Some (log_bytes (es ++ ps)))
  /\ same_contents (with_sb files (mo_sbi m)) files'
  /\ (cache_mode (mo_sbi m) = true -> smooth_run ora 1 -> all_lower files ->
      forall ino f, ino ∈ po_list files -> grab ino = true -> po_files files' !! ino = Some f -> range_staged (pf_rs f) = true ->
      smoothfs_write_staging_drain_tier_active (mo_sbi m) (range_staged_source_tier (pf_rs f)) = false).
Proof.
  intros [[Hroot Hinfo] Hrefs K Ha [Hw _] Hlog] Hp Hst Hheld. unfold smoothfs_kill_sb. rewrite Hinfo. cbn [negb].
  destruct (index_destroy_spec m Ha) as ([_ P1 P2 _] & _ & I1 & R1 & B1 & D1).
  assert (mo_info (smoothfs_path_index_async_destroy m) = true /\ mo_stages (smoothfs_path_index_async_destroy m) = mo_stages m) as [Hinfo1 S1]
    by (unfold smoothfs_path_index_async_destroy; by destruct (mo_index_work m)).
  set (m1 := smoothfs_path_index_async_destroy m) in *. clearbody m1.
  set (m2 := m1 <| mo_heat := _ |>). change (mo_sbi m2) with (mo_sbi m1). rewrite B1.
  destruct (Sync.cache_drain_spec ora (me_now e) grab _ Hp) as (err & files' & Hd & _ & Hsame & _ & Hdone). rewrite Hd.
  assert (pins_counted (drain_puts files files' held) (drain_stages files' m2)) as Hheld2.
  { eapply drain_keeps_counted; [| |exact Hd].
    - intros ino f Hf. change (mo_stages m2) with (mo_stages m1). rewrite S1. by apply Hst.
    - intros ino. unfold unmount_pins. change (mo_stages m2) with (mo_stages m1). change (mo_sbi m2) with (mo_sbi m1). rewrite S1, B1. apply Hheld. }
  unfold generic_shutdown_super. set (m2' := drain_stages files' m2) in *. change (mo_root (drop_pins m2')) with (mo_root m1). rewrite R1, Hroot. cbn [negb].
  destruct (evict_all _ (drop_pins m2')) as [m3 busy] eqn:Ee.
  assert (cache_ok (mo_sbi m2')) as K2 by (change (mo_sbi m2') with (mo_sbi m1); by rewrite B1).
  destruct (evict_all_spec _ m2' m3 busy K2 Hinfo1 Hheld2 Ee) as (-> & E1 & E2 & _ & R & E3).
  change (mo_sbi m2') with (mo_sbi m1) in R. rewrite B1 in R. injection R as N3 L3 W3 Q3.
  set (m4 := m3 <| mo_root := false |>).
  assert (mo_info m4 = true /\ mo_index_work m4 = false /\ mo_tier_refs m4 = mo_tier_refs m /\ mo_reg m4 = mo_reg m /\ rv_scheduled (mo_st m4) = false)
    as (Z1 & Z2 & Z3 & Z4 & Z5) by (unfold m4; rewrite E3; by split_and!).
  destruct (put_super_spec m4) as (X1 & X2 & X3 & X4 & X5 & X6 & X7 & X8 & X9); [done|by intros _| | | |].
  - rewrite Z3. change (mo_sbi m4) with (mo_sbi m3). by rewrite N3.
  - change (mo_sbi m4) with (mo_sbi m3). by rewrite W3.
  - change (mo_sbi m4) with (mo_sbi m3). by rewrite L3.
  - exists (smoothfs_put_super e m4), files'. split; [done|]. rewrite X6, X7, Z4 in *. split_and!; try done.
    + intros es ps (H1 & H2 & H3). apply X9. change (mo_sbi m4) with (mo_sbi m3). split_and!; congruence.
    + intros Hc Hs Hal ino f Hin Hg Hf Hr. unfold smoothfs_cache_drain in Hd. cbn in Hd. rewrite Hc in Hd. cbn [negb] in Hd.
      apply (drain_pass_progress ora Hs) in Hd; [|exact Hp|exact Hal]. destruct (Hdone Hc Hd ino f Hin Hf Hr) as [|Hx]; [done|congruence].
Qed.
End Unmount.

(** What a mount leaves is such a pool, and the registry is as before. *)
Lemma mounted_live e ctx m0 m : mounted e ctx m0 m ->
  live m /\ list_del_first (me_addr e) (nl_list (mo_reg m)) = nl_list (mo_reg m0).
Proof.
  intros [(_ & _ & _ & F4 & F5 & F6) _ Rf _ K _ (L1 & L2 & L3 & _) _ Rg _]. split.
  - constructor; try done. intros H. by rewrite F4 in H.
  - rewrite Rg. cbn. by rewrite Z.eqb_refl.
Qed.

(** A pool in cache mode with a directory that a recovery pinned and a file with
    staged ranges, pinned too; its log has one record and its queue another. *)
Definition um_old : log_entry := LogEntry 1 (rp_oid 3) (ms_code MS_CUTOVER_IN_PROGRESS) 0 1 5.
Definition um_new : log_entry := LogEntry 2 (rp_oid 4) 0 1 1 9.
Definition um_sb (sbi : sb_info) : sb_info :=
  sbi <| placement_log := Some (log_bytes [um_old]) |> <| placement_wb_pending := map enc [um_new] |> <| placement_wb_ready := true |>
      <| cache_mode := true |> <| write_staging_drain_active_tier_mask := 3 |>.
Definition um_dir : Z := 9399012422322225152.
Definition um_ino : Z := 9471070016360153088.
Definition um_file : pfile := PFile (pf_si staged_file) (pf_rs staged_file <| range_staging_pinned := true |>) (pf_base staged_file) false 4 2.
Definition um_files : Drains.pool :=
  Drains.Pool (po_k two_files) stage_pool (po_st two_files) (po_dir two_files) [um_ino]
    {[um_ino := um_file]}.
Definition um_pool : mount := {|
  mo_sbi := um_sb (nw_sb spilled_world); mo_st := RState true [] [] true None true; mo_stages := {[um_ino := pf_rs um_file]}; mo_stats := smoothfs_zero_stats;
  mo_heat := HeatWork true None; mo_reg := NlWorld [4096] ∅; mo_disk := None; mo_alloc := true; mo_cred := true; mo_srcu := true;
  mo_index_work := true; mo_sysfs := true; mo_tier_refs := 2; mo_root := true; mo_info := true |}.
(** One reference for each pin. *)
Definition um_held (ino : Z) : Z := if (ino =? um_dir) || (ino =? um_ino) then 1 else 0.

Lemma um_cache sbi : cache_ok sbi -> cache_ok (um_sb sbi).
Proof. by apply cache_ok_frame. Qed.
Lemma um_live : live um_pool.
Proof. constructor; [by split|reflexivity|apply um_cache, spilled_cache_ok|done|by split|by eexists]. Qed.

Lemma focus_pin p q f b ws tier d : po_dir q = po_dir p -> world_ok (focus p f) ->
  world_ok (focus q (PFile (pf_si f) (pf_rs f <| range_staging_pinned := b |>) (pf_base f) ws tier d)).
Proof.
  intros Hd Hok. set (w' := focus q _). assert (stage_file w' = stage_file (focus p f)) as Es.
  { unfold stage_file. change (w_dir w') with (po_dir q). by rewrite Hd. }
  destruct Hok as [A1 A2 A3 A4 A5]. constructor; rewrite ?Es; assumption.
Qed.

Lemma um_files_ok : Drains.pool_ok um_files.
Proof.
  assert (forall ino f, po_files um_files !! ino = Some f -> ino = um_ino /\ f = um_file) as Hc.
  { intros ino f. change (po_files um_files) with ({[um_ino := um_file]} : gmap Z pfile).
    by intros [<- <-]%lookup_singleton_Some. }
  constructor.
  - intros ino f [-> ->]%Hc. destruct (pk_files _ two_files_ok 7 staged_file) as [Hw Ho]; [reflexivity|].
    split; [|exact Ho]. unfold um_file. apply (focus_pin two_files); [reflexivity|exact Hw].
  - intros i j f g [-> _]%Hc [-> _]%Hc. done.
Qed.

Lemma um_stages : stages_agree um_files um_pool.
Proof.
  intros ino f. change (po_files um_files) with ({[um_ino := um_file]} : gmap Z pfile).
  intros [<- <-]%lookup_singleton_Some. reflexivity.
Qed.

Lemma um_counted : pins_counted um_held um_pool.
Proof.
  assert (Forall (fun ino => um_held ino = unmount_pins um_pool ino) (inode_list (mo_sbi um_pool))) as H
    by (vm_compute; by repeat constructor).
  intros ino Hi. rewrite Forall_forall in H. apply H. by apply (ix_list _ (ca_index _ (lv_cache _ um_live))).
Qed.

Lemma um_lower : all_lower um_files.
Proof.
  intros ino f. change (po_files um_files) with ({[um_ino := um_file]} : gmap Z pfile).
  intros [<- <-]%lookup_singleton_Some. vm_compute. discriminate.
Qed.

Lemma unmount_releases_everything_witness :
  exists m' files', smoothfs_kill_sb mt_env no_faults (fun _ => true) um_files um_held um_pool = Some (m', [], files')
  /\ released m' /\ mo_tier_refs m' = 0 /\ nl_list (mo_reg m') = [] /\ mo_disk m' = Some (log_bytes [um_old; um_new])
  /\ (forall f, po_files files' !! um_ino = Some f -> range_staged (pf_rs f) = true ->
      smoothfs_write_staging_drain_tier_active (mo_sbi um_pool) (range_staged_source_tier (pf_rs f)) = false).
Proof.
  destruct (unmount_releases_everything mt_env no_faults (fun _ => true) um_files um_held um_pool um_live (pool_ok_with_sb _ _ um_files_ok) um_stages um_counted)
    as (m' & files' & Ek & R & T & _ & _ & _ & _ & G & _ & D & _ & F).
  exists m', files'. split; [exact Ek|]. split; [exact R|]. split; [exact T|]. split; [exact G|]. split.
  - apply (D [um_old] [um_new]); [|exact never_fails_smooth].
    split; [reflexivity|]. split; [reflexivity|]. constructor; [|constructor]. vm_compute. by split_and!.
  - intros f. apply (F eq_refl); [apply no_faults_smooth; discriminate|exact um_lower|by apply list_elem_of_singleton|reflexivity].
Defined.

(** The staged bytes are in the base file afterwards. *)
Example unmount_drains_the_file :
  (fun r => (fun f => (range_staged (pf_rs f), pf_base f)) <$> po_files r.2 !! um_ino)
    <$> smoothfs_kill_sb mt_env no_faults (fun _ => true) um_files um_held um_pool = Some (Some (false, [1; 2; 7; 8; 9])).
Proof. vm_compute. reflexivity. Qed.

(** A recovery that reached an inode already pinned took a second reference for
    the one flag: the unmount puts one and the inode stays busy. *)
Example doubly_pinned_inode_stays_busy :
  (fun r => r.1.2) <$> smoothfs_kill_sb mt_env no_faults (fun _ => true) um_files
    (fun ino => um_held ino + if ino =? um_dir then 1 else 0) um_pool = Some [um_dir].
Proof. vm_compute. reflexivity. Qed.

(** ** A mount that fails after the sidecars were replayed *)

(** The base tier has the file "g" of object [demo_oid], the fast tier a sidecar
    for it; the registration fails. *)
Definition fm_meta : meta_dir :=
  snd (smoothfs_range_staging_persist no_faults 0 {[ demo_stage_name := [1; 2; 3] ]} demo_oid 1 [SRange 0 3] 5).
Definition fm_env : mount_env := {|
  me_kzalloc := true; me_oid_map := 0; me_lower_map := 0; me_path_map := 0; me_srcu := 0; me_oid_wq := true; me_pl_wq := true;
  me_uuid_parse := fun _ => (- EINVAL, []); me_uuid_gen := replicate 16 3; me_xxh32 := some_hash;
  me_kern_path := demo_kern_path; me_tiers_mem := true; me_iget := calm_env; me_make_root := true;
  me_io := never_fails; me_replay_mem := true; me_range := no_faults; me_meta := fm_meta; me_listing := [demo_meta_name];
  me_recovery := RecoveryEnv calm_env (rp_names (fun _ => Ok (Path 11 4))) true true 5 0; me_scan := rp_scan;
  me_trees := fun t => if t =? 1 then LCons "g" (LLeaf 4) LNil else LNil; me_scan_mem := true;
  me_register := false; me_sysfs_root := true; me_kobject := 0; me_now := 5; me_addr := 4096 |}.
Definition fm_none : mount :=
  mt_none <| mo_sbi := sb_zero <| lower := {[100 := rp_node 64 FT_DIR None; 110 := rp_node 64 FT_DIR None;
                                              4 := rp_node 40 FT_REG (Some demo_oid)]} |> |> <| mo_disk := None |>.

(** The pool is released, but the replayed inode keeps its pins: the pool being
    gone, [smoothfs_kill_sb] does not drop them and the inode stays busy. *)
Example failed_mount_leaves_busy_inode :
  let (err, m) := smoothfs_fill_super fm_env (mt_ctx "/ssd:/hdd") fm_none in
  err = - ENOMEM /\ mo_info m = false
  /\ ((fun r => (length r.1.2, mo_alloc r.1.1)) <$> smoothfs_kill_sb fm_env no_faults (fun _ => true) two_files (unmount_pins m) m) = Some (1%nat, false).
Proof. vm_compute. by split_and!. Qed.
