(* ===== verification/Attrs.v ===== *)
(** * The pool's sysfs attributes as text: src/src/smoothfs/super.c

    What each attribute file prints, and how the four settings are read back
    from text.  The kernel's number formats and parsers that the attributes use
    are here: [sysfs_emit] with "%lld", "%u", "%d" and "0x%x", [kstrtobool] and
    [kstrtou32].  A write to the drain mask also runs the two drains of [Rehome]
    and [Drains]. *)
From Stdlib Require Import Ascii.
From S2P Require Import Prelude Types Oid Tiers KernelIO RangeList RangeMeta Staging Drains PlacementLog InodeMaps LowerFs Movement PathIndex Namespace Lookup NsWorld Dir Rehome Sync Mount MountInv.

(** ** Numbers as text *)

Definition digit_char (d : Z) : Ascii.ascii := Ascii.ascii_of_N (Z.to_N (if d <? 10 then 48 + d else 87 + d)).
Definition newline : Ascii.ascii := Ascii.ascii_of_N 10.

(** The value of a digit of any base up to 16. *)
Definition char_digit (c : Ascii.ascii) : option Z :=
  let k := Z.of_N (Ascii.N_of_ascii c) in
  if (48 <=? k) && (k <=? 57) then Some (k - 48)
  else if (97 <=? Z.lor k 32) && (Z.lor k 32 <=? 102) then Some (Z.lor k 32 - 87)
  else None.

(** Most significant digit first; 64 digits are enough for 64 bits. *)
Fixpoint to_digits (fuel : nat) (b n : Z) : list Z :=
  match fuel with
  | O => []
  | S fuel => if n <? b then [n] else to_digits fuel b (n / b) ++ [n mod b]
  end.
Definition digits_text (ds : list Z) : string := foldr (fun d s => String (digit_char d) s) EmptyString ds.
Definition print_u (b n : Z) : string := digits_text (to_digits 64 b n).

Definition line (s : string) : string := (s ++ String newline EmptyString)%string.

(** [_parse_integer]: the digits of base [b] at the front, and the rest. *)
Fixpoint span_digits (b : Z) (s : string) : list Z * string :=
  match s with
  | EmptyString => ([], EmptyString)
  | String c t => match char_digit c with
                  | Some d => if b <=? d then ([], s) else let (ds, r) := span_digits b t in (d :: ds, r)
                  | None => ([], s)
                  end
  end.
Definition digits_value (b : Z) (ds : list Z) : Z := foldl (fun a d => a * b + d) 0 ds.

Definition is_x (c : Ascii.ascii) : bool := Z.lor (Z.of_N (Ascii.N_of_ascii c)) 32 =? 120.
Definition is_xdigit (s : string) : bool := match s with String c _ => bool_decide (is_Some (char_digit c)) | EmptyString => false end.
(** [_parse_integer_fixup_radix] *)
Definition fixup_radix (s : string) (b : Z) : Z * string :=
  let b := if negb (b =? 0) then b
           else match s with
                | String "0"%char (String c t) => if is_x c && is_xdigit t then 16 else 8
                | String "0"%char EmptyString => 8
                | _ => 10
                end in
  match s with
  | String "0"%char (String c t) => if (b =? 16) && is_x c then (b, t) else (b, s)
  | _ => (b, s)
  end.

(** The value is exact here; the code sets an overflow flag at the digit where
    it would not fit. *)
Definition parse_number (b : Z) (s : string) : result Z :=
  let (ds, r) := span_digits b s in
  if 2 ^ 64 <=? digits_value b ds then Err (- ERANGE)
  else if bool_decide (ds = []) then Err (- EINVAL)
  else
    let r := match r with String c t => if Ascii.eqb c newline then t else r | EmptyString => r end in
    if str_empty r then Ok (digits_value b ds) else Err (- EINVAL).
Definition kstrtoull (s : string) (b : Z) : result Z :=
  let s := match s with String "+"%char t => t | _ => s end in
  let (b, s) := fixup_radix s b in parse_number b s.
Definition kstrtou32 (s : string) (b : Z) : result Z :=
  match kstrtoull s b with
  | Err e => Err e
  | Ok v => if 2 ^ 32 <=? v then Err (- ERANGE) else Ok v
  end.

(** As in the kernels from 6.8 on, which also take e and d, for enable and
    disable; the oldest supported kernel is 6.18. *)
Definition kstrtobool (s : string) : result bool :=
  match s with
  | String c t =>
      if bool_decide (c ∈ ["e"; "E"; "y"; "Y"; "t"; "T"; "1"]%char) then Ok true
      else if bool_decide (c ∈ ["d"; "D"; "n"; "N"; "f"; "F"; "0"]%char) then Ok false
      else if bool_decide (c ∈ ["o"; "O"]%char) then
        match t with
        | String d _ => if bool_decide (d ∈ ["n"; "N"]%char) then Ok true
                        else if bool_decide (d ∈ ["f"; "F"]%char) then Ok false else Err (- EINVAL)
        | EmptyString => Err (- EINVAL)
        end
      else Err (- EINVAL)
  | EmptyString => Err (- EINVAL)
  end.

(** ** The attributes *)



Definition mode_text (cache : bool) : string := if cache then "cache" else "tier".



(** ** Writing a setting *)

Inductive setting := S_enabled | S_full_pct | S_metadata_mask | S_drain_mask.
#[export] Instance setting_eq_dec : EqDecision setting.
Proof. solve_decision. Defined.

Definition count_of (text : string) : Z := Z.of_nat (String.length text).

(** The new settings; the count of bytes or an error.  For the drain mask this is
    the part of the handler before its drains. *)
Definition store_setting (k : setting) (text : string) (sbi : sb_info) : Z * sb_info :=
  match k with
  | S_enabled => write_staging_enabled_store sbi (kstrtobool text) (count_of text)
  | S_full_pct => write_staging_full_pct_store sbi (kstrtou32 text 10) (count_of text)
  | S_metadata_mask => metadata_active_tier_mask_store sbi (kstrtou32 text 0) (count_of text)
  | S_drain_mask => write_staging_drain_active_tier_mask_store_mask sbi (kstrtou32 text 0) (count_of text)
  end.

(** The pool of the trees and the one of the files are the same pool. *)
Definition set_rsb (sbi : sb_info) (w : rworld) : rworld :=
  w <| rw_ns := rw_ns w <| nw_pool := nw_pool (rw_ns w) <| p_sbi := sbi |> |> |>.
Definition at_sb (w : rworld) (p : Drains.pool) : Drains.pool :=
  Drains.Pool (po_k p) (rw_sb w) (rw_st w) (po_dir p) (po_list p) (po_files p).

Section DrainMask.
Context (e : ns_env) (ora : oracle) (grab : Z -> bool).

(** The whole handler of the drain mask: the mask, then both drains, whose
    errors are only reported.  [None]: a drain does not end. *)
Definition write_staging_drain_active_tier_mask_store (text : string) (w : rworld) (p : Drains.pool)
  : option (Z * rworld * Drains.pool) :=
  let (ret, sbi) := store_setting S_drain_mask text (rw_sb w) in
  if ret <? 0 then Some (ret, w, p)
  else
    let w := set_rsb sbi w in
    match smoothfs_write_staging_drain_rehomes e grab w with
    | None => None
    | Some (_, w) =>
        match smoothfs_write_staging_drain_ranges ora (ne_now e) grab (at_sb w p) with
        | None => None
        | Some (_, p) => Some (ret, w <| rw_st := po_st p |>, p)
        end
    end.

(** A write to one of the settings: the handler of the attribute. *)
Definition store (k : setting) (text : string) (w : rworld) (p : Drains.pool) : option (Z * rworld * Drains.pool) :=
  match k with
  | S_drain_mask => write_staging_drain_active_tier_mask_store text w p
  | _ => let (ret, sbi) := store_setting k text (rw_sb w) in let w := set_rsb sbi w in Some (ret, w, at_sb w p)
  end.
End DrainMask.

(** ** Mount options as shown *)

(** "%08x" of the 32-bit id. *)
Definition print_x8 (n : Z) : string :=
  let s := print_u 16 n in (digits_text (replicate (8 - String.length s) 0) ++ s)%string.
Definition smoothfs_show_options (pool_name : string) (sbi : sb_info) : string :=
  (",pool=" ++ pool_name ++ ",mode=" ++ mode_text (cache_mode sbi) ++ ",fsid=0x" ++ print_x8 (fsid sbi)
   ++ foldr (fun i s => ",tier" ++ print_u 10 i ++ "=present" ++ s) "" (tiers_from 0 (ntiers sbi)))%string.

(** ** Printing and parsing numbers *)


#[local] Arguments char_digit : simpl never.
#[local] Arguments digit_char : simpl never.













(** ** The settings *)

(** A mask over the tiers of the pool that has the fastest one. *)
Record mask_ok (n f m : Z) : Prop := MaskOk {
  mk_pos : 0 <= m;
  mk_tiers : forall t, 0 <= t -> Z.testbit m t = true -> t < n;
  mk_fastest : Z.testbit m f = true;
}.

Record settings_ok (sbi : sb_info) : Prop := SettingsOk {
  so_ntiers : 1 <= ntiers sbi <= SMOOTHFS_MAX_TIERS;
  so_fastest : 0 <= fastest_tier sbi < ntiers sbi;
  so_pct : 1 <= write_staging_full_pct sbi <= 100;
  so_metadata : mask_ok (ntiers sbi) (fastest_tier sbi) (metadata_active_tier_mask sbi);
  so_metadata_cache : cache_mode sbi = true -> metadata_active_tier_mask sbi = BIT (ntiers sbi) - 1;
  so_drain : mask_ok (ntiers sbi) (fastest_tier sbi) (write_staging_drain_active_tier_mask sbi);
  so_drain_cache : cache_mode sbi = true -> Z.testbit (write_staging_drain_active_tier_mask sbi) (ntiers sbi - 1) = true;
}.



(** What the stores make of any number. *)
Lemma stored_mask sbi x : 1 <= ntiers sbi <= SMOOTHFS_MAX_TIERS -> 0 <= fastest_tier sbi < ntiers sbi ->
  mask_ok (ntiers sbi) (fastest_tier sbi) (Z.lor (Z.land x (BIT (ntiers sbi) - 1)) (BIT (fastest_tier sbi))).
Proof.
  intros Hn Hf. unfold SMOOTHFS_MAX_TIERS in Hn. assert (BIT (ntiers sbi) - 1 = Z.ones (ntiers sbi)) as Ho by (unfold BIT, Z.ones; lia). constructor.
  - apply Z.lor_nonneg. split; [rewrite Ho, Z.land_ones by lia; apply Z.mod_pos_bound; apply Z.pow_pos_nonneg; lia|].
    unfold BIT. rewrite Z.shiftl_1_l. apply Z.pow_nonneg. lia.
  - intros t Ht. rewrite Z.lor_spec, Z.land_spec, mask_testbit, BIT_testbit by lia. intros [[_ ?%Z.ltb_lt]%andb_true_iff|?%Z.eqb_eq]%orb_true_iff; lia.
  - rewrite Z.lor_spec, BIT_testbit, Z.eqb_refl by lia. apply orb_true_r.
Qed.

Lemma full_mask sbi : 1 <= ntiers sbi <= SMOOTHFS_MAX_TIERS -> 0 <= fastest_tier sbi < ntiers sbi -> mask_ok (ntiers sbi) (fastest_tier sbi) (BIT (ntiers sbi) - 1).
Proof.
  intros Hn Hf. constructor.
  - unfold BIT. rewrite Z.shiftl_1_l. pose proof (Z.pow_pos_nonneg 2 (ntiers sbi)). lia.
  - intros t Ht. rewrite mask_testbit by lia. by intros ?%Z.ltb_lt.
  - rewrite mask_testbit by lia. apply Z.ltb_lt. lia.
Qed.


(** The members that the settings do not include. *)
Definition same_rest (sbi sbi' : sb_info) : Prop :=
  sbi' = sbi <| write_staging_enabled := write_staging_enabled sbi' |> <| write_staging_full_pct := write_staging_full_pct sbi' |>
             <| metadata_active_tier_mask := metadata_active_tier_mask sbi' |>
             <| write_staging_drain_active_tier_mask := write_staging_drain_active_tier_mask sbi' |>.
#[export] Instance same_rest_preorder : PreOrder same_rest.
Proof. split; [intros s; by destruct s|]. intros a b c H1 H2. unfold same_rest in *. rewrite H2, H1. reflexivity. Qed.




(** ** What the drains may do besides *)


(** Only lower names have gone, each the old copy of a file marked as rehomed. *)
Record copies_gone (w0 w : rworld) : Prop := CopiesGone {
  cg_thin : thinned (rw_ns w0) (rw_ns w);
  cg_staged : rw_staged w ⊆ rw_staged w0;
  cg_names : forall k x, lf_ent (nw_fs (rw_ns w0)) !! k = Some x -> lf_ent (nw_fs (rw_ns w)) !! k = None ->
    exists ino t si rel, rw_staged w0 !! ino = Some t /\ inodes (rw_sb w0) !! ino = Some si /\ rel_path si = Some rel
      /\ copy_at (rw_ns w0) t rel k;
}.


#[export] Instance copies_gone_preorder : PreOrder copies_gone.
Proof.
  split.
  - intros w. constructor; [apply thinned_refl|done|]. intros k x H1 H2. congruence.
  - intros w1 w2 w3 [A1 A2 A3] [B1 B2 B3]. constructor; [by eapply thinned_trans|by etransitivity|].
    intros k x H1 H3. destruct (lf_ent (nw_fs (rw_ns w2)) !! k) as [x'|] eqn:H2; [|by apply (A3 k x)].
    destruct (B3 _ _ H2 H3) as (ino & t & si & rel & C1 & C2 & C3 & C4).
    assert (inodes (rw_sb w2) = inodes (rw_sb w1)) as Ei by by apply (thinned_sb _ _ inodes A1). rewrite Ei in C2.
    exists ino, t, si, rel. split_and!; try done; [by eapply lookup_weaken|by eapply copy_at_thinned].
Qed.





Section Settings.
Context (e : ns_env) (ora : oracle) (grab : Z -> bool).





(** Writes to the settings, in order; [None]: one does not end. *)
Fixpoint write_settings (l : list (setting * string)) (w : rworld) (p : Drains.pool) : option (rworld * Drains.pool) :=
  match l with
  | [] => Some (w, p)
  | (k, text) :: l => match store e ora grab k text w p with None => None | Some (_, w, p) => write_settings l w p end
  end.

End Settings.

(** A mount sets valid settings. *)
Lemma mounted_settings e ctx sbi : configured e ctx sbi -> write_staging_full_pct sbi = 98 -> settings_ok sbi.
Proof.
  intros [A _ F _ _ C T M D] Hp.
  assert (0 <= fastest_tier sbi < ntiers sbi) as Hf by lia. constructor; try done; [lia|rewrite M; by apply full_mask|..]; rewrite D, <- C.
  - destruct (cache_mode sbi); [by apply full_mask|]. rewrite <- F. rewrite <- (Z.lor_0_l (BIT _)), <- (Z.land_0_l (BIT (ntiers sbi) - 1)). by apply stored_mask.
  - intros ->. rewrite mask_testbit by lia. apply Z.ltb_lt. lia.
Qed.

(** A pool of two tiers, three writes, the settings shown. *)
Definition at_pool : sb_info := ns_pool <| write_staging_full_pct := 98 |> <| metadata_active_tier_mask := 3 |> <| write_staging_drain_active_tier_mask := 1 |>.


(** Its trees, and a file with ranges staged from the second tier. *)
Definition at_world : rworld := RWorld (ns_world <| nw_pool := Pool at_pool true [] |>) ∅ (po_st two_files).
Definition at_files : Drains.pool := at_sb at_world two_files.
Definition at_writes : list (setting * string) := [(S_full_pct, line "200"); (S_full_pct, line "75"); (S_drain_mask, line "0xf2")]%string.


(** The bad percentage is refused, the other taken; the new mask drains the file. *)
Example settings_demo :
  (fun r => (write_staging_full_pct (rw_sb r.1), write_staging_drain_active_tier_mask (rw_sb r.1), pf_base <$> po_files r.2 !! 7))
    <$> write_settings (ns_env0 false) no_faults (fun _ => true) at_writes at_world at_files = Some (75, 3, Some [1; 2; 7; 8; 9]).
Proof. vm_compute. reflexivity. Qed.

Example show_options_demo :
  smoothfs_show_options "media" (at_pool <| fsid := 48879 |>) = ",pool=media,mode=tier,fsid=0x0000beef,tier0=present,tier1=present"%string.
Proof. vm_compute. reflexivity. Qed.
