(* ===== verification/Samba.v ===== *)
(** * The Samba VFS module: src/src/smoothfs/samba-vfs/vfs_smoothfs.c

    One smbd connection to a share on the pool.  The module is stacked on other
    modules: the [SMB_VFS_NEXT_*] calls are inputs, except those on extended
    attributes, which reach the kernel handlers of [Xattr].  [file_find_di_*] of
    smbd, which lists the open files with a file id, is a parameter. *)
From S2P Require Import Prelude Types Oid Tiers PlacementLog InodeMaps Movement Xattr.

Record file_id := FileId { fid_devid : Z; fid_inode : Z; fid_extid : Z }.
#[export] Instance file_id_eq_dec : EqDecision file_id.
Proof. solve_decision. Defined.
Record sstat := SStat { st_ex_dev : Z; st_ex_ino : Z; st_ex_reg : bool }.
(** An open file: its id, whether [oplock_type] is not [NO_OPLOCK], whether it has a lease. *)
Record files_struct := Fsp { fsp_nr : Z; fsp_fid : file_id; fsp_oplock : bool; fsp_lease : bool }.

Record smoothfs_connect_data := ConnectData {
  is_smoothfs : bool;
  fan_fd : Z;
  fan_fde : bool;
  fileid_head : list (Z * Z);        (** [smoothfs_fileid_entry]: inode number, generation *)
  stable_fileid : bool;
}.
#[export] Instance connect_data_eta : Eta smoothfs_connect_data := fun r =>
  ConnectData (is_smoothfs r) (fan_fd r) (fan_fde r) (fileid_head r) (stable_fileid r).

(** The process: its descriptors, open files, posted break messages, and the
    pool as the kernel has it. *)
Record smbd := Smbd {
  sm_data : option smoothfs_connect_data;
  sm_next : bool;                    (** the next module is connected *)
  sm_fds : gset Z;
  sm_fsps : list files_struct;
  sm_breaks : list Z;
  sm_fs : xworld;
}.
#[export] Instance smbd_eta : Eta smbd := fun r =>
  Smbd (sm_data r) (sm_next r) (sm_fds r) (sm_fsps r) (sm_breaks r) (sm_fs r).

(** ** Stable file ids *)

Fixpoint set_gen (ino g : Z) (l : list (Z * Z)) : option (list (Z * Z)) :=
  match l with
  | [] => None
  | (i, h) :: l => if i =? ino then Some ((i, g) :: l) else cons (i, h) <$> set_gen ino g l
  end.

Definition smoothfs_cache_fileid (alloc : bool) (d : smoothfs_connect_data) (blob : list Z) : smoothfs_connect_data :=
  let ino := le_combine (take 8 blob) in
  let g := le_combine (take 4 (drop 8 blob)) in
  match set_gen ino g (fileid_head d) with
  | Some l => d <| fileid_head := l |>
  | None => if negb alloc then d else d <| fileid_head := (ino, g) :: fileid_head d |>
  end.

Definition SMOOTHFS_FILEID_XATTR_LEN : Z := 12.

(** [ret]: what the next module answered; [sys]: how the [fgetxattr] call fails
    before it reaches the filesystem, as with EBADF on an O_PATH handle, 0 when it
    does not. *)
Definition smoothfs_fstat (ret sys fault : Z) (alloc : bool) (w : xworld) (fsdata : option Z) (ino : Z)
    (d : smoothfs_connect_data) : Z * smoothfs_connect_data :=
  if ret <? 0 then (ret, d)
  else if negb (is_smoothfs d) || negb (stable_fileid d) then (ret, d)
  else match (if sys <? 0 then Err sys
              else xattr_get fault X_trusted w fsdata ino "smoothfs.fileid" (Some SMOOTHFS_FILEID_XATTR_LEN)) with
       | Ok (n, blob) => (ret, if n =? SMOOTHFS_FILEID_XATTR_LEN then smoothfs_cache_fileid alloc d blob else d)
       | Err _ => (ret, d)
       end.

Fixpoint find_gen (ino : Z) (l : list (Z * Z)) : option Z :=
  match l with
  | [] => None
  | (i, g) :: l => if i =? ino then Some g else find_gen ino l
  end.

(** [key]: the id that the next module makes. *)
Definition smoothfs_file_id_create (d : option smoothfs_connect_data) (key : file_id) (st : sstat) : file_id :=
  match d with
  | None => key
  | Some d =>
      if negb (is_smoothfs d) || negb (stable_fileid d) then key
      else match find_gen (st_ex_ino st) (fileid_head d) with
           | Some g => FileId (fid_devid key) (fid_inode key) g
           | None => key
           end
  end.

(** ** Leases *)

Inductive leasetype := F_RDLCK | F_WRLCK | F_UNLCK.
#[export] Instance leasetype_eq_dec : EqDecision leasetype.
Proof. solve_decision. Defined.
Definition lease_value (t : leasetype) : option (list Z) := match t with F_UNLCK => None | _ => Some [1] end.

(** The pin follows the kernel lease; its errors are only logged. *)
Definition smoothfs_linux_setlease (ret fault : Z) (capable : bool) (fsdata : option Z) (ino : Z) (t : leasetype) (s : smbd) : Z * smbd :=
  if ret <? 0 then (ret, s)
  else match sm_data s with
       | None => (ret, s)
       | Some d =>
           if negb (is_smoothfs d) then (ret, s)
           else let (_, w) := xattr_set fault capable X_trusted (sm_fs s) fsdata ino "smoothfs.lease" (lease_value t) 0 in
                (ret, s <| sm_fs := w |>)
       end.

(** ** The watcher *)

(** An event: its descriptor, who caused it, what fstat of the descriptor says,
    and the object its name leads to when the link can be read. *)
Record fan_event := FanEvent {
  fe_fd : Z; fe_pid : Z; fe_stat : option sstat; fe_target : option (option Z * Z); fe_fault : Z; fe_capable : bool }.

Section Smbd.
Context (getpid : Z) (next_file_id : sstat -> file_id).
Context (file_find_di : list files_struct -> file_id -> list files_struct).

Definition holds_lease (f : files_struct) : bool := fsp_oplock f || fsp_lease f.

Definition smoothfs_fanotify_event (ev : fan_event) (s : smbd) : smbd :=
  if fe_fd ev <? 0 then s
  else if fe_pid ev =? getpid then s
  else match fe_stat ev with
       | None => s
       | Some st =>
           if negb (st_ex_reg st) then s
           else
             let fid := smoothfs_file_id_create (sm_data s) (next_file_id st) st in
             let hit := List.filter holds_lease (file_find_di (sm_fsps s) fid) in
             let s := s <| sm_breaks := sm_breaks s ++ map fsp_nr hit |> in
             match fe_target ev with
             | None => s
             | Some (fsdata, ino) =>
                 s <| sm_fs := snd (xattr_set (fe_fault ev) (fe_capable ev) X_trusted (sm_fs s) fsdata ino "smoothfs.lease" None 0) |>
             end
       end.

Definition handle_event (s : smbd) (ev : fan_event) : smbd :=
  let s := smoothfs_fanotify_event ev s in
  if 0 <=? fe_fd ev then s <| sm_fds := sm_fds s ∖ {[fe_fd ev]} |> else s.

(** The descriptors that a read of the queue opens. *)
Definition event_fds (evs : list fan_event) : gset Z := list_to_set (List.filter (fun fd => 0 <=? fd) (map fe_fd evs)).

(** [got]: the events of one read, which gives whole events only. *)
Definition smoothfs_fanotify_handler (got : result (list fan_event)) (s : smbd) : smbd :=
  match got with
  | Err _ => s
  | Ok evs => foldl handle_event (s <| sm_fds := sm_fds s ∪ event_fds evs |>) evs
  end.
End Smbd.

(** ** Connecting *)

Record conn_env := ConnEnv {
  cn_next : Z; cn_alloc : bool;
  cn_path : option string; cn_probe : result Z;      (** the share's path, [getxattr] of its file id *)
  cn_stable : bool; cn_watcher : bool;               (** the options "stable fileid" and "lease watcher" *)
  cn_init : Z; cn_getfl : Z; cn_setfl : Z; cn_mark : Z; cn_tevent : bool }.

Definition share_path (e : conn_env) : option string :=
  match cn_path e with Some p => if str_empty p then None else Some p | None => None end.

Definition smoothfs_probe_lower (e : conn_env) : bool :=
  match share_path e with
  | None => false
  | Some _ => match cn_probe e with Ok _ => true | Err _ => false end
  end.

Definition close_fan (d : smoothfs_connect_data) (fds : gset Z) : smoothfs_connect_data * gset Z :=
  (d <| fan_fd := -1 |>, fds ∖ {[fan_fd d]}).

Definition smoothfs_setup_fanotify (e : conn_env) (d : smoothfs_connect_data) (fds : gset Z) : smoothfs_connect_data * gset Z :=
  let d := d <| fan_fd := -1 |> <| fan_fde := false |> in
  if negb (is_smoothfs d) then (d, fds)
  else match share_path e with
       | None => (d, fds)
       | Some _ =>
           let d := d <| fan_fd := cn_init e |> in
           if fan_fd d <? 0 then (d, fds)
           else
             let fds := fds ∪ {[fan_fd d]} in
             if (cn_getfl e <? 0) || (cn_setfl e <? 0) then close_fan d fds
             else if cn_mark e <? 0 then close_fan d fds
             else
               let d := d <| fan_fde := cn_tevent e |> in
               if negb (fan_fde d) then close_fan d fds else (d, fds)
       end.

Definition smoothfs_connect_data_destructor (d : smoothfs_connect_data) (fds : gset Z) : smoothfs_connect_data * gset Z :=
  let d := if fan_fde d then d <| fan_fde := false |> else d in
  if 0 <=? fan_fd d then close_fan d fds else (d, fds).

Definition smoothfs_connect (e : conn_env) (s : smbd) : Z * smbd :=
  if cn_next e <? 0 then (cn_next e, s)
  else
    let s := s <| sm_next := true |> in
    if negb (cn_alloc e) then (-1, s <| sm_next := false |>)
    else
      let d := ConnectData (smoothfs_probe_lower e) 0 false [] (cn_stable e) in
      let (d, fds) := if cn_watcher e then smoothfs_setup_fanotify e d (sm_fds s) else (d <| fan_fd := -1 |>, sm_fds s) in
      (0, s <| sm_data := Some d |> <| sm_fds := fds |>).

(** The connection's memory, and with it the module's data, is freed. *)
Definition disconnect (s : smbd) : smbd :=
  match sm_data s with
  | None => s
  | Some d => s <| sm_data := None |> <| sm_fds := snd (smoothfs_connect_data_destructor d (sm_fds s)) |>
  end.

(** ** Leases: theorems *)

(** The lease attribute taken or released on a file with pin [p]. *)
Definition lease_pin (take : bool) (p : pin_state) : pin_state :=
  if take then (if pin_eqb p PIN_NONE then PIN_LEASE else p) else (if pin_eqb p PIN_LEASE then PIN_NONE else p).

Lemma pin_eqb_spec p q : reflect (p = q) (pin_eqb p q).
Proof. unfold pin_eqb. apply bool_decide_reflect. Qed.

Lemma lease_set_spec fault w fsd ino v flags b si : keyed (xw_sb w) -> inodes (xw_sb w) !! ino = Some si -> wanted v = Ok b ->
  let w' := snd (xattr_set fault true X_trusted w fsd ino "smoothfs.lease" v flags) in
  inodes (xw_sb w') = <[ino := si <| pin := lease_pin b (pin si) |>]> (inodes (xw_sb w))
  /\ pool_frame (xw_sb w') = pool_frame (xw_sb w) /\ keyed (xw_sb w').
Proof.
  intros K Hi Hv. pose proof (K _ _ Hi) as Hn. cbn [xattr_set]. unfold trusted_xattr_set.
  change (reserved "smoothfs.lease") with true. cbn [negb]. rewrite bool_decide_eq_false_2 by done. rewrite Hi, bool_decide_eq_true_2 by done.
  unfold toggle_pin, lease_pin. rewrite Hv.
  assert (forall p, inodes (put_inode (xw_sb w) (si <| pin := p |>)) = <[ino := si <| pin := p |>]> (inodes (xw_sb w))
    /\ keyed (put_inode (xw_sb w) (si <| pin := p |>))) as Hput.
  { intros p. cbn. rewrite Hn. split; [done|]. intros i s. cbn. intros [[<- <-]|[_ Hs]]%lookup_insert_Some; [done|by apply K]. }
  assert (inodes (xw_sb w) = <[ino := si <| pin := pin si |>]> (inodes (xw_sb w))) as Hsame by (by rewrite <- pin_same, insert_id).
  destruct b; [destruct (pin_eqb_spec (pin si) PIN_NONE)|destruct (pin_eqb_spec (pin si) PIN_LEASE)]; try case_goal; cbn [snd];
    (split; [first [exact Hsame|apply Hput]|]); (split; [done|]); first [exact K|apply Hput].
Qed.

(** The request reaches the pin. *)
Definition pinning (ret : Z) (capable : bool) (s : smbd) : Prop :=
  0 <= ret /\ capable = true /\ exists d, sm_data s = Some d /\ is_smoothfs d = true.

Lemma setlease_spec ret fault capable fsd ino t s ret' s' si :
  pinning ret capable s -> keyed (xw_sb (sm_fs s)) -> inodes (xw_sb (sm_fs s)) !! ino = Some si ->
  smoothfs_linux_setlease ret fault capable fsd ino t s = (ret', s') ->
  s' = s <| sm_fs := sm_fs s' |>
  /\ inodes (xw_sb (sm_fs s')) = <[ino := si <| pin := lease_pin (bool_decide (t <> F_UNLCK)) (pin si) |>]> (inodes (xw_sb (sm_fs s)))
  /\ pool_frame (xw_sb (sm_fs s')) = pool_frame (xw_sb (sm_fs s)) /\ keyed (xw_sb (sm_fs s')).
Proof.
  intros (Hr & -> & d & Hd & Hs) K Hi. unfold smoothfs_linux_setlease. destruct (Z.ltb_spec ret 0); [lia|]. rewrite Hd, Hs. cbn [negb].
  assert (wanted (lease_value t) = Ok (bool_decide (t <> F_UNLCK))) as Hw by (by destruct t).
  pose proof (lease_set_spec fault (sm_fs s) fsd ino (lease_value t) 0 _ si K Hi Hw) as H1.
  destruct (xattr_set _ _ _ _ _ _ _ _ _) as [err w]. intros [= _ <-]. by split.
Qed.

(** C38. When smbd takes a kernel lease on an open file of the pool, the module
    answers what the next module answered, the file has a pin afterwards, and
    until an attribute call releases that pin, whatever other attributes are
    set, every plan to move the file that is not forced is refused and changes
    no inode. *)
Theorem lease_keeps_file_in_place `{Recovery R} (rec : R) ret fault capable fsd ino t s ret' s' si l :
  pinning ret capable s -> t <> F_UNLCK -> keyed (xw_sb (sm_fs s)) -> inodes (xw_sb (sm_fs s)) !! ino = Some si ->
  smoothfs_lookup_oid (xw_sb (sm_fs s)) (oid si) = Some ino ->
  smoothfs_linux_setlease ret fault capable fsd ino t s = (ret', s') ->
  (forall x, x ∈ l -> ~ releases ino (lease_pin true (pin si)) x) ->
  let w := run_sets (sm_fs s') l in
  ret' = ret /\ inodes (xw_sb w) !! ino = Some (si <| pin := lease_pin true (pin si) |>)
  /\ forall alloc emit now tier seq,
       let '(err, m) := smoothfs_movement_plan alloc emit now (MWorld rec (xw_sb w)) (oid si) tier seq false in
       err <> 0 /\ inodes (mw_sb m) = inodes (xw_sb w).
Proof.
  intros Hp Ht K Hi Ho E Hl w. split.
  { revert E. unfold smoothfs_linux_setlease. repeat case_goal; try (destruct (xattr_set _ _ _ _ _ _ _ _ _)); by intros [= <- _]. }
  destruct (setlease_spec _ _ _ _ _ _ _ _ _ _ Hp K Hi E) as (_ & Hn & F & K1). rewrite bool_decide_eq_true_2 in Hn by done.
  set (si1 := si <| pin := lease_pin true (pin si) |>) in *.
  assert (inodes (xw_sb (sm_fs s')) !! ino = Some si1) as Hi1 by (by rewrite Hn, lookup_insert_eq).
  destruct (run_sets_spec l _ _ _ K1 Hi1) as (K2 & F2 & si2 & Hi2 & E2 & P2). fold w in K2, F2, Hi2.
  assert (pin si1 <> PIN_NONE) as Hpin by (cbn; destruct (pin_eqb_spec (pin si) PIN_NONE); done).
  destruct (P2 Hpin) as [Hq|(x & Hx & Hrel)%Exists_exists]; [|by apply Hl in Hrel]. rewrite E2, Hq, <- pin_same in Hi2.
  split; [exact Hi2|]. intros alloc emit now tier seq.
  assert (smoothfs_lookup_oid (xw_sb w) (oid si) = Some ino) as Ho2.
  { unfold smoothfs_lookup_oid in *. rewrite F in F2. unfold pool_frame in F2. injection F2 as E3 E4 _ _ _. by rewrite E3, E4. }
  pose proof (plan_spec alloc emit now (MWorld rec (xw_sb w)) (oid si) tier seq false ino si1 K2 Ho2 Hi2) as Hs.
  destruct (smoothfs_movement_plan _ _ _ _ _ _ _ _) as [err m]. destruct Hs as [H1 H2].
  assert (err <> 0) as He by (intros E0; apply H1 in E0 as (_ & _ & _ & _ & _ & [?|[? _]] & _); done).
  split; [exact He|]. destruct (Z.eqb_spec err 0); [done|exact H2].
Qed.

(** ** The watcher: theorems *)

Section Watcher.
Context (getpid : Z) (next_file_id : sstat -> file_id).
Context (file_find_di : list files_struct -> file_id -> list files_struct).
(** The open files with this id, and no others. *)
Context (find_di_spec : forall l fid f, f ∈ file_find_di l fid <-> f ∈ l /\ fsp_fid f = fid).

(** The file that an event is about, if it is one to act on: another process
    changed a regular file. *)
Definition event_id (d : option smoothfs_connect_data) (ev : fan_event) : option file_id :=
  if fe_fd ev <? 0 then None
  else if fe_pid ev =? getpid then None
  else match fe_stat ev with
       | Some st => if st_ex_reg st then Some (smoothfs_file_id_create d (next_file_id st) st) else None
       | None => None
       end.

(** A holder of a lease or oplock on the event's file. *)
Definition must_break (d : option smoothfs_connect_data) (fsps : list files_struct) (ev : fan_event) (nr : Z) : Prop :=
  exists f, event_id d ev = Some (fsp_fid f) /\ f ∈ fsps /\ holds_lease f = true /\ fsp_nr f = nr.

(** The event clears the lease of inode [ino]. *)
Definition clears (d : option smoothfs_connect_data) (ino : Z) (ev : fan_event) : Prop :=
  is_Some (event_id d ev) /\ fe_capable ev = true /\ exists fsd, fe_target ev = Some (fsd, ino).

(** The pins after the events [evs]. *)
Definition unpinned (d : option smoothfs_connect_data) (evs : list fan_event) (w w' : xworld) : Prop :=
  keyed (xw_sb w') /\ forall ino si, inodes (xw_sb w) !! ino = Some si ->
    exists si', inodes (xw_sb w') !! ino = Some si' /\ si' = si <| pin := pin si' |>
    /\ (pin si' = pin si \/ pin si = PIN_LEASE /\ pin si' = PIN_NONE /\ Exists (clears d ino) evs)
    /\ (Exists (clears d ino) evs -> pin si' <> PIN_LEASE).

Lemma unpinned_none d ev w : keyed (xw_sb w) -> (forall ino, ~ clears d ino ev) -> unpinned d [ev] w w.
Proof.
  intros K Hn. split; [exact K|]. intros ino si Hi. exists si. split; [done|]. split; [apply pin_same|]. split; [by left|].
  intros [H|H]%Exists_cons; [by apply Hn in H|by apply Exists_nil in H].
Qed.

Lemma remove_lease_spec d ev fsd ino fault w : keyed (xw_sb w) -> is_Some (event_id d ev) -> fe_target ev = Some (fsd, ino) ->
  unpinned d [ev] w (snd (xattr_set fault (fe_capable ev) X_trusted w fsd ino "smoothfs.lease" None 0)).
Proof.
  intros K He Ht. destruct (fe_capable ev) eqn:Ec.
  2:{ apply unpinned_none; [exact K|]. intros i (_ & H & _). by rewrite Ec in H. }
  destruct (inodes (xw_sb w) !! ino) as [s0|] eqn:Ei.
  - destruct (lease_set_spec fault w fsd ino None 0 false s0 K Ei eq_refl) as (Hn & _ & K'). split; [exact K'|]. intros i si Hi. rewrite Hn.
    destruct (decide (i = ino)) as [->|Hne].
    + rewrite Ei in Hi. injection Hi as ->. rewrite lookup_insert_eq. eexists. split; [done|]. split; [done|]. cbn.
      destruct (pin_eqb_spec (pin si) PIN_LEASE) as [E|E]; [|by split; [left|]]. split; [right|done]. split; [done|]. split; [done|]. left. split_and!; [done..|by exists fsd].
    + rewrite lookup_insert_ne by done. exists si. split; [done|]. split; [apply pin_same|]. split; [by left|].
      intros [(_ & _ & fsd' & H)|H]%Exists_cons; [|by apply Exists_nil in H]. rewrite Ht in H. by injection H as _ ->.
  - assert (pin_step (XSet fault true X_trusted fsd ino "smoothfs.lease" None 0) w
      (snd (xattr_set fault true X_trusted w fsd ino "smoothfs.lease" None 0))) as (_ & K' & Hs) by (by apply set_step).
    assert (inodes (xw_sb (snd (xattr_set fault true X_trusted w fsd ino "smoothfs.lease" None 0))) = inodes (xw_sb w)) as Hsame.
    { cbn [xattr_set]. unfold trusted_xattr_set. change (reserved "smoothfs.lease") with true. cbn [negb].
      rewrite bool_decide_eq_false_2 by done. rewrite Ei. destruct (generic_xattr_set _ _ _ _ _ _ _ _) as [err w'] eqn:E.
      apply generic_set_cases in E as [[-> _]|(dd & full & _ & _ & -> & _)]; [done|]. apply put_attr_inodes. }
    split; [exact K'|]. intros i si Hi. rewrite Hsame. exists si. split; [done|]. split; [apply pin_same|]. split; [by left|].
    intros [(_ & _ & fsd' & H)|H]%Exists_cons; [|by apply Exists_nil in H]. rewrite Ht in H. injection H as _ <-. congruence.
Qed.

Lemma unpinned_cons d ev evs w w1 w' : unpinned d [ev] w w1 -> unpinned d evs w1 w' -> unpinned d (ev :: evs) w w'.
Proof.
  intros [_ H1] [K H2]. split; [exact K|]. intros ino si Hi. destruct (H1 _ _ Hi) as (s1 & Hi1 & E1 & P1 & C1).
  destruct (H2 _ _ Hi1) as (s2 & Hi2 & E2 & P2 & C2). exists s2. split; [exact Hi2|]. split; [by rewrite E2, E1|].
  assert (forall P : fan_event -> Prop, Exists P [ev] -> Exists P (ev :: evs)) as Hup
    by (intros P [H|H]%Exists_cons; [by left|by apply Exists_nil in H]).
  split.
  - destruct P2 as [->|(A & B & C)]; [destruct P1 as [P1|(A & B & C)]; [by left|right; split_and!; by auto]|].
    destruct P1 as [P1|(_ & B' & _)]; [|congruence]. right. split; [congruence|]. split; [done|by right].
  - intros [H|H]%Exists_cons; [|by apply C2]. assert (pin s1 <> PIN_LEASE) by (apply C1; by left).
    destruct P2 as [->|(A & _)]; [done|congruence].
Qed.

(** One event. *)
Lemma event_spec ev s : keyed (xw_sb (sm_fs s)) -> let s' := smoothfs_fanotify_event getpid next_file_id file_find_di ev s in
  sm_data s' = sm_data s /\ sm_next s' = sm_next s /\ sm_fds s' = sm_fds s /\ sm_fsps s' = sm_fsps s
  /\ (exists posted, sm_breaks s' = sm_breaks s ++ posted /\ forall nr, nr ∈ posted <-> must_break (sm_data s) (sm_fsps s) ev nr)
  /\ unpinned (sm_data s) [ev] (sm_fs s) (sm_fs s').
Proof.
  intros K. cbv zeta.
  assert (event_id (sm_data s) ev = None -> let s' := s in
    sm_data s' = sm_data s /\ sm_next s' = sm_next s /\ sm_fds s' = sm_fds s /\ sm_fsps s' = sm_fsps s
    /\ (exists posted, sm_breaks s' = sm_breaks s ++ posted /\ forall nr, nr ∈ posted <-> must_break (sm_data s) (sm_fsps s) ev nr)
    /\ unpinned (sm_data s) [ev] (sm_fs s) (sm_fs s')) as Hno.
  { intros He. do 4 (split; [done|]). split.
    - exists []. rewrite app_nil_r. split; [done|]. intros nr. split; [by intros ?%elem_of_nil|]. intros (f & H & _). by rewrite He in H.
    - apply unpinned_none; [exact K|]. intros ino [[? H] _]. by rewrite He in H. }
  unfold smoothfs_fanotify_event. unfold event_id in Hno at 1. case_goal; [by apply Hno|]. case_goal; [by apply Hno|].
  destruct (fe_stat ev) as [st|] eqn:Es; [|by apply Hno]. destruct (st_ex_reg st) eqn:Er; cbn [negb]; [|by apply Hno]. clear Hno.
  assert (event_id (sm_data s) ev = Some (smoothfs_file_id_create (sm_data s) (next_file_id st) st)) as He
    by (unfold event_id; by rewrite E, E0, Es, Er).
  set (fid := smoothfs_file_id_create _ _ _) in *. set (hit := List.filter _ _).
  assert (forall nr, nr ∈ map fsp_nr hit <-> must_break (sm_data s) (sm_fsps s) ev nr) as Hb.
  { intros nr. rewrite list_elem_of_In, in_map_iff. unfold must_break. split.
    - intros (f & <- & Hin). apply filter_In in Hin as [Hin Hh]. apply list_elem_of_In, find_di_spec in Hin as [Hin Hf]. exists f. by rewrite Hf.
    - intros (f & Hf & Hin & Hh & <-). exists f. split; [done|]. apply filter_In. split; [|done]. apply list_elem_of_In, find_di_spec. split; [done|congruence]. }
  destruct (fe_target ev) as [[fsd ino]|] eqn:Et; (do 4 (split; [done|])); (split; [by exists (map fsp_nr hit)|]).
  - apply remove_lease_spec; [exact K|by rewrite He|done].
  - apply unpinned_none; [exact K|]. intros i (_ & _ & f & H). by rewrite Et in H.
Qed.

(** A batch of events. *)
Lemma events_spec : forall evs s, keyed (xw_sb (sm_fs s)) ->
  let s' := foldl (handle_event getpid next_file_id file_find_di) s evs in
  sm_fds s' = sm_fds s ∖ event_fds evs /\ sm_data s' = sm_data s /\ sm_fsps s' = sm_fsps s
  /\ (exists posted, sm_breaks s' = sm_breaks s ++ posted
        /\ forall nr, nr ∈ posted <-> Exists (fun ev => must_break (sm_data s) (sm_fsps s) ev nr) evs)
  /\ unpinned (sm_data s) evs (sm_fs s) (sm_fs s').
Proof.
  induction evs as [|ev evs IH]; intros s K; cbn [foldl].
  { split; [change (event_fds []) with (∅ : gset Z); by rewrite difference_empty_L|]. do 2 (split; [done|]). split.
    - exists []. rewrite app_nil_r. split; [done|]. intros nr. by rewrite elem_of_nil, Exists_nil.
    - split; [exact K|]. intros ino si Hi. exists si. split; [done|]. split; [apply pin_same|]. split; [by left|by intros ?%Exists_nil]. }
  destruct (event_spec ev s K) as (D1 & _ & F1 & P1 & (l1 & B1 & M1) & U1). set (s1 := smoothfs_fanotify_event _ _ _ ev s) in *.
  assert (exists s2, handle_event getpid next_file_id file_find_di s ev = s2 /\ sm_data s2 = sm_data s1 /\ sm_fsps s2 = sm_fsps s1
    /\ sm_breaks s2 = sm_breaks s1 /\ sm_fs s2 = sm_fs s1
    /\ sm_fds s2 = sm_fds s ∖ (if 0 <=? fe_fd ev then {[fe_fd ev]} else ∅)) as (s2 & -> & D2 & P2 & B2 & W2 & F2).
  { eexists. split; [reflexivity|]. unfold handle_event. fold s1. destruct (0 <=? fe_fd ev); cbn; rewrite F1; split_and!; try done. by rewrite difference_empty_L. }
  destruct (IH s2) as (F3 & D3 & P3 & (l3 & B3 & M3) & U3); [rewrite W2; apply U1|]. set (s' := foldl _ s2 evs) in *.
  rewrite D2, D1 in D3, M3, U3. rewrite P2, P1 in P3, M3. rewrite W2 in U3.
  split. { rewrite F3, F2. unfold event_fds. cbn [map List.filter]. rewrite difference_difference_l_L.
    destruct (0 <=? fe_fd ev); cbn [list_to_set]; [done|]. by rewrite union_empty_l_L. }
  split; [done|]. split; [done|]. split; [|by eapply unpinned_cons].
  exists (l1 ++ l3). split; [rewrite B3, B2, B1; by rewrite app_assoc|]. intros nr. by rewrite elem_of_app, Exists_cons, M1, M3.
Qed.

(** For a batch of change events the watcher posts a break to exactly the open
    files that hold an oplock or lease on a regular file that another process
    changed, clears the lease pin of the objects those events lead to and of no
    others, leaves every other pin alone, and closes every descriptor the read
    opened. *)
Theorem foreign_change_breaks_leases evs s :
  keyed (xw_sb (sm_fs s)) -> event_fds evs ## sm_fds s ->
  let s' := smoothfs_fanotify_handler getpid next_file_id file_find_di (Ok evs) s in
  sm_fds s' = sm_fds s /\ sm_data s' = sm_data s /\ sm_fsps s' = sm_fsps s
  /\ (exists posted, sm_breaks s' = sm_breaks s ++ posted
        /\ forall nr, nr ∈ posted <-> Exists (fun ev => must_break (sm_data s) (sm_fsps s) ev nr) evs)
  /\ unpinned (sm_data s) evs (sm_fs s) (sm_fs s').
Proof.
  intros K Hd s'. unfold s', smoothfs_fanotify_handler. clear s'. set (s0 := s <| sm_fds := _ |>).
  destruct (events_spec evs s0 K) as (F & D & P & B & U). split; [|by split_and!]. rewrite F. cbn.
  rewrite difference_union_distr_l_L, difference_diag_L, union_empty_r_L. by apply difference_disjoint_L.
Qed.
End Watcher.

(** ** File ids: theorems *)

Record fstat_call := FstatCall {
  fl_ret : Z; fl_sys : Z; fl_fault : Z; fl_alloc : bool; fl_fs : xworld; fl_fsdata : option Z; fl_ino : Z }.
Definition do_fstat (d : smoothfs_connect_data) (c : fstat_call) : smoothfs_connect_data :=
  snd (smoothfs_fstat (fl_ret c) (fl_sys c) (fl_fault c) (fl_alloc c) (fl_fs c) (fl_fsdata c) (fl_ino c) d).

(** The abstract cache: a map from inode numbers to generations. *)
Definition remember (m : gmap Z Z) (c : fstat_call) : gmap Z Z :=
  if (fl_ret c <? 0) || (fl_sys c <? 0) then m
  else match inodes (xw_sb (fl_fs c)) !! fl_ino c with
       | Some si => if fl_alloc c || bool_decide (is_Some (m !! i_ino si)) then <[i_ino si := gen si]> m else m
       | None => m
       end.

Record refines (d : smoothfs_connect_data) (m : gmap Z Z) : Prop := Refines {
  rf_once : NoDup (map fst (fileid_head d));
  rf_map : forall ino, find_gen ino (fileid_head d) = m !! ino;
}.

(** The open file's inode is cached, with numbers of their widths. *)
Definition call_ok (c : fstat_call) : Prop :=
  exists si, inodes (xw_sb (fl_fs c)) !! fl_ino c = Some si /\ 0 <= i_ino si < 2 ^ 64 /\ 0 <= gen si < 2 ^ 32.

Lemma find_gen_None ino l : find_gen ino l = None <-> ino ∉ map fst l.
Proof.
  induction l as [|[i g] l IH]; cbn; [split; [intros _; apply not_elem_of_nil|done]|]. rewrite not_elem_of_cons.
  destruct (Z.eqb_spec i ino) as [->|Hne]; [split; [done|by intros [? _]]|]. rewrite IH. split; [by split|by intros [_ ?]].
Qed.

Lemma set_gen_spec ino g l : match set_gen ino g l with
  | None => find_gen ino l = None
  | Some l' => is_Some (find_gen ino l) /\ map fst l' = map fst l
      /\ forall i, find_gen i l' = if i =? ino then Some g else find_gen i l
  end.
Proof.
  induction l as [|[i h] l IH]; cbn; [done|]. destruct (Z.eqb_spec i ino) as [->|Hne].
  - cbn. split; [done|]. split; [done|]. intros j. rewrite (Z.eqb_sym ino j). by destruct (j =? ino).
  - destruct (set_gen ino g l) as [l'|]; cbn; [|done]. destruct IH as (A & B & C). split; [done|]. split; [by rewrite B|].
    intros j. rewrite C. destruct (Z.eqb_spec i j) as [<-|]; [by destruct (Z.eqb_spec i ino)|done].
Qed.

Lemma cache_fileid_spec alloc d ino g m : refines d m -> 0 <= ino < 2 ^ 64 -> 0 <= g < 2 ^ 32 ->
  let d' := smoothfs_cache_fileid alloc d (le_split 8 ino ++ le_split 4 g) in
  refines d' (if alloc || bool_decide (is_Some (m !! ino)) then <[ino := g]> m else m)
  /\ is_smoothfs d' = is_smoothfs d /\ stable_fileid d' = stable_fileid d.
Proof.
  intros [Hn Hm] Hi Hg. unfold smoothfs_cache_fileid.
  rewrite take_app_length', drop_app_length' by (symmetry; apply length_le_split).
  rewrite firstn_all2 by (rewrite length_le_split; lia). rewrite !le_combine_split_id by done.
  pose proof (set_gen_spec ino g (fileid_head d)) as Hs. destruct (set_gen ino g (fileid_head d)) as [l'|].
  - destruct Hs as (A & B & C). rewrite Hm in A. rewrite (bool_decide_eq_true_2 _ A), orb_true_r. split; [|done].
    constructor; cbn; [by rewrite B|]. intros i. rewrite C, Hm. destruct (Z.eqb_spec i ino) as [->|]; [by rewrite lookup_insert_eq|by rewrite lookup_insert_ne].
  - rewrite Hm in Hs. rewrite Hs, bool_decide_eq_false_2 by (by intros []). rewrite orb_false_r. destruct alloc; cbn [negb]; [|done].
    split; [|done]. constructor; cbn.
    + constructor; [|exact Hn]. apply find_gen_None. by rewrite Hm.
    + intros i. rewrite Hm. destruct (Z.eqb_spec ino i) as [<-|]; [by rewrite lookup_insert_eq|by rewrite lookup_insert_ne].
Qed.

Lemma fstat_spec c d m : refines d m -> is_smoothfs d = true -> stable_fileid d = true -> call_ok c ->
  refines (do_fstat d c) (remember m c) /\ is_smoothfs (do_fstat d c) = true /\ stable_fileid (do_fstat d c) = true.
Proof.
  intros R H1 H2 (si & Hi & Hn & Hg). unfold do_fstat, smoothfs_fstat, remember. rewrite H1, H2, Hi. cbn [negb orb].
  destruct (fl_ret c <? 0); cbn [orb]; [done|]. destruct (fl_sys c <? 0); [done|].
  assert (xattr_get (fl_fault c) X_trusted (fl_fs c) (fl_fsdata c) (fl_ino c) "smoothfs.fileid" (Some SMOOTHFS_FILEID_XATTR_LEN)
    = Ok (12, le_split 8 (i_ino si) ++ le_split 4 (gen si))) as ->.
  { cbn [xattr_get]. unfold trusted_xattr_get. rewrite Hi. do 2 (rewrite bool_decide_eq_false_2 by done). cbn [andb].
    rewrite bool_decide_eq_true_2 by done. unfold give. by rewrite length_app, !length_le_split. }
  cbn [snd]. change (12 =? SMOOTHFS_FILEID_XATTR_LEN) with true.
  destruct (cache_fileid_spec (fl_alloc c) d _ _ m R Hn Hg) as (A & -> & ->). by split_and!.
Qed.

(** C39. Over any sequence of fstat calls the connection's list behaves as a map
    from inode numbers to generations, with one entry per inode: the file id
    made for an inode carries the generation that the last successful fstat of
    it read from the kernel, and the next module's value when there was none. *)
Theorem file_id_is_last_generation calls d m :
  refines d m -> is_smoothfs d = true -> stable_fileid d = true -> Forall call_ok calls ->
  let d' := foldl do_fstat d calls in
  let m' := foldl remember m calls in
  refines d' m' /\ forall key st, smoothfs_file_id_create (Some d') key st
    = FileId (fid_devid key) (fid_inode key) (default (fid_extid key) (m' !! st_ex_ino st)).
Proof.
  intros R H1 H2 Hc. assert (refines (foldl do_fstat d calls) (foldl remember m calls) /\ is_smoothfs (foldl do_fstat d calls) = true
    /\ stable_fileid (foldl do_fstat d calls) = true) as (R' & H1' & H2').
  { revert d m R H1 H2. induction Hc as [|c calls Hc _ IH]; intros d m R H1 H2; [done|]. cbn [foldl].
    destruct (fstat_spec c d m R H1 H2 Hc) as (A & B & C). by apply IH. }
  split; [exact R'|]. intros key st. unfold smoothfs_file_id_create. rewrite H1', H2'. cbn [negb orb]. rewrite (rf_map _ _ R').
  by destruct (foldl remember m calls !! st_ex_ino st), key.
Qed.

(** ** The connection's descriptor *)

Lemma connect_holds_one_descriptor e s ret s' : sm_data s = None -> cn_init e ∉ sm_fds s -> smoothfs_connect e s = (ret, s') ->
  (ret < 0 /\ sm_data s' = None /\ sm_fds s' = sm_fds s)
  \/ ret = 0 /\ exists d, sm_data s' = Some d /\ (fan_fde d = true <-> 0 <= fan_fd d)
      /\ (fan_fde d = true -> cn_watcher e = true /\ is_smoothfs d = true)
      /\ sm_fds s' = (if fan_fde d then sm_fds s ∪ {[fan_fd d]} else sm_fds s) /\ sm_fds (disconnect s') = sm_fds s.
Proof.
  intros Hd Hf. unfold smoothfs_connect. destruct (Z.ltb_spec (cn_next e) 0); [intros [= <- <-]; by left|].
  destruct (cn_alloc e); cbn [negb]; [|intros [= <- <-]; left; by split_and!].
  set (d0 := ConnectData _ _ _ _ _). destruct (if cn_watcher e then _ else _) as [d fds] eqn:Es. intros [= <- <-]. right. split; [done|].
  exists d. split; [done|]. cbn.
  assert ((sm_fds s ∪ {[cn_init e]}) ∖ {[cn_init e]} = sm_fds s) as Hdel
    by (rewrite difference_union_distr_l_L, difference_diag_L, union_empty_r_L; apply difference_disjoint_L; clear - Hf; set_solver).
  unfold disconnect, smoothfs_connect_data_destructor. cbn [sm_data sm_fds].
  destruct (cn_watcher e); [|injection Es as <- <-; by split_and!].
  unfold smoothfs_setup_fanotify, close_fan in Es. cbn in Es. destruct (smoothfs_probe_lower e); cbn in Es; [|injection Es as <- <-; by split_and!].
  destruct (share_path e); [|injection Es as <- <-; by split_and!].
  destruct (Z.ltb_spec (cn_init e) 0).
  { injection Es as <- <-. cbn. destruct (Z.leb_spec 0 (cn_init e)); [lia|]. split; [split; [done|lia]|by split_and!]. }
  destruct (_ || _); [injection Es as <- <-; cbn; by split_and!|]. destruct (cn_mark e <? 0); [injection Es as <- <-; cbn; by split_and!|].
  destruct (cn_tevent e); cbn in Es; injection Es as <- <-; cbn; [|by split_and!].
  destruct (Z.leb_spec 0 (cn_init e)); [|lia]. by split_and!.
Qed.

(** ** Examples *)

(** A connection to the pool of [Xattr]'s examples, whose inode 7 has
    generation 0, with two open files of which one has a lease. *)
Definition sm_conn : smoothfs_connect_data := ConnectData true 3 true [] true.
Definition sm_stat : sstat := SStat 1 7 true.
Definition sm_stock (st : sstat) : file_id := FileId (st_ex_dev st) (st_ex_ino st) 0.
Definition sm_find (l : list files_struct) (fid : file_id) : list files_struct := List.filter (fun f => bool_decide (fsp_fid f = fid)) l.
Definition sm_world : smbd :=
  Smbd (Some sm_conn) true {[3]} [Fsp 1 (FileId 1 7 0) false true; Fsp 2 (FileId 1 7 0) false false] [] xa_world.

Lemma sm_find_spec l fid f : f ∈ sm_find l fid <-> f ∈ l /\ fsp_fid f = fid.
Proof. unfold sm_find. by rewrite !list_elem_of_In, filter_In, bool_decide_eq_true. Qed.

Lemma lease_keeps_file_in_place_witness :
  exists s', smoothfs_linux_setlease 0 0 true None 7 F_WRLCK sm_world = (0, s')
  /\ fst (smoothfs_movement_plan true true 1 (MWorld tt (xw_sb (run_sets (sm_fs s') [set_lun 1; set_lun 0]))) mv_oid 1 9 false) <> 0.
Proof.
  destruct (smoothfs_linux_setlease 0 0 true None 7 F_WRLCK sm_world) as [ret s'] eqn:E. exists s'.
  destruct (lease_keeps_file_in_place tt 0 0 true None 7 F_WRLCK sm_world ret s' (mv_inode MS_PLACED) [set_lun 1; set_lun 0]) as (-> & _ & H).
  - split; [lia|]. split; [reflexivity|]. by exists sm_conn.
  - discriminate.
  - apply mv_pool_keyed.
  - vm_compute. reflexivity.
  - vm_compute. reflexivity.
  - exact E.
  - intros x Hx. rewrite !elem_of_cons in Hx. destruct Hx as [->|[->|Hx]]; [| |by apply not_elem_of_nil in Hx];
      intros (_ & _ & _ & _ & [[_ Hr]|[Hr _]]); vm_compute in Hr; discriminate Hr.
  - split; [reflexivity|]. specialize (H true true 1 1 9). change (oid (mv_inode MS_PLACED)) with mv_oid in H.
    destruct (smoothfs_movement_plan _ _ _ _ _ _ _ _) as [err m]. by destruct H.
Defined.

(** A write by process 50, and one by smbd itself, 60. *)
Definition sm_events : list fan_event :=
  [FanEvent 8 50 (Some sm_stat) (Some (None, 7)) 0 true; FanEvent 9 60 (Some sm_stat) (Some (None, 7)) 0 true].

Lemma foreign_change_breaks_leases_witness :
  let s' := smoothfs_fanotify_handler 60 sm_stock sm_find (Ok sm_events) sm_world in
  sm_fds s' = {[3]} /\ exists posted, sm_breaks s' = posted /\ 1 ∈ posted.
Proof.
  cbv zeta. destruct (foreign_change_breaks_leases 60 sm_stock sm_find sm_find_spec sm_events sm_world) as (H1 & _ & _ & (posted & H2 & H3) & _).
  - apply mv_pool_keyed.
  - unfold event_fds. cbn. set_solver.
  - split; [exact H1|]. exists posted. split; [exact H2|]. apply H3. left. exists (Fsp 1 (FileId 1 7 0) false true).
    split; [vm_compute; reflexivity|]. split; [left|]. by split.
Defined.

Definition sm_fstat (g : Z) : fstat_call :=
  FstatCall 0 0 0 true (XWorld (put_inode (mv_pool MS_PLACED) (mv_inode MS_PLACED <| gen := g |>)) ∅) None 7.

Lemma file_id_is_last_generation_witness :
  smoothfs_file_id_create (Some (foldl do_fstat sm_conn [sm_fstat 4; sm_fstat 5])) (sm_stock sm_stat) sm_stat = FileId 1 7 5.
Proof.
  destruct (file_id_is_last_generation [sm_fstat 4; sm_fstat 5] sm_conn ∅) as [_ H].
  - constructor; [apply NoDup_nil_2|]. intros ino. by rewrite lookup_empty.
  - reflexivity.
  - reflexivity.
  - repeat constructor; eexists; (split; [vm_compute; reflexivity|]); cbn; lia.
  - rewrite H. vm_compute. reflexivity.
Defined.

(** The pin is one flag: with two leases on a file the first release drops it. *)
Example one_release_drops_the_pin :
  let lease t s := snd (smoothfs_linux_setlease 0 0 true None 7 t s) in
  (pin <$> inodes (xw_sb (sm_fs (lease F_RDLCK (lease F_RDLCK sm_world)))) !! 7,
   pin <$> inodes (xw_sb (sm_fs (lease F_UNLCK (lease F_RDLCK (lease F_RDLCK sm_world))))) !! 7) = (Some PIN_LEASE, Some PIN_NONE).
Proof. vm_compute. reflexivity. Qed.
