(* ===== verification/Module.v ===== *)
(** * The module and the thin layers: src/src/smoothfs/module.c, acl.c, lock.c

    Loading and unloading the module, with its error labels; POSIX ACLs, which
    are the lower object's; [flock], which the lower file takes when it has the
    operation and the smoothfs file otherwise. *)
From S2P Require Import Prelude Types Oid Tiers PlacementLog InodeMaps Movement Xattr Mount.

(** ** Loading *)

(** What the module has registered with the kernel. *)
Record kmod := Kmod { km_inodecache : bool; km_netlink : bool; km_sysfs_root : bool; km_filesystem : bool }.
#[export] Instance kmod_eta : Eta kmod := fun r => Kmod (km_inodecache r) (km_netlink r) (km_sysfs_root r) (km_filesystem r).
Definition unloaded : kmod := Kmod false false false false.
Definition loaded : kmod := Kmod true true true true.

Definition smoothfs_init_inodecache (alloc : bool) (k : kmod) : Z * kmod :=
  if negb alloc then (- ENOMEM, k) else (0, k <| km_inodecache := true |>).
Definition smoothfs_destroy_inodecache (k : kmod) : kmod := k <| km_inodecache := false |>.
Definition smoothfs_netlink_init (err : Z) (k : kmod) : Z * kmod :=
  if negb (err =? 0) then (err, k) else (0, k <| km_netlink := true |>).
Definition smoothfs_netlink_exit (k : kmod) : kmod := k <| km_netlink := false |>.
Definition smoothfs_sysfs_init (alloc : bool) (k : kmod) : Z * kmod :=
  if negb alloc then (- ENOMEM, k) else (0, k <| km_sysfs_root := true |>).
Definition smoothfs_sysfs_exit (k : kmod) : kmod := if negb (km_sysfs_root k) then k else k <| km_sysfs_root := false |>.

(** [cache], [sysfs]: the allocations; [family], [fs]: what the registrations
    answer. *)
Definition smoothfs_init (cache : bool) (family : Z) (sysfs : bool) (fs : Z) (k : kmod) : Z * kmod :=
  let (err, k) := smoothfs_init_inodecache cache k in
  if negb (err =? 0) then (err, k)
  else
    let (err, k) := smoothfs_netlink_init family k in
    if negb (err =? 0) then (err, smoothfs_destroy_inodecache k)
    else
      let (err, k) := smoothfs_sysfs_init sysfs k in
      if negb (err =? 0) then (err, smoothfs_destroy_inodecache (smoothfs_netlink_exit k))
      else if negb (fs =? 0) then (fs, smoothfs_destroy_inodecache (smoothfs_netlink_exit (smoothfs_sysfs_exit k)))
      else (0, k <| km_filesystem := true |>).

Definition smoothfs_exit (k : kmod) : kmod :=
  smoothfs_destroy_inodecache (smoothfs_netlink_exit (smoothfs_sysfs_exit (k <| km_filesystem := false |>))).

(** Loading registers everything or nothing, and unloading takes it back. *)
Lemma load_is_all_or_nothing cache family sysfs fs err k : smoothfs_init cache family sysfs fs unloaded = (err, k) ->
  (err = 0 /\ k = loaded /\ smoothfs_exit k = unloaded) \/ (err <> 0 /\ k = unloaded).
Proof.
  unfold smoothfs_init, smoothfs_init_inodecache, smoothfs_netlink_init, smoothfs_sysfs_init.
  destruct cache; cbn; [|intros [= <- <-]; by right]. destruct (Z.eqb_spec family 0) as [->|Hf]; cbn.
  - destruct sysfs; cbn; [|intros [= <- <-]; by right]. destruct (Z.eqb_spec fs 0) as [->|]; cbn; intros [= <- <-]; [by left|by right].
  - destruct (Z.eqb_spec family 0); [done|]. intros [= <- <-]. by right.
Qed.

(** ** POSIX ACLs *)

(** The ACLs of the lower objects, by type; [aw_posix]: the lower filesystem has
    them. *)
Record aworld := AWorld { aw_x : xworld; aw_posix : bool; aw_acl : gmap (Z * Z) (list Z) }.

(** Both forms of the lookup, under RCU and not, read the lower inode's ACL. *)
Definition smoothfs_get_inode_acl (w : aworld) (ino type : Z) : option (list Z) :=
  if negb (aw_posix w) then None
  else match inodes (xw_sb (aw_x w)) !! ino ≫= lower_path with
       | Some p => aw_acl w !! (p_dentry p, type)
       | None => None
       end.

(** [fault]: the lower filesystem refuses; [mode]: the mode bits that the ACL
    leaves the lower object with; no ACL removes it. *)
Definition smoothfs_set_acl (fault mode : Z) (w : aworld) (fsdata : option Z) (ino type : Z) (acl : option (list Z)) : Z * aworld :=
  match xattr_lower (aw_x w) fsdata ino with
  | None => (- ESTALE, w)
  | Some d =>
      if fault <? 0 then (fault, w)
      else match lower (xw_sb (aw_x w)) !! d, inodes (xw_sb (aw_x w)) !! ino with
           | Some l, Some si =>
               let l := l <| l_perm := mode |> in
               let sbi := xw_sb (aw_x w) <| lower := <[d := l]> (lower (xw_sb (aw_x w))) |> in
               (0, AWorld (XWorld (put_inode sbi (smoothfs_copy_attrs si l)) (xw_attr (aw_x w))) (aw_posix w)
                     (partial_alter (fun _ => acl) (d, type) (aw_acl w)))
           | _, _ => (- ESTALE, w)
           end
  end.

(** What is set is what is read, of this object only, and the mode that the ACL
    gave the lower object is the one presented. *)
Lemma acl_roundtrip mode w fsd ino type acl w' si p : keyed (xw_sb (aw_x w)) -> aw_posix w = true ->
  inodes (xw_sb (aw_x w)) !! ino = Some si -> lower_path si = Some p -> xattr_lower (aw_x w) fsd ino = Some (p_dentry p) ->
  smoothfs_set_acl 0 mode w fsd ino type acl = (0, w') ->
  smoothfs_get_inode_acl w' ino type = acl
  /\ (forall d t, (d, t) <> (p_dentry p, type) -> aw_acl w' !! (d, t) = aw_acl w !! (d, t))
  /\ i_perm <$> inodes (xw_sb (aw_x w')) !! ino = Some mode.
Proof.
  intros K Hp Hi Hl Hd. unfold smoothfs_set_acl. rewrite Hd, Hi. cbn [Z.ltb Z.compare]. destruct (lower (xw_sb (aw_x w)) !! p_dentry p) as [l|]; [|done].
  intros [= <-]. pose proof (K _ _ Hi) as Hn. unfold smoothfs_get_inode_acl. cbn. rewrite Hp, Hn, lookup_insert_eq. cbn. rewrite Hl. cbn.
  split; [by rewrite lookup_partial_alter_eq|]. split; [|done]. intros d t Hne. by rewrite lookup_partial_alter_ne.
Qed.

(** ** flock *)

(** [lower]: the lower file or why there is none; [op]: the lower file's own
    operation, if it has one; [local]: what the kernel's lock table answers for
    the smoothfs file. *)
Definition smoothfs_flock (lower : result Z) (op : option (Z -> Z)) (local : Z) : Z :=
  match lower with
  | Err e => e
  | Ok f => match op with Some g => g f | None => local end
  end.
