(* ===== verification/KernelObjects.v ===== *)
(** * Locks, references and credentials of a running call

    The lower filesystems are called through the kernel's VFS, whose functions
    want the directory locked, return references that the caller must put, and
    check permissions against the credentials of the task.  This file has the
    state of one call that matters for that discipline, the primitives that
    change it, a weakest precondition for calls, and the interface of the VFS
    functions that smoothfs uses.

    [kstate] holds what the running call holds: the inodes whose lock it took,
    the references it has still to put (a multiset), the task's credentials, the
    [struct qstr]s it can reach by address, the lower dentries stored in
    [d_fsdata], and the state of the lower filesystems, which is left abstract.
    A call that would lock an inode twice, release a lock it does not hold, put
    a reference it does not own or follow a NULL inode yields [None].

    The VFS functions are the operations of the class [Vfs]; [VfsLaws] says what
    the kernel documents of their effect on the call's locks and references, for
    the interface of 6.18 and for the one of 6.19, whose functions have the suffix
    [_619].  [Toy] is an instance with its laws. *)
From stdpp Require Export gmultiset.
From S2P Require Import Prelude.
Set Warnings "-clear-no-such-hyp".

(** Counted objects: dentries, vfsmounts and inodes. *)
Inductive obj := Dent (d : Z) | Mnt (m : Z) | Ino (i : Z).
#[export] Instance obj_eq_dec : EqDecision obj.
Proof. solve_decision. Defined.
#[export] Instance obj_countable : Countable obj.
Proof.
  refine (inj_countable' (fun o => match o with Dent d => (0, d) | Mnt d => (1, d) | Ino d => (2, d) end)
    (fun p => if p.1 =? 0 then Dent p.2 else if p.1 =? 1 then Mnt p.2 else Ino p.2) _).
  by intros [].
Defined.

(** [struct qstr]: a name, its length and the hash the dcache files it under. *)
Record qstr := Qstr { q_name : string; q_len : Z; q_hash : Z }.
#[export] Instance eta_qstr : Eta qstr := fun r => Qstr (q_name r) (q_len r) (q_hash r).

(** [QSTR_INIT(n, strlen(n))]: the hash starts as 0. *)
Definition QSTR_INIT (n : string) : qstr := Qstr n (Z.of_nat (String.length n)) 0.

Record kstate (W : Type) := KState {
  k_locks : gset Z;
  k_refs : gmultiset obj;
  k_cred : Z;
  k_mem : gmap Z qstr;
  k_fsdata : gmap Z Z;
  k_fs : W
}.
Arguments KState {W} _ _ _ _ _ _.
Arguments k_locks {W} _.
Arguments k_refs {W} _.
Arguments k_cred {W} _.
Arguments k_mem {W} _.
Arguments k_fsdata {W} _.
Arguments k_fs {W} _.
#[export] Instance eta_kstate W : Eta (kstate W) := fun r =>
  KState (k_locks r) (k_refs r) (k_cred r) (k_mem r) (k_fsdata r) (k_fs r).

(** Calls: [None] is a kernel fault, which no caller can handle. *)
Definition K (W A : Type) : Type := kstate W -> option (A * kstate W).
#[export] Instance K_ret W : MRet (K W) := fun A a s => Some (a, s).
#[export] Instance K_bind W : MBind (K W) := fun A B k m s =>
  match m s with Some (a, s') => k a s' | None => None end.

Section Primitives.
Context {W : Type}.
Implicit Types (s : kstate W).

Definition fault {A} : K W A := fun _ => None.
Definition fs_get : K W W := fun s => Some (k_fs s, s).

Definition inode_lock (i : Z) : K W unit := fun s =>
  if decide (i ∈ k_locks s) then None else Some (tt, s <| k_locks := {[i]} ∪ k_locks s |>).
Definition inode_unlock (i : Z) : K W unit := fun s =>
  if decide (i ∈ k_locks s) then Some (tt, s <| k_locks := k_locks s ∖ {[i]} |>) else None.

(** [dget]/[dput], [mntget]/[mntput] and [iput]. *)
Definition get_ref (o : obj) : K W unit := fun s => Some (tt, s <| k_refs := k_refs s ⊎ {[+ o +]} |>).
Definition put_ref (o : obj) : K W unit := fun s =>
  if decide (o ∈ k_refs s) then Some (tt, s <| k_refs := k_refs s ∖ {[+ o +]} |>) else None.
Definition dget (d : Z) : K W unit := get_ref (Dent d).
Definition dput (d : Z) : K W unit := put_ref (Dent d).
(** [dput(NULL)] does nothing. *)
Definition dput_opt (d : option Z) : K W unit := match d with Some d => dput d | None => mret tt end.

(** [path_get] and [path_put] of a path that may be all zero. *)
Definition path_get (p : Z * Z) : K W unit := get_ref (Mnt p.1) ;; dget p.2.
Definition path_put (p : option (Z * Z)) : K W unit :=
  match p with Some (m, d) => dput d ;; put_ref (Mnt m) | None => mret tt end.

(** The task's credentials. *)
Definition override_creds (c : Z) : K W Z := fun s => Some (k_cred s, s <| k_cred := c |>).
Definition revert_creds (c : Z) : K W unit := fun s => Some (tt, s <| k_cred := c |>).

(** Reading a [struct qstr], and a local one that lives as long as [body]. *)
Definition load (a : Z) : K W qstr := fun s =>
  match k_mem s !! a with Some q => Some (q, s) | None => None end.
Definition with_local {A} (q : qstr) (body : Z -> K W A) : K W A := fun s =>
  let a := fresh (dom (k_mem s)) in
  match body a (s <| k_mem := <[a := q]> (k_mem s) |>) with
  | Some (r, s') => Some (r, s' <| k_mem := delete a (k_mem s') |>)
  | None => None
  end.

(** ** Weakest preconditions: the call returns, and its result satisfies [Q]. *)
Definition wp {A} (m : K W A) (Q : A -> kstate W -> Prop) (s : kstate W) : Prop :=
  match m s with Some (a, s') => Q a s' | None => False end.

Lemma wp_mono {A} (m : K W A) Q Q' s : wp m Q s -> (forall a s', Q a s' -> Q' a s') -> wp m Q' s.
Proof. unfold wp. destruct (m s) as [[a s']|]; auto. Qed.

Lemma wp_ret {A} (a : A) (Q : A -> kstate W -> Prop) s : Q a s -> wp (mret a) Q s.
Proof. done. Qed.

Lemma wp_bind {A B} (m : K W A) (k : A -> K W B) Q s :
  wp m (fun a s' => wp (k a) Q s') s -> wp (m ≫= k) Q s.
Proof. unfold wp, mbind, K_bind. by destruct (m s) as [[a s']|]. Qed.

(** The usual way to use a law: weaken what it promises to what is needed. *)
Lemma wp_bind_law {A B} (m : K W A) (k : A -> K W B) P Q s :
  wp m P s -> (forall a s', P a s' -> wp (k a) Q s') -> wp (m ≫= k) Q s.
Proof. intros H HQ. apply wp_bind. eapply wp_mono; eauto. Qed.

Lemma wp_fs (Q : W -> kstate W -> Prop) s : Q (k_fs s) s -> wp fs_get Q s.
Proof. done. Qed.
Lemma wp_lock i (Q : unit -> kstate W -> Prop) s :
  i ∉ k_locks s -> Q tt (s <| k_locks := {[i]} ∪ k_locks s |>) -> wp (inode_lock i) Q s.
Proof. unfold wp, inode_lock. intros. by rewrite decide_False. Qed.
Lemma wp_unlock i (Q : unit -> kstate W -> Prop) s :
  i ∈ k_locks s -> Q tt (s <| k_locks := k_locks s ∖ {[i]} |>) -> wp (inode_unlock i) Q s.
Proof. unfold wp, inode_unlock. intros. by rewrite decide_True. Qed.
Lemma wp_get o (Q : unit -> kstate W -> Prop) s :
  Q tt (s <| k_refs := k_refs s ⊎ {[+ o +]} |>) -> wp (get_ref o) Q s.
Proof. done. Qed.
Lemma wp_put o (Q : unit -> kstate W -> Prop) s :
  o ∈ k_refs s -> Q tt (s <| k_refs := k_refs s ∖ {[+ o +]} |>) -> wp (put_ref o) Q s.
Proof. unfold wp, put_ref. intros. by rewrite decide_True. Qed.
Lemma wp_load a q (Q : qstr -> kstate W -> Prop) s : k_mem s !! a = Some q -> Q q s -> wp (load a) Q s.
Proof. unfold wp, load. by intros ->. Qed.

(** A local is at an address of its own and is gone afterwards. *)
Lemma wp_local {A} q (body : Z -> K W A) Q s :
  (forall a, k_mem s !! a = None ->
    wp (body a) (fun r s' => Q r (s' <| k_mem := delete a (k_mem s') |>)) (s <| k_mem := <[a := q]> (k_mem s) |>)) ->
  wp (with_local q body) Q s.
Proof.
  intros H. unfold wp, with_local. specialize (H (fresh (dom (k_mem s)))).
  assert (k_mem s !! fresh (dom (k_mem s)) = None) as Hf by apply not_elem_of_dom, is_fresh.
  specialize (H Hf). unfold wp in H. by destruct (body _ _) as [[r s']|].
Qed.

(** ** What a call leaves behind *)

(** Nothing of the call itself changed: same locks, references, credentials,
    names and [d_fsdata]. *)
Definition same (s s' : kstate W) : Prop :=
  k_locks s' = k_locks s /\ k_refs s' = k_refs s /\ k_cred s' = k_cred s /\ k_mem s' = k_mem s
  /\ k_fsdata s' = k_fsdata s.
End Primitives.

Arguments wp : simpl never.
Arguments path_put : simpl never.
Arguments path_get : simpl never.
Arguments gmultiset_disj_union : simpl never.
Arguments gmultiset_difference : simpl never.

#[export] Instance same_preorder W : PreOrder (@same W).
Proof. split; unfold same; [done|]. intros s1 s2 s3 (-> & -> & -> & -> & ->) H. exact H. Qed.

(** Memory agrees except at the addresses in [l]. *)
Definition scribbled (l : list Z) (m m' : gmap Z qstr) : Prop := forall x, x ∉ l -> m' !! x = m !! x.

Lemma scribbled_local a q m m' : m !! a = None -> scribbled [a] (<[a := q]> m) m' -> delete a m' = m.
Proof.
  intros Ha H. apply map_eq. intros x. destruct (decide (x = a)) as [->|Hx].
  - by rewrite lookup_delete_eq.
  - rewrite lookup_delete_ne by done. rewrite H by by rewrite list_elem_of_singleton. by rewrite lookup_insert_ne.
Qed.

Lemma scribbled_local_2 a b q m m' :
  m !! b = None -> scribbled [a; b] (<[b := q]> m) m' -> scribbled [a] m (delete b m').
Proof.
  intros Hb H x Hx. destruct (decide (x = b)) as [->|Hxb].
  - by rewrite lookup_delete_eq.
  - rewrite lookup_delete_ne by done. rewrite H by (rewrite list_elem_of_singleton in Hx; rewrite elem_of_cons, list_elem_of_singleton; tauto).
    by rewrite lookup_insert_ne.
Qed.

(** [struct renamedata]; the source fills it with [memset] first. *)
Record renamedata := Renamedata {
  rd_mnt_idmap : Z;
  rd_old_parent : option Z;
  rd_old_dentry : option Z;
  rd_new_parent : option Z;
  rd_new_dentry : option Z;
  rd_flags : Z
}.
#[export] Instance eta_renamedata : Eta renamedata := fun r =>
  Renamedata (rd_mnt_idmap r) (rd_old_parent r) (rd_old_dentry r) (rd_new_parent r) (rd_new_dentry r) (rd_flags r).
Definition rd_zero : renamedata := Renamedata 0 None None None None 0.

(** ** The VFS functions smoothfs calls *)

Class Vfs (W : Type) := {
  d_inode : W -> Z -> option Z;
  d_parent : W -> Z -> Z;
  d_unhashed : W -> Z -> bool;
  d_is_dir : W -> Z -> bool;
  d_is_reg : W -> Z -> bool;
  (** A tier or the lower path of a cached smoothfs inode refers to the dentry. *)
  d_pinned : W -> Z -> bool;
  d_sb : W -> Z -> Z;
  (** [&dentry->d_name]: the address of the name inside a dentry. *)
  d_name : Z -> Z;
  i_nlink : W -> Z -> Z;
  lookup_one : Z -> Z -> Z -> K W (result Z);
  vfs_create : Z -> Z -> Z -> Z -> bool -> K W Z;
  vfs_create_619 : Z -> Z -> Z -> K W Z;
  vfs_mkdir : Z -> Z -> Z -> Z -> K W (result (option Z));
  vfs_mkdir_619 : Z -> Z -> Z -> Z -> K W (result (option Z));
  vfs_mknod : Z -> Z -> Z -> Z -> Z -> K W Z;
  vfs_mknod_619 : Z -> Z -> Z -> Z -> Z -> K W Z;
  vfs_symlink : Z -> Z -> Z -> string -> K W Z;
  vfs_symlink_619 : Z -> Z -> Z -> string -> K W Z;
  vfs_rmdir : Z -> Z -> Z -> K W Z;
  vfs_rmdir_619 : Z -> Z -> Z -> K W Z;
  vfs_unlink : Z -> Z -> Z -> K W Z;
  vfs_link : Z -> Z -> Z -> Z -> K W Z;
  vfs_rename : renamedata -> K W Z;
  lock_rename : Z -> Z -> K W (result (option Z));
  lock_rename_child : Z -> Z -> K W (result (option Z));
  unlock_rename : Z -> Z -> K W unit;
  start_renaming : renamedata -> Z -> Z -> Z -> K W (Z * renamedata);
  start_renaming_dentry : renamedata -> Z -> Z -> Z -> K W (Z * renamedata);
  start_renaming_two_dentries : renamedata -> Z -> Z -> K W (Z * renamedata);
  end_renaming : renamedata -> K W unit
}.

Definition d_really_is_negative {W} `{Vfs W} (w : W) (d : Z) : bool :=
  match d_inode w d with None => true | Some _ => false end.

(** What smoothfs refers to, by a tier or by a cached inode, stays referred to and
    keeps its inode: the dcache takes the inode of a dentry only from its last user. *)
Definition pins {W} {V : Vfs W} (w w' : W) : Prop := forall d, d_pinned w d = true ->
  d_pinned w' d = true /\ forall i, d_inode w d = Some i -> d_inode w' d = Some i.
#[export] Instance pins_preorder W (V : Vfs W) : PreOrder (@pins W V).
Proof.
  split; [done|]. intros w1 w2 w3 H1 H2 d Hd. destruct (H1 d Hd) as [Hd2 Hi2]. destruct (H2 d Hd2) as [Hd3 Hi3].
  split; [done|]. intros i Hi. by apply Hi3, Hi2.
Qed.

(** Nothing was removed or moved: a dentry that has an inode keeps it and its parent. *)
Definition grows {W} {V : Vfs W} (w w' : W) : Prop := forall d i, d_inode w d = Some i ->
  d_inode w' d = Some i /\ d_parent w' d = d_parent w d.
#[export] Instance grows_preorder W (V : Vfs W) : PreOrder (@grows W V).
Proof.
  split; [done|]. intros w1 w2 w3 H1 H2 d i Hd. destruct (H1 _ _ Hd) as [A B]. destruct (H2 _ _ A) as [C D].
  split; [done|congruence].
Qed.

Section Laws.
Context {W : Type} {V : Vfs W}.
Implicit Types (s : kstate W).

(** A VFS function leaves the task and the smoothfs dentries and inodes alone,
    and a directory that the call has locked stays where it is. *)
Definition calm_fs (s s' : kstate W) : Prop :=
  k_cred s' = k_cred s /\ k_fsdata s' = k_fsdata s
  /\ (forall d i, d_inode (k_fs s) d = Some i -> i ∈ k_locks s -> d_inode (k_fs s') d = Some i)
  /\ pins (k_fs s) (k_fs s').

(** An operation in a directory that the caller has locked: it changes nothing
    that the caller holds. *)
Definition in_locked_dir {A} (dir : Z) (m : K W A) : Prop := forall s, dir ∈ k_locks s ->
  wp m (fun _ s' => calm_fs s s' /\ same s s') s.

(** [vfs_mkdir] consumes the dentry when it fails or replaces it; the one of
    6.19 also unlocks the directory when it fails. *)
Definition mkdir_law (unlocks : bool) (dir d : Z) (m : K W (result (option Z))) : Prop := forall s,
  dir ∈ k_locks s -> Dent d ∈ k_refs s ->
  wp m (fun r s' => calm_fs s s' /\ k_mem s' = k_mem s /\
    match r with
    | Err _ => k_refs s' = k_refs s ∖ {[+ Dent d +]}
               /\ k_locks s' = if unlocks then k_locks s ∖ {[dir]} else k_locks s
    | Ok o => k_locks s' = k_locks s /\ k_refs s' = k_refs s ∖ {[+ Dent d +]} ⊎ {[+ Dent (default d o) +]}
    end) s.

(** Locking the two parents [p] and [q] of a rename, whose inodes are [ip] and [iq]. *)
Definition lock_law (p q : Z) (m : K W (result (option Z))) : Prop := forall s ip iq,
  d_inode (k_fs s) p = Some ip -> d_inode (k_fs s) q = Some iq -> ip ∉ k_locks s -> iq ∉ k_locks s ->
  wp m (fun r s' => calm_fs s s' /\ k_refs s' = k_refs s /\ k_mem s' = k_mem s
    /\ d_inode (k_fs s') p = Some ip /\ d_inode (k_fs s') q = Some iq
    /\ match r with Ok _ => k_locks s' = {[ip; iq]} ∪ k_locks s | Err e => k_locks s' = k_locks s /\ e < 0 end) s.

(** Starting a rename on 6.19: both parents locked and three references taken,
    or nothing. *)
Definition start_law (p q : Z) (scratch : list Z) (rd : renamedata) (s : kstate W) (m : K W (Z * renamedata)) : Prop :=
  forall ip iq, d_inode (k_fs s) p = Some ip -> d_inode (k_fs s) q = Some iq -> ip ∉ k_locks s -> iq ∉ k_locks s ->
  wp m (fun '(err, rd') s' => calm_fs s s' /\ scribbled scratch (k_mem s) (k_mem s')
    /\ d_inode (k_fs s') p = Some ip /\ d_inode (k_fs s') q = Some iq
    /\ (err = 0 -> exists od nd,
         rd' = rd <| rd_old_parent := Some p |> <| rd_old_dentry := Some od |> <| rd_new_dentry := Some nd |>
         /\ k_locks s' = {[ip; iq]} ∪ k_locks s /\ k_refs s' = k_refs s ⊎ {[+ Dent od; Dent nd; Dent p +]})
    /\ (err <> 0 -> k_locks s' = k_locks s /\ k_refs s' = k_refs s)) s.

Class VfsLaws : Prop := {
  (** A directory has an inode. *)
  is_dir_law : forall w d, d_is_dir w d = true -> is_Some (d_inode w d);
  (** [lookup_one] wants the directory locked, overwrites the hash of the name
      it is given, and returns a reference to an entry of the directory. *)
  lookup_one_law : forall idmap a p i s, d_inode (k_fs s) p = Some i -> i ∈ k_locks s -> is_Some (k_mem s !! a) ->
    wp (lookup_one idmap a p) (fun r s' => calm_fs s s' /\ k_locks s' = k_locks s
      /\ scribbled [a] (k_mem s) (k_mem s')
      /\ (forall d j, d_inode (k_fs s) (d_parent (k_fs s) d) = Some j -> j ∈ k_locks s ->
            d_parent (k_fs s') d = d_parent (k_fs s) d)
      /\ match r with
         | Ok d => k_refs s' = k_refs s ⊎ {[+ Dent d +]} /\ d_parent (k_fs s') d = p
         | Err e => k_refs s' = k_refs s /\ e < 0
         end) s;
  (** Lookups and mkdirs remove and move nothing. *)
  lookup_grows_law : forall idmap a p s r s', lookup_one idmap a p s = Some (r, s') -> grows (k_fs s) (k_fs s');
  mkdir_grows_law : forall idmap dir d mode s r s', vfs_mkdir idmap dir d mode s = Some (r, s') -> grows (k_fs s) (k_fs s');
  mkdir_619_grows_law : forall idmap dir d mode s r s', vfs_mkdir_619 idmap dir d mode s = Some (r, s') ->
    grows (k_fs s) (k_fs s');
  create_law : forall idmap dir d mode excl, in_locked_dir dir (vfs_create idmap dir d mode excl);
  create_619_law : forall idmap d mode s i, d_inode (k_fs s) (d_parent (k_fs s) d) = Some i -> i ∈ k_locks s ->
    wp (vfs_create_619 idmap d mode) (fun _ s' => calm_fs s s' /\ same s s') s;
  mkdir_618_law : forall idmap dir d mode, mkdir_law false dir d (vfs_mkdir idmap dir d mode);
  mkdir_619_law : forall idmap dir d mode, mkdir_law true dir d (vfs_mkdir_619 idmap dir d mode);
  mknod_law : forall idmap dir d mode dev, in_locked_dir dir (vfs_mknod idmap dir d mode dev);
  mknod_619_law : forall idmap dir d mode dev, in_locked_dir dir (vfs_mknod_619 idmap dir d mode dev);
  symlink_law : forall idmap dir d t, in_locked_dir dir (vfs_symlink idmap dir d t);
  symlink_619_law : forall idmap dir d t, in_locked_dir dir (vfs_symlink_619 idmap dir d t);
  rmdir_law : forall idmap dir d, in_locked_dir dir (vfs_rmdir idmap dir d);
  rmdir_619_law : forall idmap dir d, in_locked_dir dir (vfs_rmdir_619 idmap dir d);
  unlink_law : forall idmap dir d, in_locked_dir dir (vfs_unlink idmap dir d);
  link_law : forall old idmap dir d, in_locked_dir dir (vfs_link old idmap dir d);
  rename_law : forall rd p q ip iq s, rd_old_parent rd = Some p -> rd_new_parent rd = Some q ->
    d_inode (k_fs s) p = Some ip -> d_inode (k_fs s) q = Some iq -> ip ∈ k_locks s -> iq ∈ k_locks s ->
    wp (vfs_rename rd) (fun _ s' => calm_fs s s' /\ same s s') s;
  lock_rename_law : forall p q, lock_law p q (lock_rename p q);
  lock_rename_child_law : forall c q s ip iq,
    d_inode (k_fs s) (d_parent (k_fs s) c) = Some ip -> d_inode (k_fs s) q = Some iq ->
    ip ∉ k_locks s -> iq ∉ k_locks s ->
    wp (lock_rename_child c q) (fun r s' => calm_fs s s' /\ k_refs s' = k_refs s /\ k_mem s' = k_mem s
      /\ d_parent (k_fs s') c = d_parent (k_fs s) c
      /\ d_inode (k_fs s') (d_parent (k_fs s) c) = Some ip /\ d_inode (k_fs s') q = Some iq
      /\ match r with Ok _ => k_locks s' = {[ip; iq]} ∪ k_locks s | Err e => k_locks s' = k_locks s /\ e < 0 end) s;
  unlock_rename_law : forall p q s ip iq, d_inode (k_fs s) p = Some ip -> d_inode (k_fs s) q = Some iq ->
    ip ∈ k_locks s -> iq ∈ k_locks s ->
    wp (unlock_rename p q) (fun _ s' => calm_fs s s' /\ k_refs s' = k_refs s /\ k_mem s' = k_mem s
      /\ k_locks s' = k_locks s ∖ {[ip; iq]}) s;
  start_renaming_law : forall rd flags a b p q s, rd_old_parent rd = Some p -> rd_new_parent rd = Some q ->
    is_Some (k_mem s !! a) -> is_Some (k_mem s !! b) -> start_law p q [a; b] rd s (start_renaming rd flags a b);
  start_renaming_dentry_law : forall rd flags old a q s, rd_new_parent rd = Some q -> is_Some (k_mem s !! a) ->
    start_law (d_parent (k_fs s) old) q [a] rd s (start_renaming_dentry rd flags old a);
  start_renaming_two_law : forall rd old new q s, rd_new_parent rd = Some q ->
    start_law (d_parent (k_fs s) old) q [] rd s (start_renaming_two_dentries rd old new);
  end_renaming_law : forall rd p q od nd s ip iq, rd_old_parent rd = Some p -> rd_new_parent rd = Some q ->
    rd_old_dentry rd = Some od -> rd_new_dentry rd = Some nd ->
    d_inode (k_fs s) p = Some ip -> d_inode (k_fs s) q = Some iq -> ip ∈ k_locks s -> iq ∈ k_locks s ->
    {[+ Dent od; Dent nd; Dent p +]} ⊆ k_refs s ->
    wp (end_renaming rd) (fun _ s' => calm_fs s s' /\ k_mem s' = k_mem s
      /\ k_locks s' = k_locks s ∖ {[ip; iq]} /\ k_refs s' = k_refs s ∖ {[+ Dent od; Dent nd; Dent p +]}) s
}.
End Laws.
Arguments VfsLaws W {V}.

(** ** An instance: directory entries in a table, errors chosen in advance *)
Module Toy.

Record toy := MkToy {
  t_inode : gmap Z Z;
  t_parent : gmap Z Z;
  t_ent : gmap (Z * string) Z;
  t_dirs : list Z;
  t_pinned : list Z;
  t_lookup_err : Z;
  t_err : Z;
  t_trap : result (option Z)
}.
#[export] Instance eta_toy : Eta toy := fun r =>
  MkToy (t_inode r) (t_parent r) (t_ent r) (t_dirs r) (t_pinned r) (t_lookup_err r) (t_err r) (t_trap r).

Definition parent_of (w : toy) (d : Z) : Z := default 0 (t_parent w !! d).

(** An error number, also for a table that names none. *)
Definition negative (e : Z) : Z := if e <? 0 then e else - EIO.
Lemma negative_neg e : negative e < 0.
Proof. unfold negative. by destruct (Z.ltb_spec e 0). Qed.

(** The hash of the name is overwritten whatever happens. *)
Definition t_lookup (a p : Z) : K toy (result Z) := fun s =>
  match k_mem s !! a with
  | None => None
  | Some q =>
      let s1 := s <| k_mem := <[a := q <| q_hash := 7 |>]> (k_mem s) |> in
      match t_ent (k_fs s) !! (p, q_name q) with
      | Some d =>
          if (t_lookup_err (k_fs s) =? 0) && (parent_of (k_fs s) d =? p)
          then Some (Ok d, s1 <| k_refs := k_refs s ⊎ {[+ Dent d +]} |>)
          else Some (Err (negative (t_lookup_err (k_fs s))), s1)
      | None => Some (Err (negative (t_lookup_err (k_fs s))), s1)
      end
  end.

Definition t_op : K toy Z := fun s => Some (t_err (k_fs s), s).

(** A successful mkdir gives the dentry an inode, unless it has one. *)
Definition t_mkdir (unlocks : bool) (dir d : Z) : K toy (result (option Z)) := fun s =>
  if t_err (k_fs s) =? 0
  then Some (Ok None, s <| k_fs := k_fs s <| t_inode := t_inode (k_fs s) ∪ {[d := 1000 + d]} |> |>)
  else Some (Err (t_err (k_fs s)), s <| k_refs := k_refs s ∖ {[+ Dent d +]} |>
         <| k_locks := if unlocks then k_locks s ∖ {[dir]} else k_locks s |>).

Definition inodes_of (w : toy) (p q : Z) : gset Z :=
  match t_inode w !! p, t_inode w !! q with Some i, Some j => {[i; j]} | _, _ => ∅ end.
Definition t_lock (p q : Z) : K toy (result (option Z)) := fun s =>
  match t_trap (k_fs s) with
  | Ok t => Some (Ok t, s <| k_locks := inodes_of (k_fs s) p q ∪ k_locks s |>)
  | Err e => Some (Err (negative e), s)
  end.
Definition t_unlock (p q : Z) : K toy unit := fun s =>
  Some (tt, s <| k_locks := k_locks s ∖ inodes_of (k_fs s) p q |>).

(** The names given to a starting rename are hashed for the lower parents. *)
Definition t_hash (l : list Z) (m : gmap Z qstr) : gmap Z qstr :=
  foldr (fun a m => alter (fun q => q <| q_hash := 7 |>) a m) m l.
Lemma t_hash_scribbles l m : scribbled l m (t_hash l m).
Proof.
  intros x. induction l as [|a l IH]; intros Hx; [done|]. apply not_elem_of_cons in Hx as [Ha Hx]. cbn.
  rewrite lookup_alter_ne by done. by apply IH.
Qed.

Definition t_start (p q od nd : Z) (l : list Z) (rd : renamedata) : K toy (Z * renamedata) := fun s =>
  if t_lookup_err (k_fs s) =? 0
  then Some ((0, rd <| rd_old_parent := Some p |> <| rd_old_dentry := Some od |> <| rd_new_dentry := Some nd |>),
             s <| k_locks := inodes_of (k_fs s) p q ∪ k_locks s |>
               <| k_refs := k_refs s ⊎ {[+ Dent od; Dent nd; Dent p +]} |> <| k_mem := t_hash l (k_mem s) |>)
  else Some ((t_lookup_err (k_fs s), rd), s <| k_mem := t_hash l (k_mem s) |>).
Definition t_named (a p : Z) (s : kstate toy) : Z :=
  match k_mem s !! a with Some q => default 0 (t_ent (k_fs s) !! (p, q_name q)) | None => 0 end.

#[export] Instance toy_vfs : Vfs toy := {
  d_inode w d := t_inode w !! d;
  d_parent := parent_of;
  d_unhashed _ _ := false;
  d_is_reg w d := negb (bool_decide (d ∈ t_dirs w)) && bool_decide (is_Some (t_inode w !! d));
  d_is_dir w d := bool_decide (d ∈ t_dirs w) && bool_decide (is_Some (t_inode w !! d));
  d_pinned w d := bool_decide (d ∈ t_pinned w);
  d_sb _ _ := 1;
  d_name d := d;
  i_nlink _ _ := 1;
  lookup_one _ := t_lookup;
  vfs_create _ _ _ _ _ := t_op;
  vfs_create_619 _ _ _ := t_op;
  vfs_mkdir _ dir d _ := t_mkdir false dir d;
  vfs_mkdir_619 _ dir d _ := t_mkdir true dir d;
  vfs_mknod _ _ _ _ _ := t_op;
  vfs_mknod_619 _ _ _ _ _ := t_op;
  vfs_symlink _ _ _ _ := t_op;
  vfs_symlink_619 _ _ _ _ := t_op;
  vfs_rmdir _ _ _ := t_op;
  vfs_rmdir_619 _ _ _ := t_op;
  vfs_unlink _ _ _ := t_op;
  vfs_link _ _ _ _ := t_op;
  vfs_rename _ := t_op;
  lock_rename := t_lock;
  lock_rename_child c q := fun s => t_lock (parent_of (k_fs s) c) q s;
  unlock_rename := t_unlock;
  start_renaming rd _ a b := fun s =>
    let p := default 0 (rd_old_parent rd) in let q := default 0 (rd_new_parent rd) in
    t_start p q (t_named a p s) (t_named b q s) [a; b] rd s;
  start_renaming_dentry rd _ old b := fun s =>
    let q := default 0 (rd_new_parent rd) in t_start (parent_of (k_fs s) old) q old (t_named b q s) [b] rd s;
  start_renaming_two_dentries rd old new := fun s =>
    t_start (parent_of (k_fs s) old) (default 0 (rd_new_parent rd)) old new [] rd s;
  end_renaming rd := fun s =>
    match rd_old_parent rd, rd_new_parent rd, rd_old_dentry rd, rd_new_dentry rd with
    | Some p, Some q, Some od, Some nd =>
        Some (tt, s <| k_locks := k_locks s ∖ inodes_of (k_fs s) p q |>
                    <| k_refs := k_refs s ∖ {[+ Dent od; Dent nd; Dent p +]} |>)
    | _, _, _, _ => None
    end
}.

Lemma t_start_ok p q od nd l rd s : start_law p q l rd s (t_start p q od nd l rd).
Proof.
  intros ip iq Hp Hq _ _. cbn in *. unfold wp, t_start. destruct (Z.eqb_spec (t_lookup_err (k_fs s)) 0) as [E|E].
  - split; [done|]. split; [apply t_hash_scribbles|]. split; [done|]. split; [done|]. split; [|done]. intros _. exists od, nd.
    split; [done|]. cbn. unfold inodes_of. by rewrite Hp, Hq.
  - split; [done|]. split; [apply t_hash_scribbles|]. repeat (split; [done|]). done.
Qed.

Lemma t_mkdir_ok unlocks dir d : mkdir_law unlocks dir d (t_mkdir unlocks dir d).
Proof.
  intros s Hd Hr. unfold wp, t_mkdir. destruct (_ =? 0); [|done]. split; [split; [done|split; [done|split]]|].
  - intros x i Hx _. cbn. by apply lookup_union_Some_l.
  - intros x Hx. split; [done|]. intros i Hi. cbn. by apply lookup_union_Some_l.
  - cbn. repeat split. multiset_solver.
Qed.

Lemma t_mkdir_grows unlocks dir d s r s' : t_mkdir unlocks dir d s = Some (r, s') -> grows (k_fs s) (k_fs s').
Proof.
  unfold t_mkdir. destruct (_ =? 0); intros [= _ <-]; [|done]. intros x i Hx. split; [|done]. cbn. by apply lookup_union_Some_l.
Qed.

#[export] Instance toy_laws : VfsLaws toy.
Proof.
  split; try (intros; intros s Hdir; done); try (intros; done).
  - intros w d H. apply andb_true_iff in H as [_ H]. by apply bool_decide_eq_true in H.
  - intros idmap a p i s Hp Hi [q Hq]. cbn in *. unfold wp, t_lookup. rewrite Hq.
    assert (scribbled [a] (k_mem s) (<[a := q <| q_hash := 7 |>]> (k_mem s))) as Hs.
    { intros x Hx. rewrite list_elem_of_singleton in Hx. by rewrite lookup_insert_ne. }
    destruct (t_ent _ !! _) as [d|]; [destruct (_ && _) eqn:E|]; repeat (split; [done|]); try apply negative_neg.
    to_prop. done.
  - intros idmap a p s r s'. cbn. unfold t_lookup. destruct (k_mem s !! a) as [q|]; [|done].
    destruct (t_ent _ !! _) as [d|]; [destruct (_ && _)|]; by intros [= _ <-].
  - intros idmap dir d mode s r s'. apply t_mkdir_grows.
  - intros idmap dir d mode s r s'. apply t_mkdir_grows.
  - intros. apply t_mkdir_ok.
  - intros. apply t_mkdir_ok.
  - intros p q s ip iq Hp Hq _ _. cbn in *. unfold wp, t_lock. destruct (t_trap _); repeat (split; [done|]); [apply negative_neg|].
    cbn. unfold inodes_of. by rewrite Hp, Hq.
  - intros c q s ip iq Hp Hq _ _. cbn in *. unfold wp, t_lock. destruct (t_trap _); repeat (split; [done|]); [apply negative_neg|].
    cbn. unfold inodes_of. by rewrite Hp, Hq.
  - intros p q s ip iq Hp Hq _ _. cbn in *. unfold wp, t_unlock. repeat (split; [done|]).
    cbn. unfold inodes_of. by rewrite Hp, Hq.
  - intros rd flags a b p q s Hp Hq _ _. cbn. rewrite Hp, Hq. apply t_start_ok.
  - intros rd flags old a q s Hq _. cbn. rewrite Hq. apply t_start_ok.
  - intros rd old new q s Hq. cbn. rewrite Hq. apply t_start_ok.
  - intros rd p q od nd s ip iq H1 H2 H3 H4 Hp Hq _ _ _. cbn in *. unfold wp. rewrite H1, H2, H3, H4.
    repeat (split; [done|]). cbn. unfold inodes_of. by rewrite Hp, Hq.
Qed.
End Toy.

(** ** Lemmas on what a call holds *)

Lemma unlock_again (i : Z) (L : gset Z) : i ∉ L -> ({[i]} ∪ L) ∖ {[i]} = L.
Proof. intros. apply leibniz_equiv. rewrite difference_union_distr_l, difference_diag, (left_id ∅ _). by apply difference_disjoint, disjoint_singleton_r. Qed.
Lemma unlock_pair (i j : Z) (L : gset Z) : i ∉ L -> j ∉ L -> ({[i; j]} ∪ L) ∖ {[i; j]} = L.
Proof. set_solver. Qed.
Lemma put_again (o : obj) (R : gmultiset obj) : (R ⊎ {[+ o +]}) ∖ {[+ o +]} = R.
Proof. multiset_solver. Qed.
Create Rewrite HintDb held.
#[export] Hint Rewrite unlock_pair unlock_again using done : held.
#[export] Hint Rewrite put_again : held.

Section Steps.
Context {W : Type} {V : Vfs W}.
Implicit Types (s : kstate W).

#[export] Instance calm_fs_refl : Reflexive calm_fs.
Proof. done. Qed.

(** A call that keeps the caller's locks while it runs composes with the next. *)
Lemma calm_fs_trans s s1 s2 : k_locks s ⊆ k_locks s1 -> calm_fs s s1 -> calm_fs s1 s2 -> calm_fs s s2.
Proof.
  intros HL (H1 & H2 & H3 & H7) (H4 & H5 & H6 & H8). split; [congruence|]. split; [congruence|]. split.
  - intros d i Hd Hi. apply H6; [by apply H3|by apply HL].
  - by etransitivity.
Qed.

(** Steps of the call itself before a VFS function: more locks, more references. *)
Lemma calm_after s s1 s2 : calm_fs s1 s2 -> k_fs s1 = k_fs s -> k_cred s1 = k_cred s -> k_fsdata s1 = k_fsdata s ->
  k_locks s ⊆ k_locks s1 -> calm_fs s s2.
Proof.
  intros (H1 & H2 & H3 & H4) E1 E2 E3 HL. rewrite E1 in H3, H4. split; [congruence|]. split; [congruence|]. split; [|done].
  intros d i Hd Hi. apply H3; [done|by apply HL].
Qed.

Lemma calm_inode s s' d i : calm_fs s s' -> d_inode (k_fs s) d = Some i -> i ∈ k_locks s -> d_inode (k_fs s') d = Some i.
Proof. intros (_ & _ & H & _). apply H. Qed.

Lemma wp_override c (Q : Z -> kstate W -> Prop) s : Q (k_cred s) (s <| k_cred := c |>) -> wp (override_creds c) Q s.
Proof. done. Qed.
Lemma wp_revert c (Q : unit -> kstate W -> Prop) s : Q tt (s <| k_cred := c |>) -> wp (revert_creds c) Q s.
Proof. done. Qed.
Lemma wp_dget d (Q : unit -> kstate W -> Prop) s : Q tt (s <| k_refs := k_refs s ⊎ {[+ Dent d +]} |>) -> wp (dget d) Q s.
Proof. done. Qed.
Lemma wp_dput d (Q : unit -> kstate W -> Prop) s :
  Dent d ∈ k_refs s -> Q tt (s <| k_refs := k_refs s ∖ {[+ Dent d +]} |>) -> wp (dput d) Q s.
Proof. apply wp_put. Qed.
End Steps.

(** What the call holds, spelled out with the equations of the context. *)
Ltac locks_solve :=
  cbn; repeat match goal with H : k_locks ?s = _ |- context [k_locks ?s] => rewrite H end;
  first [done | set_solver].
Ltac refs_solve :=
  cbn; repeat match goal with H : k_refs ?s = _ |- context [k_refs ?s] => rewrite H end;
  first [done | (clear; multiset_solver) | multiset_solver].

(** One step of a call: a primitive and what it wants. *)
Ltac kstep :=
  lazymatch goal with
  | |- wp (mbind _ _) _ _ => apply wp_bind; cbn beta
  | |- wp (mret _) _ _ => apply wp_ret; cbn beta
  | |- wp fs_get _ _ => apply wp_fs; cbn
  | |- wp (inode_lock _) _ _ => apply wp_lock; [try locks_solve|cbn]
  | |- wp (inode_unlock _) _ _ => apply wp_unlock; [try locks_solve|cbn]
  | |- wp (override_creds _) _ _ => apply wp_override
  | |- wp (revert_creds _) _ _ => apply wp_revert
  | |- wp (dget _) _ _ => apply wp_dget; cbn
  | |- wp (dput _) _ _ => apply wp_dput; [try refs_solve|cbn]
  | |- wp (get_ref _) _ _ => apply wp_get; cbn
  | |- wp (put_ref _) _ _ => apply wp_put; [try refs_solve|cbn]
  end.
