(* ===== verification/Compat.v ===== *)
(** * The version shims of compat.h

    The helpers through which smoothfs calls functions of the kernel that changed
    between 6.18, the oldest supported kernel, and 6.19.  [LINUX_VERSION_CODE] is
    the kernel the module is built for.  The helpers work on the call state of
    [KernelObjects], against its VFS interface; the theorems give each helper one
    contract for its callers on every kernel: which locks and references it leaves,
    on success and on every error path, and that it does not fault. *)
From S2P Require Import Prelude LowerFs KernelObjects.
Set Warnings "-clear-no-such-hyp".
Open Scope Z_scope.

Definition KERNEL_VERSION (a b c : Z) : Z := Z.shiftl a 16 + Z.shiftl b 8 + Z.min c 255.
Definition SMOOTHFS_KERNEL_FLOOR : Z := KERNEL_VERSION 6 18 0.

(** [RENAME_NOREPLACE], [RENAME_EXCHANGE], [RENAME_WHITEOUT]; [nop_mnt_idmap]; the bit of a new inode. *)
Definition RENAME_NOREPLACE : Z := 1.
Definition RENAME_EXCHANGE : Z := 2.
Definition RENAME_WHITEOUT : Z := 4.
Definition nop_mnt_idmap : Z := 0.
Definition I_NEW : Z := BIT 0.

Section Compat.
Context {W : Type} {V : Vfs W}.
Variable LINUX_VERSION_CODE : Z.

(** [#if LINUX_VERSION_CODE >= KERNEL_VERSION(6, 19, 0)]. *)
Definition since_619 : bool := KERNEL_VERSION 6 19 0 <=? LINUX_VERSION_CODE.

Definition smoothfs_compat_lookup (idmap name parent : Z) : K W (result Z) :=
  q ← load name;
  with_local (Qstr (q_name q) (q_len q) (q_hash q)) (fun loc => lookup_one idmap loc parent).

Definition smoothfs_compat_create (idmap dir d mode : Z) (excl : bool) : K W Z :=
  if since_619 then vfs_create_619 idmap d mode else vfs_create idmap dir d mode excl.

Definition smoothfs_compat_mkdir (idmap dir d mode : Z) : K W (result Z) :=
  new_d ← (if since_619 then vfs_mkdir_619 idmap dir d mode else vfs_mkdir idmap dir d mode);
  match new_d with
  | Err e => (if since_619 then mret tt else inode_unlock dir) ;; mret (Err e)
  | Ok (Some n) => mret (Ok (if n =? d then d else n))
  | Ok None => mret (Ok d)
  end.

Definition smoothfs_compat_mknod (idmap dir d mode rdev : Z) : K W Z :=
  if since_619 then vfs_mknod_619 idmap dir d mode rdev else vfs_mknod idmap dir d mode rdev.

Definition smoothfs_compat_symlink (idmap dir d : Z) (symname : string) : K W Z :=
  if since_619 then vfs_symlink_619 idmap dir d symname else vfs_symlink idmap dir d symname.

Definition smoothfs_compat_rmdir (idmap dir d : Z) : K W Z :=
  if since_619 then vfs_rmdir_619 idmap dir d else vfs_rmdir idmap dir d.

(** Returns the dentry to remove and [*locked_dir]. *)
Definition start_removing (parent child : Z) : K W (result Z * option Z) :=
  w ← fs_get;
  match d_inode w parent with
  | None => fault
  | Some dir =>
      inode_lock dir ;;
      w ← fs_get;
      if negb (d_parent w child =? parent) then inode_unlock dir ;; mret (Err (- EINVAL), None)
      else
        fresh ← smoothfs_compat_lookup nop_mnt_idmap (d_name child) parent;
        match fresh with
        | Err e => inode_unlock dir ;; mret (Err e, None)
        | Ok f =>
            w ← fs_get;
            if d_really_is_negative w f || negb (bool_decide (d_inode w f = d_inode w child))
            then dput f ;; inode_unlock dir ;; mret (Err (- ENOENT), None)
            else mret (Ok f, Some dir)
        end
  end.

Definition smoothfs_compat_end_removing (child : result Z) (locked_dir : option Z) : K W unit :=
  match child with Ok c => dput c | Err _ => mret tt end ;;
  match locked_dir with Some dir => inode_unlock dir | None => mret tt end.

(** The lower [d_revalidate], when the lower filesystem has one. *)
Definition smoothfs_compat_lower_d_revalidate (d_revalidate : option (Z -> Z -> Z -> Z -> K W Z))
    (lower_dir name lower flags : Z) : K W Z :=
  match d_revalidate with None => mret 1 | Some f => f lower_dir name lower flags end.

Definition smoothfs_compat_init_renamedata (idmap old_parent old_dentry new_parent new_dentry flags : Z) : renamedata :=
  rd_zero <| rd_mnt_idmap := idmap |> <| rd_old_parent := Some old_parent |> <| rd_old_dentry := Some old_dentry |>
    <| rd_new_parent := Some new_parent |> <| rd_new_dentry := Some new_dentry |> <| rd_flags := flags |>.

(** The error of a started rename on 6.19: a missing source is success. *)
Definition rename_619 (rd : renamedata) (oq nq : Z) : K W Z :=
  r ← start_renaming rd 0 oq nq;
  let '(err, rd) := r in
  if err =? - ENOENT then mret 0
  else if negb (err =? 0) then mret err
  else
    w ← fs_get;
    match rd_old_dentry rd with
    | None => fault
    | Some od =>
        if d_really_is_negative w od then end_renaming rd ;; mret 0
        else err ← vfs_rename rd; end_renaming rd ;; mret err
    end.

(** The tail of the 6.18 variant, from the label [unlock]. *)
Definition rename_unlock (old_parent new_parent : Z) (old_d new_d : option Z) (err : Z) : K W Z :=
  unlock_rename old_parent new_parent ;; dput_opt old_d ;; dput_opt new_d ;; mret err.

Definition rename_618 (rd : renamedata) (idmap old_parent oq new_parent nq : Z) : K W Z :=
  trap ← lock_rename old_parent new_parent;
  match trap with
  | Err e => mret e
  | Ok trap =>
      old_r ← smoothfs_compat_lookup idmap oq old_parent;
      match old_r with
      | Err e => rename_unlock old_parent new_parent None None e
      | Ok old_d =>
          w ← fs_get;
          if d_really_is_negative w old_d then rename_unlock old_parent new_parent (Some old_d) None 0
          else
            new_r ← smoothfs_compat_lookup idmap nq new_parent;
            match new_r with
            | Err e => rename_unlock old_parent new_parent (Some old_d) None e
            | Ok new_d =>
                if bool_decide (trap = Some old_d) || bool_decide (trap = Some new_d)
                then rename_unlock old_parent new_parent (Some old_d) (Some new_d) (- EINVAL)
                else
                  dget old_parent ;; dget old_d ;; dget new_d ;;
                  let rd := rd <| rd_old_parent := Some old_parent |> <| rd_old_dentry := Some old_d |>
                               <| rd_new_parent := Some new_parent |> <| rd_new_dentry := Some new_d |> in
                  err ← vfs_rename rd;
                  dput old_d ;; dput new_d ;; dput old_parent ;;
                  rename_unlock old_parent new_parent (Some old_d) (Some new_d) err
            end
      end
  end.

Definition rename_names (idmap old_parent : Z) (o_name : string) (new_parent : Z) (n_name : string) : K W Z :=
  with_local (QSTR_INIT o_name) (fun oq => with_local (QSTR_INIT n_name) (fun nq =>
    let rd := rd_zero <| rd_mnt_idmap := idmap |> <| rd_old_parent := Some old_parent |>
                <| rd_new_parent := Some new_parent |> in
    if since_619 then rename_619 rd oq nq else rename_618 rd idmap old_parent oq new_parent nq)).

(** [rd->flags & f]. *)
Definition rd_has (rd : renamedata) (f : Z) : bool := negb (Z.land (rd_flags rd) f =? 0).

(** The checks of the 6.18 variant of [smoothfs_compat_start_rename]: [None]
    when the rename may go ahead. *)
Definition rename_refused (w : W) (rd : renamedata) (old_dentry new_d : Z) (trap : option Z) : option Z :=
  if d_unhashed w old_dentry
     || match rd_old_parent rd with Some p => negb (p =? d_parent w old_dentry) | None => false end then Some (- EINVAL)
  else if d_unhashed w new_d || negb (bool_decide (rd_new_parent rd = Some (d_parent w new_d))) then Some (- EINVAL)
  else if bool_decide (trap = Some old_dentry) then Some (- EINVAL)
  else if bool_decide (trap = Some new_d)
       then Some (if rd_has rd RENAME_EXCHANGE then - EINVAL else - ENOTEMPTY)
  else if negb (d_really_is_negative w new_d) && rd_has rd RENAME_NOREPLACE then Some (- EEXIST)
  else None.

Definition start_rename_618 (rd : renamedata) (old_dentry : Z) (new_dentry : option Z) (new_name : Z)
    : K W (Z * renamedata) :=
  match rd_new_parent rd with
  | None => fault
  | Some new_parent =>
      trap ← lock_rename_child old_dentry new_parent;
      match trap with
      | Err e => mret (e, rd)
      | Ok trap =>
          new_r ← match new_dentry with
                  | Some n => mret (Ok n)
                  | None => smoothfs_compat_lookup (rd_mnt_idmap rd) new_name new_parent
                  end;
          w ← fs_get;
          match new_r with
          | Err e => unlock_rename (d_parent w old_dentry) new_parent ;; mret (e, rd)
          | Ok new_d =>
              let put_new := match new_dentry with None => dput new_d | Some _ => mret tt end in
              match rename_refused w rd old_dentry new_d trap with
              | Some err => put_new ;; unlock_rename (d_parent w old_dentry) new_parent ;; mret (err, rd)
              | None =>
                  dget old_dentry ;; dget new_d ;; dget (d_parent w old_dentry) ;; put_new ;;
                  mret (0, rd <| rd_old_dentry := Some old_dentry |> <| rd_new_dentry := Some new_d |>
                              <| rd_old_parent := Some (d_parent w old_dentry) |>)
              end
          end
      end
  end.

Definition start_rename (rd : renamedata) (old_dentry : Z) (new_dentry : option Z) (new_name : Z) : K W (Z * renamedata) :=
  if since_619 then
    match new_dentry with
    | Some n => start_renaming_two_dentries rd old_dentry n
    | None => start_renaming_dentry rd 0 old_dentry new_name
    end
  else start_rename_618 rd old_dentry new_dentry new_name.

Definition smoothfs_compat_finish_rename (rd : renamedata) : K W unit :=
  if since_619 then end_renaming rd
  else
    match rd_old_parent rd, rd_new_parent rd with
    | Some op, Some np =>
        unlock_rename op np ;; dput_opt (rd_old_dentry rd) ;; dput_opt (rd_new_dentry rd) ;; dput op
    | _, _ => fault
    end.
End Compat.

(** [inode->i_state & I_NEW]: the same bit behind either accessor. *)
Definition smoothfs_compat_inode_is_new (i_state : Z) : bool := negb (Z.land i_state I_NEW =? 0).

(** References that a label of the source puts when they are not NULL. *)
Definition opt_ref (d : option Z) : gmultiset obj := match d with Some d => {[+ Dent d +]} | None => ∅ end.

(** Equal multisets of references. *)
Ltac ref_eq := unfold opt_ref; multiset_solver.

Section Contracts.
Context {W : Type} {V : Vfs W} {L : VfsLaws W}.
Variable version : Z.
Implicit Types (s : kstate W).

(** What a lookup leaves: at most one more reference, and nothing scribbled on. *)
Lemma lookup_spec idmap a p i q s :
  d_inode (k_fs s) p = Some i -> i ∈ k_locks s -> k_mem s !! a = Some q ->
  wp (smoothfs_compat_lookup idmap a p) (fun r s' => calm_fs s s' /\ k_locks s' = k_locks s /\ k_mem s' = k_mem s
    /\ (forall d j, d_inode (k_fs s) (d_parent (k_fs s) d) = Some j -> j ∈ k_locks s ->
          d_parent (k_fs s') d = d_parent (k_fs s) d)
    /\ match r with
       | Ok d => k_refs s' = k_refs s ⊎ {[+ Dent d +]} /\ d_parent (k_fs s') d = p
       | Err e => k_refs s' = k_refs s /\ e < 0
       end) s.
Proof.
  intros Hp Hi Ha. unfold smoothfs_compat_lookup. kstep. apply (wp_load _ _ _ _ Ha). apply wp_local. intros b Hb.
  eapply wp_mono; [eapply lookup_one_law; [exact Hp|exact Hi|cbn; rewrite lookup_insert_eq; by eexists]|].
  intros r s' (C & HL & HM & HP & HR). cbn in *. split; [exact C|]. split; [done|].
  split; [by eapply scribbled_local|]. split; [exact HP|exact HR].
Qed.

(** The contract of mkdir, the same on every kernel: the child is consumed and
    the parent unlocked when it fails; else the parent stays locked and the
    caller has one reference, to the dentry it gets. *)
Lemma mkdir_spec idmap dir d mode s : dir ∈ k_locks s -> Dent d ∈ k_refs s ->
  wp (smoothfs_compat_mkdir version idmap dir d mode) (fun r s' => calm_fs s s' /\ k_mem s' = k_mem s /\
    match r with
    | Err _ => k_refs s' = k_refs s ∖ {[+ Dent d +]} /\ k_locks s' = k_locks s ∖ {[dir]}
    | Ok n => k_refs s' = k_refs s ∖ {[+ Dent d +]} ⊎ {[+ Dent n +]} /\ k_locks s' = k_locks s
    end) s.
Proof.
  intros Hdir Hd. unfold smoothfs_compat_mkdir.
  assert (mkdir_law (since_619 version) dir d (if since_619 version then vfs_mkdir_619 idmap dir d mode
    else vfs_mkdir idmap dir d mode)) as Hlaw.
  { destruct (since_619 version); [apply mkdir_619_law|apply mkdir_618_law]. }
  eapply wp_bind_law; [by apply Hlaw|]. intros r s1 (C & HM & H1). destruct r as [e|[n|]].
  - destruct H1 as [HR HL]. destruct (since_619 version).
    + kstep. kstep. by kstep.
    + kstep. kstep. kstep. split; [exact C|]. cbn. by rewrite HL.
  - destruct H1 as [HL HR]. kstep. split; [exact C|]. split; [done|]. split; [|done]. rewrite HR.
    cbn. by destruct (Z.eqb_spec n d) as [->|].
  - destruct H1 as [HL HR]. by kstep.
Qed.

(** Either the entry to remove, positive, under its locked parent and still the
    inode of [child], or an error with nothing held. *)
Lemma start_removing_spec p c i q s : d_inode (k_fs s) p = Some i -> i ∉ k_locks s ->
  k_mem s !! d_name c = Some q ->
  wp (start_removing p c) (fun r s' => calm_fs s s' /\ k_mem s' = k_mem s /\
    match r with
    | (Ok f, Some dir) => dir = i /\ k_locks s' = {[i]} ∪ k_locks s /\ k_refs s' = k_refs s ⊎ {[+ Dent f +]}
                          /\ d_parent (k_fs s') f = p
                          /\ is_Some (d_inode (k_fs s') f) /\ d_inode (k_fs s') f = d_inode (k_fs s') c
    | (Err _, None) => k_locks s' = k_locks s /\ k_refs s' = k_refs s
    | _ => False
    end) s.
Proof.
  intros Hp Hi Hq. unfold start_removing. kstep. kstep. rewrite Hp. kstep. kstep. kstep. kstep.
  destruct (negb (d_parent (k_fs s) c =? p)).
  { kstep. kstep. kstep. cbn. autorewrite with held. done. }
  eapply wp_bind_law; [eapply lookup_spec; [exact Hp|cbn; set_solver|exact Hq]|].
  intros r s1 (C & HL & HM & _ & HR). cbn in *.
  assert (calm_fs s s1) as C' by (eapply calm_after; [exact C|done..|cbn; apply union_subseteq_r]).
  destruct r as [e|f].
  - destruct HR as [HR _]. kstep. kstep. kstep. split; [exact C'|]. cbn. rewrite HL. by autorewrite with held.
  - destruct HR as [HR HP]. kstep. kstep.
    destruct (d_really_is_negative (k_fs s1) f || _) eqn:E.
    + kstep. kstep. kstep. kstep. kstep. split; [exact C'|]. cbn. rewrite HL, HR. by autorewrite with held.
    + kstep. apply orb_false_iff in E as [E1 E2]. apply negb_false_iff, bool_decide_eq_true in E2.
      unfold d_really_is_negative in E1. split; [exact C'|].
      repeat (split; [done|]). split; [|done]. by destruct (d_inode (k_fs s1) f); [eexists|].
Qed.

(** Ending a started removal gives back what it took. *)
Lemma end_removing_spec f i s0 s : i ∉ k_locks s0 -> calm_fs s0 s -> k_mem s = k_mem s0 ->
  k_locks s = {[i]} ∪ k_locks s0 -> k_refs s = k_refs s0 ⊎ {[+ Dent f +]} ->
  wp (smoothfs_compat_end_removing (Ok f) (Some i)) (fun _ s' => calm_fs s0 s' /\ same s0 s') s.
Proof.
  intros Hi C HM HL HR. unfold smoothfs_compat_end_removing. kstep. kstep. kstep. split; [exact C|].
  destruct C as (C1 & C2 & _). unfold same. cbn. rewrite HL, HR. by autorewrite with held.
Qed.

(** *** Renames

    [renaming p q ip iq s0 R s]: a call that held what [s0] says has locked the
    parents [p] and [q] of a rename and taken the references [R] since. *)
Record renaming (p q ip iq : Z) s0 (R : gmultiset obj) s : Prop := {
  rn_calm : calm_fs s0 s;
  rn_mem : k_mem s = k_mem s0;
  rn_locks : k_locks s = {[ip; iq]} ∪ k_locks s0;
  rn_refs : k_refs s = k_refs s0 ⊎ R;
  rn_old : d_inode (k_fs s) p = Some ip;
  rn_new : d_inode (k_fs s) q = Some iq
}.

(** Held by nobody yet: what both variants want of the two parents. *)
Definition parents_free (p q ip iq : Z) s : Prop :=
  d_inode (k_fs s) p = Some ip /\ d_inode (k_fs s) q = Some iq /\ (ip ∉ k_locks s) /\ (iq ∉ k_locks s).

Lemma renaming_keeps p q ip iq s0 R s s' : renaming p q ip iq s0 R s -> calm_fs s s' -> k_mem s' = k_mem s ->
  k_locks s' = k_locks s -> forall R' : gmultiset obj, ((k_refs s' = k_refs s0 ⊎ R')) -> renaming p q ip iq s0 R' s'.
Proof.
  intros [C HM HL HR Ho Hn] C' HM' HL' R' HR'. split.
  - eapply calm_fs_trans; [|exact C|exact C']. rewrite HL. apply union_subseteq_r.
  - congruence.
  - congruence.
  - done.
  - eapply calm_inode; [exact C'|done|]. rewrite HL. set_solver.
  - eapply calm_inode; [exact C'|done|]. rewrite HL. set_solver.
Qed.

Lemma renaming_lookup p q ip iq s0 R s idmap a nm par : renaming p q ip iq s0 R s ->
  par = p \/ par = q -> k_mem s0 !! a = Some nm ->
  wp (smoothfs_compat_lookup idmap a par) (fun r s' => (forall d j, d_inode (k_fs s) (d_parent (k_fs s) d) = Some j ->
       j ∈ k_locks s -> d_parent (k_fs s') d = d_parent (k_fs s) d) /\
    (forall e, r = Err e -> e < 0) /\ renaming p q ip iq s0 (match r with Ok d => R ⊎ {[+ Dent d +]} | Err _ => R end) s') s.
Proof.
  intros Hr Hpar Ha. pose proof Hr as [C HM HL HR Ho Hn].
  assert (exists i, d_inode (k_fs s) par = Some i /\ i ∈ k_locks s) as (i & Hi & Hin).
  { rewrite HL. destruct Hpar as [->| ->]; eexists; (split; [eassumption|set_solver]). }
  eapply wp_mono; [eapply lookup_spec; [exact Hi|exact Hin|by rewrite HM]|].
  intros r s' (C' & HL' & HM' & HP & H). split; [exact HP|].
  split; [intros e ->; apply H|]. eapply renaming_keeps; [exact Hr|exact C'|done..|].
  destruct r as [e|d]; destruct H as [H _]; [by rewrite H|]. rewrite H, HR. multiset_solver.
Qed.

Lemma renaming_vfs_rename p q ip iq s0 R s rd : renaming p q ip iq s0 R s ->
  rd_old_parent rd = Some p -> rd_new_parent rd = Some q ->
  wp (vfs_rename rd) (fun _ s' => renaming p q ip iq s0 R s') s.
Proof.
  intros Hr Hp Hq. pose proof Hr as [C HM HL HR Ho Hn].
  eapply wp_mono; [eapply rename_law; [exact Hp|exact Hq|exact Ho|exact Hn| |]; rewrite HL; set_solver|].
  intros _ s' (C' & HL' & HR' & _ & HM' & _). eapply renaming_keeps; [exact Hr|exact C'|done..|congruence].
Qed.

Lemma renaming_dget p q ip iq s0 R s d (Q : unit -> kstate W -> Prop) : renaming p q ip iq s0 R s ->
  (forall s', k_fs s' = k_fs s -> renaming p q ip iq s0 (R ⊎ {[+ Dent d +]}) s' -> Q tt s') -> wp (dget d) Q s.
Proof.
  intros Hr HQ. kstep. apply HQ; [done|]. eapply renaming_keeps; [exact Hr|done..|]. cbn. rewrite (rn_refs _ _ _ _ _ _ _ Hr).
  multiset_solver.
Qed.

Lemma renaming_dput p q ip iq s0 R R' s d (Q : unit -> kstate W -> Prop) : renaming p q ip iq s0 R s ->
  R = R' ⊎ {[+ Dent d +]} -> (forall s', k_fs s' = k_fs s -> renaming p q ip iq s0 R' s' -> Q tt s') -> wp (dput d) Q s.
Proof.
  intros Hr -> HQ. pose proof (rn_refs _ _ _ _ _ _ _ Hr) as E. kstep.
  apply HQ; [done|]. eapply renaming_keeps; [exact Hr|done..|]. cbn. rewrite E. multiset_solver.
Qed.

(** Unlocking the parents: what is left are the references. *)
Definition renamed s0 (R : gmultiset obj) s : Prop :=
  calm_fs s0 s /\ k_mem s = k_mem s0 /\ k_locks s = k_locks s0 /\ k_refs s = k_refs s0 ⊎ R.

Lemma renaming_unlock p q ip iq s0 R s : renaming p q ip iq s0 R s -> ip ∉ k_locks s0 -> iq ∉ k_locks s0 ->
  wp (unlock_rename p q) (fun _ s' => renamed s0 R s') s.
Proof.
  intros [C HM HL HR Ho Hn] Hip Hiq.
  eapply wp_mono; [eapply unlock_rename_law; [exact Ho|exact Hn| |]; rewrite HL; set_solver|].
  intros _ s' (C' & HR' & HM' & HL'). split; [|split; [congruence|split; [|congruence]]].
  - eapply calm_fs_trans; [|exact C|exact C']. rewrite HL. apply union_subseteq_r.
  - rewrite HL', HL. by apply unlock_pair.
Qed.

Lemma renamed_dput s0 R R' s d (Q : unit -> kstate W -> Prop) : renamed s0 R s -> R = R' ⊎ {[+ Dent d +]} ->
  (forall s', renamed s0 R' s' -> Q tt s') -> wp (dput d) Q s.
Proof.
  intros (C & HM & HL & HR) -> HQ. kstep. apply HQ. split; [exact C|]. cbn. rewrite HR. repeat split; try done. multiset_solver.
Qed.

Lemma renamed_dput_opt s0 R s d (Q : unit -> kstate W -> Prop) : renamed s0 (R ⊎ opt_ref d) s ->
  (forall s', renamed s0 R s' -> Q tt s') -> wp (dput_opt d) Q s.
Proof.
  intros H HQ. destruct d as [d|]; [by eapply renamed_dput|]. cbn in *. kstep. apply HQ.
  by rewrite (right_id_L ∅ (⊎) R) in H.
Qed.

Lemma renamed_same s0 s : renamed s0 ∅ s -> calm_fs s0 s /\ same s0 s.
Proof.
  intros (C & HM & HL & HR). split; [exact C|]. destruct C as (C1 & C2 & _). unfold same.
  rewrite HR, (right_id_L ∅ (⊎) (k_refs s0)). done.
Qed.

Lemma rename_unlock_spec p q ip iq s0 R s od nd err : renaming p q ip iq s0 R s -> R = opt_ref od ⊎ opt_ref nd ->
  ip ∉ k_locks s0 -> iq ∉ k_locks s0 ->
  wp (rename_unlock p q od nd err) (fun _ s' => calm_fs s0 s' /\ same s0 s') s.
Proof.
  intros Hr -> Hip Hiq. unfold rename_unlock. eapply wp_bind_law; [by eapply renaming_unlock|].
  intros [] s1 H1. kstep. eapply (renamed_dput_opt _ (opt_ref nd)); [by rewrite (comm_L (⊎))|].
  intros s2 H2. kstep. eapply (renamed_dput_opt _ ∅); [by rewrite (left_id_L ∅ (⊎))|].
  intros s3 H3. kstep. by apply renamed_same.
Qed.

Lemma rename_618_spec rd idmap p oq q nq ip iq on nn s : parents_free p q ip iq s ->
  k_mem s !! oq = Some on -> k_mem s !! nq = Some nn ->
  wp (rename_618 rd idmap p oq q nq) (fun _ s' => calm_fs s s' /\ same s s') s.
Proof.
  intros (Hp & Hq & Hip & Hiq) Hon Hnn. unfold rename_618.
  eapply wp_bind_law; [by eapply lock_rename_law|]. intros r s1 (C & HR & HM & Hp1 & Hq1 & HL). destruct r as [e|trap].
  { destruct HL as [HL _]. kstep. split; [exact C|]. destruct C as (? & ? & _). done. }
  assert (renaming p q ip iq s ∅ s1) as R1 by (split; try done; multiset_solver).
  eapply wp_bind_law; [eapply renaming_lookup; [exact R1|by left|exact Hon]|]. intros r s2 (_ & _ & R2).
  destruct r as [e|old_d]; [eapply rename_unlock_spec; [exact R2|ref_eq|done..]|]. kstep. kstep.
  destruct (d_really_is_negative _ old_d); [eapply rename_unlock_spec; [exact R2|ref_eq|done..]|].
  eapply wp_bind_law; [eapply renaming_lookup; [exact R2|by right|exact Hnn]|]. intros r s3 (_ & _ & R3).
  destruct r as [e|new_d]; [eapply rename_unlock_spec; [exact R3|ref_eq|done..]|].
  destruct (_ || _); [eapply rename_unlock_spec; [exact R3|ref_eq|done..]|].
  kstep. eapply renaming_dget; [exact R3|]. intros s4 _ R4. kstep. eapply renaming_dget; [exact R4|]. intros s5 _ R5.
  kstep. eapply renaming_dget; [exact R5|]. intros s6 _ R6.
  eapply wp_bind_law; [by eapply renaming_vfs_rename|]. intros err s7 R7.
  pose (R := {[+ Dent old_d; Dent new_d +]} : gmultiset obj).
  kstep. eapply (renaming_dput _ _ _ _ _ _ (R ⊎ {[+ Dent p; Dent new_d +]})); [exact R7|ref_eq|]. intros s8 _ R8.
  kstep. eapply (renaming_dput _ _ _ _ _ _ (R ⊎ {[+ Dent p +]})); [exact R8|ref_eq|]. intros s9 _ R9.
  kstep. eapply (renaming_dput _ _ _ _ _ _ R); [exact R9|ref_eq|]. intros s10 _ R10.
  eapply rename_unlock_spec; [exact R10|ref_eq|done..].
Qed.

(** The 6.19 calls work on the names in place. *)
Record started (p q ip iq : Z) (l : list Z) (rd : renamedata) s0 (rd' : renamedata) s : Prop := {
  st_calm : calm_fs s0 s;
  st_mem : scribbled l (k_mem s0) (k_mem s);
  st_locks : k_locks s = {[ip; iq]} ∪ k_locks s0;
  st_old : d_inode (k_fs s) p = Some ip;
  st_new : d_inode (k_fs s) q = Some iq;
  st_rd : exists od nd,
    rd' = rd <| rd_old_parent := Some p |> <| rd_old_dentry := Some od |> <| rd_new_dentry := Some nd |>
    /\ k_refs s = (k_refs s0 ⊎ {[+ Dent od; Dent nd; Dent p +]})
}.

(** Nothing is held any more; only the names in [l] may have changed. *)
Definition over (l : list Z) s0 s : Prop :=
  calm_fs s0 s /\ scribbled l (k_mem s0) (k_mem s) /\ k_locks s = k_locks s0 /\ k_refs s = k_refs s0.

Lemma started_vfs_rename p q ip iq l rd s0 rd' s : started p q ip iq l rd s0 rd' s -> rd_new_parent rd = Some q ->
  wp (vfs_rename rd') (fun _ s' => started p q ip iq l rd s0 rd' s') s.
Proof.
  intros [C HM HL Ho Hn (od & nd & -> & HR)] Hq.
  eapply wp_mono; [eapply rename_law; [done|exact Hq|exact Ho|exact Hn| |]; rewrite HL; set_solver|].
  intros err s' (C' & HL' & HR' & _ & HM' & _). split; try congruence.
  - eapply calm_fs_trans; [|exact C|exact C']. rewrite HL. apply union_subseteq_r.
  - by rewrite HM'.
  - eapply calm_inode; [exact C'|done|]. rewrite HL. set_solver.
  - eapply calm_inode; [exact C'|done|]. rewrite HL. set_solver.
  - exists od, nd. split; [done|congruence].
Qed.

Lemma started_end p q ip iq l rd s0 rd' s : started p q ip iq l rd s0 rd' s -> rd_new_parent rd = Some q ->
  ip ∉ k_locks s0 -> iq ∉ k_locks s0 -> wp (end_renaming rd') (fun _ s' => over l s0 s') s.
Proof.
  intros [C HM HL Ho Hn (od & nd & -> & HR)] Hq Hip Hiq.
  eapply wp_mono; [eapply end_renaming_law; [done|exact Hq|done|done|exact Ho|exact Hn|rewrite HL; set_solver..|]|].
  { rewrite HR. multiset_solver. }
  intros u s' (C' & HM' & HL' & HR'). split; [|split; [by rewrite HM'|split]].
  - eapply calm_fs_trans; [|exact C|exact C']. rewrite HL. apply union_subseteq_r.
  - rewrite HL', HL. by apply unlock_pair.
  - rewrite HR', HR. multiset_solver.
Qed.

(** A started rename of either kernel, from the law of the call that starts it. *)
Lemma start_law_spec p q ip iq l rd s m : parents_free p q ip iq s -> start_law p q l rd s m ->
  wp m (fun r s' => (r.1 = 0 -> started p q ip iq l rd s r.2 s') /\ (r.1 <> 0 -> over l s s')) s.
Proof.
  intros (Hp & Hq & Hip & Hiq) Hlaw. eapply wp_mono; [by apply Hlaw|].
  intros [err rd'] s' (C & HM & Ho & Hn & H0 & H1). cbn. split; intros E.
  - destruct (H0 E) as (od & nd & -> & HL & HR). split; try done. by exists od, nd.
  - destruct (H1 E) as [HL HR]. done.
Qed.

Lemma rename_619_spec rd oq nq p q ip iq s : parents_free p q ip iq s ->
  rd_old_parent rd = Some p -> rd_new_parent rd = Some q -> is_Some (k_mem s !! oq) -> is_Some (k_mem s !! nq) ->
  wp (rename_619 rd oq nq) (fun _ s' => over [oq; nq] s s') s.
Proof.
  intros F Hp Hq Ho Hn. pose proof F as (_ & _ & Hip & Hiq). unfold rename_619.
  eapply wp_bind_law; [eapply start_law_spec; [exact F|by apply start_renaming_law]|].
  intros [err rd'] s1 [H0 H1]. cbn [fst snd] in *.
  destruct (Z.eqb_spec err (- ENOENT)) as [->|_]; [kstep; apply H1; done|].
  destruct (Z.eqb_spec err 0) as [->|E]; cbn [negb]; [|kstep; by apply H1].
  specialize (H0 eq_refl). kstep. kstep. destruct (st_rd _ _ _ _ _ _ _ _ _ H0) as (od & nd & E & _).
  assert (rd_old_dentry rd' = Some od) as -> by (by rewrite E).
  destruct (d_really_is_negative (k_fs s1) od).
  - kstep. eapply wp_mono; [exact (started_end _ _ _ _ _ _ _ _ _ H0 Hq Hip Hiq)|]. intros [] s2 H2. by kstep.
  - eapply wp_bind_law; [exact (started_vfs_rename _ _ _ _ _ _ _ _ _ H0 Hq)|]. intros e s2 H2.
    eapply wp_bind_law; [exact (started_end _ _ _ _ _ _ _ _ _ H2 Hq Hip Hiq)|]. intros [] s3 H3. by kstep.
Qed.

(** *** The rename of a path on one tier gives back all it takes, whatever
    happens, on every kernel. *)
Lemma rename_names_spec idmap p on q nn ip iq s : parents_free p q ip iq s ->
  wp (rename_names version idmap p on q nn) (fun _ s' => calm_fs s s' /\ same s s') s.
Proof.
  intros F. unfold rename_names. apply wp_local. intros a Ha. apply wp_local. cbn. intros b Hb.
  set (s1 := s <| k_mem := <[b := QSTR_INIT nn]> (<[a := QSTR_INIT on]> (k_mem s)) |>).
  assert (a <> b) as Hab by (intros ->; by rewrite lookup_insert_eq in Hb).
  assert (parents_free p q ip iq s1) as F1 by exact F.
  assert (k_mem s1 !! a = Some (QSTR_INIT on)) as Ea by (cbn; by rewrite lookup_insert_ne, lookup_insert_eq).
  assert (k_mem s1 !! b = Some (QSTR_INIT nn)) as Eb by (cbn; by rewrite lookup_insert_eq).
  assert (forall s', over [a; b] s1 s' -> calm_fs s s' /\ same s (s' <| k_mem := delete a (delete b (k_mem s')) |>)) as Hend.
  { intros s' ((C1 & C2 & C3) & HM & HL & HR). split; [done|]. repeat split; try done. cbn.
    exact (scribbled_local _ _ _ _ Ha (scribbled_local_2 _ _ _ _ _ Hb HM)). }
  destruct (since_619 version).
  - eapply wp_mono; [eapply rename_619_spec; [exact F1|done|done|by eexists..]|]. intros e s' H. exact (Hend s' H).
  - eapply wp_mono; [exact (rename_618_spec _ _ _ _ _ _ _ _ _ _ _ F1 Ea Eb)|]. intros e s' (C & HL & HR & _ & HM & _). apply (Hend s').
    split; [exact C|]. split; [|done]. intros x _. by rewrite HM.
Qed.

(** The names that starting a rename writes to. *)
Definition start_scratch (new : option Z) (name : Z) : list Z :=
  match new with None => if since_619 version then [name] else [] | Some _ => [] end.

Lemma refused_nonzero w rd old new trap err : rename_refused w rd old new trap = Some err -> err <> 0.
Proof. unfold rename_refused. repeat case_match; intros [= <-]; done. Qed.

Lemma renaming_over p q ip iq s0 s : renaming p q ip iq s0 ∅ s -> ip ∉ k_locks s0 -> iq ∉ k_locks s0 ->
  wp (unlock_rename p q) (fun _ s' => over [] s0 s') s.
Proof.
  intros Hr Hip Hiq. eapply wp_mono; [by eapply renaming_unlock|]. intros [] s' H.
  apply renamed_same in H as (C & HL & HR & _ & HM & _). split; [exact C|]. split; [|done]. intros x _. by rewrite HM.
Qed.

Lemma renaming_started p q ip iq s0 od nd rd s : renaming p q ip iq s0 ({[+ Dent od; Dent nd; Dent p +]}) s ->
  started p q ip iq [] rd s0
    (rd <| rd_old_dentry := Some od |> <| rd_new_dentry := Some nd |> <| rd_old_parent := Some p |>) s.
Proof.
  intros [C HM HL HR Ho Hn]. split; try done; [intros x _; by rewrite HM|]. by exists od, nd.
Qed.

(** After the target is known: refuse it and give everything back, or keep
    three references. [T] is the reference of the lookup, if there was one. *)
Lemma start_checked p q ip iq s0 s rd old (new : option Z) new_d trap :
  renaming p q ip iq s0 (opt_ref (match new with None => Some new_d | Some _ => None end)) s ->
  d_parent (k_fs s) old = p -> ip ∉ k_locks s0 -> iq ∉ k_locks s0 ->
  let put_new := match new with None => dput new_d | Some _ => mret tt end in
  wp (match rename_refused (k_fs s) rd old new_d trap with
      | Some err => put_new ;; unlock_rename (d_parent (k_fs s) old) q ;; mret (err, rd)
      | None => dget old ;; dget new_d ;; dget (d_parent (k_fs s) old) ;; put_new ;;
                mret (0, rd <| rd_old_dentry := Some old |> <| rd_new_dentry := Some new_d |>
                            <| rd_old_parent := Some (d_parent (k_fs s) old) |>)
      end)
    (fun r s' => (r.1 = 0 -> started p q ip iq [] rd s0 r.2 s') /\ (r.1 <> 0 -> over [] s0 s')) s.
Proof.
  intros Hr Hpar Hip Hiq put_new. rewrite Hpar.
  assert (forall R R' s1 (Q : unit -> kstate W -> Prop), renaming p q ip iq s0 R s1 ->
    R = (R' ⊎ opt_ref (match new with None => Some new_d | Some _ => None end)) ->
    (forall s2, renaming p q ip iq s0 R' s2 -> Q tt s2) -> wp put_new Q s1) as Hput.
  { intros R R' s1 Q H1 -> HQ. unfold put_new. destruct new; cbn in *.
    - kstep. apply HQ. by rewrite (right_id_L ∅ (⊎) R') in H1.
    - eapply renaming_dput; [exact H1|done|]. intros s2 _ H2. by apply HQ. }
  destruct (rename_refused _ _ _ _ _) as [err|] eqn:E.
  - apply refused_nonzero in E. kstep. eapply (Hput _ ∅); [exact Hr|by rewrite (left_id_L ∅ (⊎))|].
    intros s1 H1. eapply wp_bind_law; [exact (renaming_over _ _ _ _ _ _ H1 Hip Hiq)|]. intros [] s2 H2. by kstep.
  - kstep. eapply renaming_dget; [exact Hr|]. intros s1 _ R1. kstep. eapply renaming_dget; [exact R1|]. intros s2 _ R2.
    kstep. eapply renaming_dget; [exact R2|]. intros s3 _ R3. kstep.
    eapply (Hput _ ({[+ Dent old; Dent new_d; Dent p +]})); [exact R3|ref_eq|]. intros s4 R4. kstep. cbn [fst snd].
    split; [|done]. intros _. by apply renaming_started.
Qed.

Lemma start_rename_618_spec rd old new name q ip iq nm s : parents_free (d_parent (k_fs s) old) q ip iq s ->
  rd_new_parent rd = Some q -> k_mem s !! name = Some nm ->
  wp (start_rename_618 rd old new name) (fun r s' =>
    (r.1 = 0 -> started (d_parent (k_fs s) old) q ip iq [] rd s r.2 s') /\ (r.1 <> 0 -> over [] s s')) s.
Proof.
  intros (Hp & Hq & Hip & Hiq) Hnp Hnm. unfold start_rename_618. rewrite Hnp. set (p := d_parent (k_fs s) old) in *.
  eapply wp_bind_law; [exact (lock_rename_child_law _ _ _ _ _ Hp Hq Hip Hiq)|].
  intros r s1 (C & HR & HM & Hpar & Hp1 & Hq1 & HL). fold p in Hpar, Hp1. destruct r as [e|trap].
  { kstep. destruct HL as [HL He]. split; [cbn; lia|]. intros _. repeat split; try apply C; try done. intros x _. by rewrite HM. }
  assert (renaming p q ip iq s ∅ s1) as R1 by (split; try done; multiset_solver).
  destruct new as [n|].
  - kstep. kstep. kstep. kstep. apply (start_checked p q ip iq s s1 rd old (Some n) n trap); done.
  - eapply wp_bind_law; [eapply renaming_lookup; [exact R1|by right|exact Hnm]|]. intros r s2 (HP & He & R2).
    assert (d_parent (k_fs s2) old = p) as Hpar2.
    { rewrite (HP old ip); [exact Hpar|by rewrite Hpar|rewrite HL; set_solver]. }
    kstep. kstep. destruct r as [e|new_d].
    + rewrite Hpar2. eapply wp_bind_law; [exact (renaming_over _ _ _ _ _ _ R2 Hip Hiq)|]. intros [] s3 H3. kstep.
      specialize (He e eq_refl). cbn. split; [lia|done].
    + apply (start_checked p q ip iq s s2 rd old None new_d trap); [|done..]. cbn.
      by rewrite (left_id_L ∅ (⊎)) in R2.
Qed.

(** Starting a rename: the parents locked and three references owned, or an
    error with nothing held, on every kernel. *)
Lemma rename_start_spec rd old new name q ip iq nm s : parents_free (d_parent (k_fs s) old) q ip iq s ->
  rd_new_parent rd = Some q -> k_mem s !! name = Some nm ->
  wp (start_rename version rd old new name) (fun r s' =>
    (r.1 = 0 -> started (d_parent (k_fs s) old) q ip iq (start_scratch new name) rd s r.2 s')
    /\ (r.1 <> 0 -> over (start_scratch new name) s s')) s.
Proof.
  intros F Hq Hn. unfold start_rename, start_scratch. destruct (since_619 version).
  - destruct new; (eapply start_law_spec; [exact F|]).
    + by apply start_renaming_two_law.
    + apply start_renaming_dentry_law; [done|by eexists].
  - eapply wp_mono; [exact (start_rename_618_spec _ _ new _ _ _ _ _ _ F Hq Hn)|]. intros r s' H. by destruct new.
Qed.

Lemma finish_rename_spec p q ip iq l rd s0 rd' s : started p q ip iq l rd s0 rd' s -> rd_new_parent rd = Some q ->
  ip ∉ k_locks s0 -> iq ∉ k_locks s0 ->
  wp (smoothfs_compat_finish_rename version rd') (fun _ s' => over l s0 s') s.
Proof.
  intros H Hq Hip Hiq. unfold smoothfs_compat_finish_rename. destruct (since_619 version).
  { exact (started_end _ _ _ _ _ _ _ _ _ H Hq Hip Hiq). }
  destruct H as [C HM HL Ho Hn (od & nd & -> & HR)]. cbn. rewrite Hq.
  eapply wp_bind_law; [eapply unlock_rename_law; [exact Ho|exact Hn|rewrite HL; set_solver..]|].
  intros [] s1 (C1 & HR1 & HM1 & HL1). rewrite HR in HR1. kstep. kstep. kstep. kstep. kstep.
  split; [|split; [by cbn; rewrite HM1|split]]; cbn.
  - eapply calm_fs_trans; [|exact C|exact C1]. rewrite HL. apply union_subseteq_r.
  - rewrite HL1, HL. by apply unlock_pair.
  - rewrite HR1. multiset_solver.
Qed.
End Contracts.
