(* ===== verification/Discipline.v ===== *)
(** * Callers of the VFS: locks, references and credentials of the operations

    The functions of inode.c, super.c, placement.c and range_staging.c that lock lower
    directories, here with what they lock, get, put and override, in the order of
    the source; the rest of their work is in [Namespace], [PlacementLog] and
    [RangeMeta].  They run on the call state of [KernelObjects] and use the
    helpers of [Compat].  [Balance] proves what they leave behind. *)
From S2P Require Import Prelude KernelObjects Compat.
Set Warnings "-clear-no-such-hyp".
Open Scope Z_scope.

(** [smoothfs_iget] and [smoothfs_track_placed] with and without a pin, whose
    results the operations test.  They work on the inode cache: [smoothfs_iget]
    returns a reference to an inode, and a pin keeps it. *)
Class InodeOps (W : Type) := {
  iget : Z -> Z -> K W (result Z);
  track_pinned : Z -> K W Z;
  track_plain : Z -> K W Z
}.
(** The inode cache does not touch the lower names. *)
Definition keeps_inodes {W} {V : Vfs W} (s s' : kstate W) : Prop :=
  k_cred s' = k_cred s /\ k_fsdata s' = k_fsdata s
  /\ grows (k_fs s) (k_fs s') /\ pins (k_fs s) (k_fs s').
Class InodeLaws (W : Type) {V : Vfs W} {I : InodeOps W} : Prop := {
  iget_law : forall m d s, wp (iget m d) (fun r s' => keeps_inodes s s' /\ k_locks s' = k_locks s /\ k_mem s' = k_mem s /\
    match r with Ok i => k_refs s' = k_refs s ⊎ {[+ Ino i +]} | Err e => k_refs s' = k_refs s /\ e < 0 end) s;
  track_law : forall i s, Ino i ∈ k_refs s ->
    wp (track_pinned i) (fun err s' => keeps_inodes s s' /\ k_locks s' = k_locks s /\ k_mem s' = k_mem s
      /\ k_refs s' = if err =? 0 then k_refs s ∖ {[+ Ino i +]} else k_refs s) s;
  track_plain_law : forall i s,
    wp (track_plain i) (fun err s' => keeps_inodes s s' /\ k_locks s' = k_locks s /\ k_mem s' = k_mem s
      /\ k_refs s' = k_refs s) s;
  (** They remove and move nothing, whatever they return. *)
  iget_grows : forall m d s r s', iget m d s = Some (r, s') -> grows (k_fs s) (k_fs s');
  track_grows : forall i s r s', track_pinned i s = Some (r, s') -> grows (k_fs s) (k_fs s')
}.

Section Operations.
Context {W : Type} {V : Vfs W} {I : InodeOps W}.
Variable version : Z.
Variable creator_cred : Z.

(** [d_inode(d)] where the code follows it. *)
Definition dir_inode (d : Z) : K W Z :=
  w ← fs_get; match d_inode w d with Some i => mret i | None => fault end.

(** [inode_lock(d_inode(d))] and its unlock. *)
Definition lock_dir (d : Z) : K W unit := i ← dir_inode d; inode_lock i.
Definition unlock_dir (d : Z) : K W unit := i ← dir_inode d; inode_unlock i.

(** [smoothfs_set_lower_dentry]: the reference of [d_fsdata] is its own. *)
Definition set_lower_dentry (d : Z) (lower : option Z) : K W unit := fun s =>
  Some (tt, s <| k_fsdata := match lower with Some l => <[d := l]> (k_fsdata s) | None => delete d (k_fsdata s) end |>).

(** Following a pointer to a dentry that nobody refers to any more faults. *)
Definition deref (d : Z) : K W unit := fun s =>
  if decide (Dent d ∈ k_refs s) then Some (tt, s)
  else if bool_decide (d ∈ (map_to_list (k_fsdata s)).*2) || d_pinned (k_fs s) d then Some (tt, s)
  else None.

(** ** Directories made by smoothfs itself *)

Definition smoothfs_placement_ensure_dir (parent : Z) : K W Z :=
  with_local (QSTR_INIT ".smoothfs") (fun name =>
    lock_dir parent ;;
    dir ← smoothfs_compat_lookup nop_mnt_idmap name parent;
    match dir with
    | Err e => unlock_dir parent ;; mret e
    | Ok dir =>
        w ← fs_get;
        if d_really_is_negative w dir then
          i ← dir_inode parent;
          new_dir ← smoothfs_compat_mkdir version nop_mnt_idmap i dir 448;
          match new_dir with
          | Err e => unlock_dir parent ;; mret e
          | Ok dir => dput dir ;; unlock_dir parent ;; mret 0
          end
        else dput dir ;; unlock_dir parent ;; mret 0
    end).

(** One component: the child and whether it was made here, with the directory
    unlocked again.  The buffers of the function are left out; when they cannot
    be allocated it takes the exit of the other errors. *)
Definition enter_child (idmap : Z) (cur : Z * Z) (c : string) : K W (result (Z * bool)) :=
  with_local (QSTR_INIT c) (fun qname =>
    lock_dir cur.2 ;;
    child ← smoothfs_compat_lookup nop_mnt_idmap qname cur.2;
    match child with
    | Err e => unlock_dir cur.2 ;; mret (Err e)
    | Ok child =>
        w ← fs_get;
        if d_really_is_negative w child then
          old ← override_creds creator_cred;
          i ← dir_inode cur.2;
          new_child ← smoothfs_compat_mkdir version idmap i child 493;
          revert_creds old ;;
          match new_child with
          | Err e => mret (Err e)
          | Ok child => unlock_dir cur.2 ;; mret (Ok (child, true))
          end
        else unlock_dir cur.2 ;; mret (Ok (child, false))
    end).

(** The loop of [smoothfs_materialize_parent_on_tier] over the components of
    the path, empty ones left out; [cur] is the path reached. *)
Fixpoint materialize (idmap : Z) (cur : Z * Z) (comps : list string) : K W (result (Z * Z)) :=
  match comps with
  | [] => mret (Ok cur)
  | c :: comps =>
      child ← enter_child idmap cur c;
      match child with
      | Err e => path_put (Some cur) ;; mret (Err e)
      | Ok (child, created) =>
          get_ref (Mnt cur.1) ;;
          w ← fs_get;
          if negb (d_is_dir w child) then path_put (Some (cur.1, child)) ;; path_put (Some cur) ;; mret (Err (- ENOTDIR))
          else
            err ← (if (created : bool) then
                     inode ← iget cur.1 child;
                     match inode with
                     | Err e => path_put (Some (cur.1, child)) ;; mret e
                     | Ok ino =>
                         err ← track_pinned ino;
                         if err =? 0 then mret 0
                         else put_ref (Ino ino) ;; path_put (Some (cur.1, child)) ;; mret err
                     end
                   else mret 0);
            if err =? 0 then path_put (Some cur) ;; materialize idmap (cur.1, child) comps
            else path_put (Some cur) ;; mret (Err err)
      end
  end.

Definition smoothfs_materialize_parent (idmap : Z) (root : Z * Z) (comps : list string) : K W (result (Z * Z)) :=
  path_get root ;; materialize idmap root comps.

(** ** New names *)

(** A lower entry that was made gets its smoothfs inode: the end of mknod,
    symlink, create and mkdir.  [d_instantiate] takes over the inode's reference. *)
Definition adopt (dentry mnt lower : Z) (track : Z -> K W Z) : K W Z :=
  get_ref (Mnt mnt) ;;
  inode ← iget mnt lower;
  path_put (Some (mnt, lower)) ;;
  match inode with
  | Err e => mret e
  | Ok ino =>
      err ← track ino;
      if err =? 0 then set_lower_dentry dentry (Some lower) ;; put_ref (Ino ino) ;; mret 0
      else put_ref (Ino ino) ;; mret err
  end.

(** [smoothfs_mknod_inner] and [smoothfs_symlink_inner]. *)
Definition make_held (dentry lower_parent mnt : Z) (make : Z -> Z -> K W Z) : K W Z :=
  lock_dir lower_parent ;;
  lower ← smoothfs_compat_lookup nop_mnt_idmap (d_name dentry) lower_parent;
  match lower with
  | Err e => unlock_dir lower_parent ;; mret e
  | Ok lower =>
      i ← dir_inode lower_parent;
      err ← make i lower;
      unlock_dir lower_parent ;;
      if negb (err =? 0) then dput lower ;; mret err
      else adopt dentry mnt lower (fun _ => mret 0)
  end.

Definition mknod_held (idmap dentry lower_parent mnt mode rdev : Z) : K W Z :=
  make_held dentry lower_parent mnt (fun i lower => smoothfs_compat_mknod version idmap i lower mode rdev).
Definition symlink_held (idmap dentry lower_parent mnt : Z) (symname : string) : K W Z :=
  make_held dentry lower_parent mnt (fun i lower => smoothfs_compat_symlink version idmap i lower symname).

Definition link_held (lower_old lower_parent : option Z) (dentry : Z) : K W Z :=
  match lower_old, lower_parent with
  | Some lower_old, Some lower_parent =>
      w ← fs_get;
      if negb (d_sb w lower_old =? d_sb w lower_parent) then mret (- EXDEV)
      else
        lock_dir lower_parent ;;
        lower ← smoothfs_compat_lookup nop_mnt_idmap (d_name dentry) lower_parent;
        match lower with
        | Err e => unlock_dir lower_parent ;; mret e
        | Ok lower =>
            i ← dir_inode lower_parent;
            err ← vfs_link lower_old nop_mnt_idmap i lower;
            unlock_dir lower_parent ;;
            if negb (err =? 0) then dput lower ;; mret err
            else set_lower_dentry dentry (Some lower) ;; dput lower ;; mret 0
        end
  | _, _ => mret (- ENOENT)
  end.

(** One tier of [smoothfs_create_inner], under the parent path found there: the
    error, and whether the next tier is to be tried. *)
Definition create_on (idmap dentry mode : Z) (excl : bool) (parent : Z * Z) : K W (Z * bool) :=
  lock_dir parent.2 ;;
  lower ← smoothfs_compat_lookup nop_mnt_idmap (d_name dentry) parent.2;
  match lower with
  | Err e => unlock_dir parent.2 ;; path_put (Some parent) ;; mret (e, false)
  | Ok lower =>
      old ← override_creds creator_cred;
      i ← dir_inode parent.2;
      err ← smoothfs_compat_create version idmap i lower mode excl;
      revert_creds old ;;
      unlock_dir parent.2 ;;
      if negb (err =? 0) then dput lower ;; path_put (Some parent) ;; mret (err, err =? - ENOSPC)
      else err ← adopt dentry parent.1 lower track_plain; path_put (Some parent) ;; mret (err, false)
  end.

(** One tier of [smoothfs_mkdir_inner]. *)
Definition mkdir_on (idmap dentry mode : Z) (parent : Z * Z) : K W (Z * bool) :=
  lock_dir parent.2 ;;
  lower ← smoothfs_compat_lookup nop_mnt_idmap (d_name dentry) parent.2;
  match lower with
  | Err e => unlock_dir parent.2 ;; path_put (Some parent) ;; mret (e, false)
  | Ok lower =>
      old ← override_creds creator_cred;
      i ← dir_inode parent.2;
      new_lower ← smoothfs_compat_mkdir version idmap i lower mode;
      revert_creds old ;;
      match new_lower with
      | Err e => path_put (Some parent) ;; mret (e, e =? - ENOSPC)
      | Ok lower =>
          unlock_dir parent.2 ;;
          err ← adopt dentry parent.1 lower track_plain; path_put (Some parent) ;; mret (err, false)
      end
  end.

(** The parent on a tier: made there when the tier is not the directory's own. *)
Definition tier_parent (idmap : Z) (own : Z * Z) (comps : list string) (tier : option (Z * Z)) : K W (result (Z * Z)) :=
  match tier with
  | Some root => smoothfs_materialize_parent idmap root comps
  | None => path_get own ;; mret (Ok own)
  end.

(** The loops of create and mkdir over the tiers that are tried. *)
Fixpoint on_tiers (idmap : Z) (own : Z * Z) (comps : list string) (attempt : Z * Z -> K W (Z * bool))
    (tiers : list (option (Z * Z))) (err : Z) : K W Z :=
  match tiers with
  | [] => mret err
  | t :: tiers =>
      parent ← tier_parent idmap own comps t;
      match parent with
      | Err e => if e =? - ENOSPC then on_tiers idmap own comps attempt tiers e else mret e
      | Ok p =>
          r ← attempt p;
          let '(err, next) := r in
          if (next : bool) then on_tiers idmap own comps attempt tiers err else mret err
      end
  end.

Definition create_held (idmap dentry mode : Z) (excl : bool) (own : Z * Z) (comps : list string)
    (tiers : list (option (Z * Z))) : K W Z :=
  on_tiers idmap own comps (create_on idmap dentry mode excl) tiers (- ENOSPC).
Definition mkdir_held (idmap dentry mode : Z) (own : Z * Z) (comps : list string)
    (tiers : list (option (Z * Z))) : K W Z :=
  on_tiers idmap own comps (mkdir_on idmap dentry mode) tiers (- ENOSPC).

(** ** Removal *)

(** [smoothfs_lower_dentry(dentry)]. *)
Definition lower_dentry (d : Z) : K W (option Z) := fun s => Some (k_fsdata s !! d, s).

(** [start_removing], the removal, [end_removing]. *)
Definition removing (lower : Z) (remove : Z -> Z -> K W Z) : K W (result Z) :=
  w ← fs_get;
  r ← start_removing (d_parent w lower) lower;
  match r with
  | (Err e, _) => mret (Err e)
  | (Ok rm, Some dir) =>
      err ← remove dir rm;
      smoothfs_compat_end_removing (Ok rm) (Some dir) ;; mret (Ok err)
  | (Ok _, None) => fault
  end.

(** [vfs_unlink], unless the inode has no link left. *)
Definition unlink_entry (dir rm : Z) : K W Z :=
  w ← fs_get;
  match d_inode w rm with
  | Some li => if i_nlink w li =? 0 then mret 0 else vfs_unlink nop_mnt_idmap dir rm
  | None => vfs_unlink nop_mnt_idmap dir rm
  end.

(** The end of unlink and rmdir: [d_fsdata] is dropped, then the attributes are
    copied from [d_inode(lower->d_parent)]. *)
Definition forget_lower (dentry lower : Z) : K W unit :=
  set_lower_dentry dentry None ;; deref lower.

(** [after]: what [smoothfs_forget_placement] does to the lower filesystems. *)
Definition remove_held (dentry : Z) (remove : Z -> Z -> K W Z) (after : K W unit) : K W Z :=
  lower ← lower_dentry dentry;
  match lower with
  | None => mret (- ENOENT)
  | Some lower =>
      r ← removing lower remove;
      let err : Z := match r with Err e => if e =? - ENOENT then 0 else e | Ok err => err end in
      if err =? 0 then forget_lower dentry lower ;; after ;; mret 0 else mret err
  end.
(** ** Names on one tier (super.c)

    [resolve] and the like are the lookups of the parent directories, which return
    a path with references to it. *)

Definition remove_in (parent : Z * Z) (name : string) (fits : W -> Z -> bool) (misfit : Z) (remove : Z -> Z -> K W Z)
    : K W Z :=
  with_local (QSTR_INIT name) (fun qname =>
    lock_dir parent.2 ;;
    lower ← smoothfs_compat_lookup nop_mnt_idmap qname parent.2;
    err ← match lower with
          | Err e => mret e
          | Ok lower =>
              w ← fs_get;
              if d_really_is_negative w lower then dput lower ;; mret 0
              else if negb (fits w lower) then dput lower ;; mret misfit
              else i ← dir_inode parent.2; err ← remove i lower; dput lower ;; mret err
          end;
    unlock_dir parent.2 ;; path_put (Some parent) ;; mret err).

Definition unlink_rel_held (resolve : K W (result (Z * Z))) (name : string) : K W Z :=
  r ← resolve;
  match r with
  | Err e => mret e
  | Ok parent => remove_in parent name d_is_reg (- EISDIR) (vfs_unlink nop_mnt_idmap)
  end.

Definition rmdir_rel_held (resolve : K W (result (Z * Z))) (name : string) : K W Z :=
  r ← resolve;
  match r with
  | Err e => mret (if e =? - ENOENT then 0 else e)
  | Ok parent =>
      w ← fs_get;
      if d_really_is_negative w parent.2 then path_put (Some parent) ;; mret 0
      else remove_in parent name d_is_dir (- ENOTDIR) (smoothfs_compat_rmdir version nop_mnt_idmap)
  end.

Definition rename_rel_held (resolve_old resolve_new : K W (result (Z * Z))) (o_name n_name : string) : K W Z :=
  op ← resolve_old;
  match op with
  | Err e => mret (if e =? - ENOENT then 0 else e)
  | Ok op =>
      w ← fs_get;
      err ← (if d_really_is_negative w op.2 then mret 0
             else
               np ← resolve_new;
               match np with
               | Err e => mret (if e =? - ENOENT then 0 else e)
               | Ok np =>
                   w ← fs_get;
                   err ← (if d_really_is_negative w np.2 then mret 0
                          else rename_names version nop_mnt_idmap op.2 o_name np.2 n_name);
                   path_put (Some np) ;; mret err
               end);
      path_put (Some op) ;; mret err
  end.

(** Nothing to do on the lower filesystems once the name of a file is gone. *)
Definition unlink_held (dentry : Z) : K W Z := remove_held dentry unlink_entry (mret tt).

(** [smoothfs_forget_placement] of a directory: the copies at its path on the
    active tiers, [spills] being the lookups of their parents there; none when
    the path is not known. *)
Fixpoint rmdir_spills (spills : list (K W (result (Z * Z)))) (name : string) : K W unit :=
  match spills with
  | [] => mret tt
  | resolve :: spills => rmdir_rel_held resolve name ;; rmdir_spills spills name
  end.
Definition rmdir_held (dentry : Z) (spills : list (K W (result (Z * Z)))) (name : string) : K W Z :=
  remove_held dentry (fun dir rm => smoothfs_compat_rmdir version nop_mnt_idmap dir rm) (rmdir_spills spills name).

Definition drop_stale_held (stale_lower : Z) : K W unit := removing stale_lower unlink_entry ;; mret tt.

(** ** Rename *)

(** [flags & f]. *)
Definition has_flags (flags f : Z) : bool := negb (Z.land flags f =? 0).

(** The tiers are their roots, each with whether it is active.  The first whose
    root is on superblock [sb], and the roots of the other active ones. *)
Definition active_roots (tiers : list (Z * Z * bool)) : list (Z * Z) := (filter (fun t => t.2 = true) tiers).*1.
Fixpoint source_tier (w : W) (sb : Z) (tiers : list (Z * Z * bool)) : option (Z * Z * list (Z * Z)) :=
  match tiers with
  | [] => None
  | (root, active) :: ts =>
      if d_sb w root.2 =? sb then Some (root, active_roots ts)
      else match source_tier w sb ts with
           | Some (r, others) => Some (r, if (active : bool) then root :: others else others)
           | None => None
           end
  end.

(** Where the rename takes place: the lower target if it is known, the lower
    parents, the target that goes stale and the parent that was made, the last
    two with references. *)
Record rename_at := RenameAt {
  ra_lower_new : option Z; ra_old_parent : Z; ra_new_parent : Z; ra_stale : option Z; ra_mat : option (Z * Z)
}.

(** A target on another tier: refused, or kept for later with a reference. *)
Definition stash (flags refused ln : Z) : K W (result (option Z)) :=
  w ← fs_get;
  if d_really_is_negative w ln then mret (Ok None)
  else if d_is_dir w ln || has_flags flags refused then mret (Err (- EXDEV))
  else if has_flags flags RENAME_NOREPLACE then mret (Err (- EEXIST))
  else dget ln ;; mret (Ok (Some ln)).

(** Same directory: a target on another tier is no longer the dentry's. *)
Definition same_dir_target (new_dentry flags : Z) (old_parent lower_new : option Z) : K W (result (option Z * option Z)) :=
  match lower_new, old_parent with
  | None, _ => mret (Ok (None, None))
  | Some _, None => fault
  | Some ln, Some op =>
      w ← fs_get;
      if d_sb w ln =? d_sb w op then mret (Ok (lower_new, None))
      else
        stale ← stash flags (RENAME_EXCHANGE + RENAME_WHITEOUT) ln;
        match stale with
        | Err e => mret (Err e)
        | Ok stale => set_lower_dentry new_dentry None ;; mret (Ok (None, stale))
        end
  end.

(** The parent's chain on every other active tier, for what is there of it. *)
Fixpoint premake (idmap : Z) (comps : list string) (roots : list (Z * Z)) : K W unit :=
  match roots with
  | [] => mret tt
  | root :: roots =>
      tmp ← smoothfs_materialize_parent idmap root comps;
      match tmp with Ok p => path_put (Some p) | Err _ => mret tt end ;;
      premake idmap comps roots
  end.

(** Another directory on another superblock: the new parent is made on the
    source's tier.  [parent_rel] is its path, when it could be rendered. *)
Definition cross_tier (idmap new_dentry flags : Z) (is_dir : bool) (old_parent : Z) (lower_new : option Z)
    (tiers : list (Z * Z * bool)) (parent_rel : option (list string)) : K W (result rename_at) :=
  w ← fs_get;
  if has_flags flags (RENAME_EXCHANGE + RENAME_WHITEOUT) then mret (Err (- EXDEV))
  else
    match source_tier w (d_sb w old_parent) tiers with
    | None => mret (Err (- EXDEV))
    | Some (root, others) =>
        stale ← match lower_new with Some ln => stash flags 0 ln | None => mret (Ok None) end;
        match stale with
        | Err e => mret (Err e)
        | Ok stale =>
            match parent_rel with
            | None => dput_opt stale ;; mret (Err (- ENOMEM))
            | Some comps =>
                mat ← smoothfs_materialize_parent idmap root comps;
                match mat with
                | Err e => dput_opt stale ;; mret (Err e)
                | Ok p =>
                    (if is_dir then premake idmap comps others else mret tt) ;;
                    set_lower_dentry new_dentry None ;;
                    mret (Ok (RenameAt None old_parent p.2 stale (Some p)))
                end
            end
        end
    end.

(** [smoothfs_rename_inner] up to the point where the lower parents are chosen. *)
Definition choose_held (idmap new_dentry flags : Z) (same_dir is_dir : bool)
    (lower_old_parent lower_new_parent lower_old lower_new : option Z)
    (tiers : list (Z * Z * bool)) (parent_rel : option (list string)) : K W (result rename_at) :=
  w ← fs_get;
  let old_parent := match lower_old with Some lo => Some (d_parent w lo) | None => lower_old_parent end in
  target ← (if same_dir then same_dir_target new_dentry flags old_parent lower_new else mret (Ok (lower_new, None)));
  match target with
  | Err e => mret (Err e)
  | Ok (lower_new, stale) =>
      match old_parent, (if same_dir then old_parent else lower_new_parent) with
      | Some op, Some np =>
          if negb (d_sb w op =? d_sb w np)
          then cross_tier idmap new_dentry flags is_dir op lower_new tiers parent_rel
          else match lower_old, lower_new with
               | Some lo, Some ln => if negb (d_sb w lo =? d_sb w ln) then mret (Err (- EXDEV))
                                     else mret (Ok (RenameAt lower_new op np stale None))
               | _, _ => mret (Ok (RenameAt lower_new op np stale None))
               end
      | _, _ => fault
      end
  end.

(** [smoothfs_rename_spill_tiers]: the copies of a directory on the active tiers. *)
Fixpoint rename_spills (spills : list (K W (result (Z * Z)) * K W (result (Z * Z)))) (o_name n_name : string) : K W unit :=
  match spills with
  | [] => mret tt
  | (resolve_old, resolve_new) :: spills =>
      rename_rel_held resolve_old resolve_new o_name n_name ;; rename_spills spills o_name n_name
  end.

(** The rename once the parents are chosen.  A source without a lower dentry is
    followed. *)
Definition rename_move (idmap old_dentry new_dentry flags : Z) (lower_old : option Z) (at_ : rename_at)
    (after : K W unit) : K W Z :=
  let lower_new := ra_lower_new at_ in
  match lower_new with Some n => dget n | None => mret tt end ;;
  let rd := rd_zero <| rd_mnt_idmap := idmap |> <| rd_old_parent := Some (ra_old_parent at_) |>
              <| rd_new_parent := Some (ra_new_parent at_) |> <| rd_flags := flags |> in
  match lower_old with
  | None => fault
  | Some lower_old =>
      r ← start_rename version rd lower_old lower_new (d_name new_dentry);
      let '(err, rd) := r in
      if negb (err =? 0) then dput_opt lower_new ;; path_put (ra_mat at_) ;; mret err
      else
        err ← vfs_rename rd;
        smoothfs_compat_finish_rename version rd ;;
        if negb (err =? 0) then dput_opt lower_new ;; dput_opt (ra_stale at_) ;; path_put (ra_mat at_) ;; mret err
        else
          set_lower_dentry old_dentry (Some lower_old) ;; set_lower_dentry new_dentry None ;;
          dput_opt lower_new ;;
          match ra_stale at_ with Some st => drop_stale_held st ;; dput st | None => mret tt end ;;
          after ;; path_put (ra_mat at_) ;; mret 0
  end.

(** [smoothfs_rename_inner]; [old_pd] and [new_pd] are the parents of the two
    dentries.  [spills] is empty when a path could not be rendered. *)
Definition rename_held (idmap old_pd old_dentry new_pd new_dentry flags : Z) (tiers : list (Z * Z * bool))
    (parent_rel : option (list string)) (spills : list (K W (result (Z * Z)) * K W (result (Z * Z))))
    (o_name n_name : string) : K W Z :=
  lower_old_parent ← lower_dentry old_pd;
  lower_new_parent ← lower_dentry new_pd;
  lower_old ← lower_dentry old_dentry;
  lower_new ← lower_dentry new_dentry;
  w ← fs_get;
  let is_dir := match lower_old with Some lo => d_is_dir w lo | None => false end in
  c ← choose_held idmap new_dentry flags (old_pd =? new_pd) is_dir lower_old_parent lower_new_parent lower_old lower_new
        tiers parent_rel;
  match c with
  | Err e => mret e
  | Ok at_ => rename_move idmap old_dentry new_dentry flags lower_old at_
                (if is_dir then rename_spills spills o_name n_name else mret tt)
  end.

(** ** Sidecar files *)

Definition range_unlink_held (parent : Z) (name : string) : K W Z :=
  with_local (QSTR_INIT name) (fun qname =>
    lock_dir parent ;;
    child ← smoothfs_compat_lookup nop_mnt_idmap qname parent;
    match child with
    | Err e => unlock_dir parent ;; mret (if e =? - ENOENT then 0 else e)
    | Ok child =>
        w ← fs_get;
        err ← (if d_really_is_negative w child then mret 0
               else i ← dir_inode parent; err ← vfs_unlink nop_mnt_idmap i child;
                    mret (if err =? - ENOENT then 0 else err));
        dput child ;; unlock_dir parent ;; mret err
    end).

(** From the label [out_unlock] of [smoothfs_range_rename_meta]. *)
Definition rename_meta_out (dir : Z * Z) (old new : option Z) (err : Z) : K W Z :=
  dput_opt new ;; dput_opt old ;; unlock_dir dir.2 ;; path_put (Some dir) ;; mret err.

Definition range_rename_held (dir : Z * Z) (tmp_base final_base : string) : K W Z :=
  with_local (QSTR_INIT tmp_base) (fun old_qname => with_local (QSTR_INIT final_base) (fun new_qname =>
    lock_dir dir.2 ;;
    old ← smoothfs_compat_lookup nop_mnt_idmap old_qname dir.2;
    match old with
    | Err e => rename_meta_out dir None None e
    | Ok old =>
        w ← fs_get;
        if d_really_is_negative w old then rename_meta_out dir (Some old) None (- ENOENT)
        else
          new ← smoothfs_compat_lookup nop_mnt_idmap new_qname dir.2;
          match new with
          | Err e => rename_meta_out dir (Some old) None e
          | Ok new =>
              err ← vfs_rename (smoothfs_compat_init_renamedata nop_mnt_idmap dir.2 old dir.2 new 0);
              rename_meta_out dir (Some old) (Some new) err
          end
    end)).

(** The stage file of a replayed sidecar: the opened file is closed again, its path
    is kept.  [alloc]: the name could be allocated; [opened]: what the open returns. *)
Definition smoothfs_range_open_stage (alloc : bool) (opened : result (Z * Z)) : K W (result (Z * Z)) :=
  if negb alloc then mret (Err (- ENOMEM))
  else
    match opened with
    | Err e => mret (Err e)
    | Ok p => path_get p ;; path_get p ;; path_put (Some p) ;; mret (Ok p)
    end.

(** ** Symbolic links and dying dentries *)

(** No dentry: the walk is in RCU mode and must be repeated. *)
Definition smoothfs_get_link {A} (dentry : option Z) (vfs_get_link : Z -> K W (result A)) : K W (result A) :=
  match dentry with
  | None => mret (Err (- ECHILD))
  | Some d =>
      lower ← lower_dentry d;
      match lower with Some l => vfs_get_link l | None => mret (Err (- EINVAL)) end
  end.

(** A dentry that is freed puts the reference of its [d_fsdata]. *)
Definition smoothfs_d_release (dentry : Z) : K W unit :=
  lower ← lower_dentry dentry;
  match lower with Some _ => set_lower_dentry dentry None | None => mret tt end.

(** ** The operations the VFS calls: the mounter's credentials around each *)

Definition privileged {A} (inner : K W A) : K W A :=
  old ← override_creds creator_cred; r ← inner; revert_creds old ;; mret r.

Definition smoothfs_lookup {A} (lookup_inner : K W A) : K W A := privileged lookup_inner.
Definition smoothfs_setattr (setattr_inner : K W Z) : K W Z := privileged setattr_inner.
Definition smoothfs_build_dir_cache (build_inner : K W Z) : K W Z := privileged build_inner.
Definition smoothfs_mknod (idmap dentry lower_parent mnt mode rdev : Z) : K W Z :=
  privileged (mknod_held idmap dentry lower_parent mnt mode rdev).
Definition smoothfs_symlink (idmap dentry lower_parent mnt : Z) (symname : string) : K W Z :=
  privileged (symlink_held idmap dentry lower_parent mnt symname).
Definition smoothfs_link (lower_old lower_parent : option Z) (dentry : Z) : K W Z :=
  privileged (link_held lower_old lower_parent dentry).
Definition smoothfs_create (idmap dentry mode : Z) (excl : bool) (own : Z * Z) (comps : list string)
    (tiers : list (option (Z * Z))) : K W Z :=
  privileged (create_held idmap dentry mode excl own comps tiers).
Definition smoothfs_mkdir (idmap dentry mode : Z) (own : Z * Z) (comps : list string)
    (tiers : list (option (Z * Z))) : K W Z :=
  privileged (mkdir_held idmap dentry mode own comps tiers).
Definition smoothfs_unlink (dentry : Z) : K W Z := privileged (unlink_held dentry).
Definition smoothfs_rmdir (dentry : Z) (spills : list (K W (result (Z * Z)))) (name : string) : K W Z :=
  privileged (rmdir_held dentry spills name).
Definition smoothfs_rename (idmap old_pd old_dentry new_pd new_dentry flags : Z) (tiers : list (Z * Z * bool))
    (parent_rel : option (list string)) (spills : list (K W (result (Z * Z)) * K W (result (Z * Z))))
    (o_name n_name : string) : K W Z :=
  privileged (rename_held idmap old_pd old_dentry new_pd new_dentry flags tiers parent_rel spills o_name n_name).
End Operations.
Arguments rename_meta_out : simpl never.
