(* ===== verification/Balance.v ===== *)
(** * The operations leave nothing behind

    On every path of the operations of [Discipline], errors included, the call
    returns without a fault and leaves the locks, references, credentials and
    names as it found them; only [d_fsdata] of the dentries it works on changes.
    The proofs are against the interfaces [VfsLaws] and [InodeLaws], so they hold
    for both kernels and whatever the lower filesystems return.  The exceptions
    are shown by evaluation at the end of the file: a failed mkdir of the placement
    directory is unlocked twice, a rename that cannot be started keeps a
    reference, one of a source without a lower dentry faults, the name of a
    rename's target is hashed anew on 6.19, and removing the second name of a
    file follows a dentry that is already put. *)
From S2P Require Import Prelude KernelObjects Compat Discipline.
Set Warnings "-clear-no-such-hyp".
Open Scope Z_scope.

(** The fields of [inside] and [outside] (below) from equations of the context. *)
Ltac chain_pins := first [done | eassumption | etransitivity; [eassumption|]; chain_pins].
Ltac frame := split; cbn in *; try congruence; try done; try solve [chain_pins].

Section Balance.
Context {W : Type} {V : Vfs W} {I : InodeOps W} {LV : VfsLaws W} {LI : InodeLaws W}.
Variable version : Z.
Variable creator_cred : Z.
Implicit Types (s : kstate W).

Lemma wp_dir_inode d i (Q : Z -> kstate W -> Prop) s : d_inode (k_fs s) d = Some i -> Q i s -> wp (dir_inode d) Q s.
Proof. intros Hd HQ. unfold dir_inode. kstep. kstep. rewrite Hd. by kstep. Qed.

(** [inside s0 p i R s]: the call that held what [s0] says has locked the
    directory [p], whose inode is [i], and holds the references [R]. *)
Record inside s0 (p i : Z) (R : gmultiset obj) s : Prop := {
  in_cred : k_cred s = k_cred s0;
  in_fsdata : k_fsdata s = k_fsdata s0;
  in_mem : k_mem s = k_mem s0;
  in_locks : k_locks s = {[i]} ∪ k_locks s0;
  in_refs : k_refs s = R;
  in_inode : d_inode (k_fs s) p = Some i;
  in_pins : pins (k_fs s0) (k_fs s)
}.

(** The same with the directory unlocked. *)
Record outside s0 (R : gmultiset obj) s : Prop := {
  out_cred : k_cred s = k_cred s0;
  out_fsdata : k_fsdata s = k_fsdata s0;
  out_mem : k_mem s = k_mem s0;
  out_locks : k_locks s = k_locks s0;
  out_refs : k_refs s = R;
  out_pins : pins (k_fs s0) (k_fs s)
}.

Lemma outside_same s0 s : outside s0 (k_refs s0) s -> same s0 s.
Proof. by intros [H1 H2 H3 H4 H5 _]. Qed.

Lemma wp_lock_dir p i (Q : unit -> kstate W -> Prop) s : d_inode (k_fs s) p = Some i -> i ∉ k_locks s ->
  (forall s', k_fs s' = k_fs s -> inside s p i (k_refs s) s' -> Q tt s') -> wp (lock_dir p) Q s.
Proof. intros Hp Hi HQ. unfold lock_dir. kstep. apply (wp_dir_inode _ i); [done|]. kstep. by apply HQ. Qed.

Lemma wp_unlock_dir s0 p i R (Q : unit -> kstate W -> Prop) s : inside s0 p i R s -> i ∉ k_locks s0 ->
  (forall s', k_fs s' = k_fs s -> outside s0 R s' -> Q tt s') -> wp (unlock_dir p) Q s.
Proof.
  intros [H1 H2 H3 H4 H5 H6 HP] Hi HQ. unfold unlock_dir. kstep. apply (wp_dir_inode _ i); [done|]. kstep.
  apply HQ; [done|]. split; try done. cbn. rewrite H4. by apply unlock_again.
Qed.

(** A VFS function that keeps the lock keeps the directory. *)
Lemma inside_calm s0 p i R s s' : inside s0 p i R s -> calm_fs s s' -> k_mem s' = k_mem s -> k_locks s' = k_locks s ->
  inside s0 p i (k_refs s') s'.
Proof.
  intros [H1 H2 H3 H4 H5 H6 HP] C HM HL. destruct C as (C1 & C2 & C3 & CP). frame.
  apply C3; [done|]. rewrite H4. set_solver.
Qed.

Lemma inside_lookup idmap a q s0 p i R s : inside s0 p i R s -> k_mem s0 !! a = Some q ->
  wp (smoothfs_compat_lookup idmap a p) (fun r s' =>
    inside s0 p i (match r with Ok d => R ⊎ {[+ Dent d +]} | Err _ => R end) s'
    /\ match r with Ok d => d_parent (k_fs s') d = p | Err e => e < 0 end) s.
Proof.
  intros Hin Ha. pose proof Hin as [H1 H2 H3 H4 H5 H6 HP].
  eapply wp_mono; [eapply lookup_spec; [exact H6|rewrite H4; set_solver|by rewrite H3]|].
  intros r s' (C & HL & HM & _ & H). pose proof (inside_calm _ _ _ _ _ _ Hin C HM HL) as Hin'.
  destruct r as [e|d]; destruct H as [HR H]; (split; [|exact H]); rewrite <- H5, <- HR; done.
Qed.

Lemma inside_mkdir idmap mode s0 p i R s d : inside s0 p i (R ⊎ {[+ Dent d +]}) s -> i ∉ k_locks s0 ->
  wp (smoothfs_compat_mkdir version idmap i d mode) (fun r s' =>
    match r with
    | Ok n => inside s0 p i (R ⊎ {[+ Dent n +]}) s'
    | Err _ => outside s0 R s' /\ d_inode (k_fs s') p = Some i
    end) s.
Proof.
  intros Hin Hi. pose proof Hin as [H1 H2 H3 H4 H5 H6 HP].
  eapply wp_mono; [eapply mkdir_spec; [rewrite H4; set_solver|rewrite H5; multiset_solver]|].
  intros r s' (C & HM & H). destruct r as [e|n]; destruct H as [HR HL].
  - destruct C as (C1 & C2 & C3 & CP). split; [|apply C3; [done|rewrite H4; set_solver]]. frame.
    + rewrite HL, H4. by apply unlock_again.
    + rewrite HR, H5. apply put_again.
  - pose proof (inside_calm _ _ _ _ _ _ Hin C HM HL) as Hin'. rewrite HR, H5, put_again in Hin'. done.
Qed.

Lemma inside_dput s0 p i R R' d (Q : unit -> kstate W -> Prop) s : inside s0 p i R s -> R = R' ⊎ {[+ Dent d +]} ->
  (forall s', k_fs s' = k_fs s -> inside s0 p i R' s' -> Q tt s') -> wp (dput d) Q s.
Proof.
  intros [H1 H2 H3 H4 H5 H6 HP] -> HQ. kstep. apply HQ; [done|]. split; try done. cbn. rewrite H5. apply put_again.
Qed.

Lemma outside_local s0 a q R s : k_mem s0 !! a = None -> outside (s0 <| k_mem := <[a := q]> (k_mem s0) |>) R s ->
  outside s0 R (s <| k_mem := delete a (k_mem s) |>).
Proof. intros Ha [H1 H2 H3 H4 H5 HP]. split; try done. cbn in *. rewrite H3. by apply delete_insert_id. Qed.

(** Locking a directory and looking up a name of one's own in it. *)
Lemma lock_and_lookup {A} (k : result Z -> K W A) idmap a q p i (Q : A -> kstate W -> Prop) s :
  d_inode (k_fs s) p = Some i -> i ∉ k_locks s -> k_mem s !! a = Some q ->
  (forall r s', inside s p i (match r with Ok d => k_refs s ⊎ {[+ Dent d +]} | Err _ => k_refs s end) s' ->
     match r with Ok d => d_parent (k_fs s') d = p | Err e => e < 0 end -> wp (k r) Q s') ->
  wp (lock_dir p ;; smoothfs_compat_lookup idmap a p ≫= k) Q s.
Proof.
  intros Hp Hi Ha HQ. kstep. eapply wp_lock_dir; [exact Hp|exact Hi|]. intros s1 _ H1.
  eapply wp_bind_law; [exact (inside_lookup _ _ _ _ _ _ _ _ H1 Ha)|]. intros r s2 [H2 H3]. by apply HQ.
Qed.

Lemma enter_child_spec idmap cur c i s : d_inode (k_fs s) cur.2 = Some i -> i ∉ k_locks s ->
  wp (enter_child version creator_cred idmap cur c) (fun r s' =>
    outside s (match r with Ok (d, _) => k_refs s ⊎ {[+ Dent d +]} | Err _ => k_refs s end) s') s.
Proof.
  intros Hi Hl. unfold enter_child. apply wp_local. intros a Ha.
  set (s1 := s <| k_mem := <[a := QSTR_INIT c]> (k_mem s) |>).
  assert (k_mem s1 !! a = Some (QSTR_INIT c)) as Ea by (cbn; by rewrite lookup_insert_eq).
  eapply (lock_and_lookup _ _ _ _ _ i); [exact Hi|exact Hl|exact Ea|]. intros r s2 H2 _. destruct r as [e|d].
  { kstep. eapply wp_unlock_dir; [exact H2|done|]. intros s3 _ H3. kstep. by eapply outside_local. }
  kstep. kstep. destruct (d_really_is_negative (k_fs s2) d).
  - kstep. kstep. set (s3 := s2 <| k_cred := creator_cred |>).
    kstep. apply (wp_dir_inode _ i); [apply (in_inode _ _ _ _ _ H2)|].
    assert (inside (s1 <| k_cred := creator_cred |>) cur.2 i (k_refs s ⊎ {[+ Dent d +]}) s3) as H3
      by (destruct H2; by split).
    eapply wp_bind_law; [exact (inside_mkdir _ _ _ _ _ _ _ _ H3 Hl)|]. intros r s4 H4. kstep. kstep. cbn.
    pose proof (in_cred _ _ _ _ _ H2) as Hc. destruct r as [e|n].
    + kstep. eapply (outside_local _ a); [exact Ha|]. destruct H4 as [[] _]. by split.
    + assert (inside s1 cur.2 i (k_refs s ⊎ {[+ Dent n +]}) (s4 <| k_cred := k_cred s2 |>)) as H5
        by (destruct H4; by split).
      kstep. eapply wp_unlock_dir; [exact H5|done|]. intros s6 _ H6. kstep. by eapply outside_local.
  - kstep. eapply wp_unlock_dir; [exact H2|done|]. intros s3 _ H3. kstep. by eapply outside_local.
Qed.

(** References of a path, and putting them. *)
Definition path_refs (p : Z * Z) : gmultiset obj := {[+ Mnt p.1; Dent p.2 +]}.

Lemma wp_path_put s0 p R (Q : unit -> kstate W -> Prop) s : outside s0 (R ⊎ path_refs p) s ->
  (forall s', k_fs s' = k_fs s -> outside s0 R s' -> Q tt s') -> wp (path_put (Some p)) Q s.
Proof.
  intros [H1 H2 H3 H4 H5 HP] HQ. destruct p as [m d]. unfold path_refs in H5. cbn [fst snd] in H5. unfold path_put. kstep. kstep. kstep.
  apply HQ; [done|]. split; try done. cbn. rewrite H5. multiset_solver.
Qed.

Lemma outside_trans s0 R1 s1 R s : outside s0 R1 s1 -> outside s1 R s -> outside s0 R s.
Proof. intros [H1 H2 H3 H4 _ HP] [G1 G2 G3 G4 G5 GP]. frame. Qed.

(** The bookkeeping of a directory that was just made: its inode is pinned, or
    everything that was taken for it is put. *)
Lemma track_child_spec s0 R (m d : Z) s : outside s0 (R ⊎ path_refs (m, d)) s ->
  wp (inode ← iget m d;
      match inode with
      | Err e => path_put (Some (m, d)) ;; mret e
      | Ok ino =>
          err ← track_pinned ino;
          if err =? 0 then mret 0 else put_ref (Ino ino) ;; path_put (Some (m, d)) ;; mret err
      end)
    (fun err s' => outside s0 (if err =? 0 then R ⊎ path_refs (m, d) else R) s'
      /\ grows (k_fs s) (k_fs s')) s.
Proof.
  intros H. eapply wp_bind_law; [apply iget_law|]. intros r s1 ((C1 & C2 & C3 & CP) & HL & HM & HR).
  pose proof H as [H1 H2 H3 H4 H5 HP]. destruct r as [e|ino].
  - destruct HR as [HR He]. kstep. apply (wp_path_put s0 (m, d) R).
    { frame. }
    intros s2 Hf H6. kstep. rewrite Hf. split; [|exact C3]. by destruct (Z.eqb_spec e 0); [lia|].
  - eapply wp_bind_law; [apply track_law; rewrite HR; multiset_solver|].
    intros err s2 ((D1 & D2 & D3 & DP) & GL & GM & GR). rewrite HR, H5, put_again in GR.
    destruct (Z.eqb_spec err 0) as [->|E].
    + kstep. cbn. split; [frame|]. by etransitivity.
    + kstep. kstep. kstep.
      eapply (wp_path_put s0 (m, d) R). { frame. rewrite GR. apply put_again. }
      intros s3 Hf H6. kstep. rewrite Hf. destruct (Z.eqb_spec err 0); [done|]. split; [done|]. by etransitivity.
Qed.

Lemma materialize_spec idmap comps : forall cur i R s, k_locks s = ∅ -> d_inode (k_fs s) cur.2 = Some i ->
  k_refs s = (R ⊎ path_refs cur) ->
  wp (materialize version creator_cred idmap cur comps) (fun r s' =>
    outside s (match r with Ok p => R ⊎ path_refs p | Err _ => R end) s'
    /\ match r with Ok p => is_Some (d_inode (k_fs s') p.2) | Err _ => True end) s.
Proof.
  induction comps as [|c comps IH]; intros cur i R s HL Hi HR; cbn [materialize]; [kstep; split; [done|by eexists]|].
  eapply wp_bind_law; [eapply enter_child_spec; [exact Hi|rewrite HL; set_solver]|]. intros r s1 H1.
  destruct r as [e|[child created]]; rewrite HR in H1.
  { kstep. eapply wp_path_put; [exact H1|]. intros s2 _ H2. by kstep. }
  kstep. kstep. kstep. kstep.
  set (s2 := KState _ _ _ _ _ _).
  assert (outside s (R ⊎ path_refs cur ⊎ path_refs (cur.1, child)) s2) as H2.
  { destruct H1 as [A1 A2 A3 A4 A5 AP]. split; try done. subst s2. cbn. rewrite A5. unfold path_refs. multiset_solver. }
  change (k_fs s1) with (k_fs s2). destruct (d_is_dir (k_fs s2) child) eqn:Hd; cbn [negb].
  2: { kstep. eapply wp_path_put; [exact H2|]. intros s3 _ H3. kstep. eapply wp_path_put; [exact H3|]. intros s4 _ H4.
       by kstep. }
  apply is_dir_law in Hd as [j Hj].
  eapply (wp_bind_law _ _ (fun err s' => outside s (if err =? 0 then R ⊎ path_refs cur ⊎ path_refs (cur.1, child)
            else R ⊎ path_refs cur) s' /\ d_inode (k_fs s') child = Some j)).
  { destruct created; [|by kstep]. eapply wp_mono; [by apply track_child_spec|]. intros err s3 [H3 H4].
    split; [done|]. by apply H4. }
  intros err s3 [H3 Hj3]. destruct (err =? 0).
  - kstep. eapply (wp_path_put s cur (R ⊎ path_refs (cur.1, child))).
    { destruct H3 as [A1 A2 A3 A4 A5 AP]. split; try done. rewrite A5. multiset_solver. }
    intros s4 Hf H4. eapply wp_mono.
    { apply (IH (cur.1, child) j R); [rewrite (out_locks _ _ _ H4); exact HL|by rewrite Hf|apply (out_refs _ _ _ H4)]. }
    intros r s5 [H5 Hp]. split; [by eapply outside_trans|done].
  - kstep. eapply wp_path_put; [exact H3|]. intros s4 _ H4. by kstep.
Qed.

(** Making directories removes and moves nothing. *)
Definition growing {A} (m : K W A) : Prop := forall s a s', m s = Some (a, s') -> grows (k_fs s) (k_fs s').

Lemma growing_bind {A B} (m : K W A) (k : A -> K W B) : growing m -> (forall a, growing (k a)) -> growing (m ≫= k).
Proof.
  intros Hm Hk s b s'. unfold mbind, K_bind. destruct (m s) as [[a s1]|] eqn:E; [|done]. intros E'.
  etransitivity; [exact (Hm _ _ _ E)|exact (Hk a _ _ _ E')].
Qed.
Lemma growing_ret {A} (a : A) : growing (mret a).
Proof. by intros s b s' [= _ <-]. Qed.
Lemma growing_fs : growing (@fs_get W).
Proof. by intros s b s' [= _ <-]. Qed.
Lemma growing_get o : growing (get_ref o).
Proof. by intros s b s' [= _ <-]. Qed.
Lemma growing_put o : growing (put_ref o).
Proof. intros s b s'. unfold put_ref. destruct (decide _); [|done]. by intros [= _ <-]. Qed.
Lemma growing_path_put p : growing (path_put p).
Proof. destruct p as [[m d]|]; [|apply growing_ret]. apply growing_bind; [apply growing_put|]. intros _. apply growing_put. Qed.
Lemma growing_lock i : growing (inode_lock i).
Proof. intros s b s'. unfold inode_lock. destruct (decide _); [done|]. by intros [= _ <-]. Qed.
Lemma growing_unlock i : growing (inode_unlock i).
Proof. intros s b s'. unfold inode_unlock. destruct (decide _); [|done]. by intros [= _ <-]. Qed.
Lemma growing_override c : growing (override_creds c).
Proof. by intros s b s' [= _ <-]. Qed.
Lemma growing_revert c : growing (revert_creds c).
Proof. by intros s b s' [= _ <-]. Qed.
Lemma growing_load a : growing (load a).
Proof. intros s b s'. unfold load. destruct (k_mem s !! a); [|done]. by intros [= _ <-]. Qed.
Lemma growing_local {A} q (body : Z -> K W A) : (forall a, growing (body a)) -> growing (with_local q body).
Proof.
  intros Hb s r s'. unfold with_local. destruct (body _ _) as [[x s1]|] eqn:E; [|done]. intros [= _ <-]. exact (Hb _ _ _ _ E).
Qed.
Lemma growing_dir_inode d : growing (dir_inode d).
Proof.
  apply growing_bind; [apply growing_fs|]. intros w. destruct (d_inode w d); [apply growing_ret|]. by intros s a s' E.
Qed.
Lemma growing_lookup idmap a p : growing (smoothfs_compat_lookup idmap a p).
Proof.
  apply growing_bind; [apply growing_load|]. intros q. apply growing_local. intros b s r s'. apply lookup_grows_law.
Qed.
Lemma growing_mkdir idmap dir d mode : growing (smoothfs_compat_mkdir version idmap dir d mode).
Proof.
  apply growing_bind.
  - destruct (since_619 version); intros s r s'; [apply mkdir_619_grows_law|apply mkdir_grows_law].
  - intros [e|[n|]]; [|apply growing_ret..]. apply growing_bind; [|intros; apply growing_ret].
    destruct (since_619 version); [apply growing_ret|apply growing_unlock].
Qed.
Lemma growing_iget m d : growing (iget m d).
Proof. intros s r s'. apply iget_grows. Qed.
Lemma growing_track i : growing (track_pinned i).
Proof. intros s r s'. apply track_grows. Qed.
Create HintDb growing.
Hint Resolve growing_ret growing_fs growing_get growing_put growing_path_put growing_lock growing_unlock growing_override
  growing_revert growing_load growing_dir_inode growing_lookup growing_mkdir growing_iget growing_track : growing.



(** *** New names *)

(** [outside], except that the dentry may have got another lower dentry. *)
Definition settled (dentry : Z) s0 (R : gmultiset obj) s : Prop :=
  exists o : option (option Z), outside (s0 <| k_fsdata := match o with
    | Some (Some l) => <[dentry := l]> (k_fsdata s0)
    | Some None => delete dentry (k_fsdata s0)
    | None => k_fsdata s0 end |>) R s.

Lemma outside_settled dentry s0 R s : outside s0 R s -> settled dentry s0 R s.
Proof. intros [H1 H2 H3 H4 H5 HP]. exists None. by split. Qed.


Lemma settled_put dentry s0 R R' s d (Q : unit -> kstate W -> Prop) : settled dentry s0 R s -> R = R' ⊎ path_refs d ->
  (forall s', settled dentry s0 R' s' -> Q tt s') -> wp (path_put (Some d)) Q s.
Proof. intros [o H] -> HQ. eapply wp_path_put; [exact H|]. intros s' _ H'. apply HQ. by exists o. Qed.

Lemma inside_op {A} s0 p i R s (m : K W A) : inside s0 p i R s -> in_locked_dir i m ->
  wp m (fun _ s' => inside s0 p i R s') s.
Proof.
  intros Hin Hm. eapply wp_mono; [apply Hm; rewrite (in_locks _ _ _ _ _ Hin); set_solver|].
  intros a s' (C & HL & HR & _ & HM & _). pose proof (inside_calm _ _ _ _ _ _ Hin C HM HL) as H.
  by rewrite HR, (in_refs _ _ _ _ _ Hin) in H.
Qed.

Lemma outside_dput s0 R R' s d (Q : unit -> kstate W -> Prop) : outside s0 R s -> R = R' ⊎ {[+ Dent d +]} ->
  (forall s', outside s0 R' s' -> Q tt s') -> wp (dput d) Q s.
Proof. intros [H1 H2 H3 H4 H5 HP] -> HQ. kstep. apply HQ. split; try done. cbn. rewrite H5. apply put_again. Qed.

(** Bookkeeping that touches nothing the call holds. *)
Definition quiet (track : Z -> K W Z) : Prop := forall ino s0 R s, outside s0 R s ->
  wp (track ino) (fun _ s' => outside s0 R s') s.
Lemma quiet_track : quiet track_plain.
Proof.
  intros ino s0 R s [H1 H2 H3 H4 H5 HP]. eapply wp_mono; [apply track_plain_law|].
  intros err s' ((C1 & C2 & _ & CP) & HL & HM & HR). frame.
Qed.
Lemma quiet_none : quiet (fun _ => mret 0).
Proof. intros ino s0 R s H. by kstep. Qed.

Lemma adopt_spec dentry mnt lower track s0 R s : quiet track -> outside s0 (R ⊎ {[+ Dent lower +]}) s ->
  wp (adopt dentry mnt lower track) (fun _ s' => settled dentry s0 R s') s.
Proof.
  intros Ht [H1 H2 H3 H4 H5 HP]. unfold adopt. kstep. kstep.
  eapply wp_bind_law; [apply iget_law|]. cbn. intros r s1 ((C1 & C2 & _ & CP) & HL & HM & HR).
  kstep. apply (wp_path_put s0 (mnt, lower) (match r with Ok i => R ⊎ {[+ Ino i +]} | Err _ => R end)).
  { cbn in *. frame. destruct r as [e|ino]; [destruct HR as [HR _]|]; rewrite HR, H5;
      unfold path_refs; cbn [fst snd]; clear; multiset_solver. }
  intros s2 _ H6. destruct r as [e|ino]; [kstep; by apply outside_settled|].
  eapply wp_bind_law; [by apply Ht|]. intros err s3 [G1 G2 G3 G4 G5 GP]. destruct (err =? 0).
  - kstep. unfold set_lower_dentry at 1, wp at 1. kstep. kstep. kstep. exists (Some (Some lower)).
    frame. rewrite G5. apply put_again.
  - kstep. kstep. kstep. exists None. frame. rewrite G5. apply put_again.
Qed.

Lemma make_held_spec dentry p mnt make i q s : d_inode (k_fs s) p = Some i -> i ∉ k_locks s ->
  k_mem s !! d_name dentry = Some q -> (forall l, in_locked_dir i (make i l)) ->
  wp (make_held dentry p mnt make) (fun _ s' => settled dentry s (k_refs s) s') s.
Proof.
  intros Hp Hi Hq Hm. unfold make_held. eapply (lock_and_lookup _ _ _ _ _ i); [exact Hp|exact Hi|exact Hq|].
  intros r s1 H1 _. destruct r as [e|lower].
  { kstep. eapply wp_unlock_dir; [exact H1|done|]. intros s2 _ H2. kstep. by apply outside_settled. }
  kstep. apply (wp_dir_inode _ i); [apply (in_inode _ _ _ _ _ H1)|].
  eapply wp_bind_law; [exact (inside_op _ _ _ _ _ _ H1 (Hm lower))|]. intros err s2 H2.
  kstep. eapply wp_unlock_dir; [exact H2|done|]. intros s3 _ H3. destruct (err =? 0); cbn [negb].
  - apply adopt_spec; [apply quiet_none|exact H3].
  - kstep. eapply outside_dput; [exact H3|done|]. intros s4 H4. kstep. by apply outside_settled.
Qed.

Lemma link_spec lower_old p dentry i q s : d_inode (k_fs s) p = Some i -> i ∉ k_locks s ->
  k_mem s !! d_name dentry = Some q ->
  wp (link_held (Some lower_old) (Some p) dentry) (fun _ s' => settled dentry s (k_refs s) s') s.
Proof.
  intros Hp Hi Hq. unfold link_held. kstep. kstep. destruct (negb _); [kstep; apply outside_settled; by split|].
  eapply (lock_and_lookup _ _ _ _ _ i); [exact Hp|exact Hi|exact Hq|].
  intros r s1 H1 _. destruct r as [e|lower].
  { kstep. eapply wp_unlock_dir; [exact H1|done|]. intros s2 _ H2. kstep. by apply outside_settled. }
  kstep. apply (wp_dir_inode _ i); [apply (in_inode _ _ _ _ _ H1)|].
  eapply wp_bind_law; [eapply inside_op; [exact H1|apply link_law]|]. intros err s2 H2.
  kstep. eapply wp_unlock_dir; [exact H2|done|]. intros s3 _ H3. destruct (err =? 0); cbn [negb].
  - kstep. unfold set_lower_dentry at 1, wp at 1. destruct H3 as [G1 G2 G3 G4 G5 GP]. kstep. kstep. kstep.
    exists (Some (Some lower)). frame. rewrite G5. apply put_again.
  - kstep. eapply outside_dput; [exact H3|done|]. intros s4 H4. kstep. by apply outside_settled.
Qed.

(** The parent on a tier is reached or nothing is kept. *)
Lemma tier_parent_spec idmap own comps t s : k_locks s = ∅ ->
  is_Some (d_inode (k_fs s) (default own t).2) ->
  wp (tier_parent version creator_cred idmap own comps t) (fun r s' =>
    outside s (match r with Ok p => k_refs s ⊎ path_refs p | Err _ => k_refs s end) s'
    /\ match r with Ok p => is_Some (d_inode (k_fs s') p.2) | Err _ => True end) s.
Proof.
  intros HL [i Hi]. destruct t as [root|]; cbn in *.
  - unfold smoothfs_materialize_parent, path_get. kstep. kstep. kstep. kstep.
    eapply wp_mono; [apply (materialize_spec _ _ _ i (k_refs s)); [exact HL|exact Hi|]|].
    { cbn. unfold path_refs. clear. multiset_solver. }
    intros r s' [[H1 H2 H3 H4 H5 HP] H]. split; [|exact H]. by split.
  - unfold path_get. kstep. kstep. kstep. kstep. kstep. split; [|by exists i]. split; try done. cbn.
    unfold path_refs. clear. multiset_solver.
Qed.

(** An operation under the mounter's credentials in a locked directory. *)
Lemma inside_privileged {A B} s0 p i R (m : Z -> K W A) (k : A -> K W B) (Q : B -> kstate W -> Prop) P s :
  inside s0 p i R s ->
  (forall s1, k_fs s1 = k_fs s -> inside (s0 <| k_cred := creator_cred |>) p i R s1 -> wp (m i) P s1) ->
  (forall a s1, P a s1 -> wp (k a) Q (s1 <| k_cred := k_cred s0 |>)) ->
  wp (old ← override_creds creator_cred; j ← dir_inode p; a ← m j; revert_creds old ;; k a) Q s.
Proof.
  intros [H1 H2 H3 H4 H5 H6 HP] Hm Hk. kstep. kstep. kstep. apply (wp_dir_inode _ i); [done|].
  eapply wp_bind_law; [apply Hm; [done|by split]|]. intros a s1 H. kstep. kstep. rewrite H1. by apply Hk.
Qed.

Lemma create_law_any idmap p i R s0 s d mode excl : inside s0 p i R s -> d_parent (k_fs s) d = p ->
  wp (smoothfs_compat_create version idmap i d mode excl) (fun _ s' => inside s0 p i R s') s.
Proof.
  intros Hin Hd. unfold smoothfs_compat_create. destruct (since_619 version).
  - eapply wp_mono; [eapply create_619_law; [rewrite Hd; apply (in_inode _ _ _ _ _ Hin)|rewrite (in_locks _ _ _ _ _ Hin); set_solver]|].
    intros a s' (C & HL & HR & _ & HM & _). pose proof (inside_calm _ _ _ _ _ _ Hin C HM HL) as H.
    by rewrite HR, (in_refs _ _ _ _ _ Hin) in H.
  - eapply inside_op; [exact Hin|apply create_law].
Qed.

(** One attempt on a tier puts the parent path it was given. *)
Definition attempt_ok (dentry : Z) (attempt : Z * Z -> K W (Z * bool)) : Prop := forall p R s,
  is_Some (d_inode (k_fs s) p.2) -> k_locks s = ∅ -> is_Some (k_mem s !! d_name dentry) ->
  k_refs s = R ⊎ path_refs p ->
  wp (attempt p) (fun r s' => settled dentry s R s' /\ (r.2 = true -> outside s R s')) s.

Lemma adopt_and_put dentry (p : Z * Z) lower s0 R s : outside s0 (R ⊎ path_refs p ⊎ {[+ Dent lower +]}) s ->
  wp (err ← adopt dentry p.1 lower track_plain; path_put (Some p) ;; mret (err, false))
    (fun (r : Z * bool) s' => settled dentry s0 R s' /\ (r.2 = true -> outside s0 R s')) s.
Proof.
  intros H. eapply wp_bind_law; [apply adopt_spec; [apply quiet_track|exact H]|]. intros err s1 H1.
  kstep. eapply settled_put; [exact H1|done|]. intros s2 H2. by kstep.
Qed.

Lemma put_and_stop dentry p s0 R s (e : Z) (again : bool) : outside s0 (R ⊎ path_refs p) s ->
  wp (path_put (Some p) ;; mret (e, again))
    (fun (r : Z * bool) s' => settled dentry s0 R s' /\ (r.2 = true -> outside s0 R s')) s.
Proof.
  intros H. kstep. eapply wp_path_put; [exact H|]. intros s1 _ H1. kstep. split; [by apply outside_settled|done].
Qed.

Lemma create_on_ok idmap dentry mode excl : attempt_ok dentry (create_on version creator_cred idmap dentry mode excl).
Proof.
  intros p R s [i Hi] HL [q Hq] HR. unfold create_on.
  eapply (lock_and_lookup _ _ _ _ _ i); [exact Hi|rewrite HL; set_solver|exact Hq|].
  intros r s1 H1 Hd. rewrite HR in H1. destruct r as [e|lower].
  { kstep. eapply wp_unlock_dir; [exact H1|rewrite HL; set_solver|]. intros s2 _ H2. by apply put_and_stop. }
  eapply inside_privileged; [exact H1| |].
  { intros s2 Hf H2. apply create_law_any; [exact H2|by rewrite Hf]. }
  intros err s2 H2. kstep.
  eapply (wp_unlock_dir s p.2 i (R ⊎ path_refs p ⊎ {[+ Dent lower +]})).
  { destruct H2. by split. } { rewrite HL; set_solver. }
  intros s3 _ H3. destruct (err =? 0); cbn [negb]; [by apply adopt_and_put|].
  kstep. eapply outside_dput; [exact H3|done|]. intros s4 H4. by apply put_and_stop.
Qed.

Lemma mkdir_on_ok idmap dentry mode : attempt_ok dentry (mkdir_on version creator_cred idmap dentry mode).
Proof.
  intros p R s [i Hi] HL [q Hq] HR. unfold mkdir_on. assert (i ∉ k_locks s) as Hl by (rewrite HL; set_solver).
  eapply (lock_and_lookup _ _ _ _ _ i); [exact Hi|exact Hl|exact Hq|].
  intros r s1 H1 Hd. rewrite HR in H1. destruct r as [e|lower].
  { kstep. eapply wp_unlock_dir; [exact H1|exact Hl|]. intros s2 _ H2. by apply put_and_stop. }
  eapply (inside_privileged _ _ _ _ (fun i => smoothfs_compat_mkdir version idmap i lower mode)); [exact H1| |].
  { intros s2 Hf H2. exact (inside_mkdir _ _ _ _ _ _ _ _ H2 Hl). }
  intros r s2 H2. destruct r as [e|n].
  - apply put_and_stop. destruct H2 as [[] _]. by split.
  - kstep. eapply (wp_unlock_dir s p.2 i (R ⊎ path_refs p ⊎ {[+ Dent n +]})); [destruct H2; by split|exact Hl|].
    intros s3 _ H3. by apply adopt_and_put.
Qed.

(** A tier's root, or the directory's own lower path, is referred to and a directory. *)
Definition root_ok (own : Z * Z) s (t : option (Z * Z)) : Prop :=
  d_pinned (k_fs s) (default own t).2 = true /\ is_Some (d_inode (k_fs s) (default own t).2).
Lemma root_ok_pins own s s' t : pins (k_fs s) (k_fs s') -> root_ok own s t -> root_ok own s' t.
Proof. intros HP [H1 [i Hi]]. destruct (HP _ H1) as [H2 H3]. split; [done|]. exists i. by apply H3. Qed.

(** The loop over the tiers, whatever fails on which of them. *)
Lemma on_tiers_spec idmap own comps dentry attempt tiers : attempt_ok dentry attempt ->
  forall err s, k_locks s = ∅ -> is_Some (k_mem s !! d_name dentry) ->
  (forall t, t ∈ tiers -> root_ok own s t) ->
  wp (on_tiers version creator_cred idmap own comps attempt tiers err) (fun _ s' => settled dentry s (k_refs s) s') s.
Proof.
  intros Ha. induction tiers as [|t tiers IH]; intros err s HL Hq Hroots; cbn [on_tiers].
  { kstep. apply outside_settled. by split. }
  assert (forall err s1, outside s (k_refs s) s1 ->
    wp (on_tiers version creator_cred idmap own comps attempt tiers err) (fun _ s' => settled dentry s (k_refs s) s') s1) as Hnext.
  { intros e s1 [H1 H2 H3 H4 H5 HP]. eapply wp_mono; [apply IH; [by rewrite H4|by rewrite H3|]|].
    { intros u Hu. apply (root_ok_pins own s); [exact HP|]. apply Hroots. by right. }
    intros u s' [o [G1 G2 G3 G4 G5 GP]]. exists o. frame. by rewrite G2, H2. }
  eapply wp_bind_law; [apply tier_parent_spec; [done|apply (Hroots t); by left]|]. intros r s1 [H1 Hp].
  destruct r as [e|p].
  - destruct (e =? - ENOSPC); [by apply Hnext|]. kstep. by apply outside_settled.
  - pose proof H1 as [G1 G2 G3 G4 G5 GP]. eapply wp_bind_law.
    { apply (Ha p (k_refs s)); [exact Hp|by rewrite G4|by rewrite G3|exact G5]. }
    intros [e again] s2 [H2 H3]. destruct again.
    + apply Hnext. by eapply outside_trans; [exact H1|apply H3].
    + kstep. destruct H2 as [o [A1 A2 A3 A4 A5 AP]]. exists o. frame. by rewrite A2, G2.
Qed.

(** *** Removal *)



Lemma mknod_entry_ok idmap dir d mode dev : in_locked_dir dir (smoothfs_compat_mknod version idmap dir d mode dev).
Proof. unfold smoothfs_compat_mknod. destruct (since_619 version); [apply mknod_619_law|apply mknod_law]. Qed.
Lemma symlink_entry_ok idmap dir d t : in_locked_dir dir (smoothfs_compat_symlink version idmap dir d t).
Proof. unfold smoothfs_compat_symlink. destruct (since_619 version); [apply symlink_619_law|apply symlink_law]. Qed.



(** *** Sidecar files *)

Lemma range_unlink_spec parent name i s : d_inode (k_fs s) parent = Some i -> i ∉ k_locks s ->
  wp (range_unlink_held parent name) (fun _ s' => same s s') s.
Proof.
  intros Hp Hi. unfold range_unlink_held. apply wp_local. intros a Ha.
  set (s1 := s <| k_mem := <[a := QSTR_INIT name]> (k_mem s) |>).
  assert (forall s', outside s1 (k_refs s) s' -> same s (s' <| k_mem := delete a (k_mem s') |>)) as Hend.
  { intros s' H. apply outside_same. by eapply outside_local. }
  eapply (lock_and_lookup _ _ _ _ _ i); [exact Hp|exact Hi|cbn; by rewrite lookup_insert_eq|].
  intros r s2 H2 _. destruct r as [e|child].
  { kstep. eapply wp_unlock_dir; [exact H2|exact Hi|]. intros s3 _ H3. kstep. exact (Hend _ H3). }
  kstep. kstep. eapply (wp_bind_law _ _ (fun _ s' => inside s1 parent i (k_refs s ⊎ {[+ Dent child +]}) s')).
  { destruct (d_really_is_negative _ _); [by kstep|]. kstep. apply (wp_dir_inode _ i); [apply (in_inode _ _ _ _ _ H2)|].
    eapply wp_bind_law; [eapply inside_op; [exact H2|apply unlink_law]|]. intros err s3 H3. by kstep. }
  intros err s3 H3. kstep. eapply inside_dput; [exact H3|done|]. intros s4 _ H4.
  kstep. eapply wp_unlock_dir; [exact H4|exact Hi|]. intros s5 _ H5. kstep. exact (Hend _ H5).
Qed.

Lemma rename_meta_out_spec dir i old new err s0 R s : inside s0 dir.2 i (R ⊎ path_refs dir ⊎ opt_ref old ⊎ opt_ref new) s ->
  i ∉ k_locks s0 -> wp (rename_meta_out dir old new err) (fun _ s' => outside s0 R s') s.
Proof.
  intros Hin Hi. unfold rename_meta_out.
  assert (forall o R' s1 (Q : unit -> kstate W -> Prop), inside s0 dir.2 i (R' ⊎ opt_ref o) s1 ->
    (forall s2, inside s0 dir.2 i R' s2 -> Q tt s2) -> wp (dput_opt o) Q s1) as Hput.
  { intros [d|] R' s1 Q H HQ; cbn in *.
    - eapply inside_dput; [exact H|done|]. intros s2 _ H2. by apply HQ.
    - kstep. apply HQ. by rewrite (right_id_L ∅ (⊎) R') in H. }
  kstep. eapply Hput; [exact Hin|]. intros s1 H1. kstep. eapply Hput; [exact H1|]. intros s2 H2.
  kstep. eapply wp_unlock_dir; [exact H2|exact Hi|]. intros s3 _ H3. kstep. eapply wp_path_put; [exact H3|].
  intros s4 _ H4. by kstep.
Qed.

(** The rename of a sidecar into place puts the directory it was given. *)
Lemma range_rename_spec dir tmp final i R s : d_inode (k_fs s) dir.2 = Some i -> i ∉ k_locks s ->
  k_refs s = R ⊎ path_refs dir ->
  wp (range_rename_held dir tmp final) (fun _ s' => outside s R s') s.
Proof.
  intros Hp Hi HR. unfold range_rename_held. apply wp_local. intros a Ha. apply wp_local. cbn. intros b Hb.
  set (s1 := s <| k_mem := <[b := QSTR_INIT final]> (<[a := QSTR_INIT tmp]> (k_mem s)) |>).
  assert (a <> b) as Hab by (intros ->; by rewrite lookup_insert_eq in Hb).
  assert (forall s', outside s1 R s' -> outside s R (s' <| k_mem := delete a (delete b (k_mem s')) |>)) as Hend.
  { intros s' [H1 H2 H3 H4 H5 HP]. frame. rewrite H3, delete_insert_id by done. by rewrite delete_insert_id. }
  eapply wp_mono; [|intros u s' H; exact (Hend s' H)].
  eapply (lock_and_lookup _ _ _ _ _ i _ s1); [exact Hp|exact Hi|cbn; by rewrite lookup_insert_ne, lookup_insert_eq|].
  intros r s2 H2 _. change (k_refs s1) with (k_refs s) in H2. rewrite HR in H2. destruct r as [e|old].
  { eapply rename_meta_out_spec; [|exact Hi]. cbn. by rewrite !(right_id_L ∅ (⊎)). }
  kstep. kstep. destruct (d_really_is_negative _ _).
  { eapply rename_meta_out_spec; [|exact Hi]. cbn. rewrite (right_id_L ∅ (⊎)). exact H2. }
  eapply wp_bind_law; [eapply inside_lookup; [exact H2|cbn; by rewrite lookup_insert_eq]|]. intros r s3 [H3 _].
  destruct r as [e|new].
  { eapply rename_meta_out_spec; [|exact Hi]. cbn. rewrite (right_id_L ∅ (⊎)). exact H3. }
  eapply (wp_bind_law _ _ (fun _ s' => inside s1 dir.2 i (R ⊎ path_refs dir ⊎ {[+ Dent old +]} ⊎ {[+ Dent new +]}) s')).
  { pose proof H3 as [A1 A2 A3 A4 A5 A6 AP].
    eapply wp_mono; [eapply (rename_law _ dir.2 dir.2 i i); try done; rewrite A4; set_solver|].
    intros err s4 (C & HL & HR4 & _ & HM & _). pose proof (inside_calm _ _ _ _ _ _ H3 C HM HL) as H4.
    by rewrite HR4, A5 in H4. }
  intros err s4 H4. by eapply rename_meta_out_spec.
Qed.

(** *** Names on one tier *)

(** A lookup of a parent directory: a path with its references, or an error.  It
    removes nothing, so a dentry that has an inode keeps it. *)
Definition resolves (m : K W (result (Z * Z))) : Prop := forall s,
  wp m (fun r s' => outside s (match r with Ok p => k_refs s ⊎ path_refs p | Err _ => k_refs s end) s'
                    /\ forall d i, d_inode (k_fs s) d = Some i -> d_inode (k_fs s') d = Some i) s.

Lemma remove_in_spec parent name fits misfit remove i R s : d_inode (k_fs s) parent.2 = Some i -> i ∉ k_locks s ->
  k_refs s = R ⊎ path_refs parent -> (forall dir rm, in_locked_dir dir (remove dir rm)) ->
  wp (remove_in parent name fits misfit remove) (fun _ s' => outside s R s') s.
Proof.
  intros Hp Hi HR Hrm. unfold remove_in. apply wp_local. intros a Ha.
  set (s1 := s <| k_mem := <[a := QSTR_INIT name]> (k_mem s) |>).
  eapply (lock_and_lookup _ _ _ _ _ i); [exact Hp|exact Hi|cbn; by rewrite lookup_insert_eq|].
  intros r s2 H2 _. change (k_refs s1) with (k_refs s) in H2. rewrite HR in H2.
  eapply (wp_bind_law _ _ (fun _ s' => inside s1 parent.2 i (R ⊎ path_refs parent) s')).
  { destruct r as [e|lower]; [by kstep|]. kstep. kstep. destruct (d_really_is_negative _ _).
    { kstep. eapply inside_dput; [exact H2|done|]. intros s3 _ H3. by kstep. }
    destruct (negb _).
    { kstep. eapply inside_dput; [exact H2|done|]. intros s3 _ H3. by kstep. }
    kstep. apply (wp_dir_inode _ i); [apply (in_inode _ _ _ _ _ H2)|].
    eapply wp_bind_law; [exact (inside_op _ _ _ _ _ _ H2 (Hrm i lower))|]. intros err s3 H3.
    kstep. eapply inside_dput; [exact H3|done|]. intros s4 _ H4. by kstep. }
  intros err s3 H3. kstep. eapply wp_unlock_dir; [exact H3|exact Hi|]. intros s4 _ H4.
  kstep. eapply wp_path_put; [exact H4|]. intros s5 _ H5. kstep. by apply (outside_local s a (QSTR_INIT name)).
Qed.

(** The removals and the rename on one tier, called with no lower lock held, give
    back all they take.  The parent that an unlink resolves must be positive: the
    function locks its inode without the check that the other two make. *)
Lemma unlink_rel_balanced r1 n1 s : k_locks s = ∅ -> resolves r1 ->
  (forall p s1, r1 s = Some (Ok p, s1) -> is_Some (d_inode (k_fs s1) p.2)) ->
  wp (unlink_rel_held r1 n1) (fun _ s' => outside s (k_refs s) s') s.
Proof.
  intros HL R1 Hpos. unfold unlink_rel_held.
  specialize (R1 s). unfold wp in R1. unfold wp, mbind, K_bind. destruct (r1 s) as [[r s1]|]; [|done].
  destruct R1 as [H1 _]. destruct r as [e|p]; [by cbn|]. destruct (Hpos p s1 eq_refl) as [i Hi].
  eapply (wp_mono (remove_in p n1 d_is_reg (- EISDIR) (vfs_unlink nop_mnt_idmap))).
  { eapply remove_in_spec; [exact Hi|rewrite (out_locks _ _ _ H1), HL; set_solver|apply (out_refs _ _ _ H1)|].
    intros dir rm. apply unlink_law. }
  intros e s2 H2. by eapply outside_trans.
Qed.



(** *** Rename *)

Lemma over_outside l s s' : over l s s' -> outside (s <| k_mem := k_mem s' |>) (k_refs s) s'.
Proof. intros ((C1 & C2 & _ & CP) & HM & HL & HR). frame. Qed.

Lemma outside_dput_opt s0 R s o (Q : unit -> kstate W -> Prop) : outside s0 (R ⊎ opt_ref o) s ->
  (forall s', outside s0 R s' -> Q tt s') -> wp (dput_opt o) Q s.
Proof.
  intros H HQ. destruct o as [d|]; cbn in *.
  - by eapply outside_dput.
  - kstep. apply HQ. by rewrite (right_id_L ∅ (⊎) R) in H.
Qed.

Definition opt_path (p : option (Z * Z)) : gmultiset obj := match p with Some p => path_refs p | None => ∅ end.
Lemma outside_path_put s0 R s p (Q : unit -> kstate W -> Prop) : outside s0 (R ⊎ opt_path p) s ->
  (forall s', outside s0 R s' -> Q tt s') -> wp (path_put p) Q s.
Proof.
  intros H HQ. destruct p as [p|]; cbn in *.
  - eapply wp_path_put; [exact H|]. intros s' _ H'. by apply HQ.
  - unfold path_put. kstep. apply HQ. by rewrite (right_id_L ∅ (⊎) R) in H.
Qed.

(** What a rename leaves when no stale target is held: everything it took is put
    and nothing stays locked; the name of the target may have been hashed anew
    on 6.19. *)
Definition rename_left (new_dentry old_dentry : Z) (R : gmultiset obj) s0 s : Prop :=
  k_locks s = k_locks s0 /\ k_refs s = R /\ k_cred s = k_cred s0
  /\ (forall a, a <> d_name new_dentry -> k_mem s !! a = k_mem s0 !! a)
  /\ (forall d, d <> new_dentry -> d <> old_dentry -> k_fsdata s !! d = k_fsdata s0 !! d).

(** The extra reference to a target that is already known. *)
Lemma get_known (n : option Z) s :
  wp (match n with Some n => dget n | None => mret tt end) (fun _ s' => s' = s <| k_refs := k_refs s ⊎ opt_ref n |>) s.
Proof. destruct n as [n|]; [done|]. kstep. destruct s. cbn. by rewrite (right_id_L ∅ (⊎)). Qed.

(** After the lower rename: what is left of the references, and of [over]. *)
Lemma over_left l new old s0 s1 s : over l s1 s -> k_locks s1 = k_locks s0 -> k_cred s1 = k_cred s0 -> k_mem s1 = k_mem s0 ->
  k_fsdata s1 = k_fsdata s0 -> (forall a, a ∈ l -> a = d_name new) -> rename_left new old (k_refs s1) s0 s.
Proof.
  intros ((C1 & C2 & _) & HM & HL & HR) E1 E2 E3 E4 Hl. split_and!; try congruence.
  intros a Ha. rewrite <- E3. apply HM. intros Hin. by apply Ha, Hl.
Qed.

Lemma scratch_name lower_new new a : a ∈ start_scratch version lower_new (d_name new) -> a = d_name new.
Proof.
  unfold start_scratch. destruct lower_new; [by intros ?%elem_of_nil|]. destruct (since_619 version); [|by intros ?%elem_of_nil].
  by intros ?%list_elem_of_singleton.
Qed.

Lemma left_dput_opt new old R s0 s o (Q : unit -> kstate W -> Prop) : rename_left new old (R ⊎ opt_ref o) s0 s ->
  (forall s', rename_left new old R s0 s' -> Q tt s') -> wp (dput_opt o) Q s.
Proof.
  intros (HL & HR & HC & HM & HF) HQ. destruct o as [d|]; cbn in *.
  - kstep. apply HQ. split_and!; try done. cbn. rewrite HR. apply put_again.
  - kstep. apply HQ. split_and!; try done. by rewrite HR, (right_id_L ∅ (⊎) R).
Qed.
Lemma left_path_put new old R s0 s p (Q : unit -> kstate W -> Prop) : rename_left new old (R ⊎ opt_path p) s0 s ->
  (forall s', rename_left new old R s0 s' -> Q tt s') -> wp (path_put p) Q s.
Proof.
  intros (HL & HR & HC & HM & HF) HQ. destruct p as [[m d]|]; unfold path_put; cbn in *.
  - unfold path_refs in HR. cbn [fst snd] in HR. kstep. kstep. kstep. apply HQ. split_and!; try done. cbn. rewrite HR.
    clear. multiset_solver.
  - kstep. apply HQ. split_and!; try done. by rewrite HR, (right_id_L ∅ (⊎) R).
Qed.



(** A stale target, when the rename cannot be started: the reference to it is
    still held when the call has returned. *)
Lemma rename_leaks_stale idmap old new lower_old lower_new p q flags stale mat after ip iq nm R s :
  parents_free (d_parent (k_fs s) lower_old) q ip iq s -> k_mem s !! d_name new = Some nm ->
  k_refs s = (R ⊎ {[+ Dent stale +]} ⊎ opt_path mat) ->
  (forall s1 r s2, k_fs s1 = k_fs s -> start_rename version (rd_zero <| rd_mnt_idmap := idmap |> <| rd_old_parent := Some p |>
      <| rd_new_parent := Some q |> <| rd_flags := flags |>) lower_old lower_new (d_name new) s1 = Some (r, s2) -> r.1 <> 0) ->
  wp (rename_move version idmap old new flags (Some lower_old) (RenameAt lower_new p q (Some stale) mat) after)
    (fun err s' => err <> 0 /\ rename_left new old (R ⊎ {[+ Dent stale +]}) s s') s.
Proof.
  intros F Hn HR Hfail. unfold rename_move. cbn [ra_lower_new ra_old_parent ra_new_parent ra_stale ra_mat].
  set (rd := rd_zero <| rd_mnt_idmap := _ |> <| rd_old_parent := _ |> <| rd_new_parent := _ |> <| rd_flags := _ |>) in *.
  set (s1 := s <| k_refs := k_refs s ⊎ opt_ref lower_new |>). cbn zeta.
  eapply wp_bind_law; [apply get_known|]. intros [] s' ->. fold s1.
  pose proof (rename_start_spec version rd lower_old lower_new (d_name new) q ip iq nm s1 F eq_refl Hn) as Hs.
  unfold wp in Hs. kstep. unfold wp at 1. destruct (start_rename _ _ _ _ _ s1) as [[r s2]|] eqn:Er; [|done].
  pose proof (Hfail s1 r s2 eq_refl Er) as E. destruct r as [err rd']. cbn [fst snd] in *. destruct Hs as [_ H1].
  destruct (Z.eqb_spec err 0) as [|_]; cbn [negb]; [done|]. pose proof (over_left _ new old s s1 s2 (H1 E) eq_refl eq_refl eq_refl eq_refl (scratch_name _ _)) as Hl.
  cbn in Hl. rewrite HR in Hl. kstep. eapply left_dput_opt; [exact Hl|]. intros s3 H3. kstep.
  eapply left_path_put; [exact H3|]. intros s4 H4. by kstep.
Qed.

(** *** The choice of the parents *)










(** *** Credentials *)
Lemma privileged_spec {A} (m : K W A) Q s :
  wp m (fun a s' => Q a (s' <| k_cred := k_cred s |>)) (s <| k_cred := creator_cred |>) ->
  wp (privileged creator_cred m) Q s.
Proof. intros H. unfold privileged. kstep. kstep. eapply wp_bind_law; [exact H|]. intros a s' H'. kstep. kstep. by kstep. Qed.

(** *** The placement directory *)

(** Unlocking a directory that [smoothfs_compat_mkdir] has unlocked already. *)
Lemma unlock_twice s0 p i R s : outside s0 R s -> i ∉ k_locks s0 ->
  d_inode (k_fs s) p = Some i -> unlock_dir p s = None.
Proof.
  intros [H1 H2 H3 H4 H5 HP] Hi Hp. unfold unlock_dir, dir_inode, mbind, K_bind, fs_get.
  rewrite Hp. cbn. unfold inode_unlock. rewrite H4. by rewrite decide_False.
Qed.

(** What the mkdir of [smoothfs_placement_ensure_dir] returns in a run, when it is
    reached; [name] is the address of the local name. *)
Definition ensure_mkdir (parent name : Z) : K W (option (result Z)) :=
  lock_dir parent ;;
  dir ← smoothfs_compat_lookup nop_mnt_idmap name parent;
  match dir with
  | Err _ => mret None
  | Ok dir =>
      w ← fs_get;
      if d_really_is_negative w dir
      then i ← dir_inode parent; r ← smoothfs_compat_mkdir version nop_mnt_idmap i dir 448; mret (Some r)
      else mret None
  end.

(** A call of known result in front of the rest. *)
Lemma run_bind {A B} (m : K W A) (k : A -> K W B) a s s' : m s = Some (a, s') -> (m ≫= k) s = k a s'.
Proof. unfold mbind, K_bind. by intros ->. Qed.
Lemma wp_run {A} (m : K W A) Q s : wp m Q s -> exists a s', m s = Some (a, s') /\ Q a s'.
Proof. unfold wp. destruct (m s) as [[a s']|]; [|done]. eauto. Qed.

(** The body of the function, once the name is there. *)
Lemma ensure_body_cases parent i a q s : d_inode (k_fs s) parent = Some i -> i ∉ k_locks s -> k_mem s !! a = Some q ->
  forall body, body = (lock_dir parent ;;
    dir ← smoothfs_compat_lookup nop_mnt_idmap a parent;
    match dir with
    | Err e => unlock_dir parent ;; mret e
    | Ok dir =>
        w ← fs_get;
        if d_really_is_negative w dir then
          i ← dir_inode parent;
          new_dir ← smoothfs_compat_mkdir version nop_mnt_idmap i dir 448;
          match new_dir with
          | Err e => unlock_dir parent ;; mret e
          | Ok dir => dput dir ;; unlock_dir parent ;; mret 0
          end
        else dput dir ;; unlock_dir parent ;; mret 0
    end) ->
  (exists e s', body s = Some (e, s') /\ outside s (k_refs s) s'
     /\ forall e s2, ensure_mkdir parent a s <> Some (Some (Err e), s2))
  \/ (body s = None /\ exists e s2, ensure_mkdir parent a s = Some (Some (Err e), s2)).
Proof.
  intros Hp Hi Ha body ->. unfold ensure_mkdir.
  assert (forall s' d, inside s parent i (k_refs s ⊎ {[+ Dent d +]}) s' ->
    exists s3, (dput d ;; unlock_dir parent ;; mret 0) s' = Some (0, s3) /\ outside s (k_refs s) s3) as Hok.
  { intros s' d H. assert (wp (dput d ;; unlock_dir parent ;; mret 0) (fun r s' => r = 0 /\ outside s (k_refs s) s') s') as Hw.
    { kstep. eapply inside_dput; [exact H|done|]. intros s2 _ H2. kstep.
      eapply wp_unlock_dir; [exact H2|exact Hi|]. intros s3 _ H3. by kstep. }
    apply wp_run in Hw as (x & s3 & E & -> & H3). eauto. }
  assert (wp (lock_dir parent) (fun _ s' => inside s parent i (k_refs s) s') s) as Hw.
  { eapply wp_lock_dir; [exact Hp|exact Hi|]. by intros s2 _ H2. }
  apply wp_run in Hw as ([] & s1 & E1 & H1). rewrite !(run_bind _ _ _ _ _ E1).
  destruct (wp_run _ _ _ (inside_lookup nop_mnt_idmap a q _ _ _ _ _ H1 Ha)) as (r & s2 & E2 & H2 & _).
  rewrite !(run_bind _ _ _ _ _ E2). destruct r as [e|d].
  { left. assert (wp (unlock_dir parent ;; mret e) (fun _ s' => outside s (k_refs s) s') s2) as Hu.
    { kstep. eapply wp_unlock_dir; [exact H2|exact Hi|]. intros s3 _ H3. by kstep. }
    apply wp_run in Hu as (x & s3 & E & H3). by exists x, s3. }
  rewrite !(run_bind fs_get _ (k_fs s2) s2 s2) by done.
  destruct (d_really_is_negative (k_fs s2) d); [|left; destruct (Hok _ _ H2) as (s3 & E & H3); by exists 0, s3].
  assert (dir_inode parent s2 = Some (i, s2)) as E3.
  { unfold dir_inode. rewrite (run_bind fs_get _ (k_fs s2) s2 s2) by done. by rewrite (in_inode _ _ _ _ _ H2). }
  rewrite !(run_bind _ _ _ _ _ E3).
  destruct (wp_run _ _ _ (inside_mkdir nop_mnt_idmap 448 _ _ _ _ _ _ H2 Hi)) as (r & s4 & E4 & H4).
  rewrite !(run_bind _ _ _ _ _ E4). destruct r as [e|n].
  - right. destruct H4 as [H4 H5]. split; [|by exists e, s4]. unfold mbind, K_bind. by rewrite (unlock_twice _ _ _ _ _ H4 Hi H5).
  - left. destruct (Hok _ _ H4) as (s5 & E5 & H6). by exists 0, s5.
Qed.

(** The path of the stage file is the caller's to put. *)
Lemma range_open_stage_spec alloc opened s :
  wp (smoothfs_range_open_stage alloc opened) (fun r s' =>
    outside s (match r with Ok p => k_refs s ⊎ path_refs p | Err _ => k_refs s end) s') s.
Proof.
  unfold smoothfs_range_open_stage. destruct alloc; cbn [negb]; [|kstep; by split].
  destruct opened as [e|[m d]]; [kstep; by split|]. unfold path_get, path_put. cbn [fst snd].
  repeat kstep. split; try done. cbn. unfold path_refs. cbn [fst snd]. clear. multiset_solver.
Qed.

(** ** The theorems *)

(** Everything but the lower dentries of [ds] is as before. *)
Definition clean (ds : list Z) s s' : Prop :=
  k_locks s' = k_locks s /\ k_refs s' = k_refs s /\ k_cred s' = k_cred s /\ k_mem s' = k_mem s
  /\ forall d, d ∉ ds -> k_fsdata s' !! d = k_fsdata s !! d.

Lemma settled_clean dentry c s s' : settled dentry (s <| k_cred := c |>) (k_refs s) s' ->
  clean [dentry] s (s' <| k_cred := k_cred s |>).
Proof.
  intros [o [H1 H2 H3 H4 H5 HP]]. split_and!; try done. cbn in *. intros d Hd. rewrite list_elem_of_singleton in Hd.
  rewrite H2. destruct o as [[l|]|]; [by rewrite lookup_insert_ne|by rewrite lookup_delete_ne|done].
Qed.

(** An operation that settles its dentry, under the mounter's credentials. *)
Lemma privileged_clean {A} dentry (m : K W A) s :
  (forall s1, s1 = s <| k_cred := creator_cred |> -> wp m (fun _ s' => settled dentry s1 (k_refs s1) s') s1) ->
  wp (privileged creator_cred m) (fun _ s' => clean [dentry] s s') s.
Proof.
  intros H. apply privileged_spec. eapply wp_mono; [by apply H|]. intros a s' Hs. exact (settled_clean dentry creator_cred s s' Hs).
Qed.

(** C26. create and mkdir over any list of tiers (making missing parents on the
    way), mknod, symlink and link return without a kernel fault on both kernel
    interfaces, whatever the lower filesystems answer and wherever they fail: no
    lower directory stays locked or is unlocked twice, every reference taken is
    put or owned by the new dentry, the names passed keep their hashes and the
    caller's credentials are back. *)
Theorem creation_is_balanced idmap dentry mode rdev excl target lower_old lower_parent i own comps tiers q s :
  k_locks s = ∅ -> k_mem s !! d_name dentry = Some q -> d_inode (k_fs s) lower_parent = Some i ->
  (forall t, t ∈ tiers -> root_ok own s t) ->
  wp (smoothfs_create version creator_cred idmap dentry mode excl own comps tiers) (fun _ s' => clean [dentry] s s') s
  /\ wp (smoothfs_mkdir version creator_cred idmap dentry mode own comps tiers) (fun _ s' => clean [dentry] s s') s
  /\ wp (smoothfs_mknod version creator_cred idmap dentry lower_parent own.1 mode rdev) (fun _ s' => clean [dentry] s s') s
  /\ wp (smoothfs_symlink version creator_cred idmap dentry lower_parent own.1 target) (fun _ s' => clean [dentry] s s') s
  /\ wp (smoothfs_link creator_cred lower_old (Some lower_parent) dentry) (fun _ s' => clean [dentry] s s') s.
Proof.
  intros HL Hq Hi Hr. assert (i ∉ k_locks s) as Hl by (rewrite HL; apply not_elem_of_empty).
  split_and!; apply privileged_clean; intros s1 ->.
  - apply on_tiers_spec; [apply create_on_ok|done|by eexists|exact Hr].
  - apply on_tiers_spec; [apply mkdir_on_ok|done|by eexists|exact Hr].
  - eapply make_held_spec; [exact Hi|exact Hl|exact Hq|]. intros l. apply mknod_entry_ok.
  - eapply make_held_spec; [exact Hi|exact Hl|exact Hq|]. intros l. apply symlink_entry_ok.
  - destruct lower_old as [lo|]; [by eapply link_spec|]. unfold link_held. kstep. apply outside_settled. by split.
Qed.


(** C28. Making the placement directory either returns with locks, references,
    credentials and names as they were, and then the mkdir of the run did not
    fail, or it faults, and then that mkdir failed: the helper has released the
    parent's lock by then and the function releases it again. *)
Theorem ensure_dir_faults_only_on_a_failed_mkdir parent i s : d_inode (k_fs s) parent = Some i -> i ∉ k_locks s ->
  let name := fresh (dom (k_mem s)) in
  let s1 := s <| k_mem := <[name := QSTR_INIT ".smoothfs"]> (k_mem s) |> in
  match smoothfs_placement_ensure_dir version parent s with
  | Some (_, s') => same s s' /\ forall e s2, ensure_mkdir parent name s1 <> Some (Some (Err e), s2)
  | None => exists e s2, ensure_mkdir parent name s1 = Some (Some (Err e), s2)
  end.
Proof.
  intros Hp Hi name s1. assert (k_mem s !! name = None) as Hf by apply not_elem_of_dom, is_fresh.
  assert (k_mem s1 !! name = Some (QSTR_INIT ".smoothfs")) as Hn by (cbn; by rewrite lookup_insert_eq).
  unfold smoothfs_placement_ensure_dir, with_local. fold name.
  destruct (ensure_body_cases parent i name _ s1 Hp Hi Hn _ eq_refl) as [(e & s' & E & H & Hno)|[E H]].
  - replace (s <| k_mem := <[name := QSTR_INIT ".smoothfs"]> (k_mem s) |>) with s1 by done. rewrite E.
    split; [|exact Hno]. apply outside_same. by apply (outside_local s name (QSTR_INIT ".smoothfs")).
  - replace (s <| k_mem := <[name := QSTR_INIT ".smoothfs"]> (k_mem s) |>) with s1 by done. by rewrite E.
Qed.
End Balance.

(** ** A concrete world *)
Module Concrete.
Import Toy.

(** The inode cache of the table: every dentry has an inode, and tracking works. *)
#[export] Instance toy_inodes : InodeOps toy := {
  iget _ d := fun s => Some (Ok (100 + d), s <| k_refs := k_refs s ⊎ {[+ Ino (100 + d) +]} |>);
  track_pinned i := fun s => Some (0, s <| k_refs := k_refs s ∖ {[+ Ino i +]} |>);
  track_plain _ := mret 0
}.
#[export] Instance toy_inode_laws : InodeLaws toy.
Proof. split; try done; [intros m d s r s' [= _ <-]|intros i s r s' [= _ <-]]; done. Qed.

(** Directory 1 (inode 11) with the entries f (dentry 2) and g (dentry 3, absent);
    [lookup_err] and [op_err] are what lookups and changes return. *)
Definition fs0 (lookup_err op_err : Z) : toy :=
  MkToy {[1 := 11; 2 := 12]} {[2 := 1; 3 := 1]} {[(1, "f") := 2; (1, "g") := 3; (1, ".smoothfs") := 3]}%string
    [1; 3] [1; 2] lookup_err op_err (Ok None).
(** The smoothfs dentry 50 has the lower dentry 2; 51 is a new name; dentries hold
    their names at the address of their number. *)
Definition state0 (lookup_err op_err : Z) : kstate toy :=
  KState ∅ ∅ 7 {[2 := Qstr "f" 1 5; 50 := Qstr "f" 1 5; 51 := Qstr "g" 1 5]} {[50 := 2]} (fs0 lookup_err op_err).

Definition v618 : Z := KERNEL_VERSION 6 18 0.
Definition v619 : Z := KERNEL_VERSION 6 19 0.

(** The value of a call and what is left of locks and references. *)
Definition held_after {A} (r : option (A * kstate toy)) : option (A * list Z * list obj) :=
  match r with Some (a, s) => Some (a, elements (k_locks s), elements (k_refs s)) | None => None end.

End Concrete.
Import Toy Concrete.

Lemma creation_is_balanced_witness :
  k_locks (state0 0 0) = ∅ /\
  wp (smoothfs_mkdir v619 0 0 51 493 (9, 1) [] [None]) (fun _ s' => clean [51] (state0 0 0) s') (state0 0 0).
Proof.
  split; [reflexivity|].
  assert (forall t, t ∈ [None] -> root_ok (9, 1) (state0 0 0) t) as Hr.
  { intros t Ht. apply list_elem_of_singleton in Ht as ->. split; [vm_compute; reflexivity|]. exists 11. vm_compute. reflexivity. }
  assert (k_mem (state0 0 0) !! d_name 51 = Some (Qstr "g" 1 5)) as Hq by (vm_compute; reflexivity).
  assert (d_inode (k_fs (state0 0 0)) 1 = Some 11) as Hi by (vm_compute; reflexivity).
  exact (proj1 (proj2 (creation_is_balanced v619 0 0 51 493 0 false "t" (Some 2) 1 11 (9, 1) [] [None] _ (state0 0 0)
    eq_refl Hq Hi Hr))).
Defined.


Lemma ensure_dir_faults_only_on_a_failed_mkdir_witness :
  smoothfs_placement_ensure_dir v618 1 (state0 0 (- ENOSPC)) = None
  /\ exists e s2, ensure_mkdir v618 1 (fresh (dom (k_mem (state0 0 (- ENOSPC)))))
       (state0 0 (- ENOSPC) <| k_mem := <[fresh (dom (k_mem (state0 0 (- ENOSPC)))) := QSTR_INIT ".smoothfs"]>
          (k_mem (state0 0 (- ENOSPC))) |>) = Some (Some (Err e), s2).
Proof.
  assert (smoothfs_placement_ensure_dir v618 1 (state0 0 (- ENOSPC)) = None) as E by (vm_compute; reflexivity).
  split; [exact E|]. assert (d_inode (k_fs (state0 0 (- ENOSPC))) 1 = Some 11) as Hp by (vm_compute; reflexivity).
  pose proof (ensure_dir_faults_only_on_a_failed_mkdir v618 1 11 (state0 0 (- ENOSPC)) Hp (not_elem_of_empty 11)) as H.
  cbv zeta in H. rewrite E in H. exact H.
Defined.

(** ** Faults and leaks *)

(** Making the placement directory on a full filesystem: the parent is unlocked a
    second time, on either kernel; when the mkdir works nothing is left held. *)
Example failed_mkdir_unlocks_twice :
  smoothfs_placement_ensure_dir v618 1 (state0 0 (- ENOSPC)) = None
  /\ smoothfs_placement_ensure_dir v619 1 (state0 0 (- ENOSPC)) = None
  /\ held_after (smoothfs_placement_ensure_dir v618 1 (state0 0 0)) = Some (0, [], []).
Proof. by vm_compute. Qed.

(** A rename over a target on another tier, whose lower dentry 2 is held as stale,
    that cannot be started because the lookup fails: the call returns the error and
    the reference to the stale target is never put. *)
Example failed_rename_keeps_the_stale_target :
  held_after (rename_move v618 0 50 51 0 (Some 2) (RenameAt None 1 1 (Some 2) None) (mret tt)
    (state0 (- EIO) 0 <| k_refs := {[+ Dent 2 +]} |>)) = Some (- EIO, [], [Dent 2]).
Proof. by vm_compute. Qed.

(** The name of the target, kept inside the smoothfs dentry 51: hashed anew by a
    rename on 6.19, left alone on 6.18. *)
Definition name_hash (r : option (Z * kstate toy)) (a : Z) : option Z :=
  match r with Some (_, s) => q_hash <$> k_mem s !! a | None => None end.
Example rename_rehashes_the_target_name :
  name_hash (smoothfs_rename v618 0 0 52 50 52 51 0 [] None [] "f" "g" (state0 0 0)) 51 = Some 5
  /\ name_hash (smoothfs_rename v619 0 0 52 50 52 51 0 [] None [] "f" "g" (state0 0 0)) 51 = Some 7.
Proof. by vm_compute. Qed.

(** Removing a name whose lower dentry is not the one of the inode's lower path, as
    the second hard link of a file: the dentry is put with [d_fsdata] and followed
    afterwards. *)
Example second_link_is_followed_after_the_put :
  smoothfs_unlink 0 50 (state0 0 0 <| k_fs := fs0 0 0 <| t_pinned := [1] |> |>) = None
  /\ held_after (smoothfs_unlink 0 50 (state0 0 0)) = Some (0, [], []).
Proof. by vm_compute. Qed.

(** Renaming a name that has lost its lower dentry: the NULL pointer is followed. *)
Example rename_without_a_lower_dentry_faults :
  smoothfs_rename v618 0 0 52 50 52 51 0 [] None [] "f" "g" (state0 0 0 <| k_fsdata := {[52 := 1]} |>) = None.
Proof. by vm_compute. Qed.
